(* ===== verification/_CoqProject ===== *)
-Q . S2P
Prelude.v
Number.v
NodeBuffer.v
Crc.v
Vlp.v
Errno.v
Outcome.v
VlpSecure.v
Runtime.v
Transport.v
Uds.v
Udp.v
SecureUdp.v
Client.v
Panic.v
System.v
Session.v
Terminal.v
Site.v
Examples.v
Search.v
Dom.v
Toc.v
TocPage.v
Url.v
SearchPage.v
Themes.v
Sidebar.v
Menu.v
Chapters.v
Counters.v
BeatLoops.v
Snippets.v
CodeBlocks.v
NumberText.v
ChapterList.v
AgentTypes.v
TocDebug.v
SidebarPage.v
MarkFade.v
