(* ===== verification/Prelude.v ===== *)
(** * Varta: a verification library for the Node client and the project's pages

    Varta is a liveness protocol. An agent embedded in an application emits one
    fixed 32-byte VLP frame per beat; an observer on the same host (Unix-domain
    datagram socket) or across the network (UDP, or UDP sealed with
    ChaCha20-Poly1305) watches for silence. This library models the Node
    implementation of the agent, src/clients/node/src, and the scripts of the project's
    landing page and book.

    ** Parts of the program, and where they are modelled

    - [Prelude] (this file): bytes and little-endian integers, the 32-bit integer
      operators of the language, the error/state monad [M] (a throw keeps the state
      it leaves behind), the tactics and hints that run it, and shared lemmas.
    - [NodeBuffer]: the [Buffer] reads and writes the code uses, with the range
      errors of Node. Contents are lists of bytes.
    - [Crc]: CRC_TABLE and crc32c of vlp.ts, against a bit-serial register.
    - [Vlp]: vlp.ts. Status, Frame, DecodeError, coerceStatus, encodeInto,
      encode, decode.
    - [Errno]: errno.ts. The platform's error table is the class [Platform].
    - [Outcome]: outcome.ts. DropReason, BeatError, BeatOutcome, classifySendError.
    - [VlpSecure]: vlp_secure.ts. Key and salt derivation, encodeShared/Master and
      decodeShared/Master. HKDF and the AEAD are node:crypto's: the class
      [NodeCrypto], with the laws [CryptoLaws] (output lengths, and decryption as the
      inverse of encryption) and the instance [toy_crypto] that satisfies them.
    - [Runtime]: the process as the client sees it: pid, clock, entropy, buffer
      heap, sockets (with the check of the port that connect makes), the datagrams each
      socket holds, the warnings written; with the
      [keeps] combinators for what a computation leaves unchanged.
    - [Transport]: the BeatTransport interface of transport.ts as a class, and its
      contract [BeatTransportLaws], which the agent is verified against.
    - [Uds], [Udp], [SecureUdp]: the three transports, each with the callbacks the
      event loop runs on it, and each an instance of the contract.
    - [Client]: client.ts. The class Varta over any lawful transport: beat, emit,
      fork recovery, the drop window, reconnect, close, setReconnectAfter.
    - [Panic]: panic.ts. installSignalHandlerUdp/Uds/SecureUdp, the process
      listeners, run, and the emitters that build the terminal frame.
    - [System]: the static constructors of Varta over the three transports, and
      what holds of agent, transport, codec and cipher together.
    - [AgentTypes]: what the fields of an agent may hold.
    - [Session]: executions of an agent over the UDP transport with the kernel
      completing its sends ([udp_session]).
    - [Terminal]: the simulated terminal of the landing page, src/script.js.
    - [Site]: the page's other blocks (modules [Nav], [Reveal], [Clipboard],
      [Drawer]) and the theme script of the book, src/book/mermaid-init.js
      ([Theme]).
    - [Examples], [BeatLoops]: the programs under examples/. [Examples] has packPayload and
      the metrics of with_payload.ts, [BeatLoops] the five programs as clients of the library:
      their arguments, the interval callback, the signal listeners, the exit codes.
    - [Number]: the language's numbers: binary64 rounding on the rationals, String(x),
      toFixed, Math.round, parseFloat and parseInt. [NumberText]: a finite number is read
      back from its text.
    - [Counters]: the count-up animation of the landing page, src/script.js.
    - [Search], [Url], [SearchPage]: the book's search, _site/book/searcher-c2a407aa.js:
      teasers and escaping; parseURL and renderURL with the language's percent coding;
      every handler of the page, with its history and its marks. [MarkFade]: the elements of
      the marks, the fade after a click and its timers.
    - [Dom], [Toc], [TocPage]: the headings of a page in the sidebar,
      _site/book/toc-2d897c67.js. [Dom] is a store of nodes with the operations of the
      browser the script uses, [Toc] builds the tree, [TocPage] has the threshold line, the
      mark of the current heading and the listeners.
    - [TocDebug]: the debugging aid of the same script, as an overlay on [TocPage].
    - [ChapterList]: the element of the same script that holds the list of chapters, on the
      store of [Dom]. [SidebarPage]: both halves of the script on one page.
    - [Themes], [Sidebar], [Menu], [Chapters]: the blocks of _site/book/book-a0b12cfe.js
      for the themes, the sidebar, the menu bar and the keys.
    - [Snippets], [CodeBlocks]: the code blocks of the same script: the search for the crates
      a snippet declares; the show, copy, play and undo buttons, the requests to the playground
      with their timeout, the tooltips.

    An agent owns one transport and one scratch buffer. [beat] checks the status,
    recovers from a fork (the pid changed: the transport is
    reconnected before anything is sent), writes the frame into the scratch buffer
    and calls [send]; the transport copies, and for secure UDP seals, the bytes and
    hands them to a socket or to its pre-connect queue. Errors reported later by
    the event loop wait in [pendingError] for the next [send]. The panic emitters
    stand beside the agent: they open their own socket and emit one frame.

    ** How state and effects are represented

    Stateful code is a computation [M S A]: from a state to a value or a thrown
    error, with the state reached in either case. An object is a record of its
    fields, a method a computation on that record and the [World]. What the
    environment decides (faults, clock, entropy) is read from oracles in the
    world, so a theorem for every world is one for every environment; the pid is a
    field of the world, different in a forked child. Buffers that are shared, the agent's scratch
    buffer and the datagrams in flight, are locations in a heap, because Node's
    send does not copy. Executions that interleave method calls with event-loop
    callbacks are step relations ([udp_run], [secure_run], [agent_run], and the
    panic module's runs), and their invariants are proved by rule induction.

    Integers keep their width: bytes, u32 and u64 fields are [Z] with the ranges
    the code checks or the wrap-around the operators have; the nonce counter, the
    prefix index and the 64-bit beat nonce wrap or fail as in the source.

    ** What the theorems show

    - Codec: encode and decode are inverse in both directions; decode reports the
      first failing check in the order of the VLP specification; CRC-32C is the
      bit-serial CRC, and decode rejects every burst of up to four bytes and every
      change of one to five bits.
    - Secure frames: sealing and opening round-trip for shared and master keys;
      the info string of a derivation determines its use and parameters; a secure
      transport never seals twice under one (salt draw, prefix index, counter)
      slot, through exhaustion, reconnect and rejected sends.
    - Transports: each meets the contract (a rejected send hands nothing over, an
      accepted one hands over exactly one private copy, reconnect has the strong
      exception guarantee, close does not throw); queued datagrams reach the
      socket in order and unmodified.
    - Agent: a successful beat commits nonce and timestamp, and a failed one
      leaves them for the next attempt; the frames of a session are numbered
      consecutively; a child process reconnects before its first frame; a full
      window of drops reconnects; close is final. Whatever the calls are given and return or
      throw, the fields keep their types: 64-bit counters, a nonce below the reserved one, a
      whole window.
    - Panic emitters: at most one terminal frame is emitted per installation, it
      decodes to Critical with the reserved nonce, and the terminal clock is
      strictly increasing.
    - End to end: a beat on a secure agent is opened and decoded by the peer to
      the frame the caller asked for, and a forked child's first frame is sealed
      under the first slot of a salt drawn after the fork. In every execution of a UDP
      agent what the kernel took, what is in flight and what is queued are the session's
      numbered frames less exactly the lost ones.
    - Landing page: after any number of callbacks, with the tab hidden and shown at
      will, the terminal shows the screen of its script that belongs there, and
      exactly one continuation is outstanding; at most one scroll frame is pending
      and the bar settles to the scroll position; the copy button shows the result
      of the last attempt for two seconds; no section stays hidden unobserved. The
      terminal never stops. A counter never shows a number outside zero to its target,
      whatever rounding does, and every animation ends at the counter's value.
    - Example programs: over any transport each callback returns, one line is printed per
      unsent beat, the frames carry the program's status and payload under consecutive nonces,
      and a signal closes the agent and exits with 0; secure_udp refuses missing
      arguments and a bad key file with code 64 before it touches the network; a bad port is
      refused by the socket, which is closed again.
    - Book, search: a teaser is a passage of the document with exactly the matching words
      emphasised, cut at the heaviest window; a new term shows exactly the index's results;
      the address written for a term brings the search back, unless it ends in a control
      character or has one of a few others; the page's attributes stay
      consistent. A term typed again after the bar was cleared is not searched. A click on a
      highlighted word fades every mark, and one that fades has a timer that removes it.
    - Book, sidebar: its headings are the outline of the page; the marked heading is the one
      at the threshold line, which reaches both ends of the page; the attributes of the
      sidebar agree with what it shows, except that a swipe does not display it. The list of
      chapters marks the page's link and opens the chapters above it, and keeps its position
      from page to page; the headings are hung under the chapter it marked. The debugging aid
      only watches: the script does with it what it does without.
    - Book, page: exactly one theme is worn, and a reload keeps it; the menu bar leaves on
      the way down and is back after a bounded way up; the help window can always be left,
      but closing it with the mouse leaves a listener that takes the next Escape.
    - Book, code blocks: the crates found are exactly those declared; the play button is shown,
      and a snippet sent by it, only when all of them are available; a request ends at most
      once, and a block at rest shows the outcome of one of its requests.

    ** Bounds and fuel

    [hex_digits], for the error texts of decode, has sixteen digits, more than the 32-bit
    values it prints can have. The walks over the store of nodes ([document_order], [climb],
    [expand_up]) and the loop over a live collection ([clear_live]) have the size of the store
    as fuel, [decode_from] the length of the text: each step goes to another node or consumes
    a character, and the theorems about them are about what the completed walk finds.
    [exec_loop] has the length of the text and one more, which [exec_loop_spec] proves enough.
    In [Number], [digits_of] has the bits of its number, [places] 330 steps for the decimal
    exponent (a binary64 number lies between 10^-324 and 10^309) and [shortest] stops at
    seventeen digits; [smallest_double] and [seventeen_digits] prove that both are enough.
    Everything else is structural or a step relation, so totality is by construction: a
    method always returns or throws.
    Loops that never end in the program (the agent's beats, the terminal) are runs
    of a step relation of any length, and their theorems hold at every point.

    ** Not modelled

    index.ts (re-exports only), the test suite, the vendored scripts
    (book/mermaid.min.js, and highlight, elasticlunr, clipboard and mark under _site/book), the
    clients in other languages and the Rust observer. Of the book's scripts: the markup
    the list of chapters of toc.js is generated as and the scroll to the top of book.js. Outside
    [Counters] and [ChapterList] pixel positions are rationals, without the rounding of floating
    point, and the sign of zero is not kept anywhere; the browser's clamping of an assigned
    scroll position is not modelled. Of node-unix-socket, node:dgram, node:crypto, the search
    index and the stemmer only what the code relies on is stated, as parameters with their laws
    or as oracles. Error messages are kept where code compares or returns them. *)

From Stdlib Require Export ZArith QArith_base Lia.
From stdpp Require Export base tactics list list_numbers strings gmap numbers.

#[global] Set Default Goal Selector "!".
#[global] Open Scope Z_scope.

(** ** Bytes and little-endian integers *)

Abbreviation bytes := (list Z).

(** An 8-bit unsigned value. *)
Definition is_byte (b : Z) : Prop := 0 <= b < 256.

Definition is_u32 (z : Z) : Prop := 0 <= z < 2 ^ 32.

Definition is_u64 (z : Z) : Prop := 0 <= z < 2 ^ 64.

#[export] Instance is_byte_dec b : Decision (is_byte b).
Proof. unfold is_byte; apply _. Defined.

#[export] Instance is_u32_dec z : Decision (is_u32 z).
Proof. unfold is_u32; apply _. Defined.

#[export] Instance is_u64_dec z : Decision (is_u64 z).
Proof. unfold is_u64; apply _. Defined.

(** The [n] low bytes of [z], least significant first. *)
Fixpoint le_bytes (n : nat) (z : Z) : bytes :=
  match n with
  | O => []
  | S n => (z mod 256) :: le_bytes n (z / 256)
  end.

(** The integer a little-endian byte string denotes. *)
Fixpoint le_val (l : bytes) : Z :=
  match l with
  | [] => 0
  | b :: l => b + 256 * le_val l
  end.

(** Overwriting the bytes of [buf] from [off] on with [src]. *)
Definition splice (off : nat) (src buf : bytes) : bytes :=
  take off buf ++ src ++ drop (off + length src) buf.

(** The half-open slice [buf[s..e)]. *)
Definition slice (s e : nat) (buf : bytes) : bytes := take (e - s) (drop s buf).

(** ** Exceptions and the effect monad *)

(** A thrown JavaScript [Error]: its [name], [message], the [code] and [errno]
    of [NodeJS.ErrnoException] (absent on plain errors), the [kind] field that
    [PanicInstallError] adds, and the [cause] that [UdsUnavailableError] adds. *)
Inductive exn : Type :=
| Exn (exn_name exn_message : string) (exn_code : option string)
      (exn_errno : option Z) (exn_kind : option string) (exn_cause : option exn).

Definition exn_name (e : exn) : string := let '(Exn n _ _ _ _ _) := e in n.
Definition exn_message (e : exn) : string := let '(Exn _ m _ _ _ _) := e in m.
Definition exn_code (e : exn) : option string := let '(Exn _ _ c _ _ _) := e in c.
Definition exn_errno (e : exn) : option Z := let '(Exn _ _ _ n _ _) := e in n.
Definition exn_kind (e : exn) : option string := let '(Exn _ _ _ _ k _) := e in k.
Definition exn_cause (e : exn) : option exn := let '(Exn _ _ _ _ _ c) := e in c.

(** [new Error(m)], [new RangeError(m)]. *)
Definition plain_error (m : string) : exn := Exn "Error" m None None None None.
Definition range_error (m : string) : exn := Exn "RangeError" m None None None None.

(** Node's argument-range error. *)
Definition err_out_of_range (m : string) : exn :=
  Exn "RangeError" m (Some "ERR_OUT_OF_RANGE"%string) None None None.

(** The result of running a piece of code: it returns or it throws. *)
Inductive res (A : Type) : Type :=
| Ret (a : A)
| Throw (e : exn).
Arguments Ret {A} _.
Arguments Throw {A} _.

(** Code over a mutable state [S]. A throw keeps the writes made before it:
    JavaScript does not roll back. *)
Definition M (S A : Type) : Type := S -> res A * S.

#[export] Instance M_ret S : MRet (M S) := fun A a s => (Ret a, s).

#[export] Instance M_bind S : MBind (M S) := fun A B f m s =>
  match m s with
  | (Ret a, s') => f a s'
  | (Throw e, s') => (Throw e, s')
  end.

Definition throw {S A} (e : exn) : M S A := fun s => (Throw e, s).
Definition get {S} : M S S := fun s => (Ret s, s).
Definition gets {S A} (f : S -> A) : M S A := fun s => (Ret (f s), s).
Definition modify {S} (f : S -> S) : M S unit := fun s => (Ret tt, f s).
Definition whenM {S} (b : bool) (m : M S unit) : M S unit := if b then m else mret tt.

(** [try { m } catch (e) { h e }]. *)
Definition try_catch {S A} (m : M S A) (h : exn -> M S A) : M S A := fun s =>
  match m s with
  | (Ret a, s') => (Ret a, s')
  | (Throw e, s') => h e s'
  end.

(** Running code on the first (second) part of a larger state. *)
Definition on_fst {S T A} (m : M S A) : M (S * T) A := fun st =>
  let '(r, s') := m st.1 in (r, (s', st.2)).
Definition on_snd {S T A} (m : M T A) : M (S * T) A := fun st =>
  let '(r, t') := m st.2 in (r, (st.1, t')).

(** A pure computation that may throw, run in any state. *)
Definition lift_res {S A} (r : res A) : M S A := fun s => (r, s).

(** ** JavaScript numbers and strings *)

(** An IEEE number as the language's integer conversions see it. Every finite
    double is a rational, so a statement about all [JFin q] covers them. *)
Inductive jsnum : Type :=
| JNaN
| JInf (neg : bool)
| JFin (q : Q).

Definition jint (z : Z) : jsnum := JFin (inject_Z z).

(** [Math.trunc] on a finite number. *)
Definition q_trunc (q : Q) : Z := Z.quot (Qnum q) (Zpos (Qden q)).

(** The abstract operation ToUint32, i.e. [x >>> 0]. *)
Definition to_uint32 (x : jsnum) : Z :=
  match x with
  | JFin q => q_trunc q mod 2 ^ 32
  | _ => 0
  end.

(** The 32-bit operators on integer-valued operands: [a ^ b], [a & b] yield a
    signed 32-bit result, [a >>> n] an unsigned one. *)
Definition wrap32 (z : Z) : Z := z mod 2 ^ 32.
Definition to_int32 (z : Z) : Z :=
  let u := wrap32 z in if u <? 2 ^ 31 then u else u - 2 ^ 32.
Definition js_xor (a b : Z) : Z := to_int32 (Z.lxor (wrap32 a) (wrap32 b)).
Definition js_and (a b : Z) : Z := to_int32 (Z.land (wrap32 a) (wrap32 b)).
Definition js_ushr (a n : Z) : Z := Z.shiftr (wrap32 a) n.

(** [String.prototype.toLowerCase] on one Latin-1 character: ASCII capitals and
    the capitals U+00C0..U+00DE other than the multiplication sign. *)
Definition lower_char (c : Ascii.ascii) : Ascii.ascii :=
  let n := Ascii.nat_of_ascii c in
  if ((65 <=? n) && (n <=? 90))%nat
     || ((192 <=? n) && (n <=? 222) && negb (n =? 215))%nat
  then Ascii.ascii_of_nat (n + 32) else c.

Fixpoint to_lower (s : string) : string :=
  match s with
  | EmptyString => EmptyString
  | String c s => String (lower_char c) (to_lower s)
  end.

(** [hay.includes(needle)]. *)
Fixpoint includes (needle hay : string) : bool :=
  String.prefix needle hay ||
  match hay with
  | EmptyString => false
  | String _ hay => includes needle hay
  end.

(** The Latin-1 ("binary") encoding of a string. *)
Fixpoint latin1 (s : string) : bytes :=
  match s with
  | EmptyString => []
  | String c s => Z.of_N (Ascii.N_of_ascii c) :: latin1 s
  end.

(** A text of Latin-1 characters from their codes. *)
Definition latin1_string (cs : bytes) : string :=
  foldr (fun c s => String (Ascii.ascii_of_N (Z.to_N c)) s) EmptyString cs.

(** ** Tactics *)

(** Unfolds the monad's plumbing so that the goal shows the code's control flow. *)
Ltac unfold_m :=
  unfold whenM in *;
  unfold mbind, mret, M_bind, M_ret, throw, get, gets, modify, lift_res,
    on_fst, on_snd, try_catch in *.

(** Runs straight-line code: unfold, compute, split one branch and go on. *)
Ltac m_run := unfold_m; cbn in *; repeat (case_match; simplify_eq/=).

(** Turns boolean tests in the context and the goal into propositions. *)
Ltac boolify :=
  repeat match goal with
  | H : context [bool_decide _ = true] |- _ => rewrite bool_decide_eq_true in H
  | H : context [bool_decide _ = false] |- _ => rewrite bool_decide_eq_false in H
  | H : (_ <? _) = true |- _ => apply Z.ltb_lt in H
  | H : (_ <? _) = false |- _ => apply Z.ltb_ge in H
  | H : (_ <=? _) = true |- _ => apply Z.leb_le in H
  | H : (_ <=? _) = false |- _ => apply Z.leb_gt in H
  | H : (_ =? _) = true |- _ => apply Z.eqb_eq in H
  | H : (_ =? _) = false |- _ => apply Z.eqb_neq in H
  | H : andb _ _ = true |- _ => apply andb_true_iff in H; destruct H
  | H : orb _ _ = false |- _ => apply orb_false_iff in H; destruct H
  | H : negb _ = true |- _ => apply negb_true_iff in H
  | H : negb _ = false |- _ => apply negb_false_iff in H
  end.

(** Splits a list of known length into its elements. *)
Ltac explode l H :=
  repeat (destruct l as [|? l]; [discriminate H|]; cbn in H);
  destruct l; [|discriminate H]; clear H.

Create HintDb varta.
Create Rewrite HintDb varta.

(** ** Little-endian lemmas *)

Lemma length_le_bytes n z : length (le_bytes n z) = n.
Proof. revert z; induction n; intros; cbn; auto. Qed.

Lemma le_bytes_byte n z : Forall is_byte (le_bytes n z).
Proof.
  revert z; induction n; intros; cbn; constructor; auto.
  unfold is_byte. apply Z.mod_pos_bound. lia.
Qed.

Lemma le_val_le_bytes n z : le_val (le_bytes n z) = z mod 256 ^ Z.of_nat n.
Proof.
  revert z; induction n as [|n IH]; intros z.
  - cbn. by rewrite Z.mod_1_r.
  - cbn [le_bytes le_val]. rewrite IH, Nat2Z.inj_succ, Z.pow_succ_r by lia.
    rewrite Z.rem_mul_r by lia. lia.
Qed.

Lemma le_bytes_le_val l : Forall is_byte l -> le_bytes (length l) (le_val l) = l.
Proof.
  induction 1 as [|b l Hb _ IH]; cbn; [done|]. unfold is_byte in Hb.
  f_equal.
  - rewrite Z.mul_comm, Z.mod_add by lia. by apply Z.mod_small.
  - replace ((b + 256 * le_val l) / 256) with (le_val l); [done|].
    rewrite Z.mul_comm, Z.div_add by lia. rewrite Z.div_small by lia. lia.
Qed.

Lemma le_val_range l : Forall is_byte l -> 0 <= le_val l < 256 ^ Z.of_nat (length l).
Proof.
  induction 1 as [|b l Hb _ IH]; cbn [le_val length]; [by cbn|].
  unfold is_byte in Hb. rewrite Nat2Z.inj_succ, Z.pow_succ_r by lia. lia.
Qed.

Lemma le_val_inj l1 l2 :
  length l1 = length l2 -> Forall is_byte l1 -> Forall is_byte l2 ->
  le_val l1 = le_val l2 -> l1 = l2.
Proof.
  intros Hlen H1 H2 Heq.
  rewrite <- (le_bytes_le_val l1), <- (le_bytes_le_val l2) by done. by rewrite Hlen, Heq.
Qed.

Lemma le_bytes_inj n z1 z2 :
  0 <= z1 < 256 ^ Z.of_nat n -> 0 <= z2 < 256 ^ Z.of_nat n ->
  le_bytes n z1 = le_bytes n z2 -> z1 = z2.
Proof.
  intros H1 H2 Heq%(f_equal le_val). rewrite !le_val_le_bytes in Heq.
  by rewrite !Z.mod_small in Heq by lia.
Qed.

#[export] Hint Resolve le_bytes_byte : varta.
#[export] Hint Rewrite length_le_bytes : varta.

Lemma le_val_bytes4 z : is_u32 z -> le_val (le_bytes 4 z) = z.
Proof. intros H. rewrite le_val_le_bytes. by apply Z.mod_small. Qed.

Lemma le_val_bytes8 z : is_u64 z -> le_val (le_bytes 8 z) = z.
Proof. intros H. rewrite le_val_le_bytes. by apply Z.mod_small. Qed.

(** The bytes of a field, by name. *)
Lemma le4_elems z : exists a b c d, le_bytes 4 z = [a; b; c; d].
Proof. eexists _, _, _, _. reflexivity. Qed.

Lemma le8_elems z : exists a b c d e f g h, le_bytes 8 z = [a; b; c; d; e; f; g; h].
Proof. eexists _, _, _, _, _, _, _, _. reflexivity. Qed.

(** Names the bytes of every little-endian field of the goal. *)
Ltac name_fields :=
  repeat match goal with
  | |- context [le_bytes 4 ?z] =>
      let H := fresh "Hf" in
      destruct (le4_elems z) as (? & ? & ? & ? & H); rewrite H in *; clear H
  | |- context [le_bytes 8 ?z] =>
      let H := fresh "Hf" in
      destruct (le8_elems z) as (? & ? & ? & ? & ? & ? & ? & ? & H); rewrite H in *; clear H
  end.

(** ** Slices and splices *)

Lemma length_splice off src buf :
  (off + length src <= length buf)%nat -> length (splice off src buf) = length buf.
Proof. intros H. unfold splice. rewrite !length_app, length_take, length_drop. lia. Qed.

Lemma splice_byte off src buf :
  Forall is_byte src -> Forall is_byte buf -> Forall is_byte (splice off src buf).
Proof.
  intros. unfold splice. apply Forall_app; split; [by apply Forall_take|].
  apply Forall_app; split; [done|by apply Forall_drop].
Qed.

Lemma length_slice s e buf :
  (s <= e)%nat -> (e <= length buf)%nat -> length (slice s e buf) = (e - s)%nat.
Proof. intros. unfold slice. rewrite length_take, length_drop. lia. Qed.

Lemma slice_byte s e buf : Forall is_byte buf -> Forall is_byte (slice s e buf).
Proof. intros. unfold slice. by apply Forall_take, Forall_drop. Qed.

#[export] Hint Resolve splice_byte slice_byte : varta.
#[export] Hint Rewrite length_splice length_slice using lia : varta.

(** ** 32-bit arithmetic *)

Lemma wrap32_range z : is_u32 (wrap32 z).
Proof. apply Z.mod_pos_bound. lia. Qed.

Lemma wrap32_id z : is_u32 z -> wrap32 z = z.
Proof. apply Z.mod_small. Qed.

Lemma wrap32_to_int32 z : wrap32 (to_int32 z) = wrap32 z.
Proof.
  unfold to_int32. pose proof (wrap32_range z) as H. unfold is_u32 in H.
  case_match; unfold wrap32 in *.
  - by rewrite Z.mod_mod by lia.
  - rewrite Zminus_mod, Z_mod_same_full, Z.sub_0_r, !Z.mod_mod by lia. done.
Qed.

Lemma to_uint32_range x : is_u32 (to_uint32 x).
Proof. destruct x; cbn [to_uint32]; [split; lia..|]. apply Z.mod_pos_bound. lia. Qed.

Lemma to_uint32_jint z : is_u32 z -> to_uint32 (jint z) = z.
Proof.
  intros H. unfold to_uint32, jint, q_trunc, inject_Z; cbn [Qnum Qden].
  rewrite Z.quot_1_r. by apply Z.mod_small.
Qed.

Lemma to_uint32_wrap z : to_uint32 (jint z) = wrap32 z.
Proof. unfold to_uint32, jint, q_trunc, inject_Z; cbn [Qnum Qden]. by rewrite Z.quot_1_r. Qed.

(** A value of [n] bits has no bit from [n] on. *)
Lemma width_bits n z :
  0 <= n -> 0 <= z < 2 ^ n <-> 0 <= z /\ forall i, n <= i -> Z.testbit z i = false.
Proof.
  intros Hn. split.
  - intros [H0 H1]. split; [done|]. intros i Hi.
    destruct (Z.eq_dec z 0) as [->|Hz]; [apply Z.testbit_0_l|].
    apply Z.bits_above_log2; [done|].
    assert (Z.log2 z < n) by (apply Z.log2_lt_pow2; lia). lia.
  - intros [H0 H]. split; [done|].
    destruct (Z.eq_dec z 0) as [->|Hz]; [apply Z.pow_pos_nonneg; lia|].
    apply Z.log2_lt_pow2; [lia|].
    destruct (Z.lt_ge_cases (Z.log2 z) n) as [|Hge]; [done|].
    specialize (H _ Hge). rewrite Z.bit_log2 in H by lia. done.
Qed.

Lemma lxor_width n a b :
  0 <= n -> 0 <= a < 2 ^ n -> 0 <= b < 2 ^ n -> 0 <= Z.lxor a b < 2 ^ n.
Proof.
  intros Hn. rewrite !width_bits by done. intros [Ha Ha'] [Hb Hb']. split.
  - apply Z.lxor_nonneg. lia.
  - intros i Hi. by rewrite Z.lxor_spec, Ha', Hb' by done.
Qed.

Lemma lxor_u32 a b : is_u32 a -> is_u32 b -> is_u32 (Z.lxor a b).
Proof. by apply (lxor_width 32). Qed.

Lemma lxor_byte a b : is_byte a -> is_byte b -> is_byte (Z.lxor a b).
Proof. by apply (lxor_width 8). Qed.

Lemma shiftr_u32 a n : 0 <= n -> is_u32 a -> is_u32 (Z.shiftr a n).
Proof.
  unfold is_u32. rewrite !width_bits by lia. intros Hn [Ha Ha']. split.
  - by apply Z.shiftr_nonneg.
  - intros i Hi. rewrite Z.shiftr_spec by lia. apply Ha'. lia.
Qed.

#[export] Hint Resolve lxor_u32 lxor_byte shiftr_u32 wrap32_range to_uint32_range : varta.
