(* ===== verification/Number.v ===== *)
(** * Numbers of the language: IEEE binary64 on rationals

    A finite double is the rational it stands for. An operation computes the exact result
    and rounds it to the nearest double, ties to even ([rnd]); the rounding is executable and
    proved monotone and idempotent here, which is what the programs' bounds need. Then the
    conversions the scripts use: [toFixed], [Math.round], [String], [parseFloat] and
    [parseInt]. The sign of zero is not kept: none of the conversions shows it. *)

From Stdlib Require Import QArith Qround Qpower Qminmax Qabs Lqa.
From S2P Require Import Prelude.

#[local] Open Scope Q_scope.

Definition Qltb (x y : Q) : bool := negb (Qle_bool y x).

Lemma Qltb_true x y : Qltb x y = true <-> x < y.
Proof.
  unfold Qltb. rewrite negb_true_iff. split.
  - intros H. apply Qnot_le_lt. rewrite <- Qle_bool_iff. congruence.
  - intros H. destruct (Qle_bool y x) eqn:E; [|done]. apply Qle_bool_iff in E. lra.
Qed.

Lemma Qltb_false x y : Qltb x y = false <-> y <= x.
Proof. unfold Qltb. rewrite negb_false_iff. apply Qle_bool_iff. Qed.

(** ** Rounding *)

Definition pow2 (s : Z) : Q := 2 ^ s.

(** The nearest integer, ties to even. *)
Definition rne (x : Q) : Z :=
  let f := Qfloor x in
  let r := x - inject_Z f in
  if Qltb r (1 # 2) then f
  else if Qltb (1 # 2) r then (f + 1)%Z
  else if Z.even f then f else (f + 1)%Z.

(** The exponent [e] of a positive [x]: 2^e <= x < 2^(e+1). *)
Definition ilog2 (x : Q) : Z :=
  let e := (Z.log2 (Qnum x) - Z.log2 (QDen x))%Z in
  if Qle_bool (pow2 e) x then e else (e - 1)%Z.

(** The exponent of the last place, subnormal numbers included. *)
Definition ulp_exp (x : Q) : Z := Z.max (ilog2 x - 52) (-1074).

Definition rnd_pos (x : Q) : Q := inject_Z (rne (x * pow2 (- ulp_exp x))) * pow2 (ulp_exp x).

Definition rnd (x : Q) : Q :=
  Qred (if Qltb 0 x then rnd_pos x else if Qltb x 0 then - rnd_pos (- x) else 0).

Lemma pow2_pos s : 0 < pow2 s.
Proof. apply Qpower_0_lt. reflexivity. Qed.

Lemma pow2_add a b : pow2 (a + b) == pow2 a * pow2 b.
Proof. apply Qpower_plus. discriminate. Qed.

Lemma pow2_mono a b : (a <= b)%Z -> pow2 a <= pow2 b.
Proof. intros H. apply Qpower_le_compat_l; [done|discriminate]. Qed.

Lemma pow2_int s : (0 <= s)%Z -> pow2 s == inject_Z (2 ^ s).
Proof. intros H. unfold pow2. change 2 with (inject_Z 2). by rewrite Zpower_Qpower. Qed.

Lemma pow2_cancel x s : x * pow2 (- s) * pow2 s == x.
Proof. rewrite <- Qmult_assoc, <- pow2_add. rewrite Z.add_opp_diag_l. unfold pow2. cbn. ring. Qed.

Lemma rne_floor x : (Qfloor x <= rne x <= Qfloor x + 1)%Z.
Proof. unfold rne. repeat case_match; lia. Qed.

Lemma rne_int (x : Q) (n : Z) : x == inject_Z n -> rne x = n.
Proof.
  intros E. unfold rne. rewrite (Qfloor_comp _ _ E), Qfloor_Z.
  assert (Qltb (x - inject_Z n) (1 # 2) = true) as ->; [|done]. apply Qltb_true. rewrite E. lra.
Qed.

Lemma rne_mono x y : x <= y -> (rne x <= rne y)%Z.
Proof.
  intros H. pose proof (rne_floor x) as Hx. pose proof (rne_floor y) as Hy.
  pose proof (Qfloor_resp_le _ _ H) as Hf.
  destruct (decide (Qfloor x = Qfloor y)) as [E|E]; [|lia].
  unfold rne. rewrite E in *. repeat case_match; try lia; exfalso;
    repeat match goal with
           | H : Qltb _ _ = true |- _ => apply Qltb_true in H
           | H : Qltb _ _ = false |- _ => apply Qltb_false in H
           end; try lra; congruence.
Qed.

Lemma rne_le_int x n : x <= inject_Z n -> (rne x <= n)%Z.
Proof. intros H. rewrite <- (rne_int (inject_Z n) n) by done. by apply rne_mono. Qed.

Lemma int_le_rne x n : inject_Z n <= x -> (n <= rne x)%Z.
Proof. intros H. rewrite <- (rne_int (inject_Z n) n) by done. by apply rne_mono. Qed.

(** The exponent is right. *)
Lemma ilog2_spec x : 0 < x -> pow2 (ilog2 x) <= x /\ x < pow2 (ilog2 x + 1).
Proof.
  intros Hx. destruct x as [n d]. assert (0 < n)%Z as Hn by (unfold Qlt in Hx; cbn in Hx; lia).
  assert (E : (n # d) == inject_Z n / inject_Z (Zpos d)) by apply Qmake_Qdiv.
  destruct (Z.log2_spec n Hn) as [Hn1 Hn2]. destruct (Z.log2_spec (Zpos d) ltac:(lia)) as [Hd1 Hd2].
  pose proof (Z.log2_nonneg n). pose proof (Z.log2_nonneg (Zpos d)).
  set (ln := Z.log2 n) in *. set (ld := Z.log2 (Zpos d)) in *.
  assert (0 < inject_Z (Zpos d)) as Hd by (unfold Qlt; cbn; lia).
  assert (Hup : (n # d) < pow2 (ln - ld + 1)).
  { rewrite E. apply Qlt_shift_div_r; [done|].
    apply Qlt_le_trans with (inject_Z (2 ^ (ln + 1))); [rewrite <- Zlt_Qlt; lia|].
    rewrite <- pow2_int by lia. replace (ln + 1)%Z with ((ln - ld + 1) + ld)%Z by lia.
    rewrite pow2_add. apply Qmult_le_l; [apply pow2_pos|]. rewrite pow2_int by lia. by rewrite <- Zle_Qle. }
  assert (Hlo : pow2 (ln - ld - 1) <= (n # d)).
  { rewrite E. apply Qle_shift_div_l; [done|].
    apply Qle_trans with (inject_Z (2 ^ ln)); [|by rewrite <- Zle_Qle].
    rewrite <- (pow2_int ln) by lia. replace ln with ((ln - ld - 1) + (ld + 1))%Z at 2 by lia.
    rewrite pow2_add. apply Qmult_le_l; [apply pow2_pos|]. rewrite pow2_int by lia. rewrite <- Zle_Qle. lia. }
  unfold ilog2. cbn [Qnum Qden]. fold ln ld. destruct (Qle_bool _ _) eqn:Eb.
  - apply Qle_bool_iff in Eb. split; [exact Eb|exact Hup].
  - split; [exact Hlo|]. replace (ln - ld - 1 + 1)%Z with (ln - ld)%Z by lia. apply Qnot_le_lt.
    rewrite <- Qle_bool_iff. congruence.
Qed.

Lemma pow2_lt_inv a b : pow2 a < pow2 b -> (a < b)%Z.
Proof. intros H. destruct (Z.lt_ge_cases a b) as [|Hge]; [done|]. pose proof (pow2_mono _ _ Hge). lra. Qed.

Lemma ilog2_mono x y : 0 < x -> x <= y -> (ilog2 x <= ilog2 y)%Z.
Proof.
  intros Hx Hy. destruct (ilog2_spec x Hx) as [H1 _]. destruct (ilog2_spec y ltac:(lra)) as [_ H2].
  assert (pow2 (ilog2 x) < pow2 (ilog2 y + 1)) as H by lra. apply pow2_lt_inv in H. lia.
Qed.

Lemma pow2_split a b : pow2 a == pow2 (a - b) * pow2 b.
Proof. rewrite <- pow2_add. by rewrite Z.sub_add. Qed.

(** Between two numbers with different last places lies a power of two. *)
Lemma rnd_pos_mono x y : 0 < x -> x <= y -> rnd_pos x <= rnd_pos y.
Proof.
  intros Hx Hy. pose proof (ilog2_mono x y Hx Hy) as Hl. unfold rnd_pos.
  destruct (decide (ulp_exp x = ulp_exp y)) as [E|E].
  - rewrite E. apply Qmult_le_r; [apply pow2_pos|]. rewrite <- Zle_Qle. apply rne_mono.
    apply Qmult_le_r; [apply pow2_pos|done].
  - assert (ulp_exp x < ulp_exp y /\ ilog2 x < ilog2 y /\ ulp_exp y = ilog2 y - 52)%Z as (H1 & H2 & H3)
      by (unfold ulp_exp in *; lia).
    destruct (ilog2_spec x Hx) as [_ Hx2]. destruct (ilog2_spec y ltac:(lra)) as [Hy1 _].
    apply Qle_trans with (pow2 (ilog2 y)).
    + rewrite (pow2_split (ilog2 y) (ulp_exp x)).
      apply Qmult_le_r; [apply pow2_pos|].
      rewrite (pow2_int (ilog2 y - _)) by lia. rewrite <- Zle_Qle. apply rne_le_int. rewrite <- pow2_int by lia.
      apply Qle_trans with (pow2 (ilog2 x + 1) * pow2 (- ulp_exp x)).
      * apply Qmult_le_r; [apply pow2_pos|lra].
      * rewrite <- pow2_add. apply pow2_mono. lia.
    + rewrite (pow2_split (ilog2 y) (ulp_exp y)). replace (ilog2 y - ulp_exp y)%Z with 52%Z by lia.
      apply Qmult_le_r; [apply pow2_pos|]. rewrite (pow2_int 52) by lia. rewrite <- Zle_Qle. apply int_le_rne.
      rewrite <- pow2_int by lia. apply Qle_trans with (pow2 (ilog2 y) * pow2 (- ulp_exp y)).
      * rewrite <- pow2_add. apply pow2_mono. lia.
      * apply Qmult_le_r; [apply pow2_pos|done].
Qed.

Lemma rnd_pos_nonneg x : 0 < x -> 0 <= rnd_pos x.
Proof.
  intros Hx. unfold rnd_pos. pose proof (pow2_pos (ulp_exp x)). pose proof (pow2_pos (- ulp_exp x)).
  apply Qmult_le_0_compat; [|lra]. change 0 with (inject_Z 0). rewrite <- Zle_Qle. apply int_le_rne.
  apply Qmult_le_0_compat; lra.
Qed.

Lemma rnd_cases x :
  (0 < x /\ rnd x == rnd_pos x) \/ (x == 0 /\ rnd x == 0) \/ (x < 0 /\ rnd x == - rnd_pos (- x)).
Proof.
  unfold rnd. destruct (Qltb 0 x) eqn:E1; [left; by rewrite Qred_correct, <- Qltb_true|right].
  destruct (Qltb x 0) eqn:E2; [right; by rewrite Qred_correct, <- Qltb_true|left].
  apply Qltb_false in E1, E2. split; [lra|by rewrite Qred_correct].
Qed.

(** Rounding is monotone. *)
Lemma rnd_mono x y : x <= y -> rnd x <= rnd y.
Proof.
  intros H.
  destruct (rnd_cases x) as [[Hx ->]|[[Hx ->]|[Hx ->]]], (rnd_cases y) as [[Hy ->]|[[Hy ->]|[Hy ->]]]; try lra.
  - by apply rnd_pos_mono.
  - by apply rnd_pos_nonneg.
  - pose proof (rnd_pos_nonneg (- x)) as H1. pose proof (rnd_pos_nonneg y Hy). specialize (H1 ltac:(lra)). lra.
  - pose proof (rnd_pos_nonneg (- x)) as H1. specialize (H1 ltac:(lra)). lra.
  - pose proof (rnd_pos_mono (- y) (- x)) as H1. specialize (H1 ltac:(lra) ltac:(lra)). lra.
Qed.

#[export] Instance rnd_proper : Proper (Qeq ==> Qeq) rnd.
Proof. intros x y H. apply Qle_antisym; apply rnd_mono; lra. Qed.

(** A value with at most 53 significant bits, above the last place of all, is kept. *)
Lemma rnd_pos_exact (m s : Z) : (0 < m <= 2 ^ 53)%Z -> (-1074 <= s)%Z ->
  rnd_pos (inject_Z m * pow2 s) == inject_Z m * pow2 s.
Proof.
  intros Hm Hs. set (v := inject_Z m * pow2 s).
  assert (Hv : 0 < v).
  { unfold v. apply Qmult_lt_0_compat; [|apply pow2_pos]. change 0 with (inject_Z 0). rewrite <- Zlt_Qlt. lia. }
  enough (exists n, v * pow2 (- ulp_exp v) == inject_Z n) as [n Hn].
  { unfold rnd_pos. rewrite (rne_int _ n Hn), <- Hn. apply pow2_cancel. }
  destruct (ilog2_spec v Hv) as [Hlo _].
  destruct (decide (m = 2 ^ 53)%Z) as [->|Hne].
  - assert (v == pow2 (53 + s)) as Ev by (unfold v; rewrite pow2_add, (pow2_int 53) by lia; reflexivity).
    assert (ilog2 v < 53 + s + 1)%Z.
    { apply pow2_lt_inv. apply Qle_lt_trans with v; [done|]. rewrite Ev, pow2_add with (a := (53 + s)%Z).
      pose proof (pow2_pos (53 + s)). change (pow2 1) with (2%Q). lra. }
    assert (ulp_exp v <= 53 + s)%Z as Hu by (unfold ulp_exp; lia). generalize dependent (ulp_exp v). intros u Hu.
    exists (2 ^ (53 + s - u))%Z. rewrite Ev, <- pow2_add, <- pow2_int by lia. done.
  - assert (ilog2 v < 53 + s)%Z.
    { apply pow2_lt_inv. apply Qle_lt_trans with v; [done|]. unfold v. rewrite pow2_add.
      apply Qmult_lt_r; [apply pow2_pos|]. rewrite (pow2_int 53) by lia. rewrite <- Zlt_Qlt. lia. }
    assert (ulp_exp v <= s)%Z as Hu by (unfold ulp_exp; lia). generalize dependent (ulp_exp v). intros u Hu.
    exists (m * 2 ^ (s - u))%Z. unfold v. rewrite <- Qmult_assoc, <- pow2_add, inject_Z_mult.
    rewrite <- pow2_int by lia. done.
Qed.

Lemma rnd_pos_idem x : 0 < x -> rnd_pos x == 0 \/ (0 < rnd_pos x /\ rnd_pos (rnd_pos x) == rnd_pos x).
Proof.
  intros Hx. pose proof (rnd_pos_nonneg x Hx) as Hn. destruct (Qlt_le_dec 0 (rnd_pos x)) as [Hp|]; [right|left; lra].
  split; [done|]. unfold rnd_pos at 2 3. set (m := rne (x * pow2 (- ulp_exp x))) in *.
  apply rnd_pos_exact; [|unfold ulp_exp; lia]. split.
  - destruct (Z.lt_ge_cases 0 m) as [|H0]; [done|]. exfalso. unfold rnd_pos in Hp. fold m in Hp.
    pose proof (pow2_pos (ulp_exp x)). rewrite Zle_Qle in H0. change (inject_Z 0) with 0 in H0.
    assert (inject_Z m * pow2 (ulp_exp x) <= 0 * pow2 (ulp_exp x)) by (apply Qmult_le_r; done). lra.
  - apply rne_le_int. rewrite <- pow2_int by lia. destruct (ilog2_spec x Hx) as [_ H2].
    apply Qle_trans with (pow2 (ilog2 x + 1) * pow2 (- ulp_exp x)).
    + apply Qmult_le_r; [apply pow2_pos|lra].
    + rewrite <- pow2_add. apply pow2_mono. unfold ulp_exp. lia.
Qed.

Lemma rnd_pos_proper_pos x y : 0 < x -> x == y -> rnd_pos x == rnd_pos y.
Proof. intros Hx E. apply Qle_antisym; apply rnd_pos_mono; lra. Qed.

(** Rounding is idempotent: the result is a double. *)
Lemma rnd_idem x : rnd (rnd x) == rnd x.
Proof.
  destruct (rnd_cases x) as [[Hx E]|[[Hx E]|[Hx E]]].
  - rewrite E. destruct (rnd_pos_idem x Hx) as [E0|[Hp E1]]; [by rewrite E0|].
    destruct (rnd_cases (rnd_pos x)) as [[_ ->]|[[H _]|[H _]]]; [done|lra..].
  - by rewrite E.
  - rewrite E. destruct (rnd_pos_idem (- x) ltac:(lra)) as [E0|[Hp E1]]; [by rewrite E0|].
    destruct (rnd_cases (- rnd_pos (- x))) as [[H _]|[[H _]|[_ ->]]]; [lra..|].
    rewrite (rnd_pos_proper_pos _ (rnd_pos (- x))) by lra. by rewrite E1.
Qed.

Lemma rnd_int (n : Z) : (Z.abs n <= 2 ^ 53)%Z -> rnd (inject_Z n) == inject_Z n.
Proof.
  intros Hn. assert (Hp : forall m, (0 < m <= 2 ^ 53)%Z -> rnd_pos (inject_Z m) == inject_Z m).
  { intros m Hm. assert (0 < inject_Z m) as H0 by (change 0 with (inject_Z 0); rewrite <- Zlt_Qlt; lia).
    assert (inject_Z m == inject_Z m * pow2 0) as E by (unfold pow2; cbn; ring).
    rewrite (rnd_pos_proper_pos _ _ H0 E), (rnd_pos_exact m 0) by lia. by rewrite <- E. }
  destruct (rnd_cases (inject_Z n)) as [[H ->]|[[H ->]|[H ->]]].
  - apply Hp. change 0 with (inject_Z 0) in H. rewrite <- Zlt_Qlt in H. lia.
  - by rewrite H.
  - change 0 with (inject_Z 0) in H. rewrite <- Zlt_Qlt in H. rewrite <- inject_Z_opp, Hp by lia.
    rewrite <- inject_Z_opp. by rewrite Z.opp_involutive.
Qed.

(** ** Arithmetic *)

(** The number nearest to a rational; beyond the largest double it is infinite. *)
Definition num (q : Q) : jsnum :=
  let r := rnd q in
  if Qle_bool (pow2 1024) r then JInf false else if Qle_bool r (- pow2 1024) then JInf true else JFin r.

Definition is_neg (q : Q) : bool := Qltb q 0.
Definition is_zero (q : Q) : bool := Qeq_bool q 0.

Definition jsub (x y : jsnum) : jsnum :=
  match x, y with
  | JFin a, JFin b => num (a - b)
  | JFin _, JInf n => JInf (negb n)
  | JInf n, JFin _ => JInf n
  | JInf n, JInf m => if Bool.eqb n m then JNaN else JInf n
  | _, _ => JNaN
  end.

Definition jmul (x y : jsnum) : jsnum :=
  match x, y with
  | JFin a, JFin b => num (a * b)
  | JFin a, JInf n | JInf n, JFin a => if is_zero a then JNaN else JInf (xorb n (is_neg a))
  | JInf n, JInf m => JInf (xorb n m)
  | _, _ => JNaN
  end.

(** Division by a number that is not zero. *)
Definition jdiv (x : jsnum) (b : Q) : jsnum :=
  match x with
  | JFin a => num (a / b)
  | JInf n => JInf (xorb n (is_neg b))
  | JNaN => JNaN
  end.

(** [Math.min] of a number and a finite one, and the comparison with one. *)
Definition jmin (x : jsnum) (b : Q) : jsnum :=
  match x with
  | JFin a => JFin (if Qle_bool a b then a else b)
  | JInf n => if n then JInf true else JFin b
  | JNaN => JNaN
  end.

Definition jlt (x : jsnum) (b : Q) : bool :=
  match x with JFin a => Qltb a b | JInf n => n | JNaN => false end.

(** ** Text *)

Abbreviation chars := (list Z).

Definition is_digit (c : Z) : bool := (48 <=? c)%Z && (c <=? 57)%Z.

Fixpoint digits_of (fuel : nat) (n : Z) : chars :=
  match fuel with
  | O => []
  | S k => if (n <? 10)%Z then [(48 + n)%Z] else digits_of k (n / 10) ++ [(48 + n mod 10)%Z]
  end.

(** The decimal digits of a natural number. *)
Definition decimal (n : Z) : chars := digits_of (S (Z.to_nat (Z.log2 n))) n.

Definition pad_zeros (k : nat) (s : chars) : chars := replicate (k - length s) 48%Z ++ s.

(** [x.toFixed(f)] for 0 <= x < 10^21: the digits of the integer nearest to x * 10^f, the
    larger one of two, with the point before the last [f]. *)
Definition fixed_digits (f : nat) (x : Q) : chars :=
  let n := Qfloor (x * inject_Z (10 ^ Z.of_nat f) + (1 # 2)) in
  let m := pad_zeros (S f) (decimal n) in
  let k := (length m - f)%nat in
  if bool_decide (f = 0%nat) then decimal n else take k m ++ 46%Z :: drop k m.

(** [String(x)]: the shortest decimal that rounds to [x], the nearest one of that length.
    [shortest] gives its digits as an integer and the place [n] of the point: the value is
    0.d1d2... times 10^n. Seventeen digits always identify a double. *)
Definition pow10 (k : Z) : Q := 10 ^ k.

Fixpoint places (fuel : nat) (x : Q) : Z :=
  match fuel with
  | O => 0%Z
  | S k => if Qle_bool 1 x then Z.of_nat (length (decimal (Qfloor x))) else (places k (x * 10) - 1)%Z
  end.

Definition rounds_to (x : Q) (c k n : Z) : bool := Qeq_bool (rnd (inject_Z c * pow10 (n - k))) x.

Fixpoint shortest (fuel : nat) (k n : Z) (x : Q) : Z * Z * Z :=
  let t := x * pow10 (k - n) in
  let lo := Qfloor t in
  let hi := (lo + 1)%Z in
  let closest := if Qle_bool (t - inject_Z lo) (1 # 2) then lo else hi in
  let other := if Qle_bool (t - inject_Z lo) (1 # 2) then hi else lo in
  match fuel with
  | O => (closest, k, n)
  | S f =>
      if rounds_to x closest k n then (closest, k, n)
      else if rounds_to x other k n then (other, k, n)
      else shortest f (k + 1) n x
  end.

Definition render_number (s k n : Z) : chars :=
  let '(s, k, n) := if (s =? 10 ^ k)%Z then (1, 1, n + 1)%Z else (s, k, n) in
  let ds := decimal s in
  if (k <=? n)%Z && (n <=? 21)%Z then ds ++ replicate (Z.to_nat (n - k)) 48%Z
  else if (0 <? n)%Z && (n <=? 21)%Z then take (Z.to_nat n) ds ++ 46%Z :: drop (Z.to_nat n) ds
  else if (-6 <? n)%Z && (n <=? 0)%Z then 48%Z :: 46%Z :: replicate (Z.to_nat (- n)) 48%Z ++ ds
  else
    let e := (n - 1)%Z in
    let tail := 101%Z :: (if (e <? 0)%Z then 45%Z else 43%Z) :: decimal (Z.abs e) in
    if (k =? 1)%Z then ds ++ tail else take 1 ds ++ 46%Z :: drop 1 ds ++ tail.

Definition pos_string (x : Q) : chars :=
  let '(s, k, n) := shortest 16 1 (places 330 x) x in render_number s k n.

Definition number_string (x : jsnum) : chars :=
  match x with
  | JNaN => latin1 "NaN"
  | JInf n => latin1 (if n then "-Infinity" else "Infinity")
  | JFin q => if is_zero q then [48%Z] else if is_neg q then 45%Z :: pos_string (- q) else pos_string q
  end.

(** [x.toFixed(f)]; the range of [f] is checked where it is called. *)
Definition toFixed (f : nat) (x : jsnum) : chars :=
  match x with
  | JFin q =>
      if Qle_bool (pow10 21) (Qabs q) then number_string x
      else if is_neg q then 45%Z :: fixed_digits f (- q) else fixed_digits f q
  | _ => number_string x
  end.

(** [Math.round]: the nearest integer, the larger one of two. *)
Definition jround (x : jsnum) : jsnum :=
  match x with JFin q => JFin (inject_Z (Qfloor (q + (1 # 2)))) | _ => x end.

(** ** Reading numbers *)

Definition white (c : Z) : bool :=
  ((9 <=? c) && (c <=? 13) || (c =? 32) || (c =? 160) || (c =? 0x1680) || (0x2000 <=? c) && (c <=? 0x200a)
   || (c =? 0x2028) || (c =? 0x2029) || (c =? 0x202f) || (c =? 0x205f) || (c =? 0x3000) || (c =? 0xfeff))%Z.

Fixpoint skip_white (s : chars) : chars :=
  match s with c :: s' => if white c then skip_white s' else s | [] => [] end.

(** The digits a text starts with, and the rest. *)
Fixpoint span_digits (s : chars) : chars * chars :=
  match s with
  | c :: s' => if is_digit c then let '(d, r) := span_digits s' in (c :: d, r) else ([], s)
  | [] => ([], [])
  end.

Definition digits_number (d : chars) : Z := foldl (fun n c => 10 * n + (c - 48))%Z 0%Z d.

Definition read_sign (s : chars) : bool * chars :=
  match s with 43%Z :: s => (false, s) | 45%Z :: s => (true, s) | _ => (false, s) end.

Definition signed (neg : bool) (z : Z) : Z := if neg then (- z)%Z else z.

Definition read_exponent (s : chars) : Z :=
  match s with
  | c :: s =>
      if (c =? 101)%Z || (c =? 69)%Z then
        let '(neg, s) := read_sign s in
        let '(d, _) := span_digits s in
        signed neg (digits_number d)
      else 0%Z
  | [] => 0%Z
  end.

Definition parseFloat (s : chars) : jsnum :=
  let '(neg, s) := read_sign (skip_white s) in
  if bool_decide (latin1 "Infinity" `prefix_of` s) then JInf neg
  else
    let '(whole, s) := span_digits s in
    let '(part, s) := match s with 46%Z :: s' => span_digits s' | _ => ([], s) end in
    match whole ++ part with
    | [] => JNaN
    | ds =>
        let e := (read_exponent s - Z.of_nat (length part))%Z in
        num (inject_Z (signed neg (digits_number ds)) * pow10 e)
    end.

(** [parseInt(s, 10)]. *)
Definition parseInt (s : chars) : jsnum :=
  let '(neg, s) := read_sign (skip_white s) in
  match fst (span_digits s) with
  | [] => JNaN
  | ds => num (inject_Z (signed neg (digits_number ds)))
  end.

(** The numbers of the landing page, and a few that are hard to print. *)
Example strings_of_numbers :
  number_string (parseFloat (latin1 "1166")) = latin1 "1166"
  /\ number_string (parseFloat (latin1 "0.0535")) = latin1 "0.0535"
  /\ number_string (parseFloat (latin1 " 1e23x")) = latin1 "1e+23"
  /\ number_string (parseFloat (latin1 "-.30000000000000004")) = latin1 "-0.30000000000000004"
  /\ number_string (num ((1 # 10) + (2 # 10))) = latin1 "0.3"
  /\ number_string (num (rnd (1 # 10) + rnd (2 # 10))) = latin1 "0.30000000000000004"
  /\ toFixed 1 (parseFloat (latin1 "4.1")) = latin1 "4.1"
  /\ toFixed 2 (parseFloat (latin1 "1.005")) = latin1 "1.00"
  /\ toFixed 0 (JFin (5 # 2)) = latin1 "3" /\ toFixed 3 (JFin 0) = latin1 "0.000"
  /\ parseInt (latin1 " 12px") = JFin 12 /\ parseInt (latin1 "px") = JNaN.
Proof. vm_compute. repeat split. Qed.
