(* ===== verification/NodeBuffer.v ===== *)
(** * Node's [Buffer], as far as the client uses it

    A buffer's contents are its list of bytes. The typed writes validate their
    arguments before touching a byte (Node throws [ERR_OUT_OF_RANGE]); an indexed
    store outside the buffer is ignored, as on every typed array. The operations
    that mutate run in the monad over the contents; the reads are functions. *)

From S2P Require Import Prelude.

(** [Buffer.alloc(n)]. *)
Definition buf_alloc (n : nat) : bytes := replicate n 0.

(** [buf[i] = v]: stores the low byte of [v]. *)
Definition buf_set (i : nat) (v : Z) : M bytes unit := modify (fun b => <[i := v mod 256]> b).

(** [buf.writeUInt32LE(v, off)]. *)
Definition writeUInt32LE (v : Z) (off : nat) : M bytes unit :=
  b ← get;
  if negb (bool_decide (is_u32 v)) then throw (err_out_of_range "value")
  else if negb (bool_decide (off + 4 <= length b)%nat) then throw (err_out_of_range "offset")
  else modify (splice off (le_bytes 4 v)).

(** [buf.writeBigUInt64LE(v, off)]. *)
Definition writeBigUInt64LE (v : Z) (off : nat) : M bytes unit :=
  b ← get;
  if negb (bool_decide (is_u64 v)) then throw (err_out_of_range "value")
  else if negb (bool_decide (off + 8 <= length b)%nat) then throw (err_out_of_range "offset")
  else modify (splice off (le_bytes 8 v)).

(** [buf.readUInt32LE(off)] and [buf.readBigUInt64LE(off)], for an offset in
    range (every call site of the client checks the length first). *)
Definition readUInt32LE (b : bytes) (off : nat) : Z := le_val (slice off (off + 4) b).
Definition readBigUInt64LE (b : bytes) (off : nat) : Z := le_val (slice off (off + 8) b).

(** [src.copy(target, off)]: as many bytes as fit. *)
Definition buf_copy (src : bytes) (off : nat) : M bytes unit :=
  modify (fun b => splice off (take (length b - off) src) b).

(** [buf.write(s, 0, "binary")]: as many Latin-1 bytes as fit. *)
Definition buf_write_binary (s : string) : M bytes unit := buf_copy (latin1 s) 0.

(** Running writes on a fresh buffer and keeping its contents. *)
Definition build_buffer (n : nat) (m : M bytes unit) : res bytes :=
  match m (buf_alloc n) with
  | (Ret _, b) => Ret b
  | (Throw e, _) => Throw e
  end.

(** ** Lemmas *)

Lemma writeUInt32LE_ok v off b :
  is_u32 v -> (off + 4 <= length b)%nat ->
  writeUInt32LE v off b = (Ret tt, splice off (le_bytes 4 v) b).
Proof.
  intros Hv Hoff. unfold writeUInt32LE. unfold_m.
  by rewrite !bool_decide_true by done.
Qed.

Lemma writeBigUInt64LE_ok v off b :
  is_u64 v -> (off + 8 <= length b)%nat ->
  writeBigUInt64LE v off b = (Ret tt, splice off (le_bytes 8 v) b).
Proof.
  intros Hv Hoff. unfold writeBigUInt64LE. unfold_m.
  by rewrite !bool_decide_true by done.
Qed.

Lemma writeBigUInt64LE_bad v off b :
  ~ is_u64 v -> writeBigUInt64LE v off b = (Throw (err_out_of_range "value"), b).
Proof. intros Hv. unfold writeBigUInt64LE. unfold_m. by rewrite bool_decide_false by done. Qed.

Lemma readUInt32LE_range b off :
  Forall is_byte b -> (off + 4 <= length b)%nat -> is_u32 (readUInt32LE b off).
Proof.
  intros Hb Hoff. unfold readUInt32LE, is_u32.
  pose proof (le_val_range (slice off (off + 4) b) (slice_byte _ _ _ Hb)) as H.
  rewrite length_slice in H by lia. replace (off + 4 - off)%nat with 4%nat in H by lia. exact H.
Qed.

Lemma readBigUInt64LE_range b off :
  Forall is_byte b -> (off + 8 <= length b)%nat -> is_u64 (readBigUInt64LE b off).
Proof.
  intros Hb Hoff. unfold readBigUInt64LE, is_u64.
  pose proof (le_val_range (slice off (off + 8) b) (slice_byte _ _ _ Hb)) as H.
  rewrite length_slice in H by lia. replace (off + 8 - off)%nat with 8%nat in H by lia. exact H.
Qed.

#[export] Hint Resolve readUInt32LE_range readBigUInt64LE_range : varta.
