(* ===== verification/Crc.v ===== *)
(** * CRC-32C (src/clients/node/src/vlp.ts)

    [CRC_TABLE] and [crc32c] are translated with the 32-bit operators of the
    language. The reference is the bit-serial division register of RFC 3720; the
    linear algebra of that register over GF(2) gives the detection theorems the
    frame decoder relies on. *)

From stdpp Require Import pmap.
From S2P Require Import Prelude.

(** ** The code *)

Definition POLY_REFLECTED : Z := 0x82f63b78.

(** One turn of the inner loop: [(c & 1) !== 0 ? (c >>> 1) ^ POLY : c >>> 1]. *)
Definition table_step (c : Z) : Z :=
  if negb (js_and c 1 =? 0) then js_xor (js_ushr c 1) POLY_REFLECTED else js_ushr c 1.

(** The table entry for [i]: eight turns, then [c >>> 0]. *)
Definition table_entry (i : Z) : Z := js_ushr (Nat.iter 8 table_step (js_ushr i 0)) 0.

Definition CRC_TABLE : list Z := table_entry <$> seqZ 0 256.

(** One turn of the byte loop. An index of the [Uint32Array] is always in range
    (it is masked with 0xff); the default stands for [undefined]. *)
Definition crc_turn (crc b : Z) : Z :=
  let idx := js_ushr (js_and (js_xor crc b) 0xff) 0 in
  js_ushr (js_xor (nth (Z.to_nat idx) CRC_TABLE 0) (js_ushr crc 8)) 0.

Definition crc32c (data : bytes) : Z :=
  js_ushr (js_xor (foldl crc_turn (js_ushr 0xffffffff 0) data) 0xffffffff) 0.

(** ** The reference: bit-serial division *)

(** One shift of the reflected register. *)
Definition lfsr (c : Z) : Z :=
  Z.lxor (Z.shiftr c 1) (if Z.odd c then POLY_REFLECTED else 0).

(** Feeding one byte: exclusive-or it in, shift eight times. *)
Definition lfsr_byte (c b : Z) : Z := Nat.iter 8 lfsr (Z.lxor c b).

Definition crc_spec (data : bytes) : Z :=
  Z.lxor (foldl lfsr_byte 0xffffffff data) 0xffffffff.

(** The register after a byte string, from an arbitrary start. *)
Definition crc_reg (c : Z) (data : bytes) : Z := foldl lfsr_byte c data.

(** Exclusive-or of two byte strings of the same length. *)
Definition xor_bytes (a b : bytes) : bytes := zip_with Z.lxor a b.

(** The register after one bit error at position [i] of a 256-bit message. *)
Definition syndrome (i : Z) : Z := Nat.iter 256 lfsr (2 ^ i).

(** The parity of a 32-bit register. *)
Definition parity32 (c : Z) : bool := foldr (fun i acc => xorb (Z.testbit c i) acc) false (seqZ 0 32).

(** The exclusive-ors of all pairs of a list, in order of position. *)
Fixpoint pair_xors (l : list Z) : list Z :=
  match l with
  | [] => []
  | x :: l => (Z.lxor x <$> l) ++ pair_xors l
  end.

(** Exclusive-or of a list. *)
Definition xor_all (l : list Z) : Z := foldr Z.lxor 0 l.

(** The positions of the bits in which two byte strings differ, seen as the
    little-endian numbers they denote. *)
Definition bit_errors (a b : bytes) : list Z :=
  filter (fun i => Z.testbit (Z.lxor (le_val a) (le_val b)) i = true)
         (seqZ 0 (8 * Z.of_nat (length a))).

(** Distinctness by insertion into a set, for evaluation. *)
Fixpoint all_new (seen : Pmap unit) (l : list Z) : bool :=
  match l with
  | [] => true
  | Zpos p :: l =>
      match seen !! p with
      | Some _ => false
      | None => all_new (<[p := tt]> seen) l
      end
  | _ => false
  end.

(** ** The register is linear *)

Lemma lfsr_lxor a b : lfsr (Z.lxor a b) = Z.lxor (lfsr a) (lfsr b).
Proof.
  unfold lfsr. rewrite Z.shiftr_lxor, <- !Z.bit0_odd, Z.lxor_spec.
  destruct (Z.testbit a 0), (Z.testbit b 0); cbn [xorb];
    rewrite ?Z.lxor_0_r; rewrite ?Z.lxor_assoc; try done.
  - rewrite (Z.lxor_comm POLY_REFLECTED), Z.lxor_assoc, Z.lxor_nilpotent. by rewrite Z.lxor_0_r.
  - f_equal. by rewrite Z.lxor_comm.
Qed.

Lemma iter_lfsr_lxor n a b :
  Nat.iter n lfsr (Z.lxor a b) = Z.lxor (Nat.iter n lfsr a) (Nat.iter n lfsr b).
Proof. induction n as [|n IH]; [done|]. by rewrite !Nat.iter_succ, IH, lfsr_lxor. Qed.

Lemma iter_lfsr_0 n : Nat.iter n lfsr 0 = 0.
Proof. induction n as [|n IH]; [done|]. by rewrite Nat.iter_succ, IH. Qed.

Lemma lfsr_double h : lfsr (2 * h) = h.
Proof.
  unfold lfsr. replace (Z.odd (2 * h)) with false by (by rewrite Z.odd_mul).
  rewrite Z.lxor_0_r, Z.shiftr_div_pow2 by lia.
  change (2 ^ 1) with 2. rewrite Z.mul_comm. by apply Z.div_mul.
Qed.

Lemma iter_lfsr_shift n h : Nat.iter n lfsr (2 ^ Z.of_nat n * h) = h.
Proof.
  induction n as [|n IH]; [by rewrite Z.mul_1_l|].
  rewrite Nat.iter_succ_r, Nat2Z.inj_succ, Z.pow_succ_r, <- Z.mul_assoc, lfsr_double by lia.
  exact IH.
Qed.

Lemma iter_lfsr_shift8 h : Nat.iter 8 lfsr (256 * h) = h.
Proof. exact (iter_lfsr_shift 8 h). Qed.

Lemma lfsr_u32 c : is_u32 c -> is_u32 (lfsr c).
Proof.
  intros H. unfold lfsr. apply lxor_u32; [by apply shiftr_u32|].
  unfold is_u32. destruct (Z.odd c); cbv; split; congruence.
Qed.

Lemma iter_lfsr_u32 n c : is_u32 c -> is_u32 (Nat.iter n lfsr c).
Proof. intros H. induction n; [done|]. rewrite Nat.iter_succ. by apply lfsr_u32. Qed.

Lemma lfsr_eq_0 c : is_u32 c -> lfsr c = 0 -> c = 0.
Proof.
  unfold is_u32. intros Hc. unfold lfsr. intros Heq%Z.lxor_eq.
  rewrite Z.shiftr_div_pow2 in Heq by lia. change (2 ^ 1) with 2 in Heq.
  pose proof (Z.div_mod c 2 ltac:(lia)) as Hdm. rewrite Zmod_odd in Hdm.
  destruct (Z.odd c); unfold POLY_REFLECTED in *; lia.
Qed.

Lemma iter_lfsr_eq_0 n c : is_u32 c -> Nat.iter n lfsr c = 0 -> c = 0.
Proof.
  intros Hc. induction n as [|n IH]; [done|]. rewrite Nat.iter_succ. intros H.
  apply IH, lfsr_eq_0; [by apply iter_lfsr_u32|done].
Qed.

Lemma iter_lfsr_inj n a b :
  is_u32 a -> is_u32 b -> Nat.iter n lfsr a = Nat.iter n lfsr b -> a = b.
Proof.
  intros Ha Hb H. apply Z.lxor_eq, (iter_lfsr_eq_0 n); [auto with varta|].
  by rewrite iter_lfsr_lxor, H, Z.lxor_nilpotent.
Qed.

(** Adding a low byte to a multiple of 256 is an exclusive-or. *)
Lemma byte_plus_lxor b h : is_byte b -> b + 256 * h = Z.lxor b (256 * h).
Proof.
  intros Hb. apply Z.add_nocarry_lxor.
  apply Z.bits_inj'. intros i Hi. rewrite Z.land_spec, Z.testbit_0_l.
  destruct (Z.lt_ge_cases i 8) as [Hlt|Hge].
  - change 256 with (2 ^ 8). rewrite (Z.mul_comm _ h), Z.mul_pow2_bits_low by lia.
    apply andb_false_r.
  - apply (width_bits 8) in Hb as [_ Hb]; [|lia]. by rewrite Hb.
Qed.

(** Feeding a byte string is one long division of the number it denotes. *)
Lemma crc_reg_le_val c w :
  Forall is_byte w -> crc_reg c w = Nat.iter (8 * length w) lfsr (Z.lxor c (le_val w)).
Proof.
  intros Hw. revert c. induction Hw as [|b w Hb _ IH]; intros c; cbn [le_val length].
  - by rewrite Z.lxor_0_r.
  - cbn [crc_reg foldl]. fold (crc_reg (lfsr_byte c b) w). rewrite IH.
    replace (8 * S (length w))%nat with (8 * length w + 8)%nat by lia.
    rewrite Nat.iter_add. unfold lfsr_byte.
    rewrite byte_plus_lxor, <- Z.lxor_assoc, (iter_lfsr_lxor 8 _ (256 * _)) by done.
    by rewrite iter_lfsr_shift8.
Qed.

(** ** The code computes the reference *)

Lemma js_ushr_0 a : js_ushr a 0 = wrap32 a.
Proof. apply Z.shiftr_0_r. Qed.

Lemma js_ushr_xor a b : is_u32 a -> is_u32 b -> js_ushr (js_xor a b) 0 = Z.lxor a b.
Proof.
  intros Ha Hb. unfold js_xor. rewrite js_ushr_0, wrap32_to_int32.
  rewrite !(wrap32_id a), !(wrap32_id b) by done. apply wrap32_id. auto with varta.
Qed.

Lemma js_and_1_odd c : (js_and c 1 =? 0) = negb (Z.odd (wrap32 c)).
Proof.
  unfold js_and. change (wrap32 1) with (Z.ones 1). rewrite Z.land_ones by lia.
  change (2 ^ 1) with 2. rewrite Zmod_odd. by destruct (Z.odd (wrap32 c)).
Qed.

Lemma table_step_lfsr c : wrap32 (table_step c) = lfsr (wrap32 c).
Proof.
  assert (is_u32 POLY_REFLECTED) by (split; done).
  unfold table_step, lfsr, js_xor, js_ushr. rewrite js_and_1_odd, negb_involutive.
  pose proof (shiftr_u32 (wrap32 c) 1 ltac:(lia) (wrap32_range c)).
  destruct (Z.odd (wrap32 c)).
  - rewrite wrap32_to_int32, !(wrap32_id (Z.shiftr _ _)), (wrap32_id POLY_REFLECTED) by done.
    apply wrap32_id. auto with varta.
  - rewrite Z.lxor_0_r. by apply wrap32_id.
Qed.

Lemma table_entry_lfsr i : is_u32 i -> table_entry i = Nat.iter 8 lfsr i.
Proof.
  intros Hi. unfold table_entry. rewrite !js_ushr_0, (wrap32_id i) by done.
  cut (forall n, wrap32 (Nat.iter n table_step i) = Nat.iter n lfsr i); [done|].
  intros n. induction n as [|n IH]; [by apply wrap32_id|].
  by rewrite !Nat.iter_succ, table_step_lfsr, IH.
Qed.

Lemma CRC_TABLE_lookup i :
  is_byte i -> nth (Z.to_nat i) CRC_TABLE 0 = Nat.iter 8 lfsr i.
Proof.
  unfold is_byte. intros Hi. rewrite <- table_entry_lfsr by (unfold is_u32; lia).
  rewrite nth_lookup. unfold CRC_TABLE. rewrite list_lookup_fmap, lookup_seqZ_lt by lia.
  cbn. f_equal. lia.
Qed.

(** The low byte of a register and the rest of it. *)
Lemma split_low_byte x : 0 <= x -> x = Z.lxor (Z.land x 255) (256 * Z.shiftr x 8).
Proof.
  intros Hx. rewrite <- byte_plus_lxor.
  - change 255 with (Z.ones 8). rewrite Z.land_ones, Z.shiftr_div_pow2 by lia.
    change (2 ^ 8) with 256. pose proof (Z.div_mod x 256). lia.
  - change 255 with (Z.ones 8). rewrite Z.land_ones by lia. apply Z.mod_pos_bound. lia.
Qed.

Lemma shiftr8_byte b : is_byte b -> Z.shiftr b 8 = 0.
Proof. unfold is_byte. intros Hb. rewrite Z.shiftr_div_pow2 by lia. by apply Z.div_small. Qed.

Lemma crc_turn_lfsr crc b : is_u32 crc -> is_byte b -> crc_turn crc b = lfsr_byte crc b.
Proof.
  intros Hc Hb. assert (is_u32 b) as Hb' by (unfold is_u32, is_byte in *; lia).
  assert (is_u32 (Z.lxor crc b)) as Hx by auto with varta.
  unfold crc_turn, lfsr_byte, js_and.
  assert (wrap32 (js_xor crc b) = Z.lxor crc b) as ->.
  { rewrite <- js_ushr_0. by apply js_ushr_xor. }
  rewrite (js_ushr_0 (to_int32 _)), wrap32_to_int32. change (wrap32 255) with 255.
  assert (is_byte (Z.land (Z.lxor crc b) 255)) as Hidx.
  { change 255 with (Z.ones 8). rewrite Z.land_ones by lia. apply Z.mod_pos_bound. lia. }
  rewrite (wrap32_id (Z.land _ _)) by (unfold is_u32, is_byte in *; lia).
  rewrite CRC_TABLE_lookup by done. unfold js_ushr at 2. rewrite (wrap32_id crc) by done.
  rewrite js_ushr_xor.
  - rewrite (split_low_byte (Z.lxor crc b)) at 2 by apply Hx.
    rewrite iter_lfsr_lxor. f_equal.
    rewrite iter_lfsr_shift8, Z.shiftr_lxor.
    by rewrite (shiftr8_byte b), Z.lxor_0_r by done.
  - apply iter_lfsr_u32. unfold is_u32, is_byte in *; lia.
  - by apply shiftr_u32.
Qed.

Lemma crc_reg_u32 c w : is_u32 c -> Forall is_byte w -> is_u32 (crc_reg c w).
Proof.
  intros Hc Hw. revert c Hc. induction Hw as [|b w Hb _ IH]; intros c Hc; [done|].
  apply IH. unfold lfsr_byte. apply iter_lfsr_u32, lxor_u32; [done|].
  unfold is_u32, is_byte in *; lia.
Qed.

Lemma foldl_crc_turn c w :
  is_u32 c -> Forall is_byte w -> foldl crc_turn c w = crc_reg c w.
Proof.
  intros Hc Hw. revert c Hc. induction Hw as [|b w Hb _ IH]; intros c Hc; [done|].
  cbn [foldl]. rewrite crc_turn_lfsr by done. apply IH.
  unfold lfsr_byte. apply iter_lfsr_u32, lxor_u32; [done|]. unfold is_u32, is_byte in *; lia.
Qed.

Lemma u32_ones : is_u32 0xffffffff.
Proof. split; done. Qed.

#[export] Hint Resolve u32_ones crc_reg_u32 iter_lfsr_u32 : varta.

Lemma crc32c_reg data :
  Forall is_byte data -> crc32c data = Z.lxor (crc_reg 0xffffffff data) 0xffffffff.
Proof.
  intros Hd. unfold crc32c. change (js_ushr 0xffffffff 0) with 0xffffffff.
  rewrite foldl_crc_turn by auto with varta.
  apply js_ushr_xor; auto with varta.
Qed.

Lemma crc32c_u32 data : Forall is_byte data -> is_u32 (crc32c data).
Proof. intros Hd. rewrite crc32c_reg by done. auto with varta. Qed.

#[export] Hint Resolve crc32c_u32 : varta.

(** ** Linear codes: what a corrupted message does to the register *)

Lemma le_val_xor_bytes a b :
  length a = length b -> Forall is_byte a -> Forall is_byte b ->
  le_val (xor_bytes a b) = Z.lxor (le_val a) (le_val b).
Proof.
  intros Hlen Ha. revert b Hlen. induction Ha as [|x a Hx _ IH]; intros [|y b] Hlen Hb;
    try discriminate; [done|]. apply list.Forall_cons in Hb as [Hy Hb]. injection Hlen as Hlen.
  cbn [xor_bytes zip_with le_val]. fold (xor_bytes a b). rewrite IH by done.
  rewrite !byte_plus_lxor by auto with varta.
  replace (256 * Z.lxor (le_val a) (le_val b))
    with (Z.lxor (256 * le_val a) (256 * le_val b)).
  - rewrite !Z.lxor_assoc. f_equal. rewrite <- !Z.lxor_assoc. f_equal. apply Z.lxor_comm.
  - rewrite !(Z.mul_comm 256). change 256 with (2 ^ 8).
    by rewrite <- !Z.shiftl_mul_pow2, Z.shiftl_lxor by lia.
Qed.

Lemma xor_bytes_byte a b :
  Forall is_byte a -> Forall is_byte b -> Forall is_byte (xor_bytes a b).
Proof.
  intros Ha. revert b. induction Ha as [|x a Hx _ IH]; intros [|y b] Hb; try constructor.
  - apply list.Forall_cons in Hb as [Hy _]. by apply lxor_byte.
  - apply list.Forall_cons in Hb as [_ Hb]. by apply IH.
Qed.

Lemma length_xor_bytes a b : length a = length b -> length (xor_bytes a b) = length a.
Proof. intros H. unfold xor_bytes. rewrite length_zip_with. lia. Qed.

(** The registers of two messages of one length differ by the register of their
    difference, started at zero. *)
Lemma crc_reg_diff c a b :
  length a = length b -> Forall is_byte a -> Forall is_byte b ->
  Z.lxor (crc_reg c a) (crc_reg c b) = crc_reg 0 (xor_bytes a b).
Proof.
  intros Hlen Ha Hb. rewrite !crc_reg_le_val by auto using xor_bytes_byte.
  rewrite length_xor_bytes, Hlen, <- iter_lfsr_lxor, le_val_xor_bytes, Z.lxor_0_l by done.
  f_equal. rewrite <- Z.lxor_assoc, (Z.lxor_comm c), (Z.lxor_assoc _ c c).
  by rewrite Z.lxor_nilpotent, Z.lxor_0_r.
Qed.

(** A nonzero difference confined to four consecutive bytes never vanishes. *)
Lemma crc_reg_burst pre w post :
  (length w <= 4)%nat -> Forall is_byte w -> le_val w <> 0 ->
  crc_reg 0 (replicate pre 0 ++ w ++ replicate post 0) <> 0.
Proof.
  intros Hlen Hw Hnz H.
  assert (forall n, Forall is_byte (replicate n 0)) as Hzb.
  { intros n. apply Forall_replicate. unfold is_byte; lia. }
  assert (forall n, le_val (replicate n 0) = 0) as Hz.
  { intros n. induction n as [|n IH]; [done|]. cbn. rewrite IH. done. }
  unfold crc_reg in H. rewrite !foldl_app in H. fold (crc_reg 0 (replicate pre 0)) in H.
  rewrite (crc_reg_le_val 0 (replicate pre 0)), Hz in H by done.
  cbn [Z.lxor] in H. rewrite iter_lfsr_0 in H. fold (crc_reg 0 w) in H.
  fold (crc_reg (crc_reg 0 w) (replicate post 0)) in H.
  assert (is_u32 (le_val w)) as Hu.
  { pose proof (le_val_range w Hw) as Hr. unfold is_u32. split; [lia|].
    apply (Z.lt_le_trans _ (256 ^ Z.of_nat (length w))); [lia|].
    change (2 ^ 32) with (256 ^ 4). apply Z.pow_le_mono_r; lia. }
  rewrite crc_reg_le_val, Hz, Z.lxor_0_r in H by done.
  apply iter_lfsr_eq_0 in H; [|apply crc_reg_u32; [split; lia|done]].
  rewrite crc_reg_le_val, Z.lxor_0_l in H by done.
  by apply iter_lfsr_eq_0 in H.
Qed.

(** ** Few-bit errors *)

Lemma xor_all_bits N n :
  0 <= n -> 0 <= N < 2 ^ n ->
  N = xor_all (Z.pow 2 <$> filter (fun i => Z.testbit N i = true) (seqZ 0 n)).
Proof.
  intros Hn HN. apply Z.bits_inj'. intros i Hi.
  assert (forall l, Forall (fun j => 0 <= j) l -> NoDup l ->
    Z.testbit (xor_all (Z.pow 2 <$> l)) i = bool_decide (i ∈ l)) as Hx.
  { intros l Hl. induction Hl as [|j l Hj Hl IH]; intros Hnd; [apply Z.testbit_0_l|].
    apply list.NoDup_cons in Hnd as [Hj' Hnd]. cbn [fmap list_fmap xor_all foldr].
    rewrite Z.lxor_spec. fold (xor_all (Z.pow 2 <$> l)). rewrite IH by done.
    rewrite Z.pow2_bits_eqb by done. destruct (Z.eqb_spec j i) as [->|Hne].
    - rewrite (bool_decide_false (i ∈ l)), bool_decide_true by (done || constructor). done.
    - rewrite xorb_false_l. apply bool_decide_ext. rewrite elem_of_cons.
      split; [by right|]. by intros [->|]. }
  rewrite Hx.
  - destruct (Z.testbit N i) eqn:E; symmetry.
    + apply bool_decide_eq_true, list_elem_of_filter. split; [done|].
      apply elem_of_seqZ. destruct (Z.lt_ge_cases i n) as [|Hge]; [lia|].
      apply width_bits in HN as [_ HN]; [|done]. by rewrite HN in E.
    + apply bool_decide_eq_false. intros [Ht _]%list_elem_of_filter. congruence.
  - apply Forall_forall. intros j [_ Hj%elem_of_seqZ]%list_elem_of_In%list_elem_of_filter. lia.
  - apply list.NoDup_filter, NoDup_seqZ.
Qed.

Lemma iter_lfsr_xor_all n l :
  Nat.iter n lfsr (xor_all l) = xor_all (Nat.iter n lfsr <$> l).
Proof.
  induction l as [|x l IH]; [apply iter_lfsr_0|]. rewrite fmap_cons.
  cbn [xor_all foldr]. fold (xor_all l). by rewrite iter_lfsr_lxor, IH.
Qed.

Lemma parity32_lxor a b : parity32 (Z.lxor a b) = xorb (parity32 a) (parity32 b).
Proof.
  unfold parity32. induction (seqZ 0 32) as [|i l IH]; [done|]. cbn [foldr].
  rewrite IH, Z.lxor_spec.
  destruct (Z.testbit a i), (Z.testbit b i); cbn;
    repeat (destruct (foldr _ _ _)); done.
Qed.

Lemma parity32_xor_all l :
  Forall (fun x => parity32 x = true) l -> parity32 (xor_all l) = Nat.odd (length l).
Proof.
  induction 1 as [|x l Hx _ IH]; [done|]. cbn [xor_all foldr length].
  fold (xor_all l). rewrite parity32_lxor, Hx, IH, Nat.odd_succ, <- Nat.negb_odd. done.
Qed.

Lemma pair_xors_sublist l k : l `sublist_of` k -> pair_xors l `sublist_of` pair_xors k.
Proof.
  induction 1 as [|x l k H IH|x l k H IH]; [done|..]; cbn.
  - apply sublist_app; [|done]. by apply fmap_sublist.
  - etrans; [exact IH|]. by apply sublist_inserts_l.
Qed.

Lemma all_new_NoDup seen l :
  all_new seen l = true -> NoDup l /\ (forall p, is_Some (seen !! p) -> Zpos p ∉ l) /\ 0 ∉ l.
Proof.
  revert seen. induction l as [|[|q|q] l IH]; intros seen H; cbn in H; try discriminate.
  - split_and!; [constructor|set_solver..].
  - destruct (seen !! q) as [?|] eqn:Hq; [discriminate|].
    apply IH in H as (Hnd & Hseen & H0). split_and!; [| |set_solver].
    + constructor; [|done]. apply Hseen. rewrite lookup_insert_eq. eauto.
    + intros p [x Hp]. rewrite not_elem_of_cons. split; [congruence|].
      apply Hseen. rewrite lookup_insert_ne by congruence. eauto.
Qed.

(** All 256 syndromes are odd, and all 32,640 sums of two of them are distinct
    and nonzero (evaluated). *)
Definition syndromes : list Z := Eval vm_compute in (syndrome <$> seqZ 0 256).

Lemma syndromes_eq : syndrome <$> seqZ 0 256 = syndromes.
Proof. vm_compute. reflexivity. Qed.

Lemma syndromes_odd : forallb parity32 syndromes = true.
Proof. vm_compute. reflexivity. Qed.

Lemma syndrome_sums_new : all_new ∅ (pair_xors syndromes) = true.
Proof. vm_compute. reflexivity. Qed.

Lemma few_syndromes xs :
  xs `sublist_of` syndromes -> (0 < length xs <= 5)%nat -> xor_all xs <> 0.
Proof.
  intros Hs Hlen H0.
  assert (Forall (fun x => parity32 x = true) xs) as Hpar.
  { pose proof syndromes_odd as Ho. rewrite forallb_forall in Ho.
    apply Forall_forall. intros x Hx. apply Ho, list_elem_of_In.
    eapply elem_of_sublist; [by apply list_elem_of_In|done]. }
  pose proof (parity32_xor_all _ Hpar) as Hp. rewrite H0 in Hp.
  change (parity32 0) with false in Hp.
  pose proof (pair_xors_sublist _ _ Hs) as Hpairs.
  destruct (all_new_NoDup _ _ syndrome_sums_new) as (Hnd & _ & Hn0).
  destruct xs as [|a [|b [|c [|d [|e [|]]]]]]; cbn in Hlen, Hp; try lia; try discriminate.
  - apply Hn0. eapply elem_of_sublist; [|exact Hpairs].
    cbn in H0 |- *. rewrite Z.lxor_0_r in H0. rewrite H0. by left.
  - pose proof (sublist_NoDup _ _ Hnd Hpairs) as Hnd'. cbn in H0, Hnd'.
    rewrite Z.lxor_0_r, <- Z.lxor_assoc in H0. apply Z.lxor_eq in H0.
    apply list.NoDup_cons in Hnd' as [Hnin _]. apply Hnin. rewrite H0.
    do 4 right. by left.
Qed.

Lemma syndrome_fmap (l : list Z) : Nat.iter 256 lfsr <$> (Z.pow 2 <$> l) = syndrome <$> l.
Proof. unfold syndrome. induction l as [|i l IH]; [done|]. rewrite !fmap_cons, IH. reflexivity. Qed.

Lemma bit_errors_sublist a b :
  bit_errors a b `sublist_of` seqZ 0 (8 * Z.of_nat (length a)).
Proof. apply sublist_filter. Qed.

(** One to five flipped bits of a 32-byte message always change the register. *)
Lemma crc_reg_few_bits c a b :
  length a = 32%nat -> length b = 32%nat -> Forall is_byte a -> Forall is_byte b ->
  (0 < length (bit_errors a b) <= 5)%nat -> crc_reg c a <> crc_reg c b.
Proof.
  intros Hla Hlb Ha Hb Hlen Heq.
  assert (crc_reg 0 (xor_bytes a b) = 0) as H.
  { rewrite <- (crc_reg_diff c) by congruence. rewrite Heq. apply Z.lxor_nilpotent. }
  pose proof (bit_errors_sublist a b) as Hsub. unfold bit_errors in *.
  rewrite Hla in Hsub, Hlen. change (8 * Z.of_nat 32) with 256 in *.
  rewrite crc_reg_le_val, Z.lxor_0_l, le_val_xor_bytes, length_xor_bytes, Hla in H
    by (auto using xor_bytes_byte; congruence).
  change (8 * 32)%nat with 256%nat in H.
  rewrite (xor_all_bits (Z.lxor (le_val a) (le_val b)) 256) in H; [|lia|].
  - rewrite iter_lfsr_xor_all, syndrome_fmap in H.
    eapply few_syndromes; [..|exact H]; [|by rewrite length_fmap].
    rewrite <- syndromes_eq. apply fmap_sublist, Hsub.
  - apply lxor_width; [lia|..].
    + pose proof (le_val_range a Ha) as Hr. by rewrite Hla in Hr.
    + pose proof (le_val_range b Hb) as Hr. by rewrite Hlb in Hr.
Qed.

(** The CRC trailer makes the register of the whole message a constant. *)
Lemma crc_reg_trailer data t :
  Forall is_byte data -> Forall is_byte t -> length t = 4%nat ->
  le_val t = crc32c data <->
  crc_reg 0xffffffff (data ++ t) = Nat.iter 32 lfsr 0xffffffff.
Proof.
  intros Hd Ht Hlen. rewrite crc32c_reg by done.
  unfold crc_reg at 2. rewrite foldl_app. fold (crc_reg 0xffffffff data).
  set (s := crc_reg 0xffffffff data). fold (crc_reg s t).
  rewrite crc_reg_le_val, Hlen by done. change (8 * 4)%nat with 32%nat.
  assert (is_u32 s) as Hs by (unfold s; auto with varta).
  assert (is_u32 (le_val t)) as Hv.
  { pose proof (le_val_range t Ht) as Hr. by rewrite Hlen in Hr. }
  split.
  - intros ->. by rewrite <- Z.lxor_assoc, Z.lxor_nilpotent, Z.lxor_0_l.
  - intros Hi. apply iter_lfsr_inj in Hi; auto with varta.
    rewrite <- Hi, <- Z.lxor_assoc, Z.lxor_nilpotent. by rewrite Z.lxor_0_l.
Qed.

(** ** Properties *)

(** C13. The table-driven [crc32c] of the client, written with the language's
    32-bit operators, computes on every byte string the bit-serial CRC-32C
    division with the reflected Castagnoli polynomial, and its result is always
    an unsigned 32-bit value. *)
Theorem crc32c_is_bitserial_crc (data : bytes) :
  Forall is_byte data -> crc32c data = crc_spec data /\ is_u32 (crc32c data).
Proof. intros Hd. split; [by apply crc32c_reg|auto with varta]. Qed.

Lemma crc32c_is_bitserial_crc_witness :
  crc32c (latin1 "123456789") = crc_spec (latin1 "123456789")
  /\ is_u32 (crc32c (latin1 "123456789")).
Proof.
  apply (crc32c_is_bitserial_crc (latin1 "123456789")).
  repeat constructor; vm_compute; congruence.
Defined.

(** The conformance vectors of tools/vlp-test-vectors.json. *)
Example crc_vector_empty : crc32c [] = 0.
Proof. vm_compute. reflexivity. Qed.

Example crc_vector_a : crc32c (latin1 "a") = 0xc1d04330.
Proof. vm_compute. reflexivity. Qed.

Example crc_vector_rfc3720 : crc32c (latin1 "123456789") = 0xe3069283.
Proof. vm_compute. reflexivity. Qed.

Example crc_vector_zeros : crc32c (replicate 32 0) = 0x8a9136aa.
Proof. vm_compute. reflexivity. Qed.

Example crc_vector_ffs : crc32c (replicate 32 255) = 0x62a8ab43.
Proof. vm_compute. reflexivity. Qed.
