(* ===== verification/Vlp.v ===== *)
(** * The VLP v0.2 frame (src/clients/node/src/vlp.ts)

    [coerceStatus], [encodeInto], [encode], [decode] as written, with the
    buffer's contents as the state of [encodeInto] so that a throw shows what it
    leaves behind. The specification side states the wire layout of
    book/src/spec/vlp.md section 6 and the normative decode order of section 5. *)

From stdpp Require Import pretty.
From S2P Require Import Prelude NodeBuffer Crc.

(** ** Constants and data *)

Definition MAGIC : bytes := [0x56; 0x41].
Definition VERSION : Z := 0x02.
Definition NONCE_TERMINAL : Z := 0xffffffffffffffff.
Definition TIMESTAMP_INVALID : Z := 0xffffffffffffffff.
Definition FRAME_BYTES : nat := 32.

Inductive Status : Type := Ok | Degraded | Critical | Stall.

#[export] Instance Status_eq_dec : EqDecision Status.
Proof. solve_decision. Defined.

(** The enum's numeric values. *)
Definition status_code (s : Status) : Z :=
  match s with Ok => 0 | Degraded => 1 | Critical => 2 | Stall => 3 end.

(** [StatusLike = Status | number | string]; an enum member is its number. *)
Inductive StatusLike : Type :=
| SLNum (n : jsnum)
| SLStr (s : string).

Definition sl_status (s : Status) : StatusLike := SLNum (jint (status_code s)).

(** What reading a property of the object literal [STATUS_BY_NAME] yields: one of
    its own values, a value inherited from [Object.prototype], or [undefined]. *)
Inductive looked_up : Type :=
| OwnStatus (s : Status)
| Inherited
| Undefined.

(** The property names of [Object.prototype]. *)
Definition object_prototype_keys : list string :=
  ["constructor"; "__defineGetter__"; "__defineSetter__"; "hasOwnProperty";
   "__lookupGetter__"; "__lookupSetter__"; "isPrototypeOf"; "propertyIsEnumerable";
   "toString"; "valueOf"; "__proto__"; "toLocaleString"]%string.

Definition STATUS_BY_NAME (key : string) : looked_up :=
  if decide (key = "ok"%string) then OwnStatus Ok
  else if decide (key = "degraded"%string) then OwnStatus Degraded
  else if decide (key = "critical"%string) then OwnStatus Critical
  else if decide (key = "stall"%string) then OwnStatus Stall
  else if decide (key ∈ object_prototype_keys) then Inherited
  else Undefined.

Inductive DecodeErrorKind : Type :=
| BadMagic | BadVersion | BadCrc | BadStatus | StallOnWire
| BadPid | BadTimestamp | BadNonce.

#[export] Instance DecodeErrorKind_eq_dec : EqDecision DecodeErrorKind.
Proof. solve_decision. Defined.

(** [DecodeError]: its [kind] and the [detail] its message carries. *)
Record DecodeError : Type := mkDecodeError { de_kind : DecodeErrorKind; de_detail : string }.

(** The decoded view of a frame. *)
Record Frame : Type := mkFrame {
  fr_status : Status;
  fr_pid : Z;
  fr_timestamp : Z;
  fr_nonce : Z;
  fr_payload : Z;
}.

(** ** Encoding *)

(** [status === Status.X] on a number. *)
Definition num_is (n : jsnum) (s : Status) : bool :=
  match n with
  | JFin q => Qeq_bool q (inject_Z (status_code s))
  | _ => false
  end.

(** [coerceStatus]. The number in the second message is left out. *)
Definition coerceStatus (status : StatusLike) : res looked_up :=
  match status with
  | SLStr str =>
      match STATUS_BY_NAME (to_lower str) with
      | Undefined => Throw (range_error ("unknown status name: " +:+ str))
      | s => Ret s
      end
  | SLNum n =>
      if num_is n Ok then Ret (OwnStatus Ok)
      else if num_is n Degraded then Ret (OwnStatus Degraded)
      else if num_is n Critical then Ret (OwnStatus Critical)
      else if num_is n Stall then Ret (OwnStatus Stall)
      else Throw (range_error "invalid status: ")
  end.

(** [s & 0xff]. An inherited member of [Object.prototype] is a function or an
    object, which the operator converts to NaN and then to 0. *)
Definition status_byte (s : looked_up) : Z :=
  match s with
  | OwnStatus s => js_and (status_code s) 0xff
  | _ => 0
  end.

Definition encodeInto (status : StatusLike) (pid : jsnum) (timestamp nonce : Z)
    (payload : jsnum) : M bytes unit :=
  buf ← get;
  if bool_decide (length buf < FRAME_BYTES)%nat
  then throw (range_error "buffer must be at least 32 bytes")
  else
    s ← lift_res (coerceStatus status);
    buf_set 0 0x56;;
    buf_set 1 0x41;;
    buf_set 2 VERSION;;
    buf_set 3 (status_byte s);;
    writeUInt32LE (to_uint32 pid) 4;;
    writeBigUInt64LE timestamp 8;;
    writeBigUInt64LE nonce 16;;
    writeUInt32LE (to_uint32 payload) 24;;
    crc ← gets (fun b => crc32c (slice 0 28 b));
    writeUInt32LE crc 28.

Definition encode (status : StatusLike) (pid : jsnum) (timestamp nonce : Z)
    (payload : jsnum) : res bytes :=
  build_buffer FRAME_BYTES (encodeInto status pid timestamp nonce payload).

(** ** Decoding *)

(** [n.toString(16)] for a nonnegative integer below [16 ^ fuel]. *)
Fixpoint hex_digits (fuel : nat) (n : Z) (acc : string) : string :=
  match fuel with
  | O => acc
  | S fuel =>
      let d := n mod 16 in
      let c := Ascii.ascii_of_N (Z.to_N (if d <? 10 then 48 + d else 87 + d)) in
      if n <? 16 then String c acc else hex_digits fuel (n / 16) (String c acc)
  end.

(** [n.toString(16).padStart(w, "0")]. *)
Definition hex_pad (w : nat) (n : Z) : string :=
  let s := hex_digits 16 n "" in
  Nat.iter (w - String.length s) (String (Ascii.ascii_of_nat 48)) s.

(** [Buffer.from(b).toString("hex")]. *)
Definition hex_bytes (b : bytes) : string :=
  foldr (fun x acc => String.append (hex_pad 2 x) acc) EmptyString b.

(** A byte of a buffer, in range at every use. *)
Definition byte_at (b : bytes) (i : nat) : Z := nth i b 0.

(** [statusByte as Status], for a byte known to be at most 3. *)
Definition status_of_byte (b : Z) : Status :=
  if b =? 0 then Ok else if b =? 1 then Degraded else if b =? 2 then Critical else Stall.

Definition decode (buf : bytes) : DecodeError + Frame :=
  if negb (bool_decide (length buf = FRAME_BYTES)) then
    inl (mkDecodeError BadMagic ("length " +:+ pretty (length buf) +:+ " != 32"))
  else if negb (byte_at buf 0 =? 0x56) || negb (byte_at buf 1 =? 0x41) then
    inl (mkDecodeError BadMagic (hex_bytes (slice 0 2 buf)))
  else if negb (byte_at buf 2 =? VERSION) then
    inl (mkDecodeError BadVersion ("0x" +:+ hex_pad 2 (byte_at buf 2)))
  else
    let storedCrc := readUInt32LE buf 28 in
    let computedCrc := crc32c (slice 0 28 buf) in
    if negb (storedCrc =? computedCrc) then
      inl (mkDecodeError BadCrc
             ("expected " +:+ hex_pad 8 computedCrc +:+ ", got " +:+ hex_pad 8 storedCrc))
    else
      let statusByte := byte_at buf 3 in
      if 3 <? statusByte then
        inl (mkDecodeError BadStatus ("0x" +:+ hex_pad 2 statusByte))
      else if statusByte =? status_code Stall then inl (mkDecodeError StallOnWire "")
      else
        let pid := readUInt32LE buf 4 in
        let timestamp := readBigUInt64LE buf 8 in
        let nonce := readBigUInt64LE buf 16 in
        let payload := readUInt32LE buf 24 in
        if (pid =? 0) || (pid =? 1) then inl (mkDecodeError BadPid (pretty pid))
        else if timestamp =? TIMESTAMP_INVALID then inl (mkDecodeError BadTimestamp "")
        else if (nonce =? NONCE_TERMINAL) && negb (statusByte =? status_code Critical) then
          inl (mkDecodeError BadNonce
                 ("nonce=NONCE_TERMINAL paired with status=0x" +:+ hex_pad 2 statusByte))
        else inr (mkFrame (status_of_byte statusByte) pid timestamp nonce payload).

Definition decodeFrame (buf : bytes) : DecodeError + Frame := decode buf.

(** ** Specification *)

(** The 28 bytes the CRC covers, and the whole frame (spec section 6). *)
Definition frame_head (s pid timestamp nonce payload : Z) : bytes :=
  [0x56; 0x41; 0x02; s] ++ le_bytes 4 pid ++ le_bytes 8 timestamp
    ++ le_bytes 8 nonce ++ le_bytes 4 payload.

Definition frame_wire (s pid timestamp nonce payload : Z) : bytes :=
  let head := frame_head s pid timestamp nonce payload in
  head ++ le_bytes 4 (crc32c head).

(** The frames an agent may put on the wire. *)
Definition valid_frame (f : Frame) : Prop :=
  fr_status f <> Stall /\ is_u32 (fr_pid f) /\ 2 <= fr_pid f
  /\ is_u64 (fr_timestamp f) /\ fr_timestamp f <> TIMESTAMP_INVALID
  /\ is_u64 (fr_nonce f) /\ (fr_nonce f = NONCE_TERMINAL -> fr_status f = Critical)
  /\ is_u32 (fr_payload f).

(** The eight validation steps of spec section 5, in their normative order, each
    with the predicate a frame must satisfy to pass it. *)
Definition decode_steps : list (DecodeErrorKind * (bytes -> bool)) :=
  [(BadMagic, fun b => bool_decide (length b = 32%nat /\ slice 0 2 b = MAGIC));
   (BadVersion, fun b => byte_at b 2 =? 0x02);
   (BadCrc, fun b => readUInt32LE b 28 =? crc32c (slice 0 28 b));
   (BadStatus, fun b => byte_at b 3 <=? 3);
   (StallOnWire, fun b => negb (byte_at b 3 =? 3));
   (BadPid, fun b => negb (readUInt32LE b 4 <=? 1));
   (BadTimestamp, fun b => negb (readBigUInt64LE b 8 =? TIMESTAMP_INVALID));
   (BadNonce, fun b => negb (readBigUInt64LE b 16 =? NONCE_TERMINAL) || (byte_at b 3 =? 2))].

Fixpoint first_failure (steps : list (DecodeErrorKind * (bytes -> bool))) (b : bytes)
    : option DecodeErrorKind :=
  match steps with
  | [] => None
  | (k, ok) :: steps => if ok b then first_failure steps b else Some k
  end.

(** The fields of a frame, read off the wire at their offsets. *)
Definition frame_fields (b : bytes) : Frame :=
  mkFrame (status_of_byte (byte_at b 3)) (readUInt32LE b 4) (readBigUInt64LE b 8)
          (readBigUInt64LE b 16) (readUInt32LE b 24).

(** ** Layout lemmas *)

#[local] Arguments crc32c : simpl never.
#[local] Arguments le_bytes : simpl never.
#[local] Arguments Z.modulo : simpl never.
#[local] Arguments Z.div : simpl never.

Lemma length_frame_head s p t n pl : length (frame_head s p t n pl) = 28%nat.
Proof. unfold frame_head. rewrite !length_app, !length_le_bytes. done. Qed.

Lemma length_frame_wire s p t n pl : length (frame_wire s p t n pl) = 32%nat.
Proof. unfold frame_wire. by rewrite length_app, length_frame_head, length_le_bytes. Qed.

Lemma frame_head_byte s p t n pl : is_byte s -> Forall is_byte (frame_head s p t n pl).
Proof.
  intros Hs. unfold frame_head. repeat (apply Forall_app; split); auto with varta.
  repeat constructor; unfold is_byte in *; lia.
Qed.

Lemma frame_wire_byte s p t n pl : is_byte s -> Forall is_byte (frame_wire s p t n pl).
Proof. intros Hs. apply Forall_app; split; auto using frame_head_byte with varta. Qed.

Lemma status_byte_range s : 0 <= status_byte s <= 3.
Proof. destruct s as [[]| |]; vm_compute; split; discriminate. Qed.

Lemma status_byte_mod s : status_byte s mod 256 = status_byte s.
Proof. pose proof (status_byte_range s). apply Z.mod_small. lia. Qed.

(** The writes of [encodeInto] on a buffer that is long enough, step by step. *)
Lemma encodeInto_layout st s p t n pl buf :
  (FRAME_BYTES <= length buf)%nat -> coerceStatus st = Ret s -> is_u64 t -> is_u64 n ->
  encodeInto st p t n pl buf
  = (Ret tt, frame_wire (status_byte s) (to_uint32 p) t n (to_uint32 pl) ++ drop 32 buf).
Proof.
  intros Hlen Hs Ht Hn. unfold encodeInto, FRAME_BYTES in *. unfold_m.
  rewrite bool_decide_false by lia. rewrite Hs. unfold buf_set, modify.
  do 32 (destruct buf as [|? buf]; [cbn in Hlen; lia|]). clear Hlen.
  cbn [insert list_insert]. rewrite status_byte_mod.
  change (0x56 mod 256) with 0x56. change (0x41 mod 256) with 0x41.
  change (VERSION mod 256) with 0x02.
  assert (Forall is_byte (frame_head (status_byte s) (to_uint32 p) t n (to_uint32 pl))) as Hb.
  { apply frame_head_byte. pose proof (status_byte_range s). unfold is_byte. lia. }
  apply crc32c_u32 in Hb as Hcrc. unfold frame_wire, frame_head in *.
  destruct (le4_elems (to_uint32 p)) as (? & ? & ? & ? & Hup).
  destruct (le4_elems (to_uint32 pl)) as (? & ? & ? & ? & Hupl).
  destruct (le8_elems t) as (? & ? & ? & ? & ? & ? & ? & ? & Hut).
  destruct (le8_elems n) as (? & ? & ? & ? & ? & ? & ? & ? & Hun).
  rewrite Hup, Hut, Hun, Hupl in *.
  rewrite writeUInt32LE_ok, Hup by (auto with varta || (cbn; lia)). cbn.
  rewrite writeBigUInt64LE_ok, Hut by (done || (cbn; lia)). cbn.
  rewrite writeBigUInt64LE_ok, Hun by (done || (cbn; lia)). cbn.
  rewrite writeUInt32LE_ok, Hupl by (auto with varta || (cbn; lia)). cbn.
  rewrite writeUInt32LE_ok by (done || (cbn; lia)).
  cbn in *. name_fields. reflexivity.
Qed.

(** Reading the fields of a frame back at their offsets. *)
Lemma frame_wire_reads s p t n pl :
  is_byte s -> is_u32 p -> is_u64 t -> is_u64 n -> is_u32 pl ->
  let w := frame_wire s p t n pl in
  slice 0 2 w = MAGIC /\ byte_at w 2 = VERSION /\ byte_at w 3 = s
  /\ slice 0 28 w = frame_head s p t n pl
  /\ readUInt32LE w 28 = crc32c (frame_head s p t n pl)
  /\ readUInt32LE w 4 = p /\ readBigUInt64LE w 8 = t
  /\ readBigUInt64LE w 16 = n /\ readUInt32LE w 24 = pl.
Proof.
  intros Hs Hp Ht Hn Hpl w.
  assert (is_u32 (crc32c (frame_head s p t n pl))) as Hcrc
    by (apply crc32c_u32, frame_head_byte, Hs).
  pose proof (le_val_bytes4 p Hp) as Vp. pose proof (le_val_bytes4 pl Hpl) as Vpl.
  pose proof (le_val_bytes8 t Ht) as Vt. pose proof (le_val_bytes8 n Hn) as Vn.
  pose proof (le_val_bytes4 _ Hcrc) as Vcrc.
  unfold w, frame_wire. generalize dependent (crc32c (frame_head s p t n pl)). intros crc Hcrc Vcrc.
  unfold readUInt32LE, readBigUInt64LE, byte_at, slice, frame_head.
  name_fields. by split_and!.
Qed.

(** ** [decode] and its specification *)

Lemma magic_check b :
  length b = 32%nat ->
  negb (byte_at b 0 =? 0x56) || negb (byte_at b 1 =? 0x41) = negb (bool_decide (slice 0 2 b = MAGIC)).
Proof.
  intros Hlen. destruct b as [|x [|y b]]; try discriminate. unfold byte_at, slice, MAGIC. cbn.
  rewrite take_0. destruct (Z.eqb_spec x 86), (Z.eqb_spec y 65); cbn; symmetry;
    rewrite ?negb_true_iff, ?negb_false_iff; first [apply bool_decide_eq_true | apply bool_decide_eq_false]; congruence.
Qed.

Lemma decode_first_failure b :
  Forall is_byte b ->
  match first_failure decode_steps b with
  | Some k => exists d, decode b = inl (mkDecodeError k d)
  | None => decode b = inr (frame_fields b)
  end.
Proof.
  intros Hb. unfold decode, FRAME_BYTES. cbn [first_failure decode_steps].
  destruct (decide (length b = 32%nat)) as [Hlen|Hlen].
  2: { rewrite !bool_decide_false by tauto. cbn. eauto. }
  rewrite (bool_decide_true (length b = _)) by done. cbn [negb]. rewrite magic_check by done.
  replace (bool_decide (length b = 32%nat /\ slice 0 2 b = MAGIC))
    with (bool_decide (slice 0 2 b = MAGIC)) by (apply bool_decide_ext; tauto).
  case_bool_decide as Hm; cbn [negb]; [|eauto].
  change VERSION with 0x02. destruct (byte_at b 2 =? 0x02); cbn [negb]; [|eauto].
  destruct (readUInt32LE b 28 =? _); cbn [negb]; [|eauto].
  rewrite Z.ltb_antisym. destruct (byte_at b 3 <=? 3); cbn [negb]; [|eauto].
  change (status_code Stall) with 3. destruct (byte_at b 3 =? 3); cbn [negb]; [eauto|].
  pose proof (readUInt32LE_range b 4 Hb ltac:(lia)) as [Hp _].
  replace ((readUInt32LE b 4 =? 0) || (readUInt32LE b 4 =? 1)) with (readUInt32LE b 4 <=? 1) by lia.
  destruct (readUInt32LE b 4 <=? 1); cbn [negb]; [eauto|].
  destruct (readBigUInt64LE b 8 =? _); cbn [negb]; [eauto|].
  change (status_code Critical) with 2.
  destruct (readBigUInt64LE b 16 =? _), (byte_at b 3 =? 2); cbn; eauto.
Qed.

(** The wire form of a frame. *)
Definition wire_of (f : Frame) : bytes :=
  frame_wire (status_code (fr_status f)) (fr_pid f) (fr_timestamp f) (fr_nonce f) (fr_payload f).

Lemma coerceStatus_status s : coerceStatus (sl_status s) = Ret (OwnStatus s).
Proof. by destruct s. Qed.

Lemma status_byte_own s : status_byte (OwnStatus s) = status_code s.
Proof. by destruct s. Qed.

Lemma status_code_byte s : is_byte (status_code s).
Proof. destruct s; cbn; unfold is_byte; lia. Qed.

Lemma status_of_byte_code s : status_of_byte (status_code s) = s.
Proof. by destruct s. Qed.

Lemma status_code_of_byte b : 0 <= b <= 3 -> status_code (status_of_byte b) = b.
Proof. intros Hb. unfold status_of_byte. repeat case_match; boolify; cbn; lia. Qed.

#[export] Hint Resolve status_code_byte : varta.

(** [encodeInto] of a well-formed frame with any spelling of its status. *)
Lemma encodeInto_frame st f buf :
  (32 <= length buf)%nat -> coerceStatus st = Ret (OwnStatus (fr_status f)) ->
  is_u32 (fr_pid f) -> is_u64 (fr_timestamp f) -> is_u64 (fr_nonce f) -> is_u32 (fr_payload f) ->
  encodeInto st (jint (fr_pid f)) (fr_timestamp f) (fr_nonce f) (jint (fr_payload f)) buf
  = (Ret tt, wire_of f ++ drop 32 buf).
Proof.
  intros Hlen Hst Hp Ht Hn Hpl. rewrite (encodeInto_layout _ _ _ _ _ _ _ Hlen Hst) by done.
  by rewrite !to_uint32_jint, status_byte_own by done.
Qed.

(** What an accepted frame satisfies, field by field. *)
Lemma decode_inr b f :
  Forall is_byte b -> decode b = inr f ->
  first_failure decode_steps b = None /\ f = frame_fields b.
Proof.
  intros Hb Hd. pose proof (decode_first_failure b Hb) as D.
  destruct (first_failure decode_steps b); [destruct D; congruence|]. split; congruence.
Qed.

Lemma first_failure_none b :
  first_failure decode_steps b = None <->
  length b = 32%nat /\ slice 0 2 b = MAGIC /\ byte_at b 2 = 2
  /\ readUInt32LE b 28 = crc32c (slice 0 28 b) /\ byte_at b 3 <= 3 /\ byte_at b 3 <> 3
  /\ 2 <= readUInt32LE b 4 /\ readBigUInt64LE b 8 <> TIMESTAMP_INVALID
  /\ (readBigUInt64LE b 16 = NONCE_TERMINAL -> byte_at b 3 = 2).
Proof.
  cbn [first_failure decode_steps]. split.
  - intros H.
    repeat match type of H with context [if ?c then _ else _] => destruct c eqn:? end;
      try discriminate.
    boolify. split_and!; try tauto; lia.
  - intros (H0 & H1 & H2 & H3 & H4 & H5 & H6 & H7 & H8).
    rewrite bool_decide_true, H2, H3, !Z.eqb_refl by done.
    rewrite (proj2 (Z.leb_le _ _) H4), (proj2 (Z.eqb_neq _ _) H5), (proj2 (Z.eqb_neq _ _) H7).
    rewrite (proj2 (Z.leb_gt _ 1)) by lia. cbn [negb].
    destruct (Z.eqb_spec (readBigUInt64LE b 16) NONCE_TERMINAL) as [Hn|]; [|done].
    by rewrite (H8 Hn).
Qed.

Lemma decode_pass b :
  Forall is_byte b -> first_failure decode_steps b = None -> decode b = inr (frame_fields b).
Proof. intros Hb Hf. pose proof (decode_first_failure b Hb) as D. by rewrite Hf in D. Qed.

Lemma decode_wire_of f : valid_frame f -> decode (wire_of f) = inr f.
Proof.
  intros (Hst & Hp & Hp2 & Ht & Htv & Hn & Hnt & Hpl).
  destruct (frame_wire_reads (status_code (fr_status f)) (fr_pid f) (fr_timestamp f)
    (fr_nonce f) (fr_payload f) (status_code_byte _) Hp Ht Hn Hpl)
    as (R0 & R2 & R3 & R28 & Rc & R4 & R8 & R16 & R24).
  rewrite decode_pass.
  - unfold frame_fields, wire_of. rewrite R3, R4, R8, R16, R24, status_of_byte_code. by destruct f.
  - apply frame_wire_byte, status_code_byte.
  - apply first_failure_none. unfold wire_of. rewrite R0, R2, R3, R28, Rc, R4, R8, R16.
    split_and!; [apply length_frame_wire|reflexivity..| | |exact Hp2|exact Htv|].
    + destruct (fr_status f); cbn; lia.
    + destruct (fr_status f); cbn; congruence.
    + intros Hx. by rewrite (Hnt Hx).
Qed.

Lemma slice_all b : length b = 32%nat -> b = slice 0 28 b ++ slice 28 32 b.
Proof.
  intros Hlen. unfold slice. change (28 - 0)%nat with 28%nat. rewrite drop_0.
  rewrite (take_ge (drop 28 b)) by (rewrite length_drop; lia). by rewrite take_drop.
Qed.

(** A 32-byte string with the right magic and version is its fields laid out. *)
Lemma head_from_fields b :
  length b = 32%nat -> Forall is_byte b -> slice 0 2 b = MAGIC -> byte_at b 2 = 2 ->
  frame_head (byte_at b 3) (readUInt32LE b 4) (readBigUInt64LE b 8)
    (readBigUInt64LE b 16) (readUInt32LE b 24) = slice 0 28 b.
Proof.
  intros Hlen Hb Hm Hv. unfold frame_head, readUInt32LE, readBigUInt64LE.
  assert (forall i n, (i + n <= 32)%nat ->
    le_bytes n (le_val (slice i (i + n) b)) = slice i (i + n) b) as Hle.
  { intros i n Hi. replace n with (length (slice i (i + n) b)) at 1
      by (rewrite length_slice by lia; lia). apply le_bytes_le_val. auto with varta. }
  rewrite !(Hle _ 4%nat), !(Hle _ 8%nat) by lia. clear Hle Hb.
  explode b Hlen. unfold MAGIC, slice, byte_at in *. cbn in *. by simplify_eq.
Qed.

Lemma wire_from_fields b :
  length b = 32%nat -> Forall is_byte b -> slice 0 2 b = MAGIC -> byte_at b 2 = 2 ->
  readUInt32LE b 28 = crc32c (slice 0 28 b) ->
  frame_wire (byte_at b 3) (readUInt32LE b 4) (readBigUInt64LE b 8)
    (readBigUInt64LE b 16) (readUInt32LE b 24) = b.
Proof.
  intros Hlen Hb Hm Hv Hcrc. unfold frame_wire. rewrite head_from_fields, <- Hcrc by done.
  unfold readUInt32LE. change (28 + 4)%nat with 32%nat.
  pose proof (le_bytes_le_val (slice 28 32 b) (slice_byte _ _ _ Hb)) as Hle.
  rewrite length_slice in Hle by lia. change (32 - 28)%nat with 4%nat in Hle. rewrite Hle.
  symmetry. by apply slice_all.
Qed.

(** ** Corruption *)

(** The stored CRC matches exactly when the register of the whole frame is the
    CRC residue. *)
Lemma crc_check_residue b :
  length b = 32%nat -> Forall is_byte b ->
  readUInt32LE b 28 = crc32c (slice 0 28 b)
  <-> crc_reg 0xffffffff b = Nat.iter 32 lfsr 0xffffffff.
Proof.
  intros Hlen Hb. rewrite (slice_all b Hlen) at 3. unfold readUInt32LE.
  apply crc_reg_trailer; auto with varta. apply length_slice; lia.
Qed.

(** The verdict of the first three steps alone. *)
Lemma decode_bad_envelope b :
  Forall is_byte b -> length b = 32%nat ->
  readUInt32LE b 28 <> crc32c (slice 0 28 b) ->
  exists e, decode b = inl e /\ (de_kind e = BadMagic \/ de_kind e = BadVersion \/ de_kind e = BadCrc).
Proof.
  intros Hb Hlen Hcrc. pose proof (decode_first_failure b Hb) as D.
  cbn [first_failure decode_steps] in D. rewrite (proj2 (Z.eqb_neq _ _) Hcrc) in D.
  destruct (bool_decide _); [destruct (_ =? 2)|]; destruct D as [d ->];
    eexists; (split; [done|]); cbn; tauto.
Qed.

Lemma accepted_residue b f :
  Forall is_byte b -> decode b = inr f ->
  length b = 32%nat /\ crc_reg 0xffffffff b = Nat.iter 32 lfsr 0xffffffff.
Proof.
  intros Hb Hd. apply decode_inr in Hd as [Hn _]; [|done].
  apply first_failure_none in Hn as (Hlen & _ & _ & Hcrc & _).
  split; [done|]. by apply crc_check_residue.
Qed.

Lemma rejected_if_register_changes b b' f :
  Forall is_byte b -> Forall is_byte b' -> decode b = inr f -> length b' = 32%nat ->
  crc_reg 0xffffffff b' <> crc_reg 0xffffffff b ->
  exists e, decode b' = inl e /\ (de_kind e = BadMagic \/ de_kind e = BadVersion \/ de_kind e = BadCrc).
Proof.
  intros Hb Hb' Hd Hlen Hne. apply accepted_residue in Hd as [_ Hr]; [|done].
  apply decode_bad_envelope; [done..|]. intros Hc. apply crc_check_residue in Hc; [|done..].
  congruence.
Qed.

Lemma xor_bytes_self a : xor_bytes a a = replicate (length a) 0.
Proof.
  unfold xor_bytes. induction a as [|x a IH]; [done|]. cbn. by rewrite Z.lxor_nilpotent, IH.
Qed.

Lemma xor_bytes_app a1 a2 b1 b2 :
  length a1 = length b1 -> xor_bytes (a1 ++ a2) (b1 ++ b2) = xor_bytes a1 b1 ++ xor_bytes a2 b2.
Proof. intros H. unfold xor_bytes. by apply zip_with_app. Qed.

Lemma le_val_xor_eq_0 a b :
  length a = length b -> Forall is_byte a -> Forall is_byte b ->
  le_val (xor_bytes a b) = 0 -> a = b.
Proof.
  intros Hlen Ha Hb H. apply le_val_inj; [done..|].
  apply Z.lxor_eq. by rewrite <- le_val_xor_bytes.
Qed.

(** Two messages that agree outside a window of four bytes have different
    registers, unless they are equal. *)
Lemma window_changes_register c i b b' :
  Forall is_byte b -> Forall is_byte b' -> length b = length b' ->
  take i b = take i b' -> drop (i + 4) b = drop (i + 4) b' -> b <> b' ->
  crc_reg c b' <> crc_reg c b.
Proof.
  intros Hb Hb' Hlen Hpre Hpost Hne Heq.
  assert (forall l : bytes, l = take i l ++ slice i (i + 4) l ++ drop (i + 4) l) as Hsplit.
  { intros l. unfold slice. replace (i + 4 - i)%nat with 4%nat by lia.
    rewrite <- (drop_drop l 4 i), (take_drop 4 (drop i l)). by rewrite take_drop. }
  assert (length (slice i (i + 4) b) = length (slice i (i + 4) b')) as Hl.
  { unfold slice. rewrite !length_take, !length_drop. lia. }
  assert (crc_reg 0 (xor_bytes b b') = 0) as H0.
  { rewrite <- (crc_reg_diff c) by done. rewrite Heq. apply Z.lxor_nilpotent. }
  rewrite (Hsplit b), (Hsplit b'), <- Hpre, <- Hpost in H0.
  rewrite !xor_bytes_app, !xor_bytes_self in H0 by done.
  eapply crc_reg_burst; [..|exact H0].
  - rewrite length_xor_bytes by done. unfold slice. rewrite length_take. lia.
  - apply xor_bytes_byte; auto with varta.
  - intros Hz. apply le_val_xor_eq_0 in Hz; auto with varta.
    apply Hne. rewrite (Hsplit b), (Hsplit b'). congruence.
Qed.

(** ** Error behaviour of the encoder *)

(** What [encodeInto] has written before the timestamp. *)
Definition partial_prefix (s p : Z) : bytes := [0x56; 0x41; 0x02; s] ++ le_bytes 4 p.

Lemma encodeInto_bad_timestamp st s p t n pl buf :
  (32 <= length buf)%nat -> coerceStatus st = Ret s -> ~ is_u64 t ->
  encodeInto st p t n pl buf
  = (Throw (err_out_of_range "value"),
     partial_prefix (status_byte s) (to_uint32 p) ++ drop 8 buf).
Proof.
  intros Hlen Hs Ht. unfold encodeInto, FRAME_BYTES. unfold_m.
  rewrite bool_decide_false by lia. rewrite Hs. unfold buf_set, modify.
  do 32 (destruct buf as [|? buf]; [cbn in Hlen; lia|]). clear Hlen.
  cbn [insert list_insert]. rewrite status_byte_mod.
  rewrite writeUInt32LE_ok by (auto with varta || (cbn; lia)).
  rewrite writeBigUInt64LE_bad by done. unfold partial_prefix. name_fields. reflexivity.
Qed.

Lemma encodeInto_bad_nonce st s p t n pl buf :
  (32 <= length buf)%nat -> coerceStatus st = Ret s -> is_u64 t -> ~ is_u64 n ->
  encodeInto st p t n pl buf
  = (Throw (err_out_of_range "value"),
     partial_prefix (status_byte s) (to_uint32 p) ++ le_bytes 8 t ++ drop 16 buf).
Proof.
  intros Hlen Hs Ht Hn. unfold encodeInto, FRAME_BYTES. unfold_m.
  rewrite bool_decide_false by lia. rewrite Hs. unfold buf_set, modify.
  do 32 (destruct buf as [|? buf]; [cbn in Hlen; lia|]). clear Hlen.
  cbn [insert list_insert]. rewrite status_byte_mod.
  destruct (le4_elems (to_uint32 p)) as (? & ? & ? & ? & Hup).
  rewrite writeUInt32LE_ok, Hup by (auto with varta || (cbn; lia)). cbn.
  rewrite writeBigUInt64LE_ok by (done || (cbn; lia)).
  rewrite writeBigUInt64LE_bad by done. unfold partial_prefix. rewrite Hup.
  name_fields. reflexivity.
Qed.

(** Names the encoder accepts. *)
Lemma coerceStatus_name str s :
  coerceStatus (SLStr str) = Ret (OwnStatus s) <->
  to_lower str = match s with Ok => "ok" | Degraded => "degraded"
                            | Critical => "critical" | Stall => "stall" end%string.
Proof.
  unfold coerceStatus, STATUS_BY_NAME. generalize (to_lower str). intros k.
  repeat case_decide; subst; destruct s; split; intros Heq; simplify_eq/=; done.
Qed.

Lemma lower_char_idem c : lower_char (lower_char c) = lower_char c.
Proof. destruct c as [[] [] [] [] [] [] [] []]; vm_compute; reflexivity. Qed.

Lemma to_lower_idem str : to_lower (to_lower str) = to_lower str.
Proof. induction str as [|c str IH]; [done|]. cbn. by rewrite lower_char_idem, IH. Qed.

(** The lower-case member names of [Object.prototype] are two. *)
Lemma inherited_lower str :
  to_lower str ∈ object_prototype_keys <->
  to_lower str = "constructor"%string \/ to_lower str = "__proto__"%string.
Proof.
  pose proof (to_lower_idem str) as Hid. revert Hid. generalize (to_lower str). intros k Hid.
  split; [|intros [->| ->]; by apply (bool_decide_unpack _)].
  unfold object_prototype_keys. rewrite !elem_of_cons. intros Hk.
  repeat destruct Hk as [->|Hk]; try (by left); try (by right); try discriminate Hid.
  by apply not_elem_of_nil in Hk.
Qed.

Lemma coerceStatus_inherited_key str :
  coerceStatus (SLStr str) = Ret Inherited <->
  to_lower str = "constructor"%string \/ to_lower str = "__proto__"%string.
Proof.
  rewrite <- inherited_lower. unfold coerceStatus, STATUS_BY_NAME.
  generalize (to_lower str). intros k.
  repeat (case_decide; [subst; split; [discriminate|by intros ?%(bool_decide_pack _)]|]).
  case_decide; split; done.
Qed.

(** ** Properties *)

(** C5. [decode] validates in the normative order of the wire specification: it
    returns the error of the first failing step among length and magic, version,
    CRC, status range, stall, pid range, timestamp sentinel and nonce pairing, and
    when no step fails it returns the fields read at their offsets. *)
Theorem decode_normative_order (b : bytes) :
  Forall is_byte b ->
  match first_failure decode_steps b with
  | Some k => exists d, decode b = inl (mkDecodeError k d)
  | None => decode b = inr (frame_fields b)
  end.
Proof. apply decode_first_failure. Qed.

Lemma decode_normative_order_witness :
  exists d, decode (replicate 32 0) = inl (mkDecodeError BadMagic d).
Proof. apply (decode_normative_order (replicate 32 0)). repeat constructor; done. Defined.

(** C6. Encoding then decoding is the identity: for every frame an agent may emit
    and every spelling of its status that names it (number or name in any case),
    [encode] returns the 32-byte wire layout of the specification and [decode]
    gives back exactly the fields. *)
Theorem encode_then_decode (st : StatusLike) (f : Frame) :
  valid_frame f -> coerceStatus st = Ret (OwnStatus (fr_status f)) ->
  encode st (jint (fr_pid f)) (fr_timestamp f) (fr_nonce f) (jint (fr_payload f)) = Ret (wire_of f)
  /\ length (wire_of f) = FRAME_BYTES /\ decode (wire_of f) = inr f.
Proof.
  intros Hf Hst. split_and!; [|apply length_frame_wire|by apply decode_wire_of].
  destruct Hf as (_ & Hp & _ & Ht & _ & Hn & _ & Hpl).
  unfold encode, build_buffer, FRAME_BYTES. rewrite encodeInto_frame by done.
  by rewrite app_nil_r.
Qed.

Lemma encode_then_decode_witness :
  decode (wire_of (mkFrame Degraded 12345 1234567890 100 3735928559))
  = inr (mkFrame Degraded 12345 1234567890 100 3735928559).
Proof.
  apply (encode_then_decode (SLStr "DEGRADED") (mkFrame Degraded 12345 1234567890 100 3735928559)).
  - unfold valid_frame, is_u32, is_u64; cbn. split_and!; lia || discriminate.
  - reflexivity.
Defined.

(** C9. The wire form is canonical: whatever bytes [decode] accepts are a frame an
    agent may emit, and encoding the decoded fields again gives back the very same
    bytes. *)
Theorem decode_then_encode (b : bytes) (f : Frame) :
  Forall is_byte b -> decode b = inr f ->
  valid_frame f
  /\ encode (sl_status (fr_status f)) (jint (fr_pid f)) (fr_timestamp f) (fr_nonce f)
       (jint (fr_payload f)) = Ret b.
Proof.
  intros Hb Hd. apply decode_inr in Hd as [Hf ->]; [|done].
  apply first_failure_none in Hf as (Hlen & Hm & Hv & Hcrc & Hs & Hs3 & Hp & Ht & Hn).
  pose proof (readUInt32LE_range b 4 Hb ltac:(lia)) as Rp.
  pose proof (readUInt32LE_range b 24 Hb ltac:(lia)) as Rpl.
  pose proof (readBigUInt64LE_range b 8 Hb ltac:(lia)) as Rt.
  pose proof (readBigUInt64LE_range b 16 Hb ltac:(lia)) as Rn.
  assert (is_byte (byte_at b 3)) as Hb3.
  { unfold byte_at. apply Forall_nth; [done|lia]. }
  assert (status_code (status_of_byte (byte_at b 3)) = byte_at b 3) as Hsc.
  { apply status_code_of_byte. unfold is_byte in Hb3. lia. }
  split.
  - unfold valid_frame, frame_fields; cbn.
    split_and!; try done.
    + intros Hst. rewrite Hst in Hsc. cbn in Hsc. congruence.
    + intros Hx. rewrite (Hn Hx). done.
  - unfold encode, build_buffer, FRAME_BYTES, frame_fields; cbn [fr_status fr_pid fr_timestamp fr_nonce fr_payload].
    rewrite (encodeInto_frame (sl_status (status_of_byte (byte_at b 3)))
      (mkFrame (status_of_byte (byte_at b 3)) (readUInt32LE b 4) (readBigUInt64LE b 8)
        (readBigUInt64LE b 16) (readUInt32LE b 24)))
      by (done || apply coerceStatus_status).
    change (drop 32 (buf_alloc 32)) with (@nil Z). rewrite app_nil_r. f_equal.
    unfold wire_of; cbn [fr_status fr_pid fr_timestamp fr_nonce fr_payload].
    rewrite Hsc. by apply wire_from_fields.
Qed.

Lemma decode_then_encode_witness :
  valid_frame (mkFrame Critical 2 999 NONCE_TERMINAL 0)
  /\ encode (sl_status Critical) (jint 2) 999 NONCE_TERMINAL (jint 0)
     = Ret (wire_of (mkFrame Critical 2 999 NONCE_TERMINAL 0)).
Proof.
  apply (decode_then_encode (wire_of (mkFrame Critical 2 999 NONCE_TERMINAL 0))
    (mkFrame Critical 2 999 NONCE_TERMINAL 0)).
  - apply frame_wire_byte, status_code_byte.
  - vm_compute. reflexivity.
Defined.

(** C14. Burst corruption is always caught: if a frame is accepted, then any other
    32 bytes that agree with it outside a window of four consecutive bytes (a burst
    of up to 32 bits, CRC trailer included) are rejected by the magic, version or
    CRC step, before any field is looked at. *)
Theorem decode_rejects_bursts (b b' : bytes) (f : Frame) (i : nat) :
  Forall is_byte b -> Forall is_byte b' -> decode b = inr f -> length b' = FRAME_BYTES ->
  take i b = take i b' -> drop (i + 4) b = drop (i + 4) b' -> b <> b' ->
  exists e, decode b' = inl e
    /\ (de_kind e = BadMagic \/ de_kind e = BadVersion \/ de_kind e = BadCrc).
Proof.
  intros Hb Hb' Hd Hlen' Hpre Hpost Hne.
  destruct (accepted_residue _ _ Hb Hd) as [Hlen _]. unfold FRAME_BYTES in Hlen'.
  eapply (rejected_if_register_changes b b' f); [done..|].
  eapply window_changes_register; eauto. congruence.
Qed.

(** A concrete accepted frame and the same frame with bytes 26 to 29 replaced. *)
Definition sample_frame : bytes := wire_of (mkFrame Ok 4821 1000 1 0).

Lemma decode_rejects_bursts_witness :
  exists e, decode (splice 26 [1; 2; 3; 4] sample_frame) = inl e
    /\ (de_kind e = BadMagic \/ de_kind e = BadVersion \/ de_kind e = BadCrc).
Proof.
  apply (decode_rejects_bursts sample_frame _ (mkFrame Ok 4821 1000 1 0) 26).
  - apply frame_wire_byte, status_code_byte.
  - apply splice_byte; [repeat constructor; done|apply frame_wire_byte, status_code_byte].
  - vm_compute. reflexivity.
  - reflexivity.
  - reflexivity.
  - reflexivity.
  - vm_compute. discriminate.
Defined.

(** C15. Bit flips are always caught: a frame in which between one and five bits,
    anywhere in the 32 bytes, differ from an accepted frame is rejected by the
    magic, version or CRC step. *)
Theorem decode_rejects_bit_flips (b b' : bytes) (f : Frame) :
  Forall is_byte b -> Forall is_byte b' -> decode b = inr f -> length b' = FRAME_BYTES ->
  (0 < length (bit_errors b' b) <= 5)%nat ->
  exists e, decode b' = inl e
    /\ (de_kind e = BadMagic \/ de_kind e = BadVersion \/ de_kind e = BadCrc).
Proof.
  intros Hb Hb' Hd Hlen' Hbits. destruct (accepted_residue _ _ Hb Hd) as [Hlen _].
  eapply (rejected_if_register_changes b b' f); [done..|]. by apply crc_reg_few_bits.
Qed.

Lemma decode_rejects_bit_flips_witness :
  exists e, decode (splice 9 [0x13; 0x20] sample_frame) = inl e
    /\ (de_kind e = BadMagic \/ de_kind e = BadVersion \/ de_kind e = BadCrc).
Proof.
  apply (decode_rejects_bit_flips sample_frame _ (mkFrame Ok 4821 1000 1 0)).
  - apply frame_wire_byte, status_code_byte.
  - apply splice_byte; [repeat constructor; done|apply frame_wire_byte, status_code_byte].
  - vm_compute. reflexivity.
  - reflexivity.
  - vm_compute. lia.
Defined.

(** C21. Every outcome of [encodeInto], buffer included. A short buffer or a status
    that does not coerce throws with the buffer untouched; a timestamp (nonce)
    outside 64 bits throws after the first 8 (16) bytes were overwritten; otherwise
    it returns with the frame in the first 32 bytes and the rest untouched. *)
Theorem encodeInto_outcomes (st : StatusLike) (p pl : jsnum) (t n : Z) (buf : bytes) :
  encodeInto st p t n pl buf =
  if bool_decide (length buf < 32)%nat
  then (Throw (range_error "buffer must be at least 32 bytes"), buf)
  else match coerceStatus st with
  | Throw e => (Throw e, buf)
  | Ret s =>
      if negb (bool_decide (is_u64 t))
      then (Throw (err_out_of_range "value"),
            partial_prefix (status_byte s) (to_uint32 p) ++ drop 8 buf)
      else if negb (bool_decide (is_u64 n))
      then (Throw (err_out_of_range "value"),
            partial_prefix (status_byte s) (to_uint32 p) ++ le_bytes 8 t ++ drop 16 buf)
      else (Ret tt,
            frame_wire (status_byte s) (to_uint32 p) t n (to_uint32 pl) ++ drop 32 buf)
  end.
Proof.
  case_bool_decide as Hlen.
  { unfold encodeInto, FRAME_BYTES. unfold_m. by rewrite bool_decide_true. }
  destruct (coerceStatus st) as [s|e] eqn:Hs.
  - repeat case_bool_decide; cbn [negb].
    + apply encodeInto_layout; unfold FRAME_BYTES; lia || done.
    + apply encodeInto_bad_nonce; lia || done.
    + apply encodeInto_bad_timestamp; lia || done.
    + apply encodeInto_bad_timestamp; lia || done.
  - unfold encodeInto, FRAME_BYTES. unfold_m. by rewrite bool_decide_false, Hs by done.
Qed.

(** The name table is read through the prototype chain: [encode] given the
    status name "constructor" or "__proto__", in any case, does not throw but
    encodes exactly what it encodes for [Status.Ok]. *)
Theorem encode_inherited_name_is_ok (str : string) (p pl : jsnum) (t n : Z) :
  to_lower str = "constructor"%string \/ to_lower str = "__proto__"%string ->
  encode (SLStr str) p t n pl = encode (sl_status Ok) p t n pl.
Proof.
  intros Hk. apply coerceStatus_inherited_key in Hk. unfold encode, build_buffer, encodeInto.
  unfold_m. by rewrite Hk, coerceStatus_status.
Qed.

Lemma encode_inherited_name_is_ok_witness :
  encode (SLStr "Constructor") (jint 2) 0 1 (jint 0)
  = encode (sl_status Ok) (jint 2) 0 1 (jint 0).
Proof. apply encode_inherited_name_is_ok. left. reflexivity. Defined.
