(* ===== verification/Errno.v ===== *)
(** * Errno constants (src/clients/node/src/errno.ts)

    What the running platform provides, [process.platform] and the table
    [os.constants.errno] in its enumeration order, is the parameter [Platform]. *)

From stdpp Require Import pretty.
From S2P Require Import Prelude.

Class Platform : Type := {
  process_platform : string;
  os_errno : list (string * Z);
}.

Definition LINUX_ENOBUFS : Z := 105.
Definition BSD_ENOBUFS : Z := 55.
Definition SOLARIS_ENOBUFS : Z := 132.

(** [table[name]]: [None] is [undefined]. *)
Fixpoint assoc (name : string) (table : list (string * Z)) : option Z :=
  match table with
  | [] => None
  | (k, v) :: table => if decide (k = name) then Some v else assoc name table
  end.

(** [a ?? b]. *)
Definition nullish {A} (a b : option A) : option A :=
  match a with Some _ => a | None => b end.

Section errno.
Context `{Platform}.

Definition selectEnobufs : Z :=
  let p := process_platform in
  if decide (p = "linux"%string) then LINUX_ENOBUFS
  else if decide (p = "darwin"%string \/ p = "freebsd"%string \/ p = "openbsd"%string)
  then BSD_ENOBUFS
  else if decide (p = "sunos"%string) then SOLARIS_ENOBUFS
  else default LINUX_ENOBUFS (assoc "ENOBUFS" os_errno).

Definition ENOBUFS : option Z := Some selectEnobufs.
Definition ENOSPC : option Z := assoc "ENOSPC" os_errno.
Definition EAGAIN : option Z := assoc "EAGAIN" os_errno.
Definition EWOULDBLOCK : option Z :=
  nullish (assoc "EWOULDBLOCK" os_errno) (assoc "EAGAIN" os_errno).
Definition ECONNREFUSED : option Z := assoc "ECONNREFUSED" os_errno.
Definition ECONNRESET : option Z := assoc "ECONNRESET" os_errno.
Definition ENOTCONN : option Z := assoc "ENOTCONN" os_errno.
Definition EPIPE : option Z := assoc "EPIPE" os_errno.
Definition ENOENT : option Z := assoc "ENOENT" os_errno.

(** The reverse table: the first name of a code wins. *)
Definition NAME_BY_CODE : gmap Z string :=
  foldl (fun m '(name, code) => match m !! code with
                                | Some _ => m
                                | None => <[code := name]> m
                                end) ∅ os_errno.

(** [errnoName]; [None] stands for [null] and [undefined]. *)
Definition errnoName (code : option Z) : string :=
  match code with
  | None => "Unknown"
  | Some 0 => "Unknown"
  | Some c => default ("errno_" +:+ pretty c) (NAME_BY_CODE !! c)
  end.

(** ** Lemmas *)

(** The first name the table gives to a code. *)
Definition first_name (code : Z) : option string :=
  fst <$> List.find (fun '(_, c) => Z.eqb c code) os_errno.

Lemma NAME_BY_CODE_first code : NAME_BY_CODE !! code = first_name code.
Proof.
  unfold NAME_BY_CODE, first_name.
  enough (forall m : gmap Z string,
    foldl (fun m '(name, code) => match m !! code with Some _ => m | None => <[code := name]> m end)
      m os_errno !! code
    = nullish (m !! code) (fst <$> List.find (fun '(_, c) => Z.eqb c code) os_errno)) as ->
    by done.
  induction os_errno as [|[name c] table IH]; intros m; cbn; [by destruct (m !! code)|].
  rewrite IH. destruct (Z.eqb_spec c code) as [->|Hne].
  - destruct (m !! code) eqn:E; cbn; [by rewrite E|]. by rewrite lookup_insert_eq.
  - destruct (m !! c) eqn:E; [done|]. by rewrite lookup_insert_ne.
Qed.

Lemma errnoName_unlisted c :
  c <> 0 -> Forall (fun '(_, k) => k <> c) os_errno ->
  errnoName (Some c) = "errno_" +:+ pretty c.
Proof.
  intros Hc Hall. unfold errnoName. rewrite NAME_BY_CODE_first. unfold first_name.
  assert (List.find (fun '(_, k) => Z.eqb k c) os_errno = None) as ->.
  { induction Hall as [|[n k] table Hk _ IH]; cbn; [done|].
    rewrite (proj2 (Z.eqb_neq k c) Hk). exact IH. }
  by destruct c.
Qed.

Lemma errnoName_listed name c :
  c <> 0 -> NoDup (snd <$> os_errno) -> (name, c) ∈ os_errno -> errnoName (Some c) = name.
Proof.
  intros Hc Hnd Hin. unfold errnoName. rewrite NAME_BY_CODE_first. unfold first_name.
  assert (List.find (fun '(_, k) => Z.eqb k c) os_errno = Some (name, c)) as ->; [|by destruct c].
  induction os_errno as [|[n k] table IH]; [by apply not_elem_of_nil in Hin|].
  cbn in Hnd |- *. apply list.NoDup_cons in Hnd as [Hk Hnd].
  apply elem_of_cons in Hin as [[= -> ->]|Hin]; [by rewrite Z.eqb_refl|].
  destruct (Z.eqb_spec k c) as [->|]; [|by apply IH].
  exfalso. apply Hk. by apply (list_elem_of_fmap_2 snd _ (name, c)).
Qed.
End errno.

(** The part of Linux's table the client names, in Node's order. *)
Definition linux_platform : Platform := {|
  process_platform := "linux";
  os_errno := [("EACCES", 13); ("EAGAIN", 11); ("EBADF", 9); ("ECONNREFUSED", 111);
               ("ECONNRESET", 104); ("ENOBUFS", 105); ("ENOENT", 2); ("ENOSPC", 28);
               ("ENOTCONN", 107); ("EPERM", 1); ("EPIPE", 32); ("EWOULDBLOCK", 11)]%string;
|}.
