(* ===== verification/Outcome.v ===== *)
(** * Beat outcomes (src/clients/node/src/outcome.ts) *)

From stdpp Require Import pretty.
From S2P Require Import Prelude Errno.

Inductive DropReason : Type := KernelQueueFull | NoObserver | PeerGone | StorageFull.

#[export] Instance DropReason_eq_dec : EqDecision DropReason.
Proof. solve_decision. Defined.

(** The enum's string values: the metric labels. *)
Definition drop_label (r : DropReason) : string :=
  match r with
  | KernelQueueFull => "kernel queue full"
  | NoObserver => "no observer"
  | PeerGone => "peer gone"
  | StorageFull => "storage full"
  end.

Record BeatError : Type := mkBeatError {
  be_errno : Z;
  be_kind : string;
  be_message : string;
}.

(** [new BeatError(errno, kind, message?)]. *)
Definition newBeatError (errno : Z) (kind : string) (message : option string) : BeatError :=
  mkBeatError errno kind
    (default (kind +:+ " (errno=" +:+ pretty errno +:+ ")") message).

Inductive BeatOutcome : Type :=
| sent
| dropped (reason : DropReason)
| failed (error : BeatError).

Definition isSent (o : BeatOutcome) : bool := match o with sent => true | _ => false end.
Definition isDropped (o : BeatOutcome) : bool := match o with dropped _ => true | _ => false end.
Definition isFailed (o : BeatOutcome) : bool := match o with failed _ => true | _ => false end.

Section outcome.
Context `{Platform}.

(** [BeatError.fromNodeError]. *)
Definition fromNodeError (err : exn) : BeatError :=
  let code := default 0 (exn_errno err) in
  newBeatError code
    (if negb (code =? 0) then errnoName (Some code)
     else if decide (exn_name err = ""%string) then "Other" else exn_name err)
    (Some (exn_message err)).

(** [code === CONSTANT]; the constant may be [undefined]. *)
Definition code_is (code : Z) (constant : option Z) : bool := bool_decide (constant = Some code).

(** [sym === "..."]. *)
Definition sym_is (sym name : string) : bool := bool_decide (sym = name).

Definition classifySendError (err : exn) : BeatOutcome :=
  let rawErrno := default 0 (exn_errno err) in
  let code := if rawErrno <? 0 then - rawErrno else rawErrno in
  let sym := default ""%string (exn_code err) in
  if code_is code ENOBUFS || sym_is sym "ENOBUFS" then dropped KernelQueueFull
  else if code_is code EAGAIN || code_is code EWOULDBLOCK
          || sym_is sym "EAGAIN" || sym_is sym "EWOULDBLOCK" then dropped KernelQueueFull
  else if code_is code ECONNREFUSED || code_is code ENOENT
          || sym_is sym "ECONNREFUSED" || sym_is sym "ENOENT" then dropped NoObserver
  else if code_is code ECONNRESET || code_is code ENOTCONN || code_is code EPIPE
          || sym_is sym "ECONNRESET" || sym_is sym "ENOTCONN" || sym_is sym "EPIPE"
       then dropped PeerGone
  else if code_is code ENOSPC || sym_is sym "ENOSPC" then dropped StorageFull
  else failed (fromNodeError err).

(** ** Specification: the buckets as tables *)

(** The names of each bucket, in the order the code consults them. *)
Definition bucket_names : list (DropReason * list string) :=
  [(KernelQueueFull, ["ENOBUFS"]); (KernelQueueFull, ["EAGAIN"; "EWOULDBLOCK"]);
   (NoObserver, ["ECONNREFUSED"; "ENOENT"]);
   (PeerGone, ["ECONNRESET"; "ENOTCONN"; "EPIPE"]); (StorageFull, ["ENOSPC"])]%string.

(** The number a name stands for on this platform. *)
Definition errno_of (name : string) : option Z :=
  if decide (name = "ENOBUFS"%string) then ENOBUFS
  else if decide (name = "EWOULDBLOCK"%string) then EWOULDBLOCK
  else assoc name os_errno.

(** An error is an instance of [name] when its symbol is the name or its number,
    whatever its sign, is the name's number. *)
Definition is_errno (err : exn) (name : string) : bool :=
  bool_decide (default ""%string (exn_code err) = name)
  || bool_decide (errno_of name = Some (Z.abs (default 0 (exn_errno err)))).

Definition bucket (err : exn) : option DropReason :=
  fst <$> List.find (fun '(_, names) => existsb (is_errno err) names) bucket_names.

(** ** Lemmas *)

Lemma abs_spelled z : (if z <? 0 then - z else z) = Z.abs z.
Proof. case_match; lia. Qed.

Lemma classify_bucket err :
  classifySendError err =
  match bucket err with Some r => dropped r | None => failed (fromNodeError err) end.
Proof.
  unfold classifySendError, bucket, bucket_names, is_errno, code_is, sym_is.
  rewrite abs_spelled. cbn [List.find existsb errno_of].
  change (errno_of "ENOBUFS") with ENOBUFS. change (errno_of "EAGAIN") with EAGAIN.
  change (errno_of "EWOULDBLOCK") with EWOULDBLOCK.
  change (errno_of "ECONNREFUSED") with ECONNREFUSED. change (errno_of "ENOENT") with ENOENT.
  change (errno_of "ECONNRESET") with ECONNRESET. change (errno_of "ENOTCONN") with ENOTCONN.
  change (errno_of "EPIPE") with EPIPE. change (errno_of "ENOSPC") with ENOSPC.
  repeat (case_bool_decide; cbn; try done).
Qed.

(** The same error with its number negated. *)
Definition negate_errno (err : exn) : exn :=
  let '(Exn n m c e k ca) := err in Exn n m c (Z.opp <$> e) k ca.

Lemma bucket_negate err : bucket (negate_errno err) = bucket err.
Proof.
  assert (forall name, is_errno (negate_errno err) name = is_errno err name) as Heq.
  { intros name. unfold is_errno. destruct err as [n m c [e|] k ca]; cbn; [|done].
    by rewrite Z.abs_opp. }
  unfold bucket, bucket_names. cbn [List.find existsb]. by rewrite !Heq.
Qed.

(** ** Properties *)

(** [classifySendError] sorts an error by the bucket tables: the first bucket
    one of whose names is the error's symbol, or the platform's number for which is
    the error's number up to sign, gives the drop reason; an error in no bucket is a
    failure that carries it. In particular the sign convention of the number never
    changes the verdict. *)
Theorem classifySendError_buckets (err : exn) :
  classifySendError err =
    match bucket err with Some r => dropped r | None => failed (fromNodeError err) end
  /\ (isDropped (classifySendError err) = true ->
      classifySendError (negate_errno err) = classifySendError err).
Proof.
  split; [apply classify_bucket|]. rewrite !classify_bucket, bucket_negate.
  by destruct (bucket err).
Qed.

(** A failed beat whose error carries a negative number (libuv's convention)
    loses its symbolic name: on a platform whose errno numbers are positive, the
    [kind] recorded by [fromNodeError] is the literal [errno_] followed by the
    negative number, although the negated number is in the table. *)
Theorem fromNodeError_negative_unnamed (err : exn) (n : Z) :
  Forall (fun '(_, code) => 0 < code) os_errno -> exn_errno err = Some n -> n < 0 ->
  be_kind (fromNodeError err) = "errno_" +:+ pretty n.
Proof.
  intros Hpos Hn Hneg. unfold fromNodeError, newBeatError. rewrite Hn.
  cbn [be_kind from_option id].
  rewrite (proj2 (Z.eqb_neq n 0)) by lia. cbn [negb]. apply errnoName_unlisted; [lia|].
  eapply list.Forall_impl; [exact Hpos|]. intros [name code]. lia.
Qed.
End outcome.

Lemma classifySendError_buckets_witness :
  @classifySendError linux_platform (Exn "Error" "send" (Some "EPERM"%string) (Some (-1)) None None)
  = failed (@fromNodeError linux_platform (Exn "Error" "send" (Some "EPERM"%string) (Some (-1)) None None))
  /\ @classifySendError linux_platform (negate_errno (Exn "Error" "send" None (Some 111) None None))
     = dropped NoObserver.
Proof.
  split.
  - exact (proj1 (@classifySendError_buckets linux_platform
      (Exn "Error" "send" (Some "EPERM"%string) (Some (-1)) None None))).
  - exact (proj2 (@classifySendError_buckets linux_platform
      (Exn "Error" "send" None (Some 111) None None)) eq_refl).
Defined.

Lemma fromNodeError_negative_unnamed_witness :
  be_kind (@fromNodeError linux_platform
    (Exn "Error" "send EACCES" (Some "EACCES"%string) (Some (-13)) None None)) = "errno_-13"%string
  /\ be_kind (@fromNodeError linux_platform
    (Exn "Error" "send EACCES" (Some "EACCES"%string) (Some 13) None None)) = "EACCES"%string.
Proof.
  split; [|reflexivity].
  apply (@fromNodeError_negative_unnamed linux_platform
    (Exn "Error" "send EACCES" (Some "EACCES"%string) (Some (-13)) None None) (-13)).
  - repeat constructor; lia.
  - reflexivity.
  - lia.
Defined.
