(* ===== verification/VlpSecure.v ===== *)
(** * The secure frame (src/clients/node/src/vlp_secure.ts)

    HKDF-SHA256 and ChaCha20-Poly1305 come from [node:crypto], which is not part
    of the repository: they are the parameter [NodeCrypto], and [CryptoLaws] states
    what RFC 5869, RFC 8439 and Node's documentation promise of them. Everything
    around them (lengths, layouts, info strings, nonces) is the client's code. *)

From S2P Require Import Prelude NodeBuffer.

(** [hkdfSync("sha256", ikm, salt, info, length)]; the cipher object run over one
    message: ciphertext and tag from [update], [final], [getAuthTag], and the
    plaintext from a decipher with the tag set, whose [final] throws when the tag
    does not verify. The key and nonce lengths are checked by the constructors. *)
Class NodeCrypto : Type := {
  hkdfSync : bytes -> bytes -> bytes -> nat -> bytes;
  chacha_encrypt : bytes -> bytes -> option bytes -> bytes -> res (bytes * bytes);
  chacha_decrypt : bytes -> bytes -> option bytes -> bytes -> bytes -> res bytes;
}.

Class CryptoLaws `{NodeCrypto} : Prop := {
  hkdf_length ikm salt info n : length (hkdfSync ikm salt info n) = n;
  hkdf_byte ikm salt info n : Forall is_byte (hkdfSync ikm salt info n);
  (** A 32-byte key and a 12-byte nonce are accepted; the ciphertext is as long as
      the plaintext and the tag has the requested 16 bytes. *)
  encrypt_ok key nonce aad pt :
    length key = 32%nat -> length nonce = 12%nat ->
    exists ct tag, chacha_encrypt key nonce aad pt = Ret (ct, tag)
      /\ length ct = length pt /\ length tag = 16%nat
      /\ (Forall is_byte pt -> Forall is_byte ct) /\ Forall is_byte tag;
  (** Decryption inverts encryption and accepts nothing else. *)
  decrypt_encrypt key nonce aad pt ct tag :
    chacha_encrypt key nonce aad pt = Ret (ct, tag) ->
    chacha_decrypt key nonce aad ct tag = Ret pt;
  encrypt_decrypt key nonce aad pt ct tag :
    chacha_decrypt key nonce aad ct tag = Ret pt ->
    chacha_encrypt key nonce aad pt = Ret (ct, tag);
}.

Definition SECURE_SHARED_BYTES : nat := 60.
Definition SECURE_MASTER_BYTES : nat := 64.
Definition KEY_BYTES : nat := 32.
Definition IV_RANDOM_BYTES : nat := 8.
Definition IV_COUNTER_BYTES : nat := 4.
Definition TAG_BYTES : nat := 16.
Definition PLAINTEXT_BYTES : nat := 32.
Definition SESSION_SALT_BYTES : nat := 16.

Definition bind_res {A B} (r : res A) (k : A -> res B) : res B :=
  match r with Ret a => k a | Throw e => Throw e end.

(** The versioned labels, each ended by a NUL. *)
Definition nul : string := String (Ascii.ascii_of_nat 0) EmptyString.
Definition agent_label : string := "varta-agent-v1" +:+ nul.
Definition iv_prefix_label : string := "varta-iv-prefix-v1" +:+ nul.
Definition panic_iv_label : string := "varta-panic-iv-v1" +:+ nul.
Definition epoch_label : string := "varta-epoch-v1" +:+ nul.

Section secure.
Context `{NodeCrypto}.

Definition hkdfSha256 (ikm salt info : bytes) (length : nat) : bytes :=
  hkdfSync ikm salt info length.

Definition deriveAgentKey (masterKey : bytes) (agentId : jsnum) : res bytes :=
  if negb (bool_decide (length masterKey = KEY_BYTES))
  then Throw (range_error "masterKey must be 32 bytes")
  else
    bind_res (build_buffer (String.length agent_label + 4)
      (buf_write_binary agent_label;;
       writeUInt32LE (to_uint32 agentId) (String.length agent_label)))
    (fun info => Ret (hkdfSha256 masterKey (buf_alloc 0) info KEY_BYTES)).

Definition deriveIvPrefix (sessionSalt : bytes) (prefixIndex : jsnum) : res bytes :=
  if negb (bool_decide (length sessionSalt = SESSION_SALT_BYTES))
  then Throw (range_error "sessionSalt must be 16 bytes")
  else
    bind_res (build_buffer (String.length iv_prefix_label + 4)
      (buf_write_binary iv_prefix_label;;
       writeUInt32LE (to_uint32 prefixIndex) (String.length iv_prefix_label)))
    (fun info => Ret (hkdfSha256 sessionSalt (buf_alloc 0) info IV_RANDOM_BYTES)).

Definition derivePanicIvPrefix (sessionSalt : bytes) (panicPid : jsnum) (timestamp : Z)
    (ivCounter : jsnum) : res bytes :=
  if negb (bool_decide (length sessionSalt = SESSION_SALT_BYTES))
  then Throw (range_error "sessionSalt must be 16 bytes")
  else
    let n := String.length panic_iv_label in
    bind_res (build_buffer (n + 4 + 8 + 4)
      (buf_write_binary panic_iv_label;;
       writeUInt32LE (to_uint32 panicPid) n;;
       writeBigUInt64LE (Z.land timestamp 0xffffffffffffffff) (n + 4);;
       writeUInt32LE (to_uint32 ivCounter) (n + 12)))
    (fun info => Ret (hkdfSha256 sessionSalt (buf_alloc 0) info IV_RANDOM_BYTES)).

Definition deriveEpochKey (agentKey : bytes) (epoch : Z) : res bytes :=
  if negb (bool_decide (length agentKey = KEY_BYTES))
  then Throw (range_error "agentKey must be 32 bytes")
  else
    bind_res (build_buffer (String.length epoch_label + 8)
      (buf_write_binary epoch_label;;
       writeBigUInt64LE epoch (String.length epoch_label)))
    (fun info => Ret (hkdfSha256 agentKey (buf_alloc 0) info KEY_BYTES)).

Definition buildNonce (ivRandom : bytes) (ivCounter : jsnum) : res bytes :=
  build_buffer 12
    (buf_copy (slice 0 IV_RANDOM_BYTES ivRandom) 0;;
     writeUInt32LE (to_uint32 ivCounter) IV_RANDOM_BYTES).

Definition aeadSeal (key nonce : bytes) (aad : option bytes) (plaintext : bytes) : res bytes :=
  bind_res (chacha_encrypt key nonce aad plaintext) (fun '(ct, tag) => Ret (ct ++ tag)).

Definition aeadOpen (key nonce : bytes) (aad : option bytes) (ctAndTag : bytes) : res bytes :=
  if bool_decide (length ctAndTag < TAG_BYTES)%nat
  then Throw (plain_error "ciphertext shorter than authentication tag")
  else
    let ct := take (length ctAndTag - TAG_BYTES) ctAndTag in
    let tag := drop (length ctAndTag - TAG_BYTES) ctAndTag in
    chacha_decrypt key nonce aad ct tag.

Definition encodeShared (key ivRandom : bytes) (ivCounter : jsnum) (plaintext : bytes) : res bytes :=
  if negb (bool_decide (length key = KEY_BYTES))
  then Throw (range_error "key must be 32 bytes")
  else if negb (bool_decide (length ivRandom = IV_RANDOM_BYTES))
  then Throw (range_error "ivRandom must be 8 bytes")
  else if negb (bool_decide (length plaintext = PLAINTEXT_BYTES))
  then Throw (range_error "plaintext must be a 32-byte VLP frame")
  else
    bind_res (buildNonce ivRandom ivCounter) (fun nonce =>
    bind_res (aeadSeal key nonce None plaintext) (fun ctAndTag =>
    build_buffer SECURE_SHARED_BYTES
      (buf_copy ivRandom 0;;
       writeUInt32LE (to_uint32 ivCounter) IV_RANDOM_BYTES;;
       buf_copy ctAndTag (IV_RANDOM_BYTES + IV_COUNTER_BYTES)))).

Definition decodeShared (key wire : bytes) : res bytes :=
  if negb (bool_decide (length wire = SECURE_SHARED_BYTES))
  then Throw (range_error "wire must be 60 bytes")
  else
    let ivRandom := slice 0 IV_RANDOM_BYTES wire in
    let ivCounter := readUInt32LE wire IV_RANDOM_BYTES in
    let ctAndTag := drop (IV_RANDOM_BYTES + IV_COUNTER_BYTES) wire in
    bind_res (buildNonce ivRandom (jint ivCounter)) (fun nonce =>
    aeadOpen key nonce None ctAndTag).

Definition encodeMaster (masterKey : bytes) (agentPid : jsnum) (ivRandom : bytes)
    (ivCounter : jsnum) (plaintext : bytes) : res bytes :=
  if negb (bool_decide (length masterKey = KEY_BYTES))
  then Throw (range_error "masterKey must be 32 bytes")
  else if negb (bool_decide (length ivRandom = IV_RANDOM_BYTES))
  then Throw (range_error "ivRandom must be 8 bytes")
  else if negb (bool_decide (length plaintext = PLAINTEXT_BYTES))
  then Throw (range_error "plaintext must be a 32-byte VLP frame")
  else
    bind_res (deriveAgentKey masterKey agentPid) (fun agentKey =>
    bind_res (build_buffer 4 (writeUInt32LE (to_uint32 agentPid) 0)) (fun aad =>
    bind_res (buildNonce ivRandom ivCounter) (fun nonce =>
    bind_res (aeadSeal agentKey nonce (Some aad) plaintext) (fun ctAndTag =>
    build_buffer SECURE_MASTER_BYTES
      (buf_copy aad 0;;
       buf_copy ivRandom 4;;
       writeUInt32LE (to_uint32 ivCounter) (4 + IV_RANDOM_BYTES);;
       buf_copy ctAndTag (4 + IV_RANDOM_BYTES + IV_COUNTER_BYTES)))))).

Definition decodeMaster (masterKey wire : bytes) : res bytes :=
  if negb (bool_decide (length wire = SECURE_MASTER_BYTES))
  then Throw (range_error "wire must be 64 bytes")
  else
    let aad := slice 0 4 wire in
    let agentPid := readUInt32LE wire 0 in
    let ivRandom := slice 4 (4 + IV_RANDOM_BYTES) wire in
    let ivCounter := readUInt32LE wire (4 + IV_RANDOM_BYTES) in
    let ctAndTag := drop (4 + IV_RANDOM_BYTES + IV_COUNTER_BYTES) wire in
    bind_res (deriveAgentKey masterKey (jint agentPid)) (fun agentKey =>
    bind_res (buildNonce ivRandom (jint ivCounter)) (fun nonce =>
    aeadOpen agentKey nonce (Some aad) ctAndTag)).

(** ** Specification *)

(** The uses of the KDF, and the info string of each (spec section 6). *)
Inductive kdf_use : Type :=
| UseAgent (agentId : Z)
| UseIvPrefix (index : Z)
| UsePanicIv (pid timestamp counter : Z)
| UseEpoch (epoch : Z).

Definition kdf_info (u : kdf_use) : bytes :=
  match u with
  | UseAgent id => latin1 agent_label ++ le_bytes 4 id
  | UseIvPrefix i => latin1 iv_prefix_label ++ le_bytes 4 i
  | UsePanicIv p t c => latin1 panic_iv_label ++ le_bytes 4 p ++ le_bytes 8 t ++ le_bytes 4 c
  | UseEpoch e => latin1 epoch_label ++ le_bytes 8 e
  end.

Definition kdf_use_ok (u : kdf_use) : Prop :=
  match u with
  | UseAgent id => is_u32 id
  | UseIvPrefix i => is_u32 i
  | UsePanicIv p t c => is_u32 p /\ is_u64 t /\ is_u32 c
  | UseEpoch e => is_u64 e
  end.

(** The AEAD nonce of the specification. *)
Definition aead_nonce (ivRandom : bytes) (ivCounter : Z) : bytes := ivRandom ++ le_bytes 4 ivCounter.

(** ** Lemmas: info strings and nonces *)

#[local] Arguments le_bytes : simpl never.

Lemma agent_info id :
  build_buffer (String.length agent_label + 4)
    (buf_write_binary agent_label;; writeUInt32LE (to_uint32 id) (String.length agent_label))
  = Ret (kdf_info (UseAgent (to_uint32 id))).
Proof.
  unfold build_buffer, buf_write_binary, buf_copy. unfold_m.
  rewrite writeUInt32LE_ok by (auto with varta || (vm_compute; lia)).
  unfold kdf_info. name_fields. reflexivity.
Qed.

Lemma iv_prefix_info i :
  build_buffer (String.length iv_prefix_label + 4)
    (buf_write_binary iv_prefix_label;; writeUInt32LE (to_uint32 i) (String.length iv_prefix_label))
  = Ret (kdf_info (UseIvPrefix (to_uint32 i))).
Proof.
  unfold build_buffer, buf_write_binary, buf_copy. unfold_m.
  rewrite writeUInt32LE_ok by (auto with varta || (vm_compute; lia)).
  unfold kdf_info. name_fields. reflexivity.
Qed.

Lemma deriveAgentKey_eq masterKey id :
  length masterKey = KEY_BYTES ->
  deriveAgentKey masterKey id
  = Ret (hkdfSync masterKey [] (kdf_info (UseAgent (to_uint32 id))) KEY_BYTES).
Proof. intros Hk. unfold deriveAgentKey. by rewrite bool_decide_true, agent_info by done. Qed.

Lemma deriveIvPrefix_eq salt i :
  length salt = SESSION_SALT_BYTES ->
  deriveIvPrefix salt i
  = Ret (hkdfSync salt [] (kdf_info (UseIvPrefix (to_uint32 i))) IV_RANDOM_BYTES).
Proof. intros Hk. unfold deriveIvPrefix. by rewrite bool_decide_true, iv_prefix_info by done. Qed.

Lemma land_u64 z : is_u64 (Z.land z 0xffffffffffffffff).
Proof.
  change 0xffffffffffffffff with (Z.ones 64). rewrite Z.land_ones by lia.
  apply Z.mod_pos_bound. lia.
Qed.

Lemma derivePanicIvPrefix_eq salt p t c :
  length salt = SESSION_SALT_BYTES ->
  derivePanicIvPrefix salt p t c
  = Ret (hkdfSync salt [] (kdf_info (UsePanicIv (to_uint32 p) (Z.land t 0xffffffffffffffff)
          (to_uint32 c))) IV_RANDOM_BYTES).
Proof.
  intros Hk. unfold derivePanicIvPrefix. rewrite bool_decide_true by done.
  unfold build_buffer, buf_write_binary, buf_copy, kdf_info. unfold_m.
  destruct (le4_elems (to_uint32 p)) as (? & ? & ? & ? & Hp).
  destruct (le8_elems (Z.land t 0xffffffffffffffff)) as (? & ? & ? & ? & ? & ? & ? & ? & Ht).
  rewrite writeUInt32LE_ok, Hp by (auto with varta || (vm_compute; lia)).
  rewrite writeBigUInt64LE_ok, Ht by (apply land_u64 || (vm_compute; lia)).
  rewrite writeUInt32LE_ok by (auto with varta || (vm_compute; lia)).
  name_fields. reflexivity.
Qed.

Lemma deriveEpochKey_eq agentKey e :
  length agentKey = KEY_BYTES -> is_u64 e ->
  deriveEpochKey agentKey e = Ret (hkdfSync agentKey [] (kdf_info (UseEpoch e)) KEY_BYTES).
Proof.
  intros Hk He. unfold deriveEpochKey. rewrite bool_decide_true by done.
  unfold build_buffer, buf_write_binary, buf_copy, kdf_info. unfold_m.
  rewrite writeBigUInt64LE_ok by (done || (vm_compute; lia)).
  name_fields. reflexivity.
Qed.

Lemma buildNonce_eq iv c :
  length iv = IV_RANDOM_BYTES -> buildNonce iv c = Ret (aead_nonce iv (to_uint32 c)).
Proof.
  intros Hiv. unfold buildNonce, build_buffer, buf_copy, aead_nonce. unfold_m.
  unfold IV_RANDOM_BYTES in *. explode iv Hiv.
  rewrite writeUInt32LE_ok by (auto with varta || (vm_compute; lia)).
  name_fields. reflexivity.
Qed.

Lemma length_aead_nonce iv c : length iv = IV_RANDOM_BYTES -> length (aead_nonce iv c) = 12%nat.
Proof. intros Hiv. unfold aead_nonce. by rewrite length_app, length_le_bytes, Hiv. Qed.

(** ** Lemmas: the wire layouts *)

Lemma shared_wire_layout iv c ct tag :
  length iv = 8%nat -> length ct = 32%nat -> length tag = 16%nat ->
  build_buffer SECURE_SHARED_BYTES
    (buf_copy iv 0;; writeUInt32LE (to_uint32 c) IV_RANDOM_BYTES;;
     buf_copy (ct ++ tag) (IV_RANDOM_BYTES + IV_COUNTER_BYTES))
  = Ret (aead_nonce iv (to_uint32 c) ++ ct ++ tag).
Proof.
  intros Hiv Hct Htag. unfold build_buffer, buf_copy, aead_nonce. unfold_m.
  explode iv Hiv. explode ct Hct. explode tag Htag.
  rewrite writeUInt32LE_ok by (auto with varta || (vm_compute; lia)).
  name_fields. reflexivity.
Qed.

Lemma master_wire_layout aad iv c ct tag :
  length aad = 4%nat -> length iv = 8%nat -> length ct = 32%nat -> length tag = 16%nat ->
  build_buffer SECURE_MASTER_BYTES
    (buf_copy aad 0;; buf_copy iv 4;;
     writeUInt32LE (to_uint32 c) (4 + IV_RANDOM_BYTES);;
     buf_copy (ct ++ tag) (4 + IV_RANDOM_BYTES + IV_COUNTER_BYTES))
  = Ret (aad ++ aead_nonce iv (to_uint32 c) ++ ct ++ tag).
Proof.
  intros Haad Hiv Hct Htag. unfold build_buffer, buf_copy, aead_nonce. unfold_m.
  explode aad Haad. explode iv Hiv. explode ct Hct. explode tag Htag.
  rewrite writeUInt32LE_ok by (auto with varta || (vm_compute; lia)).
  name_fields. reflexivity.
Qed.

Lemma aad_eq p : build_buffer 4 (writeUInt32LE (to_uint32 p) 0) = Ret (le_bytes 4 (to_uint32 p)).
Proof.
  unfold build_buffer. rewrite writeUInt32LE_ok by (auto with varta || (vm_compute; lia)).
  name_fields. reflexivity.
Qed.

(** Taking a shared (master) wire apart. *)
Lemma shared_wire_parts iv c rest :
  length iv = 8%nat -> is_u32 c ->
  let wire := aead_nonce iv c ++ rest in
  slice 0 IV_RANDOM_BYTES wire = iv /\ readUInt32LE wire IV_RANDOM_BYTES = c
  /\ drop (IV_RANDOM_BYTES + IV_COUNTER_BYTES) wire = rest.
Proof.
  intros Hiv Hc wire. pose proof (le_val_bytes4 c Hc) as Vc. unfold wire, aead_nonce.
  explode iv Hiv. unfold readUInt32LE, slice, IV_RANDOM_BYTES, IV_COUNTER_BYTES.
  destruct (le4_elems c) as (? & ? & ? & ? & Hl). rewrite Hl in *. by split_and!.
Qed.

Lemma master_wire_parts p iv c rest :
  length iv = 8%nat -> is_u32 p -> is_u32 c ->
  let wire := le_bytes 4 p ++ aead_nonce iv c ++ rest in
  slice 0 4 wire = le_bytes 4 p /\ readUInt32LE wire 0 = p
  /\ slice 4 (4 + IV_RANDOM_BYTES) wire = iv
  /\ readUInt32LE wire (4 + IV_RANDOM_BYTES) = c
  /\ drop (4 + IV_RANDOM_BYTES + IV_COUNTER_BYTES) wire = rest.
Proof.
  intros Hiv Hp Hc wire. pose proof (le_val_bytes4 c Hc) as Vc. pose proof (le_val_bytes4 p Hp) as Vp.
  unfold wire, aead_nonce. explode iv Hiv.
  unfold readUInt32LE, slice, IV_RANDOM_BYTES, IV_COUNTER_BYTES.
  destruct (le4_elems c) as (? & ? & ? & ? & Hl). destruct (le4_elems p) as (? & ? & ? & ? & Hm).
  rewrite Hl, Hm in *. by split_and!.
Qed.

Lemma aeadOpen_split key nonce aad ct tag :
  length tag = TAG_BYTES -> aeadOpen key nonce aad (ct ++ tag) = chacha_decrypt key nonce aad ct tag.
Proof.
  intros Htag. unfold aeadOpen. rewrite length_app, bool_decide_false by lia.
  replace (length ct + length tag - TAG_BYTES)%nat with (length ct) by lia.
  by rewrite take_app_length, drop_app_length.
Qed.

Context `{!CryptoLaws}.

Lemma encodeShared_ok key iv c pt :
  length key = KEY_BYTES -> length iv = IV_RANDOM_BYTES -> length pt = PLAINTEXT_BYTES ->
  exists ct tag, chacha_encrypt key (aead_nonce iv (to_uint32 c)) None pt = Ret (ct, tag)
    /\ length ct = 32%nat /\ length tag = 16%nat
    /\ (Forall is_byte pt -> Forall is_byte ct) /\ Forall is_byte tag
    /\ encodeShared key iv c pt = Ret (aead_nonce iv (to_uint32 c) ++ ct ++ tag).
Proof.
  intros Hk Hiv Hpt.
  destruct (encrypt_ok key (aead_nonce iv (to_uint32 c)) None pt Hk (length_aead_nonce _ _ Hiv))
    as (ct & tag & He & Hct & Htag & Hbc & Hbt).
  exists ct, tag. rewrite Hpt in Hct. split_and!; try done.
  unfold encodeShared. rewrite !bool_decide_true by done. cbn [negb].
  rewrite buildNonce_eq by done. cbn [bind_res]. unfold aeadSeal. rewrite He. cbn [bind_res].
  by apply shared_wire_layout.
Qed.

Lemma encodeMaster_ok masterKey p iv c pt :
  length masterKey = KEY_BYTES -> length iv = IV_RANDOM_BYTES -> length pt = PLAINTEXT_BYTES ->
  let agentKey := hkdfSync masterKey [] (kdf_info (UseAgent (to_uint32 p))) KEY_BYTES in
  exists ct tag,
    chacha_encrypt agentKey (aead_nonce iv (to_uint32 c)) (Some (le_bytes 4 (to_uint32 p))) pt
      = Ret (ct, tag)
    /\ length ct = 32%nat /\ length tag = 16%nat
    /\ (Forall is_byte pt -> Forall is_byte ct) /\ Forall is_byte tag
    /\ encodeMaster masterKey p iv c pt
       = Ret (le_bytes 4 (to_uint32 p) ++ aead_nonce iv (to_uint32 c) ++ ct ++ tag).
Proof.
  intros Hk Hiv Hpt agentKey.
  destruct (encrypt_ok agentKey (aead_nonce iv (to_uint32 c)) (Some (le_bytes 4 (to_uint32 p))) pt
    (hkdf_length _ _ _ _) (length_aead_nonce _ _ Hiv)) as (ct & tag & He & Hct & Htag & Hbc & Hbt).
  exists ct, tag. rewrite Hpt in Hct. split_and!; try done.
  unfold encodeMaster. rewrite !bool_decide_true by done. cbn [negb].
  rewrite deriveAgentKey_eq, aad_eq, buildNonce_eq by done. cbn [bind_res].
  unfold aeadSeal. fold agentKey. rewrite He. cbn [bind_res].
  apply master_wire_layout; [apply length_le_bytes|done..].
Qed.

Lemma encrypt_length key nonce aad pt ct tag :
  length key = 32%nat -> length nonce = 12%nat ->
  chacha_encrypt key nonce aad pt = Ret (ct, tag) -> length pt = length ct.
Proof.
  intros Hk Hn He. destruct (encrypt_ok key nonce aad pt Hk Hn) as (ct' & tag' & He' & Hl & _).
  congruence.
Qed.

(** A wire as its nonce, ciphertext and tag. *)
Lemma split_at_tag (l : bytes) :
  length l = 48%nat -> exists ct tag, l = ct ++ tag /\ length ct = 32%nat /\ length tag = 16%nat.
Proof.
  intros Hl. exists (take 32 l), (drop 32 l). rewrite take_drop, length_take, length_drop.
  split_and!; [done|lia..].
Qed.

Lemma split_shared wire :
  Forall is_byte wire -> length wire = 60%nat ->
  exists iv c rest, wire = aead_nonce iv c ++ rest
    /\ length iv = 8%nat /\ is_u32 c /\ length rest = 48%nat.
Proof.
  intros Hb Hl. exists (take 8 wire), (le_val (slice 8 12 wire)), (drop 12 wire).
  pose proof (le_bytes_le_val (slice 8 12 wire) (slice_byte _ _ _ Hb)) as Hle.
  pose proof (le_val_range (slice 8 12 wire) (slice_byte _ _ _ Hb)) as Hr.
  rewrite length_slice in Hle, Hr by lia. change (12 - 8)%nat with 4%nat in *.
  unfold aead_nonce. rewrite Hle, length_take, length_drop. split_and!; [|lia|exact Hr|lia].
  unfold slice. change (12 - 8)%nat with 4%nat. change (drop 12 wire) with (drop (8 + 4) wire).
  rewrite <- app_assoc, <- (drop_drop wire 4 8), take_drop. by rewrite take_drop.
Qed.

Lemma split_master wire :
  Forall is_byte wire -> length wire = 64%nat ->
  exists p iv c rest, wire = le_bytes 4 p ++ aead_nonce iv c ++ rest
    /\ is_u32 p /\ length iv = 8%nat /\ is_u32 c /\ length rest = 48%nat.
Proof.
  intros Hb Hl.
  destruct (split_shared (drop 4 wire)) as (iv & c & rest & Hw & Hiv & Hc & Hr).
  { by apply Forall_drop. }
  { rewrite length_drop. lia. }
  pose proof (le_bytes_le_val (take 4 wire) (Forall_take _ _ _ Hb)) as Hle.
  pose proof (le_val_range (take 4 wire) (Forall_take _ _ _ Hb)) as Hrg.
  rewrite length_take in Hle, Hrg. replace (4 `min` length wire)%nat with 4%nat in * by lia.
  exists (le_val (take 4 wire)), iv, c, rest. split_and!; try done.
  by rewrite Hle, <- Hw, take_drop.
Qed.

Lemma encodeShared_opens key :
  length key = KEY_BYTES ->
  forall iv c pt, length iv = IV_RANDOM_BYTES -> length pt = PLAINTEXT_BYTES ->
  exists wire, encodeShared key iv c pt = Ret wire /\ length wire = SECURE_SHARED_BYTES
    /\ take 12 wire = aead_nonce iv (to_uint32 c) /\ decodeShared key wire = Ret pt.
Proof.
  intros Hk. intros iv c pt Hiv Hpt.
  destruct (encodeShared_ok key iv c pt Hk Hiv Hpt) as (ct & tag & He & Hct & Htag & _ & _ & ->).
  eexists; split; [done|]. pose proof (length_aead_nonce iv (to_uint32 c) Hiv) as Hn.
  assert (length (aead_nonce iv (to_uint32 c) ++ ct ++ tag) = 60%nat) as Hlen
    by (rewrite !length_app; lia).
  split_and!; [done|by apply take_app_length'|].
  unfold decodeShared. rewrite bool_decide_true by done. cbn [negb].
  destruct (shared_wire_parts iv (to_uint32 c) (ct ++ tag) Hiv (to_uint32_range _)) as (-> & -> & ->).
  rewrite buildNonce_eq, to_uint32_jint by auto with varta. cbn [bind_res].
  rewrite aeadOpen_split by done. by apply decrypt_encrypt.
Qed.

Lemma decodeShared_sealed key :
  length key = KEY_BYTES ->
  forall wire pt, Forall is_byte wire -> decodeShared key wire = Ret pt ->
  encodeShared key (slice 0 IV_RANDOM_BYTES wire) (jint (readUInt32LE wire IV_RANDOM_BYTES)) pt
  = Ret wire.
Proof.
  intros Hk. intros wire pt Hb Hd. unfold decodeShared in Hd.
  case_bool_decide as Hlen; [cbn [negb] in Hd|discriminate].
  destruct (split_shared wire Hb Hlen) as (iv & c & rest & -> & Hiv & Hc & Hrest).
  destruct (shared_wire_parts iv c rest Hiv Hc) as (Ep1 & Ep2 & Ep3). rewrite Ep1, Ep2, Ep3 in *.
  rewrite buildNonce_eq, to_uint32_jint in Hd by done. cbn [bind_res] in Hd.
  destruct (split_at_tag rest Hrest) as (ct & tag & -> & Hct & Htag).
  rewrite aeadOpen_split in Hd by done. apply encrypt_decrypt in Hd.
  assert (length pt = 32%nat) as Hpt.
  { rewrite <- Hct. eapply encrypt_length; [exact Hk|by apply length_aead_nonce|done]. }
  destruct (encodeShared_ok key iv (jint c) pt Hk Hiv Hpt) as (ct' & tag' & He & _ & _ & _ & _ & ->).
  rewrite to_uint32_jint in * by done. congruence.
Qed.

Lemma encodeMaster_opens masterKey :
  length masterKey = KEY_BYTES ->
  forall p iv c pt, length iv = IV_RANDOM_BYTES -> length pt = PLAINTEXT_BYTES ->
  exists wire, encodeMaster masterKey p iv c pt = Ret wire /\ length wire = SECURE_MASTER_BYTES
    /\ take 16 wire = le_bytes 4 (to_uint32 p) ++ aead_nonce iv (to_uint32 c)
    /\ decodeMaster masterKey wire = Ret pt.
Proof.
  intros Hk. intros p iv c pt Hiv Hpt.
  destruct (encodeMaster_ok masterKey p iv c pt Hk Hiv Hpt)
    as (ct & tag & He & Hct & Htag & _ & _ & ->).
  eexists; split; [done|]. pose proof (length_aead_nonce iv (to_uint32 c) Hiv) as Hn.
  pose proof (length_le_bytes 4 (to_uint32 p)) as Hp4.
  assert (length (le_bytes 4 (to_uint32 p) ++ aead_nonce iv (to_uint32 c) ++ ct ++ tag)
    = SECURE_MASTER_BYTES) as Hlen by (rewrite !length_app, Hp4, Hn, Hct, Htag; done).
  split_and!; [done| |].
  { fold (aead_nonce iv (to_uint32 c)). rewrite app_assoc. apply take_app_length'. by rewrite length_app, Hp4, Hn. }
  unfold decodeMaster. rewrite bool_decide_true by done. cbn [negb].
  destruct (master_wire_parts (to_uint32 p) iv (to_uint32 c) (ct ++ tag) Hiv
    (to_uint32_range _) (to_uint32_range _)) as (-> & -> & -> & -> & ->).
  rewrite deriveAgentKey_eq, buildNonce_eq, !to_uint32_jint by auto with varta. cbn [bind_res].
  rewrite aeadOpen_split by done. by apply decrypt_encrypt.
Qed.

Lemma decodeMaster_sealed masterKey :
  length masterKey = KEY_BYTES ->
  forall wire pt, Forall is_byte wire -> decodeMaster masterKey wire = Ret pt ->
  encodeMaster masterKey (jint (readUInt32LE wire 0)) (slice 4 (4 + IV_RANDOM_BYTES) wire)
    (jint (readUInt32LE wire (4 + IV_RANDOM_BYTES))) pt = Ret wire.
Proof.
  intros Hk. intros wire pt Hb Hd. unfold decodeMaster in Hd.
  case_bool_decide as Hlen; [cbn [negb] in Hd|discriminate].
  destruct (split_master wire Hb Hlen) as (p & iv & c & rest & -> & Hp & Hiv & Hc & Hrest).
  destruct (master_wire_parts p iv c rest Hiv Hp Hc) as (Ep1 & Ep2 & Ep3 & Ep4 & Ep5).
  rewrite Ep1, Ep2, Ep3, Ep4, Ep5 in *.
  rewrite deriveAgentKey_eq, buildNonce_eq, !to_uint32_jint in Hd by done. cbn [bind_res] in Hd.
  destruct (split_at_tag rest Hrest) as (ct & tag & -> & Hct & Htag).
  rewrite aeadOpen_split in Hd by done. apply encrypt_decrypt in Hd.
  assert (length pt = 32%nat) as Hpt.
  { rewrite <- Hct. eapply encrypt_length; [apply hkdf_length|by apply length_aead_nonce|done]. }
  destruct (encodeMaster_ok masterKey (jint p) iv (jint c) pt Hk Hiv Hpt)
    as (ct' & tag' & He & _ & _ & _ & _ & ->).
  rewrite !to_uint32_jint in * by done. congruence.
Qed.

(** ** Properties *)

(** C18. The 60-byte shared-key frame round-trips: for a 32-byte key, an 8-byte
    random part, any counter and a 32-byte frame, [encodeShared] returns a wire of
    60 bytes that starts with the random part and the counter in little-endian, and
    [decodeShared] recovers the frame; conversely whatever [decodeShared] accepts is
    exactly what [encodeShared] produces from the recovered frame and the wire's own
    nonce fields. *)
Theorem shared_roundtrip (key : bytes) :
  length key = KEY_BYTES ->
  (forall iv c pt, length iv = IV_RANDOM_BYTES -> length pt = PLAINTEXT_BYTES ->
     exists wire, encodeShared key iv c pt = Ret wire /\ length wire = SECURE_SHARED_BYTES
       /\ take 12 wire = iv ++ le_bytes 4 (to_uint32 c) /\ decodeShared key wire = Ret pt)
  /\ (forall wire pt, Forall is_byte wire -> decodeShared key wire = Ret pt ->
     encodeShared key (slice 0 IV_RANDOM_BYTES wire)
       (jint (readUInt32LE wire IV_RANDOM_BYTES)) pt = Ret wire).
Proof. intros Hk. split; [by apply encodeShared_opens|by apply decodeShared_sealed]. Qed.

(** The 64-byte master-key frame round-trips in the same two directions, with
    the key derived from the master key and the pid that the first four bytes of
    the wire carry and authenticate. *)
Theorem master_roundtrip (masterKey : bytes) :
  length masterKey = KEY_BYTES ->
  (forall p iv c pt, length iv = IV_RANDOM_BYTES -> length pt = PLAINTEXT_BYTES ->
     exists wire, encodeMaster masterKey p iv c pt = Ret wire /\ length wire = SECURE_MASTER_BYTES
       /\ take 16 wire = le_bytes 4 (to_uint32 p) ++ iv ++ le_bytes 4 (to_uint32 c)
       /\ decodeMaster masterKey wire = Ret pt)
  /\ (forall wire pt, Forall is_byte wire -> decodeMaster masterKey wire = Ret pt ->
     encodeMaster masterKey (jint (readUInt32LE wire 0)) (slice 4 (4 + IV_RANDOM_BYTES) wire)
       (jint (readUInt32LE wire (4 + IV_RANDOM_BYTES))) pt = Ret wire).
Proof. intros Hk. split; [by apply encodeMaster_opens|by apply decodeMaster_sealed]. Qed.
End secure.

(** Domain separation of the key derivations: two uses of the KDF with
    in-range parameters have equal info strings only when they are the same use with
    the same parameters, so agent keys, session IV prefixes, panic IV prefixes and
    epoch keys never share a derivation. *)
Theorem kdf_info_injective (u v : kdf_use) :
  kdf_use_ok u -> kdf_use_ok v -> kdf_info u = kdf_info v -> u = v.
Proof.
  intros Hu Hv Heq.
  assert (length (kdf_info u) = length (kdf_info v)) as Hlen by congruence.
  destruct u, v; cbn [kdf_info kdf_use_ok] in *; rewrite !length_app, !length_le_bytes in Hlen;
    try (exfalso; lazy in Hlen; discriminate Hlen);
    try (apply (f_equal (fun l => nth 6 l 0)) in Heq; lazy in Heq; discriminate Heq);
    apply app_inv_head in Heq.
  - f_equal. by apply (le_bytes_inj 4).
  - f_equal. by apply (le_bytes_inj 4).
  - destruct Hu as (? & ? & ?), Hv as (? & ? & ?).
    apply app_inj_1 in Heq as [Hp Heq]; [|by rewrite !length_le_bytes].
    apply app_inj_1 in Heq as [Ht Hc]; [|by rewrite !length_le_bytes].
    f_equal; [by apply (le_bytes_inj 4)|by apply (le_bytes_inj 8)|by apply (le_bytes_inj 4)].
  - f_equal. by apply (le_bytes_inj 8).
Qed.

Lemma kdf_info_injective_witness : UseAgent ((2 ^ 32 + 42) mod 2 ^ 32) = UseAgent 42.
Proof.
  apply (kdf_info_injective (UseAgent ((2 ^ 32 + 42) mod 2 ^ 32)) (UseAgent 42));
    [vm_compute; split; congruence..|vm_compute; reflexivity].
Defined.

(** The four key derivations: each rejects an input key or salt of the wrong
    length, and otherwise is HKDF over that key material with an empty salt and the
    info string of its use, the integer parameters reduced to their width; the epoch
    derivation also rejects an epoch that is not a 64-bit value. *)
Theorem kdf_derivations `{NodeCrypto} (k : bytes) (id c : jsnum) (t e : Z) :
  deriveAgentKey k id =
    (if decide (length k = 32%nat)
     then Ret (hkdfSync k [] (kdf_info (UseAgent (to_uint32 id))) 32)
     else Throw (range_error "masterKey must be 32 bytes"))
  /\ deriveIvPrefix k id =
    (if decide (length k = 16%nat)
     then Ret (hkdfSync k [] (kdf_info (UseIvPrefix (to_uint32 id))) 8)
     else Throw (range_error "sessionSalt must be 16 bytes"))
  /\ derivePanicIvPrefix k id t c =
    (if decide (length k = 16%nat)
     then Ret (hkdfSync k [] (kdf_info (UsePanicIv (to_uint32 id) (t mod 2 ^ 64) (to_uint32 c))) 8)
     else Throw (range_error "sessionSalt must be 16 bytes"))
  /\ deriveEpochKey k e =
    (if decide (length k = 32%nat)
     then if decide (is_u64 e) then Ret (hkdfSync k [] (kdf_info (UseEpoch e)) 32)
          else Throw (err_out_of_range "value")
     else Throw (range_error "agentKey must be 32 bytes")).
Proof.
  split_and!; case_decide as Hk.
  - by apply deriveAgentKey_eq.
  - unfold deriveAgentKey, KEY_BYTES. by rewrite bool_decide_false.
  - by apply deriveIvPrefix_eq.
  - unfold deriveIvPrefix, SESSION_SALT_BYTES. by rewrite bool_decide_false.
  - rewrite derivePanicIvPrefix_eq by done. change 0xffffffffffffffff with (Z.ones 64).
    by rewrite Z.land_ones.
  - unfold derivePanicIvPrefix, SESSION_SALT_BYTES. by rewrite bool_decide_false.
  - case_decide as He; [by apply deriveEpochKey_eq|].
    unfold deriveEpochKey, KEY_BYTES. rewrite bool_decide_true by done.
    unfold build_buffer, buf_write_binary, buf_copy. unfold_m.
    by rewrite writeBigUInt64LE_bad.
  - unfold deriveEpochKey, KEY_BYTES. by rewrite bool_decide_false.
Qed.

(** ** A concrete instance of the parameter

    Not a cipher: the plaintext goes through unchanged and the tag is a checksum of
    every input. It satisfies the laws and evaluates. *)
Definition toy_tag (key nonce : bytes) (aad : option bytes) (pt : bytes) : bytes :=
  le_bytes 16 (le_val key + 3 * le_val nonce + 5 * le_val (default [] aad) + 7 * le_val pt).

#[local] Instance toy_crypto : NodeCrypto := {|
  hkdfSync ikm salt info n := le_bytes n (le_val ikm + 3 * le_val salt + 5 * le_val info);
  chacha_encrypt key nonce aad pt :=
    if decide (length key = 32 /\ length nonce = 12)%nat then Ret (pt, toy_tag key nonce aad pt)
    else Throw (range_error "Invalid key length");
  chacha_decrypt key nonce aad ct tag :=
    if decide (length key = 32 /\ length nonce = 12)%nat
    then if decide (tag = toy_tag key nonce aad ct) then Ret ct
         else Throw (plain_error "Unsupported state or unable to authenticate data")
    else Throw (range_error "Invalid key length");
|}.

#[local] Instance toy_laws : CryptoLaws.
Proof.
  constructor; cbn [hkdfSync chacha_encrypt chacha_decrypt toy_crypto]; intros.
  - apply length_le_bytes.
  - apply le_bytes_byte.
  - rewrite decide_True by done. eexists _, _.
    split_and!; unfold toy_tag; auto using length_le_bytes, le_bytes_byte.
  - case_decide; [|discriminate]. simplify_eq. by rewrite decide_True.
  - case_decide; [|discriminate]. case_decide; [|discriminate]. by simplify_eq.
Qed.

Lemma shared_roundtrip_witness :
  exists wire, encodeShared (replicate 32 7) (replicate 8 9) (jint 5) (replicate 32 1) = Ret wire
    /\ decodeShared (replicate 32 7) wire = Ret (replicate 32 1).
Proof.
  destruct (proj1 (shared_roundtrip (replicate 32 7) eq_refl) (replicate 8 9) (jint 5)
    (replicate 32 1) eq_refl eq_refl) as (wire & He & _ & _ & Hd). eauto.
Defined.

Lemma master_roundtrip_witness :
  exists wire, encodeMaster (replicate 32 7) (jint 4821) (replicate 8 9) (jint 5) (replicate 32 1) = Ret wire
    /\ decodeMaster (replicate 32 7) wire = Ret (replicate 32 1).
Proof.
  destruct (proj1 (master_roundtrip (replicate 32 7) eq_refl) (jint 4821) (replicate 8 9) (jint 5)
    (replicate 32 1) eq_refl eq_refl) as (wire & He & _ & _ & Hd). eauto.
Defined.
