(* ===== verification/Runtime.v ===== *)
(** * The Node runtime as the client sees it

    One process: its pid, monotonic clock, entropy source, buffers and datagram
    sockets. What the environment decides is an oracle read in order: the [i]-th
    call into Node that may throw throws [w_fault i], the [i]-th clock reading is
    [w_clock i], the [i]-th draw of [n] random bytes is [w_random i n]. A theorem
    for every [World] is a theorem for every environment.

    Buffers live in a heap, because the agent re-uses one scratch buffer and
    because [dgram.Socket.send] does not copy: a datagram handed to a socket is a
    location, read when the kernel takes it. *)

From Stdlib Require Import QArith_base.
From S2P Require Import Prelude.
From S2P Require Number.

(** Calls into [node:dgram] worth recording. *)
Inductive sysevent : Type :=
| SCreate (id : nat) (family : string)
| SConnect (id : nat) (port : jsnum) (host : string)
| SClose (id : nat).

(** The module variable [cachedNodeUnixSocket]: [null], ["missing"] or the addon. *)
Inductive addon_cache : Type := NotLoaded | Missing | Loaded.

(** A datagram handed to a socket: the handle, the buffer, and the destination
    path ([None] on a connected socket). *)
Record datagram : Type := mkDatagram {
  dg_socket : nat;
  dg_buffer : nat;
  dg_dest : option string;
}.

Record World : Type := mkWorld {
  w_pid : Z;
  w_clock : nat -> Z;
  w_ticks : nat;
  w_random : nat -> nat -> bytes;
  w_draws : nat;
  w_fault : nat -> option exn;
  w_calls : nat;
  w_sockets : nat;
  w_heap : gmap nat bytes;
  w_next : nat;
  w_inflight : list datagram;
  w_kernel : list (datagram * bytes);
  w_log : list sysevent;
  w_addon : addon_cache;
  w_stderr : list string;
  w_nonce_warned : bool;
}.

(** ** Primitive operations *)

(** A call that may throw: consumes one answer of the oracle. *)
Definition may_throw : M World unit := fun w =>
  let w' := mkWorld (w_pid w) (w_clock w) (w_ticks w) (w_random w) (w_draws w) (w_fault w)
    (S (w_calls w)) (w_sockets w) (w_heap w) (w_next w) (w_inflight w) (w_kernel w) (w_log w)
    (w_addon w) (w_stderr w) (w_nonce_warned w) in
  match w_fault w (w_calls w) with
  | Some e => (Throw e, w')
  | None => (Ret tt, w')
  end.

Definition log (ev : sysevent) : M World unit := modify (fun w =>
  mkWorld (w_pid w) (w_clock w) (w_ticks w) (w_random w) (w_draws w) (w_fault w)
    (w_calls w) (w_sockets w) (w_heap w) (w_next w) (w_inflight w) (w_kernel w)
    (w_log w ++ [ev]) (w_addon w) (w_stderr w) (w_nonce_warned w)).

(** A fresh socket handle. *)
Definition new_socket : M World nat := fun w =>
  (Ret (w_sockets w),
   mkWorld (w_pid w) (w_clock w) (w_ticks w) (w_random w) (w_draws w) (w_fault w)
    (w_calls w) (S (w_sockets w)) (w_heap w) (w_next w) (w_inflight w) (w_kernel w)
    (w_log w) (w_addon w) (w_stderr w) (w_nonce_warned w)).

(** A fresh buffer with the given contents. *)
Definition new_buffer (b : bytes) : M World nat := fun w =>
  (Ret (w_next w),
   mkWorld (w_pid w) (w_clock w) (w_ticks w) (w_random w) (w_draws w) (w_fault w)
    (w_calls w) (w_sockets w) (<[w_next w := b]> (w_heap w)) (S (w_next w))
    (w_inflight w) (w_kernel w) (w_log w) (w_addon w) (w_stderr w) (w_nonce_warned w)).

(** The contents of a buffer. *)
Definition contents (w : World) (l : nat) : bytes := default [] (w_heap w !! l).

Definition set_contents (l : nat) (b : bytes) (w : World) : World :=
  mkWorld (w_pid w) (w_clock w) (w_ticks w) (w_random w) (w_draws w) (w_fault w)
    (w_calls w) (w_sockets w) (<[l := b]> (w_heap w)) (w_next w)
    (w_inflight w) (w_kernel w) (w_log w) (w_addon w) (w_stderr w) (w_nonce_warned w).

(** Running buffer writes on the buffer at [l]. *)
Definition on_buffer {A} (l : nat) (m : M bytes A) : M World A := fun w =>
  let '(r, b) := m (contents w l) in (r, set_contents l b w).

(** [Buffer.from(buf)]: a private copy. *)
Definition buffer_from (l : nat) : M World nat := fun w => new_buffer (contents w l) w.

(** The next draw of the entropy source. *)
Definition draw (n : nat) : M World bytes := fun w =>
  (Ret (w_random w (w_draws w) n),
   mkWorld (w_pid w) (w_clock w) (w_ticks w) (w_random w) (S (w_draws w)) (w_fault w)
    (w_calls w) (w_sockets w) (w_heap w) (w_next w) (w_inflight w) (w_kernel w)
    (w_log w) (w_addon w) (w_stderr w) (w_nonce_warned w)).

(** [randomBytes(n)]. *)
Definition randomBytes (n : nat) : M World bytes := may_throw;; draw n.

(** [process.hrtime.bigint()]. *)
Definition hrtime : M World Z := fun w =>
  (Ret (w_clock w (w_ticks w)),
   mkWorld (w_pid w) (w_clock w) (S (w_ticks w)) (w_random w) (w_draws w) (w_fault w)
    (w_calls w) (w_sockets w) (w_heap w) (w_next w) (w_inflight w) (w_kernel w)
    (w_log w) (w_addon w) (w_stderr w) (w_nonce_warned w)).

(** [createSocket(family)]. *)
Definition createSocket (family : string) : M World nat :=
  may_throw;; s ← new_socket; log (SCreate s family);; mret s.

(** What [connect] of node:dgram takes for a port: a whole number from 1 to 65535. *)
Definition valid_port (port : jsnum) : bool :=
  match port with
  | JFin q => Qeq_bool q (inject_Z (to_uint32 port)) && (0 <? to_uint32 port) && (to_uint32 port <? 65536)
  | _ => false
  end.

Definition bad_port (port : jsnum) : exn :=
  Exn "RangeError" ("Port should be > 0 and < 65536. Received type number (" +:+ latin1_string (Number.number_string port) +:+ ").")
    (Some "ERR_SOCKET_BAD_PORT"%string) None None None.

(** [s.connect(port, host, cb)]: throws on a port that is none, and may throw for other
    reasons; otherwise the connection completes later, in a callback. *)
Definition sock_connect (s : nat) (port : jsnum) (host : string) : M World unit :=
  if valid_port port then may_throw;; log (SConnect s port host) else throw (bad_port port).

(** [s.send(buf, cb)] ([dest] is [None]) and [s.sendTo(buf, 0, len, path, cb)]: may
    throw; otherwise the buffer is in flight until the kernel takes it. *)
Definition sock_send (s l : nat) (dest : option string) : M World unit :=
  may_throw;; modify (fun w =>
  mkWorld (w_pid w) (w_clock w) (w_ticks w) (w_random w) (w_draws w) (w_fault w)
    (w_calls w) (w_sockets w) (w_heap w) (w_next w)
    (w_inflight w ++ [mkDatagram s l dest]) (w_kernel w)
    (w_log w) (w_addon w) (w_stderr w) (w_nonce_warned w)).

(** [s.close()]: throws when the socket is not running. *)
Definition sock_close (s : nat) : M World unit := may_throw;; log (SClose s).

(** The environment completes the oldest send: the kernel reads the buffer now,
    or reports the error that the send's callback is then given. *)
Definition complete_send (err : option exn) (w : World) : option (datagram * World) :=
  match w_inflight w with
  | [] => None
  | d :: rest =>
      Some (d, mkWorld (w_pid w) (w_clock w) (w_ticks w) (w_random w) (w_draws w) (w_fault w)
        (w_calls w) (w_sockets w) (w_heap w) (w_next w) rest
        (match err with None => w_kernel w ++ [(d, contents w (dg_buffer d))] | Some _ => w_kernel w end)
        (w_log w) (w_addon w) (w_stderr w) (w_nonce_warned w))
  end.

Definition set_addon (c : addon_cache) : M World unit := modify (fun w =>
  mkWorld (w_pid w) (w_clock w) (w_ticks w) (w_random w) (w_draws w) (w_fault w)
    (w_calls w) (w_sockets w) (w_heap w) (w_next w) (w_inflight w) (w_kernel w)
    (w_log w) c (w_stderr w) (w_nonce_warned w)).

Definition set_nonce_warned : M World unit := modify (fun w =>
  mkWorld (w_pid w) (w_clock w) (w_ticks w) (w_random w) (w_draws w) (w_fault w)
    (w_calls w) (w_sockets w) (w_heap w) (w_next w) (w_inflight w) (w_kernel w)
    (w_log w) (w_addon w) (w_stderr w) true).

(** [process.stderr.write(s)]. *)
Definition stderr_write (s : string) : M World unit :=
  may_throw;; modify (fun w =>
  mkWorld (w_pid w) (w_clock w) (w_ticks w) (w_random w) (w_draws w) (w_fault w)
    (w_calls w) (w_sockets w) (w_heap w) (w_next w) (w_inflight w) (w_kernel w)
    (w_log w) (w_addon w) (w_stderr w ++ [s]) (w_nonce_warned w)).

(** The same process after [fork(2)]: another pid, everything else inherited. *)
Definition with_pid (pid : Z) (w : World) : World :=
  mkWorld pid (w_clock w) (w_ticks w) (w_random w) (w_draws w) (w_fault w)
    (w_calls w) (w_sockets w) (w_heap w) (w_next w) (w_inflight w) (w_kernel w)
    (w_log w) (w_addon w) (w_stderr w) (w_nonce_warned w).

(** ** What running client code may do to the world *)

(** Fresh locations are unused. *)
Definition heap_ok (w : World) : Prop := forall l, (w_next w <= l)%nat -> w_heap w !! l = None.

(** The environment's side is only consumed, handles and locations only grow, and
    no existing buffer changes: what the transports promise. *)
Record evolves (w w' : World) : Prop := {
  ev_pid : w_pid w' = w_pid w;
  ev_clock : w_clock w' = w_clock w;
  ev_ticks : w_ticks w' = w_ticks w;
  ev_random : w_random w' = w_random w;
  ev_draws : (w_draws w <= w_draws w')%nat;
  ev_fault : w_fault w' = w_fault w;
  ev_sockets : (w_sockets w <= w_sockets w')%nat;
  ev_next : (w_next w <= w_next w')%nat;
  ev_heap : forall l, (l < w_next w)%nat -> w_heap w' !! l = w_heap w !! l;
  ev_kernel : w_kernel w' = w_kernel w;
  ev_inflight : exists more, w_inflight w' = w_inflight w ++ more;
  ev_heap_ok : heap_ok w -> heap_ok w';
}.

#[export] Instance evolves_refl : Reflexive evolves.
Proof. intros w. constructor; auto. exists []. by rewrite app_nil_r. Qed.

#[export] Instance evolves_trans : Transitive evolves.
Proof.
  intros w1 w2 w3 [? ? ? ? ? ? ? Hn1 Hh1 ? [m1 Hm1] ?] [? ? ? ? ? ? ? Hn2 Hh2 ? [m2 Hm2] ?].
  constructor; try congruence; try lia; auto.
  - intros l Hl. rewrite Hh2 by lia. by apply Hh1.
  - exists (m1 ++ m2). by rewrite Hm2, Hm1, app_assoc.
Qed.

#[export] Instance evolves_preorder : PreOrder evolves.
Proof. split; apply _. Qed.

(** The same, and nothing handed to a socket, no buffer allocated. *)
Record quiet (w w' : World) : Prop := {
  qu_evolves : evolves w w';
  qu_inflight : w_inflight w' = w_inflight w;
  qu_next : w_next w' = w_next w;
  qu_heap : w_heap w' = w_heap w;
}.

#[export] Instance quiet_preorder : PreOrder quiet.
Proof.
  split.
  - intros w. by constructor.
  - intros w1 w2 w3 [? ? ? ?] [? ? ? ?]. constructor; [by etrans|congruence..].
Qed.

(** World code whose every run, returning or throwing, stays within [R]. *)
Definition keeps {A} (R : relation World) (m : M World A) : Prop := forall w, R w (m w).2.

Section keeps.
Context (R : relation World) `{!PreOrder R}.

Lemma keeps_ret {A} (a : A) : keeps R (mret a).
Proof. intros w. cbn. reflexivity. Qed.

Lemma keeps_throw {A} e : keeps R (throw e : M World A).
Proof. intros w. cbn. reflexivity. Qed.

Lemma keeps_gets {A} (f : World -> A) : keeps R (gets f).
Proof. intros w. cbn. reflexivity. Qed.

Lemma keeps_bind {A B} (m : M World A) (f : A -> M World B) :
  keeps R m -> (forall a, keeps R (f a)) -> keeps R (m ≫= f).
Proof.
  intros Hm Hf w. unfold_m. specialize (Hm w). destruct (m w) as [[a|e] w']; cbn in *; [|done].
  etrans; [exact Hm|]. apply Hf.
Qed.

Lemma keeps_try {A} (m : M World A) (h : exn -> M World A) :
  keeps R m -> (forall e, keeps R (h e)) -> keeps R (try_catch m h).
Proof.
  intros Hm Hf w. unfold try_catch. specialize (Hm w).
  destruct (m w) as [[a|e] w']; cbn in *; [done|]. etrans; [exact Hm|]. apply Hf.
Qed.
End keeps.

#[export] Hint Resolve keeps_ret keeps_throw keeps_gets : varta.

(** Splits code into its primitives and looks each of them up. *)
Ltac keeps_auto :=
  repeat (first [apply (keeps_bind _); [|intros ?] | apply (keeps_try _); [|intros ?]
    | case_match ]); eauto with varta typeclass_instances.

Ltac solve_evolves :=
  constructor; cbn; auto;
  try (exists []; rewrite app_nil_r; done); try (eexists; reflexivity).
Ltac solve_quiet := constructor; [solve_evolves|done..].

Lemma quiet_may_throw : keeps quiet may_throw.
Proof. intros w. unfold may_throw. destruct (w_fault w (w_calls w)); solve_quiet. Qed.

Lemma quiet_log ev : keeps quiet (log ev).
Proof. intros w. solve_quiet. Qed.

Lemma quiet_new_socket : keeps quiet new_socket.
Proof. intros w. solve_quiet. Qed.

Lemma quiet_draw n : keeps quiet (draw n).
Proof. intros w. solve_quiet. Qed.

Lemma quiet_set_addon c : keeps quiet (set_addon c).
Proof. intros w. solve_quiet. Qed.

Lemma quiet_set_nonce_warned : keeps quiet set_nonce_warned.
Proof. intros w. solve_quiet. Qed.

#[export] Hint Resolve quiet_may_throw quiet_log quiet_new_socket quiet_draw quiet_set_addon
  quiet_set_nonce_warned : varta.

Lemma quiet_randomBytes n : keeps quiet (randomBytes n).
Proof. unfold randomBytes. keeps_auto. Qed.

Lemma quiet_createSocket f : keeps quiet (createSocket f).
Proof. unfold createSocket. keeps_auto. Qed.

Lemma quiet_sock_connect s p h : keeps quiet (sock_connect s p h).
Proof. unfold sock_connect. keeps_auto. Qed.

Lemma quiet_sock_close s : keeps quiet (sock_close s).
Proof. unfold sock_close. keeps_auto. Qed.

Lemma quiet_stderr_write s : keeps quiet (stderr_write s).
Proof.
  unfold stderr_write. apply (keeps_bind _); [auto with varta|]. intros _ w. solve_quiet.
Qed.

#[export] Hint Resolve quiet_randomBytes quiet_createSocket quiet_sock_connect
  quiet_sock_close quiet_stderr_write : varta.

(** A fresh buffer. *)
Lemma evolves_new_buffer b : keeps evolves (new_buffer b).
Proof.
  intros w. solve_evolves.
  - intros l Hl. by rewrite lookup_insert_ne by lia.
  - intros Hok l Hl. cbn in *. rewrite lookup_insert_ne by lia. apply Hok. lia.
Qed.

Lemma new_buffer_run b w :
  exists w', new_buffer b w = (Ret (w_next w), w') /\ evolves w w'
  /\ w_next w' = S (w_next w) /\ w_inflight w' = w_inflight w /\ contents w' (w_next w) = b
  /\ w_draws w' = w_draws w.
Proof.
  eexists. split; [reflexivity|]. split; [apply evolves_new_buffer|].
  split_and!; try reflexivity. unfold contents; cbn. by rewrite lookup_insert_eq.
Qed.

(** [randomBytes] gives the next draw or throws without consuming it. *)
Lemma randomBytes_run n w :
  exists r w', randomBytes n w = (r, w') /\ quiet w w'
  /\ match r with
     | Ret b => b = w_random w (w_draws w) n /\ w_draws w' = S (w_draws w)
     | Throw _ => w_draws w' = w_draws w
     end.
Proof.
  pose proof (quiet_randomBytes n w) as Hq. revert Hq. unfold randomBytes, may_throw, draw. unfold_m.
  destruct (w_fault w (w_calls w)); eauto 10.
Qed.

(** [send] hands one buffer over or leaves the world quiet. *)
Lemma sock_send_run s l d w :
  exists r w', sock_send s l d w = (r, w') /\ evolves w w' /\ w_next w' = w_next w
  /\ w_heap w' = w_heap w
  /\ w_draws w' = w_draws w
  /\ match r with
     | Ret _ => w_fault w (w_calls w) = None /\ w_inflight w' = w_inflight w ++ [mkDatagram s l d]
     | Throw e => w_fault w (w_calls w) = Some e /\ w_inflight w' = w_inflight w
     end.
Proof.
  unfold sock_send, may_throw. unfold_m. destruct (w_fault w (w_calls w)) eqn:Hf;
    eexists _, _; split_and!; try reflexivity; cbn; try done; solve_evolves.
Qed.

(** Code that draws no entropy. *)
Definition same_draws (w w' : World) : Prop := w_draws w' = w_draws w.

#[export] Instance same_draws_preorder : PreOrder same_draws.
Proof. split; [done|]. unfold same_draws. intros ??? H1 H2. by rewrite H2. Qed.

Lemma draws_may_throw : keeps same_draws may_throw.
Proof. intros w. unfold may_throw. by destruct (w_fault w (w_calls w)). Qed.

Lemma draws_log ev : keeps same_draws (log ev).
Proof. done. Qed.

Lemma draws_new_socket : keeps same_draws new_socket.
Proof. done. Qed.

Lemma draws_new_buffer b : keeps same_draws (new_buffer b).
Proof. done. Qed.

#[export] Hint Resolve draws_may_throw draws_log draws_new_socket draws_new_buffer : varta.

Lemma draws_createSocket f : keeps same_draws (createSocket f).
Proof. unfold createSocket. keeps_auto. Qed.

Lemma draws_sock_connect s p h : keeps same_draws (sock_connect s p h).
Proof. unfold sock_connect. keeps_auto. Qed.

Lemma draws_sock_close s : keeps same_draws (sock_close s).
Proof. unfold sock_close. keeps_auto. Qed.

Lemma draws_sock_send s l d : keeps same_draws (sock_send s l d).
Proof. unfold sock_send. apply (keeps_bind _); [auto with varta|done]. Qed.

#[export] Hint Resolve draws_createSocket draws_sock_connect draws_sock_close draws_sock_send : varta.

Lemma quiet_close_try s : keeps quiet (try_catch (sock_close s) (fun _ => mret tt)).
Proof. keeps_auto. Qed.

(** Closing a socket under [try]/[catch {}] never throws. *)
Lemma close_try_run s w :
  exists w', try_catch (sock_close s) (fun _ => mret tt) w = (Ret tt, w') /\ quiet w w'
  /\ w_draws w' = w_draws w.
Proof.
  pose proof (quiet_close_try s w) as Hq. pose proof (draws_sock_close s w) as Hd.
  unfold same_draws, try_catch in *.
  destruct (sock_close s w) as [[[]|e] w']; eauto.
Qed.

#[export] Hint Resolve quiet_close_try : varta.

(** Clients reason with the lemmas above, not by computing on the record. *)
#[global] Arguments may_throw : simpl never.
#[global] Arguments new_socket : simpl never.
#[global] Arguments new_buffer : simpl never.
#[global] Arguments draw : simpl never.
#[global] Arguments hrtime : simpl never.
#[global] Arguments createSocket : simpl never.
#[global] Arguments sock_connect : simpl never.
#[global] Arguments sock_send : simpl never.
#[global] Arguments sock_close : simpl never.
#[global] Arguments stderr_write : simpl never.
#[global] Arguments contents : simpl never.

(** A concrete process for the examples: pid 4821, a clock that advances by a
    microsecond per reading, entropy that counts its draws, and one 32-byte buffer
    at location 0. *)
Definition demo_world (faults : list (nat * exn)) : World := mkWorld 4821
  (fun i => 1000 * Z.of_nat (S i)) 0
  (fun i n => le_bytes n (Z.of_nat i)) 0
  (fun i => snd <$> List.find (fun '(k, _) => Nat.eqb k i) faults) 0
  0 {[0%nat := replicate 32 7]} 1 [] [] [] NotLoaded [] false.
