(* ===== verification/Transport.v ===== *)
(** * The transport interface (src/clients/node/src/transport.ts)

    [BeatTransport] is the TypeScript interface: three methods over the transport's
    own fields and the world. [BeatTransportLaws] is the contract its comments
    state and the agent relies on: a rejected [send] hands nothing over, an accepted
    one hands over exactly one private copy that the peer opens to the caller's
    bytes, [reconnect] has the strong exception guarantee, [close] never throws. *)

From S2P Require Import Prelude Runtime.

(** A method of an object of type [T]. *)
Abbreviation method T A := (M (T * World) A).

(** The fields of [this], and calls that touch only the world. *)
Definition self {T A} (f : T -> A) : method T A := gets (fun tw => f tw.1).
Definition assign {T} (f : T -> T) : method T unit := on_fst (modify f).
Definition sys {T A} (m : M World A) : method T A := on_snd m.

Class BeatTransport (T : Type) : Type := {
  bt_send : nat -> method T unit;
  bt_reconnect : method T unit;
  bt_close : method T unit;
}.

(** [{ pendingError: NodeJS.ErrnoException | null }]. *)
Class PendingHolder (T : Type) : Type := {
  pendingError : T -> option exn;
  set_pendingError : option exn -> T -> T;
}.

Definition takePendingError {T} `{PendingHolder T} : method T (option exn) :=
  e ← self pendingError;
  assign (set_pendingError None);;
  mret e.

(** ** The contract *)

(** What [randomBytes] promises: as many bytes as were asked for. *)
Definition entropy_ok (w : World) : Prop :=
  forall i n, length (w_random w i n) = n /\ Forall is_byte (w_random w i n).

Definition world_ok (w : World) : Prop := heap_ok w /\ entropy_ok w.

(** The buffers handed over and not yet taken by the kernel: in flight, then
    waiting in the transport's own queue. *)
Definition outbox_of (q : list nat) (w : World) : list nat := map dg_buffer (w_inflight w) ++ q.

(** The buffers of [outbox] are allocated. *)
Definition allocated (w : World) (ls : list nat) : Prop := Forall (fun l => l < w_next w)%nat ls.

Class BeatTransportLaws (T : Type) `{BeatTransport T} : Type := {
  (** The transport's own invariant, its queue, and how its peer opens a datagram. *)
  bt_inv : T -> Prop;
  bt_queue : T -> list nat;
  bt_open : T -> bytes -> res bytes;
  bt_outbox t w := outbox_of (bt_queue t) w;
  bt_ok t w := world_ok w /\ bt_inv t /\ allocated w (bt_outbox t w);
  send_spec t w l :
    bt_ok t w -> (l < w_next w)%nat -> length (contents w l) = 32%nat ->
    exists r t' w', bt_send l (t, w) = (r, (t', w'))
    /\ bt_ok t' w' /\ evolves w w' /\ bt_open t' = bt_open t
    /\ match r with
       | Ret _ => exists o, (w_next w <= o < w_next w')%nat
           /\ bt_outbox t' w' ≡ₚ o :: bt_outbox t w
           /\ bt_open t (contents w' o) = Ret (contents w l)
       | Throw _ => bt_outbox t' w' = bt_outbox t w
       end;
  reconnect_spec t w :
    bt_ok t w ->
    exists r t' w', bt_reconnect (t, w) = (r, (t', w'))
    /\ bt_ok t' w' /\ evolves w w' /\ bt_open t' = bt_open t
    /\ bt_outbox t' w' = bt_outbox t w
    /\ match r with Ret _ => True | Throw _ => t' = t end;
  close_spec t w :
    exists w', bt_close (t, w) = (Ret tt, (t, w')) /\ evolves w w'
    /\ w_inflight w' = w_inflight w /\ (world_ok w -> world_ok w');
}.

(** ** Lemmas *)

Lemma evolves_entropy w w' : evolves w w' -> entropy_ok w -> entropy_ok w'.
Proof. intros Hev H i n. rewrite (ev_random _ _ Hev). apply H. Qed.

Lemma evolves_world_ok w w' : evolves w w' -> world_ok w -> world_ok w'.
Proof. intros Hev [Hh He]. split; [by apply (ev_heap_ok _ _ Hev)|by eapply evolves_entropy]. Qed.

Lemma evolves_allocated w w' ls : evolves w w' -> allocated w ls -> allocated w' ls.
Proof.
  intros Hev. unfold allocated. pose proof (ev_next _ _ Hev).
  intros Hf. eapply list.Forall_impl; [exact Hf|]. cbn. lia.
Qed.

Lemma evolves_contents w w' l :
  evolves w w' -> (l < w_next w)%nat -> contents w' l = contents w l.
Proof. intros Hev Hl. unfold contents. by rewrite (ev_heap _ _ Hev). Qed.

Lemma evolves_contents_map w w' ls :
  evolves w w' -> allocated w ls -> map (contents w') ls = map (contents w) ls.
Proof.
  intros Hev. unfold allocated. induction 1 as [|l ls Hl _ IH]; cbn; [done|].
  by rewrite IH, (evolves_contents _ _ _ Hev Hl).
Qed.

#[export] Hint Resolve evolves_world_ok evolves_allocated : varta.

(** Handing one datagram to a socket adds its buffer to the outbox. *)
Lemma outbox_sent q w w' d :
  w_inflight w' = w_inflight w ++ [d] -> outbox_of q w' ≡ₚ dg_buffer d :: outbox_of q w.
Proof.
  intros Hi. unfold outbox_of. rewrite Hi, map_app, <- (assoc_L (++)). cbn.
  by rewrite Permutation_middle.
Qed.

Lemma outbox_same q w w' : w_inflight w' = w_inflight w -> outbox_of q w' = outbox_of q w.
Proof. intros Hi. unfold outbox_of. by rewrite Hi. Qed.

Lemma allocated_perm w ls ls' : ls ≡ₚ ls' -> allocated w ls' -> allocated w ls.
Proof. intros Hp. unfold allocated. by rewrite Hp. Qed.

Lemma allocated_sublist w ls ls' : ls `sublist_of` ls' -> allocated w ls' -> allocated w ls.
Proof.
  intros Hs. unfold allocated. rewrite !list.Forall_forall. eauto using elem_of_sublist.
Qed.

(** A quiet step keeps a transport's outbox and its allocation. *)
Lemma quiet_outbox q w w' : quiet w w' -> outbox_of q w' = outbox_of q w.
Proof. intros Hq. by apply outbox_same, qu_inflight. Qed.

Lemma quiet_world_ok w w' : quiet w w' -> world_ok w -> world_ok w'.
Proof. intros Hq. apply evolves_world_ok, Hq. Qed.

(** The whole outbox after one more buffer, allocated during the step. *)
Lemma allocated_grow w w' o ls ls' :
  evolves w w' -> (o < w_next w')%nat -> ls' ≡ₚ o :: ls -> allocated w ls -> allocated w' ls'.
Proof.
  intros Hev Ho Hp Ha. apply (allocated_perm _ _ _ Hp). apply list.Forall_cons. split; [done|].
  by eapply evolves_allocated.
Qed.

(** What has been handed over: taken by the kernel, in flight, or queued. *)
Definition handed (q : list nat) (w : World) : list bytes :=
  map snd (w_kernel w) ++ map (contents w) (outbox_of q w).

Lemma handed_evolves q q' w w' :
  evolves w w' -> allocated w (outbox_of q w) -> outbox_of q' w' = outbox_of q w ->
  handed q' w' = handed q w.
Proof.
  intros Hev Ha Ho. unfold handed. rewrite Ho, (ev_kernel _ _ Hev). f_equal.
  by apply evolves_contents_map.
Qed.

Lemma handed_sent q q' w w' o :
  evolves w w' -> allocated w (outbox_of q w) ->
  (outbox_of q' w' = outbox_of q w ++ [o] -> handed q' w' = handed q w ++ [contents w' o])
  /\ (outbox_of q' w' ≡ₚ o :: outbox_of q w -> handed q' w' ≡ₚ contents w' o :: handed q w).
Proof.
  intros Hev Ha. pose proof (evolves_contents_map _ _ _ Hev Ha) as Hm. unfold handed. rewrite (ev_kernel _ _ Hev). split; intros Ho.
  - rewrite Ho, map_app, Hm. by rewrite (assoc_L (++)).
  - rewrite Ho. cbn. rewrite Hm. by rewrite Permutation_middle.
Qed.

Lemma complete_send_run q err w d w' :
  complete_send err w = Some (d, w') ->
  (world_ok w -> world_ok w') /\ (allocated w (outbox_of q w) -> allocated w' (outbox_of q w'))
  /\ handed q w' `sublist_of` handed q w
  /\ (length (handed q w') + match err with None => 0 | Some _ => 1 end
      = length (handed q w))%nat.
Proof.
  unfold complete_send. destruct (w_inflight w) as [|d0 rest] eqn:Hi; [done|]. intros [= -> <-].
  split_and!.
  - intros [Hh He]. split; [exact Hh|exact He].
  - unfold allocated, outbox_of. rewrite Hi. cbn. by intros [_ Hf]%list.Forall_cons.
  - unfold handed, outbox_of. rewrite Hi. cbn. unfold contents; cbn. destruct err; cbn.
    + apply sublist_app; [done|]. by apply sublist_cons.
    + by rewrite map_app, <- (assoc_L (++)).
  - unfold handed, outbox_of. rewrite Hi.
    destruct err; cbn; repeat (rewrite length_app || rewrite length_map || cbn); lia.
Qed.

Lemma set_contents_handed q w l b :
  ~ (l ∈ outbox_of q w) -> handed q (set_contents l b w) = handed q w.
Proof.
  intros Hl. unfold handed. cbn. f_equal. apply map_ext_in. intros k Hk.
  rewrite <- list_elem_of_In in Hk. unfold contents. cbn.
  rewrite lookup_insert_ne; [done|]. intros ->. by apply Hl.
Qed.

Lemma set_contents_world_ok w l b :
  (l < w_next w)%nat -> world_ok w -> world_ok (set_contents l b w).
Proof.
  intros Hl [Hh He]. split; [|exact He]. intros k Hk. cbn in *.
  rewrite lookup_insert_ne by lia. by apply Hh.
Qed.

(** A sublist as long as the list is the list. *)
Lemma sublist_full {A} (l1 l2 : list A) : l1 `sublist_of` l2 -> (length l2 <= length l1)%nat -> l1 = l2.
Proof.
  induction 1 as [|x l1 l2 Hs IH|x l1 l2 Hs IH]; cbn; intros Hlen; [done| |].
  - f_equal. apply IH. lia.
  - apply sublist_length in Hs. lia.
Qed.

Lemma demo_world_ok faults : world_ok (demo_world faults).
Proof.
  split.
  - intros l Hl. cbn in *. rewrite lookup_singleton_ne; [done|lia].
  - intros i n. cbn. split; [apply length_le_bytes|apply le_bytes_byte].
Qed.
