(* ===== verification/Uds.v ===== *)
(** * The Unix-domain transport (src/clients/node/src/transport.ts, lines 54-188)

    The optional addon [node-unix-socket] and its [DgramSocket] are not part of the
    repository. What the code uses of them is in the world: [require] and the
    constructor may throw, [sendTo] throws or leaves the datagram in flight, and the
    completion callback and the ["error"] event are [on_send_done] and [on_error]. *)

From S2P Require Import Prelude Errno Outcome Runtime Transport.

(** ** Errors of the addon *)

Definition quote : string := String (Ascii.ascii_of_nat 34) EmptyString.

Definition UdsUnavailableError (cause : exn) : exn :=
  Exn "UdsUnavailableError"
    ("UDS transport requires the optional `node-unix-socket` addon. " +:+
     "Install it with `npm install node-unix-socket`, or fall back to " +:+
     "`Varta.connectUdp(" +:+ quote +:+ "127.0.0.1" +:+ quote +:+
     ", port)` on platforms without a prebuild.")
    None None None (Some cause).

(** An [unknown]: an [Error], or a value with its [String(v)]. *)
Inductive js_value : Type :=
| JsError (e : exn)
| JsOther (str : string).

(** [e.code = c]. *)
Definition set_code (c : string) (e : exn) : exn :=
  let '(Exn n m _ no k ca) := e in Exn n m (Some c) no k ca.

Definition normalizeUdsError (err : js_value) : exn :=
  let e := match err with JsError e => e | JsOther s => plain_error s end in
  let has_code := match exn_code e with Some c => negb (bool_decide (c = ""%string)) | None => false end in
  if has_code then e
  else
    let msg := to_lower (exn_message e) in
    if includes "no such file" msg then set_code "ENOENT" e
    else if includes "connection refused" msg then set_code "ECONNREFUSED" e
    else if includes "no buffer space" msg then set_code "ENOBUFS" e
    else if includes "resource temporarily unavailable" msg then set_code "EAGAIN" e
    else if includes "would block" msg then set_code "EWOULDBLOCK" e
    else if includes "no space left" msg then set_code "ENOSPC" e
    else if includes "broken pipe" msg then set_code "EPIPE" e
    else if includes "connection reset" msg then set_code "ECONNRESET" e
    else if includes "transport endpoint is not connected" msg then set_code "ENOTCONN" e
    else e.

(** ** Loading the addon once per process *)

Definition loadNodeUnixSocket : M World unit :=
  cachedNodeUnixSocket ← gets w_addon;
  match cachedNodeUnixSocket with
  | Missing => throw (UdsUnavailableError (plain_error "module not installed"))
  | Loaded => mret tt
  | NotLoaded =>
      try_catch (may_throw;; set_addon Loaded)
        (fun err => set_addon Missing;; throw (UdsUnavailableError err))
  end.

(** ** The transport *)

Record UdsTransport : Type := mkUds {
  uds_socket : nat;
  uds_path : string;
  uds_pendingError : option exn;
}.

#[global] Instance uds_holder : PendingHolder UdsTransport := {|
  pendingError := uds_pendingError;
  set_pendingError e t := mkUds (uds_socket t) (uds_path t) e;
|}.

(** [new DgramSocket()]. *)
Definition newDgramSocket : M World nat :=
  may_throw;; s ← new_socket; log (SCreate s "unix_dgram");; mret s.

Definition openSocket : M World nat :=
  loadNodeUnixSocket;;
  newDgramSocket.

Definition newUdsTransport (path : string) : M World UdsTransport :=
  s ← openSocket;
  mret (mkUds s path None).

(** The ["error"] listener of socket [s]. *)
Definition on_error (s : nat) (err : js_value) : method UdsTransport unit :=
  cur ← self uds_socket;
  whenM (bool_decide (cur = s)) (assign (set_pendingError (Some (normalizeUdsError err)))).

(** The callback of a [sendTo] on [s]: [err] is [undefined] when it succeeded. *)
Definition on_send_done (s : nat) (err : option js_value) : method UdsTransport unit :=
  cur ← self uds_socket;
  match err with
  | Some err =>
      whenM (bool_decide (cur = s)) (assign (set_pendingError (Some (normalizeUdsError err))))
  | None => mret tt
  end.

Definition send (buf : nat) : method UdsTransport unit :=
  queued ← takePendingError;
  match queued with
  | Some e => throw e
  | None =>
      owned ← sys (buffer_from buf);
      socket ← self uds_socket;
      path ← self uds_path;
      sys (sock_send socket owned (Some path))
  end.

Definition reconnect : method UdsTransport unit :=
  replacement ← sys openSocket;
  old ← self uds_socket;
  assign (fun t => mkUds replacement (uds_path t) (uds_pendingError t));;
  assign (set_pendingError None);;
  sys (try_catch (sock_close old) (fun _ => mret tt)).

Definition close : method UdsTransport unit :=
  s ← self uds_socket;
  sys (try_catch (sock_close s) (fun _ => mret tt)).

#[global] Instance uds_transport : BeatTransport UdsTransport := {|
  bt_send := send; bt_reconnect := reconnect; bt_close := close
|}.

(** ** Lemmas *)

Lemma quiet_load : keeps quiet loadNodeUnixSocket.
Proof. unfold loadNodeUnixSocket. keeps_auto. Qed.

Lemma quiet_newDgramSocket : keeps quiet newDgramSocket.
Proof. unfold newDgramSocket. keeps_auto. Qed.

#[export] Hint Resolve quiet_load quiet_newDgramSocket : varta.

Lemma quiet_uds_openSocket : keeps quiet openSocket.
Proof. unfold openSocket. keeps_auto. Qed.

#[export] Hint Resolve quiet_uds_openSocket : varta.

(** The three methods, one equation per outcome. *)
Lemma uds_send_pending t w l e :
  uds_pendingError t = Some e -> send l (t, w) = (Throw e, (set_pendingError None t, w)).
Proof. intros He. unfold send, takePendingError, self, assign. unfold_m. cbn. by rewrite He. Qed.

Lemma uds_send_clear t w l :
  uds_pendingError t = None ->
  exists r w', send l (t, w) = (r, (t, w')) /\ evolves w w' /\ w_next w' = S (w_next w)
  /\ contents w' (w_next w) = contents w l
  /\ match r with
     | Ret _ => w_inflight w' =
         w_inflight w ++ [mkDatagram (uds_socket t) (w_next w) (Some (uds_path t))]
     | Throw e => w_inflight w' = w_inflight w
     end.
Proof.
  intros He. unfold send, takePendingError, self, assign, sys. unfold_m. cbn. rewrite He.
  unfold buffer_from. cbn. destruct (new_buffer_run (contents w l) w)
    as (w1 & -> & Hev1 & Hn1 & Hi1 & Hc1 & _). cbn.
  destruct (sock_send_run (uds_socket t) (w_next w) (Some (uds_path t)) w1)
    as (r & w2 & -> & Hev2 & Hn2 & Hh2 & _ & Hr).
  eexists r, w2. split; [by destruct t; cbn in *; subst; destruct r|].
  split; [by etrans|]. split; [congruence|]. split; [by unfold contents in *; rewrite Hh2|].
  rewrite <- Hi1. destruct r; tauto.
Qed.

Lemma uds_reconnect_run t w :
  exists r t' w', reconnect (t, w) = (r, (t', w')) /\ quiet w w'
  /\ uds_path t' = uds_path t
  /\ match r with Ret _ => uds_pendingError t' = None | Throw _ => t' = t end.
Proof.
  unfold reconnect, self, assign, sys. unfold_m. cbn.
  pose proof (quiet_uds_openSocket w) as Hq. destruct (openSocket w) as [[s|e] w1]; cbn in *.
  - destruct (close_try_run (uds_socket t) w1) as (w2 & Hc & Hq2 & _). unfold try_catch, mret, M_ret in Hc.
    rewrite Hc. eexists _, _, _. split; [reflexivity|]. split; [by etrans|]. done.
  - eexists _, _, _. split; [reflexivity|]. done.
Qed.

(** ** The contract *)

#[global] Program Instance uds_laws : BeatTransportLaws UdsTransport := {|
  bt_inv _ := True;
  bt_queue _ := [];
  bt_open _ b := Ret b;
|}.
Next Obligation.
  intros t w l (Hw & _ & Ha) Hl Hlen. cbn. destruct (uds_pendingError t) as [e|] eqn:He.
  - rewrite (uds_send_pending _ _ _ _ He). eexists _, _, _. by split_and!.
  - destruct (uds_send_clear t w l He) as (r & w' & -> & Hev & Hn & Hc & Hr).
    eexists r, _, _. split; [reflexivity|]. destruct r as [u|e].
    + assert (outbox_of [] w' ≡ₚ w_next w :: outbox_of [] w) as Ho by (by eapply outbox_sent in Hr).
      assert (w_next w < w_next w')%nat as Hlt by lia.
      split_and!; eauto using allocated_grow with varta.
      exists (w_next w). rewrite Hc. by split_and!.
    + rewrite (outbox_same _ _ _ Hr). split_and!; eauto with varta.
Qed.
Next Obligation.
  intros t w (Hw & _ & Ha). cbn.
  destruct (uds_reconnect_run t w) as (r & t' & w' & -> & Hq & _ & Hr).
  pose proof (qu_evolves _ _ Hq). eexists _, _, _. split; [reflexivity|].
  rewrite (quiet_outbox _ _ _ Hq). split_and!; eauto with varta. by destruct r.
Qed.
Next Obligation.
  intros t w. cbn. destruct (close_try_run (uds_socket t) w) as (w' & Hc & Hq & _).
  unfold close, self, sys. unfold_m. cbn. unfold try_catch, mret, M_ret in Hc. rewrite Hc.
  eexists. split_and!; [reflexivity|apply Hq..|]. by apply quiet_world_ok.
Qed.

(** ** Properties *)

(** The phrases the addon's messages are searched for, in order, with the symbol
    each stands for and the bucket that symbol belongs to. *)
Definition uds_phrases : list (string * string * DropReason) :=
  [("no such file", "ENOENT", NoObserver);
   ("connection refused", "ECONNREFUSED", NoObserver);
   ("no buffer space", "ENOBUFS", KernelQueueFull);
   ("resource temporarily unavailable", "EAGAIN", KernelQueueFull);
   ("would block", "EWOULDBLOCK", KernelQueueFull);
   ("no space left", "ENOSPC", StorageFull);
   ("broken pipe", "EPIPE", PeerGone);
   ("connection reset", "ECONNRESET", PeerGone);
   ("transport endpoint is not connected", "ENOTCONN", PeerGone)]%string.

Definition phrase_of (msg : string) : option (string * string * DropReason) :=
  List.find (fun '(phrase, _, _) => includes phrase (to_lower msg)) uds_phrases.

Lemma normalize_phrase e :
  exn_code e = None ->
  normalizeUdsError (JsError e) =
  match phrase_of (exn_message e) with Some (_, code, _) => set_code code e | None => e end.
Proof.
  intros Hc. unfold normalizeUdsError, phrase_of, uds_phrases. rewrite Hc. cbn [List.find].
  repeat (case_match; [done|]). done.
Qed.

Lemma assoc_positive name table c :
  Forall (fun '(_, code) => 0 < code) table -> assoc name table = Some c -> 0 < c.
Proof.
  induction 1 as [|[k v] table Hv _ IH]; cbn; [done|]. case_decide; [congruence|done].
Qed.

Lemma errno_of_positive `{Platform} name c :
  Forall (fun '(_, code) => 0 < code) os_errno -> errno_of name = Some c -> 0 < c.
Proof.
  intros Hp. unfold errno_of, ENOBUFS, selectEnobufs, EWOULDBLOCK, nullish.
  repeat case_decide; [..|by apply assoc_positive]; try (intros [= <-]; reflexivity).
  - intros [= <-]. destruct (assoc "ENOBUFS" os_errno) eqn:E; [|done]. by eapply assoc_positive.
  - destruct (assoc "EWOULDBLOCK" os_errno) eqn:E; intros ?; simplify_eq; by eapply assoc_positive.
Qed.

(** The addon's errors carry neither symbol nor number, only a message; after
    [normalizeUdsError] the agent's classification is the bucket of the first phrase
    of the table found in the lower-cased message, and an error that matches no
    phrase is a failure carrying the original error. (On a platform whose error
    numbers are positive.) *)
Theorem uds_errors_classified `{Platform} (e : exn) :
  Forall (fun '(_, code) => 0 < code) os_errno -> exn_code e = None -> exn_errno e = None ->
  classifySendError (normalizeUdsError (JsError e)) =
  match phrase_of (exn_message e) with
  | Some (_, _, reason) => dropped reason
  | None => failed (fromNodeError e)
  end.
Proof.
  intros Hp Hc He. rewrite (normalize_phrase _ Hc), classify_bucket.
  assert (forall x name, exn_errno x = None ->
    is_errno x name = bool_decide (default ""%string (exn_code x) = name)) as Hsym.
  { intros x name Hx. unfold is_errno. rewrite Hx. cbn.
    rewrite (bool_decide_false (errno_of name = Some 0)); [by rewrite orb_false_r|].
    intros Hz. by apply errno_of_positive in Hz. }
  destruct (phrase_of (exn_message e)) as [[[phrase code] reason]|] eqn:Hf.
  - assert (exn_errno (set_code code e) = None) as He' by (by destruct e).
    assert (exn_code (set_code code e) = Some code) as Hc' by (by destruct e).
    assert (bucket (set_code code e) = Some reason) as ->; [|done].
    unfold bucket, bucket_names. cbn [List.find existsb]. rewrite !Hsym, Hc' by done.
    unfold phrase_of, uds_phrases in Hf. cbn [List.find] in Hf.
    repeat (case_match; [simplify_eq; reflexivity|]). done.
  - unfold bucket, bucket_names. cbn [List.find existsb]. by rewrite !Hsym, Hc by done.
Qed.

Lemma uds_errors_classified_witness :
  @classifySendError linux_platform (normalizeUdsError
    (JsError (plain_error "Connection refused (os error 61)"))) = dropped NoObserver.
Proof.
  apply (@uds_errors_classified linux_platform (plain_error "Connection refused (os error 61)")).
  - repeat constructor; lia.
  - reflexivity.
  - reflexivity.
Defined.

(** The addon is looked for at most once per process: whatever the first
    [loadNodeUnixSocket] does, a second one gives the same verdict (it returns, or
    throws [UdsUnavailableError]) without calling [require] again, and the process
    never goes back from one verdict to the other. *)
Theorem addon_loaded_once (w : World) :
  let '(r1, w1) := loadNodeUnixSocket w in
  let '(r2, w2) := loadNodeUnixSocket w1 in
  w2 = w1
  /\ match r1, r2 with
     | Ret _, Ret _ => w_addon w1 = Loaded
     | Throw e1, Throw e2 => w_addon w1 = Missing
         /\ exn_name e1 = "UdsUnavailableError"%string /\ exn_name e2 = "UdsUnavailableError"%string
     | _, _ => False
     end.
Proof.
  unfold loadNodeUnixSocket, may_throw, set_addon. unfold_m. cbn.
  destruct (w_addon w) eqn:Ha; [destruct (w_fault w (w_calls w))|..]; cbn; rewrite ?Ha; done.
Qed.

(** An error reported on the current socket, by its ["error"] event or by a
    completed [sendTo], is thrown by the next [send], normalised, with nothing
    handed over, and only by that one: the [send] after it runs as if it had not
    happened. An error of a socket that has been replaced changes nothing. *)
Theorem uds_async_error_surfaces_once (t : UdsTransport) (w : World) (s l : nat) (err : js_value) :
  on_send_done s (Some err) (t, w) = on_error s err (t, w)
  /\ let t' := if decide (uds_socket t = s)
               then mkUds (uds_socket t) (uds_path t) (Some (normalizeUdsError err)) else t in
     on_error s err (t, w) = (Ret tt, (t', w))
     /\ (uds_socket t = s ->
         send l (t', w) =
           (Throw (normalizeUdsError err), (mkUds (uds_socket t) (uds_path t) None, w))).
Proof.
  split; [done|]. split.
  - unfold on_error, self, assign. unfold_m. cbn. case_bool_decide; by case_decide.
  - intros Hs. rewrite decide_True by done. by rewrite (uds_send_pending _ _ _ (normalizeUdsError err)).
Qed.

Lemma uds_async_error_surfaces_once_witness :
  send 0 (mkUds 3 "/run/varta.sock" (Some (normalizeUdsError (JsOther "Broken pipe"))), demo_world [])
  = (Throw (normalizeUdsError (JsOther "Broken pipe")),
     (mkUds 3 "/run/varta.sock" None, demo_world [])).
Proof.
  exact (proj2 (proj2 (uds_async_error_surfaces_once (mkUds 3 "/run/varta.sock" None)
    (demo_world []) 3 0 (JsOther "Broken pipe"))) eq_refl).
Defined.
