(* ===== verification/Udp.v ===== *)
(** * The plaintext UDP transport (src/clients/node/src/transport.ts, lines 190-303)

    A connected-mode datagram socket. Until the [connect] callback fires, beats wait
    in [preConnectQueue]; errors that libuv reports later land in [pendingError]
    through three callbacks ([on_error], [on_connect], [on_send_done]), each of
    which first checks that its socket is still the current one. *)

From S2P Require Import Prelude Runtime Transport.

Definition PRE_CONNECT_QUEUE_LIMIT : nat := 64.

Record UdpTransport : Type := mkUdp {
  socket : nat;
  host : string;
  port : jsnum;
  connected : bool;
  preConnectQueue : list nat;
  udp_pendingError : option exn;
}.

#[global] Instance udp_holder : PendingHolder UdpTransport := {|
  pendingError := udp_pendingError;
  set_pendingError e t :=
    mkUdp (socket t) (host t) (port t) (connected t) (preConnectQueue t) e;
|}.

Definition set_socket (s : nat) (t : UdpTransport) : UdpTransport :=
  mkUdp s (host t) (port t) (connected t) (preConnectQueue t) (udp_pendingError t).
Definition set_connected (c : bool) (t : UdpTransport) : UdpTransport :=
  mkUdp (socket t) (host t) (port t) c (preConnectQueue t) (udp_pendingError t).
Definition set_queue (q : list nat) (t : UdpTransport) : UdpTransport :=
  mkUdp (socket t) (host t) (port t) (connected t) q (udp_pendingError t).

(** [new Error(m)] with [code] set to ["ENOBUFS"]. *)
Definition queue_full (m : string) : exn := Exn "Error" m (Some "ENOBUFS"%string) None None None.

(** ** Opening a socket and its callbacks *)

Definition family_of (host : string) : string := if includes ":" host then "udp6" else "udp4".

Definition openSocket (host : string) (port : jsnum) : M World nat :=
  s ← createSocket (family_of host);
  try_catch (sock_connect s port host)
    (fun err =>
       try_catch (sock_close s) (fun _ => mret tt);;
       throw err);;
  mret s.

(** The ["error"] listener of socket [s]. *)
Definition on_error (s : nat) (err : exn) : method UdpTransport unit :=
  cur ← self socket;
  whenM (bool_decide (cur = s)) (assign (set_pendingError (Some err))).

(** The callback of a [send] on [s]: [err] is [null] when it succeeded. *)
Definition on_send_done (s : nat) (err : option exn) : method UdpTransport unit :=
  cur ← self socket;
  match err with
  | Some err => whenM (bool_decide (cur = s)) (assign (set_pendingError (Some err)))
  | None => mret tt
  end.

(** The [while] loop of the [connect] callback, on the queue as it is read: each
    turn shifts the head off and sends it. Nothing else runs in between. *)
Fixpoint flush (s : nat) (queue : list nat) : method UdpTransport unit :=
  match queue with
  | [] => mret tt
  | owned :: rest =>
      assign (set_queue rest);;
      sys (sock_send s owned None);;
      flush s rest
  end.

(** The [connect] callback of socket [s]. *)
Definition on_connect (s : nat) : method UdpTransport unit :=
  cur ← self socket;
  if negb (bool_decide (cur = s)) then mret tt
  else
    assign (set_connected true);;
    queue ← self preConnectQueue;
    flush s queue.

(** ** The methods *)

Definition newUdpTransport (host : string) (port : jsnum) : M World UdpTransport :=
  s ← openSocket host port;
  mret (mkUdp s host port false [] None).

Definition send (buf : nat) : method UdpTransport unit :=
  queued ← takePendingError;
  match queued with
  | Some e => throw e
  | None =>
      owned ← sys (buffer_from buf);
      c ← self connected;
      queue ← self preConnectQueue;
      if negb c then
        if bool_decide (PRE_CONNECT_QUEUE_LIMIT <= length queue)%nat
        then throw (queue_full "UdpTransport: pre-connect queue full")
        else assign (set_queue (queue ++ [owned]))
      else
        s ← self socket;
        sys (sock_send s owned None)
  end.

Definition reconnect : method UdpTransport unit :=
  host ← self host;
  port ← self port;
  replacement ← sys (openSocket host port);
  old ← self socket;
  assign (set_socket replacement);;
  assign (set_connected false);;
  assign (set_pendingError None);;
  sys (try_catch (sock_close old) (fun _ => mret tt)).

Definition close : method UdpTransport unit :=
  s ← self socket;
  sys (try_catch (sock_close s) (fun _ => mret tt)).

#[global] Instance udp_transport : BeatTransport UdpTransport := {|
  bt_send := send; bt_reconnect := reconnect; bt_close := close
|}.

(** ** Lemmas *)

Lemma quiet_udp_openSocket h p : keeps quiet (openSocket h p).
Proof. unfold openSocket. keeps_auto. Qed.

Lemma draws_udp_openSocket h p : keeps same_draws (openSocket h p).
Proof. unfold openSocket. keeps_auto. Qed.

#[export] Hint Resolve quiet_udp_openSocket draws_udp_openSocket : varta.

Lemma udp_close_run t w : exists w', close (t, w) = (Ret tt, (t, w')) /\ quiet w w'.
Proof.
  destruct (close_try_run (socket t) w) as (w' & Hc & Hq & _).
  unfold close, self, sys. unfold_m. cbn. unfold try_catch, mret, M_ret in Hc. rewrite Hc. eauto.
Qed.

Lemma udp_reconnect_run t w :
  exists r t' w', reconnect (t, w) = (r, (t', w')) /\ quiet w w'
  /\ match r with
     | Ret _ => exists s, t' = mkUdp s (host t) (port t) false (preConnectQueue t) None
     | Throw _ => t' = t
     end.
Proof.
  unfold reconnect, self, assign, sys. unfold_m. cbn.
  pose proof (quiet_udp_openSocket (host t) (port t) w) as Hq.
  destruct (openSocket (host t) (port t) w) as [[s|e] w1]; cbn in *.
  - destruct (close_try_run (socket t) w1) as (w2 & Hc & Hq2 & _). unfold try_catch, mret, M_ret in Hc.
    rewrite Hc. eexists _, _, _. split; [reflexivity|]. split; [by etrans|]. by exists s.
  - eexists _, _, _. by split_and!.
Qed.

(** A run of the flush loop: it sends the whole queue, or throws on one datagram,
    which is then lost while those behind it stay queued. *)
Lemma flush_run s q t w :
  preConnectQueue t = q ->
  exists r rest w', flush s q (t, w) = (r, (set_queue rest t, w')) /\ evolves w w'
  /\ w_next w' = w_next w /\ w_heap w' = w_heap w
  /\ exists sent, w_inflight w' = w_inflight w ++ map (fun l => mkDatagram s l None) sent
  /\ match r with
     | Ret _ => q = sent /\ rest = []
     | Throw _ => exists lost, q = sent ++ lost :: rest
     end.
Proof.
  revert t w. induction q as [|l q IH]; intros t w Hq.
  - eexists _, [], w. split; [by destruct t; cbn in *; subst|]. split_and!; try done.
    exists []. by rewrite app_nil_r.
  - cbn. unfold assign, sys. unfold_m. cbn.
    destruct (sock_send_run s l None w) as (r1 & w1 & -> & Hev1 & Hn1 & Hh1 & _ & Hr1).
    destruct r1 as [[]|e]; cbn.
    + destruct (IH (set_queue q t) w1 eq_refl) as (r & rest & w' & -> & Hev & Hn & Hh & sent & Hi & Hr).
      eexists r, rest, w'. split; [done|]. split; [by etrans|]. split; [congruence|].
      split; [congruence|]. exists (l :: sent). rewrite Hi, (proj2 Hr1), <- (assoc_L (++)).
      split; [done|]. destruct r as [|e]; [by destruct Hr; subst|].
      destruct Hr as [lost ->]. by exists lost.
    + eexists _, q, w1. split; [done|]. split_and!; try done. exists []. rewrite app_nil_r.
      split; [apply Hr1|]. by exists l.
Qed.

(** Every outcome of [send]. *)
Lemma udp_send_run t w l :
  exists r t' w', send l (t, w) = (r, (t', w')) /\ evolves w w'
  /\ match udp_pendingError t with
     | Some e => r = Throw e /\ w' = w /\ t' = set_pendingError None t
     | None =>
         w_next w' = S (w_next w) /\ contents w' (w_next w) = contents w l
         /\ if connected t then
              t' = t /\ match r with
              | Ret _ => w_inflight w' = w_inflight w ++ [mkDatagram (socket t) (w_next w) None]
              | Throw _ => w_inflight w' = w_inflight w
              end
            else
              w_inflight w' = w_inflight w
              /\ if decide (PRE_CONNECT_QUEUE_LIMIT <= length (preConnectQueue t))%nat
                 then r = Throw (queue_full "UdpTransport: pre-connect queue full") /\ t' = t
                 else r = Ret tt /\ t' = set_queue (preConnectQueue t ++ [w_next w]) t
     end.
Proof.
  destruct t as [s h p c q [e|]]; unfold send, takePendingError, self, assign, sys; unfold_m; cbn.
  { eexists _, _, _. by split_and!. }
  unfold buffer_from. destruct (new_buffer_run (contents w l) w)
    as (w1 & -> & Hev1 & Hn1 & Hi1 & Hc1 & _). cbn. destruct c; cbn.
  - destruct (sock_send_run s (w_next w) None w1) as (r & w2 & -> & Hev2 & Hn2 & Hh2 & _ & Hr).
    eexists r, _, w2. split; [by destruct r|]. split; [by etrans|]. split; [congruence|].
    split; [by unfold contents in *; rewrite Hh2|]. split; [done|].
    rewrite <- Hi1. destruct r; tauto.
  - case_bool_decide; (eexists _, _, w1; split; [reflexivity|]); (split; [done|]);
      (split; [done|]); (split; [done|]); (split; [done|]); by case_decide.
Qed.

(** The queue never exceeds its limit, and is below it while connected. *)
Definition queue_bounded (t : UdpTransport) : Prop :=
  (length (preConnectQueue t) <= PRE_CONNECT_QUEUE_LIMIT)%nat
  /\ (connected t = true -> length (preConnectQueue t) < PRE_CONNECT_QUEUE_LIMIT)%nat.

(** The callbacks keep the bound, whatever they do. *)
Lemma udp_callbacks_run s err u w :
  (exists r u' w', on_connect s (u, w) = (r, (u', w')) /\ evolves w w'
    /\ (queue_bounded u -> queue_bounded u'))
  /\ (exists u', on_error s err (u, w) = (Ret tt, (u', w)) /\ (queue_bounded u -> queue_bounded u'))
  /\ (forall e, exists u', on_send_done s e (u, w) = (Ret tt, (u', w))
       /\ (queue_bounded u -> queue_bounded u')).
Proof.
  unfold on_connect, on_error, on_send_done, self, assign. unfold_m. cbn. split_and!.
  - case_bool_decide; cbn; [|by eexists _, _, _].
    destruct (flush_run s (preConnectQueue u) (set_connected true u) w eq_refl)
      as (r & rest & w' & -> & Hev & _ & _ & sent & _ & Hr).
    eexists _, _, _. split; [done|]. split; [done|].
    unfold queue_bounded, PRE_CONNECT_QUEUE_LIMIT. cbn. intros [Hb _].
    destruct r; [destruct Hr as [_ ->]; cbn; lia|]. destruct Hr as [lost Hq].
    rewrite Hq, length_app in Hb. cbn in Hb. lia.
  - case_bool_decide; by eexists.
  - intros e. destruct e; [case_bool_decide|]; by eexists.
Qed.

#[global] Program Instance udp_laws : BeatTransportLaws UdpTransport := {|
  bt_inv := queue_bounded;
  bt_queue := preConnectQueue;
  bt_open _ b := Ret b;
|}.
Next Obligation.
  intros t w l (Hw & [Hi1 Hi2] & Ha) Hl Hlen. cbn.
  destruct (udp_send_run t w l) as (r & t' & w' & -> & Hev & Hr).
  eexists r, t', w'. split; [done|]. destruct t as [s h p c q pe]. unfold queue_bounded in *. cbn in *.
  destruct pe as [e|].
  { destruct Hr as (-> & -> & ->). by split_and!. }
  destruct Hr as (Hn & Hc & Hr). assert (w_next w < w_next w')%nat as Hlt by lia.
  destruct c.
  - destruct Hr as [-> Hr]. cbn. destruct r as [u|e].
    + pose proof (outbox_sent q _ _ _ Hr) as Hp. split_and!; eauto using allocated_grow with varta.
      exists (w_next w). rewrite Hc. by split_and!.
    + rewrite (outbox_same _ _ _ Hr). split_and!; eauto with varta.
  - destruct Hr as [Hin Hr]. case_decide; destruct Hr as [-> ->]; cbn in *.
    + rewrite (outbox_same _ _ _ Hin). split_and!; eauto with varta.
    + assert (outbox_of (q ++ [w_next w]) w' ≡ₚ w_next w :: outbox_of q w) as Hp.
      { unfold outbox_of. rewrite Hin, (assoc_L (++)). by rewrite (comm (++) _ [_]). }
      rewrite length_app. cbn. split_and!; eauto using allocated_grow with varta; try lia; try done.
      exists (w_next w). rewrite Hc. by split_and!.
Qed.
Next Obligation.
  intros t w (Hw & Hi & Ha). cbn.
  destruct (udp_reconnect_run t w) as (r & t' & w' & -> & Hq & Hr).
  pose proof (qu_evolves _ _ Hq). eexists _, _, _. split; [reflexivity|].
  assert (queue_bounded t' /\ preConnectQueue t' = preConnectQueue t) as [Hb Hqq].
  { destruct r as [u|e]; [destruct Hr as [s ->]|subst; done]. cbn. split; [|done].
    split; cbn; [apply Hi|done]. }
  rewrite Hqq, (quiet_outbox _ _ _ Hq). split_and!; eauto with varta. by destruct r.
Qed.
Next Obligation.
  intros t w. cbn. destruct (udp_close_run t w) as (w' & -> & Hq).
  eexists. split_and!; [reflexivity|apply Hq..|]. by apply quiet_world_ok.
Qed.

(** ** Executions

    Everything that can happen to a transport: calls of its methods, the three
    callbacks on any socket at any time, the kernel completing a send, and the rest
    of the program allocating buffers and overwriting any buffer the transport does
    not own. The index records the contents of the accepted frames in order, and
    whether every [connect] callback so far has run to its end, and how many accepted
    frames were lost: to an error the kernel reported, or to a throw inside the
    [connect] callback. *)
Inductive udp_run (h : string) (p : jsnum) : bool -> nat -> UdpTransport -> World -> list bytes -> Prop :=
| run_new w0 t w :
    world_ok w0 -> w_inflight w0 = [] -> w_kernel w0 = [] ->
    newUdpTransport h p w0 = (Ret t, w) -> udp_run h p true 0 t w []
| run_send ok n t w acc l r t' w' :
    udp_run h p ok n t w acc -> (l < w_next w)%nat -> length (contents w l) = 32%nat ->
    send l (t, w) = (r, (t', w')) ->
    udp_run h p ok n t' w' (match r with Ret _ => acc ++ [contents w l] | Throw _ => acc end)
| run_reconnect ok n t w acc r t' w' :
    udp_run h p ok n t w acc -> reconnect (t, w) = (r, (t', w')) -> udp_run h p ok n t' w' acc
| run_close ok n t w acc r t' w' :
    udp_run h p ok n t w acc -> close (t, w) = (r, (t', w')) -> udp_run h p ok n t' w' acc
| run_connect ok n t w acc s r t' w' :
    udp_run h p ok n t w acc -> on_connect s (t, w) = (r, (t', w')) ->
    udp_run h p (match r with Ret _ => ok | Throw _ => false end)
      (match r with Ret _ => n | Throw _ => S n end) t' w' acc
| run_error ok n t w acc s err r t' w' :
    udp_run h p ok n t w acc -> on_error s err (t, w) = (r, (t', w')) -> udp_run h p ok n t' w' acc
| run_complete ok n t w acc err d w1 r t' w' :
    udp_run h p ok n t w acc -> complete_send err w = Some (d, w1) ->
    on_send_done (dg_socket d) err (t, w1) = (r, (t', w')) ->
    udp_run h p ok (match err with None => n | Some _ => S n end) t' w' acc
| run_alloc ok n t w acc b l w' :
    udp_run h p ok n t w acc -> new_buffer b w = (Ret l, w') -> udp_run h p ok n t w' acc
| run_write ok n t w acc l b :
    udp_run h p ok n t w acc -> (l < w_next w)%nat -> ~ (l ∈ bt_outbox t w) ->
    udp_run h p ok n t (set_contents l b w) acc.

(** The invariant of an execution. *)
Record run_inv (ok : bool) (n : nat) (t : UdpTransport) (w : World) (acc : list bytes) : Prop := {
  ri_ok : bt_ok t w;
  ri_count : (length (handed (preConnectQueue t) w) + n)%nat = length acc;
  ri_sub : handed (preConnectQueue t) w ⊆+ acc;
  ri_order : ok = true -> handed (preConnectQueue t) w `sublist_of` acc;
  ri_empty : ok = true -> connected t = true -> preConnectQueue t = [];
}.

(** A step that keeps the transport's state but for the socket and the pending
    error, and hands nothing over. *)
Lemma run_inv_quiet ok n t w acc t' w' :
  run_inv ok n t w acc -> evolves w w' -> w_inflight w' = w_inflight w ->
  preConnectQueue t' = preConnectQueue t -> (connected t' = true -> connected t = true) ->
  run_inv ok n t' w' acc.
Proof.
  intros [(Hw & [Hb1 Hb2] & Ha) Hn Hs Ho He] Hev Hi Hq Hc.
  assert (handed (preConnectQueue t') w' = handed (preConnectQueue t) w) as Hh.
  { apply handed_evolves; [done..|]. rewrite Hq. by apply outbox_same. }
  constructor; rewrite ?Hh, ?Hq; auto. split; [|split].
  - by eapply evolves_world_ok.
  - cbn. unfold queue_bounded. rewrite Hq. auto.
  - unfold bt_outbox. cbn. rewrite Hq, (outbox_same _ _ _ Hi). by eapply evolves_allocated.
Qed.

(** A single buffer appended to what is in flight or queued. *)
Lemma run_inv_send ok n t w acc l r t' w' :
  run_inv ok n t w acc -> (l < w_next w)%nat -> length (contents w l) = 32%nat ->
  send l (t, w) = (r, (t', w')) ->
  run_inv ok n t' w' (match r with Ret _ => acc ++ [contents w l] | Throw _ => acc end).
Proof.
  intros [Hok Hcnt Hs Ho He] Hl Hlen Hrun. pose proof Hok as (_ & _ & Ha).
  destruct (send_spec t w l Hok Hl Hlen) as (r0 & t0 & w0 & Hrun' & Hok' & Hev & _ & Hr0).
  cbn in Hrun'. rewrite Hrun in Hrun'. symmetry in Hrun'. simplify_eq.
  destruct (udp_send_run t w l) as (r1 & t1 & w1 & Hrun1 & _ & Hr). rewrite Hrun in Hrun1.
  symmetry in Hrun1. simplify_eq.
  destruct (udp_pendingError t) as [e|].
  { destruct Hr as (-> & -> & ->). by constructor. }
  destruct Hr as (Hn & Hc & Hr). destruct r as [[]|e].
  - destruct (handed_sent (preConnectQueue t) (preConnectQueue t') _ _ (w_next w) Hev Ha) as [H1 H2].
    rewrite Hc in H1, H2. destruct Hr0 as (o & Ho1 & Ho2 & _). assert (o = w_next w) as -> by lia.
    constructor; [done|..].
    + rewrite (H2 Ho2), length_app. cbn. lia.
    + rewrite (H2 Ho2), (comm (++) acc). cbn. by apply submseteq_skip.
    + intros Hokt. rewrite H1; [apply sublist_app; auto|]. destruct (connected t) eqn:Hct.
      * destruct Hr as [-> Hi]. unfold outbox_of. by rewrite (He Hokt), Hi, map_app, !app_nil_r.
      * destruct Hr as [Hi Hr]. case_decide; destruct Hr as [? ->]; [done|].
        unfold outbox_of. cbn. by rewrite Hi, (assoc_L (++)).
    + intros Hokt. destruct (connected t) eqn:Hct.
      * destruct Hr as [-> _]. auto.
      * destruct Hr as [_ Hr]. case_decide; destruct Hr as [? ->]; [done|]. cbn. by rewrite Hct.
  - assert (preConnectQueue t' = preConnectQueue t /\ connected t' = connected t) as [Hq Hct].
    { destruct (connected t) eqn:Hct; [destruct Hr as [-> _]; auto|].
      destruct Hr as [_ Hr]. case_decide; destruct Hr as [? ->]; [auto|done]. }
    pose proof (handed_evolves _ _ _ _ Hev Ha Hr0) as Hh. cbn in Hh.
    constructor; rewrite ?Hct, ?Hh, ?Hq; auto.
Qed.

Lemma run_inv_connect ok n t w acc s r t' w' :
  run_inv ok n t w acc -> on_connect s (t, w) = (r, (t', w')) ->
  run_inv (match r with Ret _ => ok | Throw _ => false end)
    (match r with Ret _ => n | Throw _ => S n end) t' w' acc.
Proof.
  intros Hinv Hrun. pose proof Hinv as [(Hw & [Hb1 Hb2] & Ha) Hcnt Hs Ho He].
  change (allocated w (outbox_of (preConnectQueue t) w)) in Ha.
  unfold on_connect, self, assign in Hrun. unfold_m. cbn in Hrun.
  case_bool_decide; cbn in Hrun; [|by simplify_eq].
  destruct (flush_run s (preConnectQueue t) (set_connected true t) w eq_refl)
    as (r1 & rest & w1 & Hf & Hev & Hn & Hh & sent & Hi & Hr).
  rewrite Hf in Hrun. simplify_eq.
  assert (outbox_of rest w' `sublist_of` outbox_of (preConnectQueue t) w
    /\ (r = Ret tt -> outbox_of rest w' = outbox_of (preConnectQueue t) w)) as [Hsub Heq].
  { unfold outbox_of. rewrite Hi, map_app, map_map, map_id, <- (assoc_L (++)).
    destruct r as [[]|e]; [destruct Hr as [<- ->]|destruct Hr as [lost ->]]; rewrite ?app_nil_r; [done|].
    split; [|done]. do 2 (apply sublist_app; [done|]). by apply sublist_cons. }
  assert (handed rest w' `sublist_of` handed (preConnectQueue t) w) as Hhs.
  { unfold handed. rewrite (ev_kernel _ _ Hev). apply sublist_app; [done|].
    rewrite <- (evolves_contents_map _ _ _ Hev Ha). by apply (fmap_sublist (contents w')). }
  assert (length (handed rest w') + (match r with Ret _ => 0 | Throw _ => 1 end)
    = length (handed (preConnectQueue t) w))%nat as Hc1.
  { unfold handed, outbox_of. rewrite (ev_kernel _ _ Hev), Hi.
    repeat (rewrite length_app || rewrite length_map). destruct r as [[]|e]; [destruct Hr as [<- ->]; cbn; lia|].
    destruct Hr as [lost ->]. rewrite !length_app. cbn. lia. }
  assert (length rest <= length (preConnectQueue t) /\ (r <> Ret tt -> length rest < length (preConnectQueue t)))%nat as [Hl1 Hl2].
  { destruct r as [[]|e]; [destruct Hr as [_ ->]; cbn; split; [lia|done]|].
    destruct Hr as [lost ->]. rewrite length_app. cbn. lia. }
  constructor; cbn.
  - split; [by eapply evolves_world_ok|]. split.
    + cbn. unfold queue_bounded, PRE_CONNECT_QUEUE_LIMIT in *. split; cbn; [lia|]. intros _.
      destruct r as [[]|e]; [destruct Hr as [_ ->]; cbn; lia|].
      specialize (Hl2 ltac:(done)). lia.
    + eapply allocated_sublist; [exact Hsub|]. by eapply evolves_allocated.
  - destruct r; lia.
  - etrans; [by apply sublist_submseteq|done].
  - intros Hok. etrans; [exact Hhs|]. apply Ho. by destruct r.
  - intros Hok _. destruct r; [by destruct Hr|done].
Qed.

Lemma run_inv_complete ok n t w acc err d w1 r t' w' :
  run_inv ok n t w acc -> complete_send err w = Some (d, w1) ->
  on_send_done (dg_socket d) err (t, w1) = (r, (t', w')) ->
  run_inv ok (match err with None => n | Some _ => S n end) t' w' acc.
Proof.
  intros [(Hw & Hb & Ha) Hcnt Hsub Hord He] Hc Hs.
  destruct (complete_send_run (preConnectQueue t) _ _ _ _ Hc) as (H1 & H2 & H3 & H4).
  assert (run_inv ok (match err with None => n | Some _ => S n end) t w1 acc) as IH'.
  { constructor; [by split_and!; auto|destruct err; lia|by etrans; [by apply sublist_submseteq|]| |done].
    intros Hok. etrans; [exact H3|auto]. }
  unfold on_send_done, self, assign in Hs. unfold_m. cbn in Hs.
  destruct err; try case_bool_decide; simplify_eq/=; by apply (run_inv_quiet _ _ _ _ _ _ _ IH').
Qed.

Lemma run_inv_write ok n t w acc l b :
  run_inv ok n t w acc -> (l < w_next w)%nat -> ~ (l ∈ bt_outbox t w) ->
  run_inv ok n t (set_contents l b w) acc.
Proof.
  intros [(Hw & Hb & Ha) Hcnt Hsub Hord He] Hl Hno.
  constructor; rewrite ?set_contents_handed; try done.
  split_and!; [by apply set_contents_world_ok|apply Hb..|apply Ha].
Qed.

Lemma run_inv_reachable h p ok n t w acc : udp_run h p ok n t w acc -> run_inv ok n t w acc.
Proof.
  induction 1 as [w0 t w Hw Hi Hk Hn|ok n t w acc l r t' w' _ IH Hl Hlen Hs|ok n t w acc r t' w' _ IH Hs
    |ok n t w acc r t' w' _ IH Hs|ok n t w acc s r t' w' _ IH Hs|ok n t w acc s err r t' w' _ IH Hs
    |ok n t w acc err d w1 r t' w' _ IH Hc Hs|ok n t w acc b l w' _ IH Hn|ok n t w acc l b _ IH Hl Hno].
  - unfold newUdpTransport in Hn. unfold_m. pose proof (quiet_udp_openSocket h p w0) as Hq.
    destruct (openSocket h p w0) as [[s|e] w1]; simplify_eq/=.
    assert (handed [] w = []) as Hh.
    { unfold handed, outbox_of. by rewrite (ev_kernel _ _ (qu_evolves _ _ Hq)), (qu_inflight _ _ Hq), Hi, Hk. }
    constructor; cbn; rewrite ?Hh; try done.
    split; [by eapply quiet_world_ok|]. split; [split; cbn; unfold PRE_CONNECT_QUEUE_LIMIT; done || lia|].
    unfold bt_outbox, outbox_of. cbn. rewrite (qu_inflight _ _ Hq), Hi. constructor.
  - by eapply run_inv_send.
  - destruct (udp_reconnect_run t w) as (r' & t1 & w1 & Hr & Hq & Hr'). rewrite Hs in Hr. simplify_eq.
    eapply run_inv_quiet; [exact IH|apply Hq|apply Hq|..]; destruct r' as [|];
      [destruct Hr' as [? ->]|subst|destruct Hr' as [? ->]|subst]; done.
  - destruct (udp_close_run t w) as (w1 & Hr & Hq). rewrite Hs in Hr. simplify_eq.
    eapply run_inv_quiet; [exact IH|apply Hq|apply Hq|..]; done.
  - by eapply run_inv_connect.
  - unfold on_error, self, assign in Hs. unfold_m. cbn in Hs.
    case_bool_decide; simplify_eq/=; by apply (run_inv_quiet _ _ _ _ _ _ _ IH).
  - by eapply run_inv_complete.
  - eapply run_inv_quiet; [exact IH|..]; try done.
    + pose proof (evolves_new_buffer b w) as Hev. by rewrite Hn in Hev.
    + unfold new_buffer in Hn. by simplify_eq.
  - by apply run_inv_write.
Qed.

(** A new socket has a handle nobody held before. *)
Lemma udp_openSocket_fresh h p w s w' :
  openSocket h p w = (Ret s, w') -> s = w_sockets w /\ w_sockets w' = S (w_sockets w).
Proof.
  unfold openSocket, createSocket, sock_connect, sock_close, may_throw, new_socket, log. unfold_m. cbn.
  intros Hrun. repeat (case_match; simplify_eq/=); done.
Qed.

(** A port that is none: the socket is created, [connect] throws and the socket is closed. *)
Lemma udp_openSocket_bad_port h p w :
  valid_port p = false ->
  exists e w', openSocket h p w = (Throw e, w')
  /\ ((forall i, w_fault w i = None) ->
      e = bad_port p /\ w_draws w' = w_draws w /\ w_log w' = w_log w ++ [SCreate (w_sockets w) (family_of h); SClose (w_sockets w)]).
Proof.
  intros Hp. unfold openSocket, createSocket, sock_connect, sock_close, may_throw, new_socket, log, try_catch. unfold_m. cbn.
  rewrite Hp. destruct (w_fault w (w_calls w)) eqn:E1; cbn; [eexists _, _; split; [done|]; intros H; by rewrite H in E1|].
  destruct (w_fault w (S (w_calls w))) eqn:E2; cbn; eexists _, _; (split; [reflexivity|]); intros H; [by rewrite H in E2|].
  cbn. by rewrite <- app_assoc.
Qed.

Lemma udp_stale s err t w :
  socket t <> s ->
  on_error s err (t, w) = (Ret tt, (t, w)) /\ on_send_done s (Some err) (t, w) = (Ret tt, (t, w))
  /\ on_connect s (t, w) = (Ret tt, (t, w)).
Proof.
  intros Hs. unfold on_error, on_send_done, on_connect, self, assign. unfold_m. cbn.
  by rewrite !bool_decide_false.
Qed.

(** ** Properties *)

(** C7. Delivery over UDP. In every execution, with callbacks, completions,
    reconnects and overwritten caller buffers in any order, what the kernel has taken,
    what is in flight and what is queued are together a sub-multiset of the frames
    accepted by [send], with the bytes they had at that moment: no frame is altered,
    duplicated or invented, and exactly the lost ones (a kernel error, or a throw
    inside a [connect] callback) are missing. While no [connect] callback has thrown
    they are in the order of acceptance, so with nothing lost the sequence is
    exactly the accepted one. The queue never holds more than 64 frames. *)
Theorem udp_delivery (h : string) (p : jsnum) (ok : bool) (lost : nat) (t : UdpTransport) (w : World)
    (acc : list bytes) :
  udp_run h p ok lost t w acc ->
  let wire := map snd (w_kernel w) ++ map (contents w) (bt_outbox t w) in
  wire ⊆+ acc /\ (length wire + lost = length acc)%nat
  /\ (ok = true -> wire `sublist_of` acc) /\ (ok = true -> lost = 0%nat -> wire = acc)
  /\ (length (preConnectQueue t) <= 64)%nat.
Proof.
  intros Hrun. destruct (run_inv_reachable _ _ _ _ _ _ _ Hrun) as [(Hw & [Hb _] & Ha) Hcnt Hsub Hord He].
  split_and!; [done..| |done]. intros Hok ->. apply sublist_full; [auto|].
  unfold handed in Hcnt. unfold bt_outbox. cbn in *. lia.
Qed.

(** [reconnect] of the UDP transport: it throws and changes no field of the
    transport; or it returns with a socket whose handle is new, not yet connected, no
    pending error, and every queued beat kept for the replacement. From then on
    every callback of the old socket, or of any socket other than the new one, leaves
    the transport as it is. *)
Theorem udp_reconnect_replaces (t : UdpTransport) (w : World) :
  match reconnect (t, w) with
  | (Throw _, (t', _)) => t' = t
  | (Ret _, (t', w')) =>
      t' = mkUdp (w_sockets w) (host t) (port t) false (preConnectQueue t) None
      /\ (w_sockets w < w_sockets w')%nat
      /\ forall s err w2, s <> w_sockets w ->
           on_error s err (t', w2) = (Ret tt, (t', w2))
           /\ on_send_done s (Some err) (t', w2) = (Ret tt, (t', w2))
           /\ on_connect s (t', w2) = (Ret tt, (t', w2))
  end.
Proof.
  unfold reconnect, self, assign, sys. unfold_m. cbn.
  destruct (openSocket (host t) (port t) w) as [[s|e] w1] eqn:Ho; [|done]. cbn.
  apply udp_openSocket_fresh in Ho as [-> Hs].
  destruct (close_try_run (socket t) w1) as (w2 & Hc & Hq & _). unfold try_catch, mret, M_ret in Hc.
  rewrite Hc. split; [done|]. pose proof (ev_sockets _ _ (qu_evolves _ _ Hq)).
  split; [lia|]. intros s err w3 Hne. apply udp_stale. cbn. congruence.
Qed.

(** One frame sent before the socket connects, flushed, and taken by the kernel. *)
Lemma udp_delivery_witness :
  exists t w, udp_run "127.0.0.1" (jint 9000) true 0 t w [replicate 32 7]
  /\ map snd (w_kernel w) = [replicate 32 7]
  /\ map snd (w_kernel w) ++ map (contents w) (bt_outbox t w) = [replicate 32 7].
Proof.
  set (t1 := mkUdp 0 "127.0.0.1" (jint 9000) false [] None).
  set (w1 := (newUdpTransport "127.0.0.1" (jint 9000) (demo_world [])).2).
  set (s2 := (send 0 (t1, w1)).2). set (s3 := (on_connect 0 s2).2).
  set (w4 := default s3.2 (snd <$> complete_send None s3.2)).
  assert (udp_run "127.0.0.1" (jint 9000) true 0 s3.1 w4 [replicate 32 7]) as Hrun.
  { apply (run_complete _ _ true 0 s3.1 s3.2 _ None (mkDatagram 0 1 None) w4 (Ret tt));
      [|vm_compute; reflexivity..].
    apply (run_connect _ _ true 0 s2.1 s2.2 _ 0 (Ret tt)); [|vm_compute; reflexivity].
    apply (run_send _ _ true 0 t1 w1 [] 0 (Ret tt)); [|vm_compute; lia|vm_compute; reflexivity..].
    apply (run_new _ _ (demo_world [])); [apply demo_world_ok|vm_compute; reflexivity..]. }
  exists s3.1, w4. split; [exact Hrun|]. split; [vm_compute; reflexivity|].
  exact (proj1 (proj2 (proj2 (proj2 (udp_delivery _ _ _ _ _ _ _ Hrun)))) eq_refl eq_refl).
Defined.
