(* ===== verification/SecureUdp.v ===== *)
(** * The secure UDP transport (src/clients/node/src/transport.ts, lines 305-526)

    The class repeats the fields, socket set-up and callbacks of [UdpTransport] line
    for line; here they are one [UdpTransport] in the field [link]. On top of it
    come the key, the session salt and the IV state: a prefix derived from the salt
    and [prefixIndex], and a 32-bit [counter]. Key, salt and prefix are buffers the
    transport owns and never writes to, so they are kept by their contents. *)

From S2P Require Import Prelude NodeBuffer VlpSecure Runtime Transport Udp.

Definition U32_MAX : Z := 0xffffffff.

Inductive SecureKey : Type :=
| SecureKeyShared (key : bytes)
| SecureKeyMaster (masterKey : bytes).

Record NonceReservation : Type := mkReservation {
  nr_ivRandom : bytes;
  nr_counter : Z;
  nr_nextPrefixIndex : Z;
  nr_nextIvPrefix : bytes;
  nr_nextCounter : Z;
}.

Record SecureUdpTransport : Type := mkSecure {
  link : UdpTransport;
  secret : SecureKey;
  sessionSalt : bytes;
  ivPrefix : bytes;
  prefixIndex : Z;
  counter : Z;
}.

Definition set_link (f : UdpTransport -> UdpTransport) (t : SecureUdpTransport) : SecureUdpTransport :=
  mkSecure (f (link t)) (secret t) (sessionSalt t) (ivPrefix t) (prefixIndex t) (counter t).

#[global] Instance secure_holder : PendingHolder SecureUdpTransport := {|
  pendingError t := udp_pendingError (link t);
  set_pendingError e := set_link (set_pendingError e);
|}.

(** The socket part of the object, by the methods it shares with [UdpTransport]. *)
Definition on_link {A} (m : method UdpTransport A) : method SecureUdpTransport A := fun tw =>
  let '(r, (u, w')) := m (link tw.1, tw.2) in (r, (set_link (fun _ => u) tw.1, w')).

Definition openSocket (host : string) (port : jsnum) : M World nat := Udp.openSocket host port.
Definition on_error (s : nat) (err : exn) : method SecureUdpTransport unit := on_link (Udp.on_error s err).
Definition on_connect (s : nat) : method SecureUdpTransport unit := on_link (Udp.on_connect s).
Definition on_send_done (s : nat) (err : option exn) : method SecureUdpTransport unit :=
  on_link (Udp.on_send_done s err).

Section secure_udp.
Context `{NodeCrypto}.

(** The private constructor. *)
Definition newSecureUdpTransport (host : string) (port : jsnum) (secret : SecureKey)
    : M World SecureUdpTransport :=
  salt ← randomBytes SESSION_SALT_BYTES;
  prefix ← lift_res (deriveIvPrefix salt (jint 0));
  s ← openSocket host port;
  mret (mkSecure (mkUdp s host port false [] None) secret salt prefix 0 0).

Definition shared (host : string) (port : jsnum) (key : bytes) : M World SecureUdpTransport :=
  if negb (bool_decide (length key = 32%nat))
  then throw (range_error "secure-UDP shared key must be 32 bytes")
  else newSecureUdpTransport host port (SecureKeyShared key).

Definition master (host : string) (port : jsnum) (masterKey : bytes) : M World SecureUdpTransport :=
  if negb (bool_decide (length masterKey = 32%nat))
  then throw (range_error "secure-UDP master key must be 32 bytes")
  else newSecureUdpTransport host port (SecureKeyMaster masterKey).

Definition reconnect : method SecureUdpTransport unit :=
  newSalt ← sys (randomBytes SESSION_SALT_BYTES);
  newIvPrefix ← lift_res (deriveIvPrefix newSalt (jint 0));
  host ← self (fun t => host (link t));
  port ← self (fun t => port (link t));
  newSocket ← sys (openSocket host port);
  old ← self (fun t => socket (link t));
  assign (set_link (set_socket newSocket));;
  assign (set_link (set_connected false));;
  assign (set_pendingError None);;
  assign (fun t => mkSecure (link t) (secret t) newSalt newIvPrefix 0 0);;
  sys (try_catch (sock_close old) (fun _ => mret tt)).

Definition prepareNonce : method SecureUdpTransport NonceReservation :=
  c ← self counter;
  i ← self prefixIndex;
  whenM ((c =? U32_MAX) && (i =? U32_MAX)) reconnect;;
  index ← self prefixIndex;
  prefix ← self ivPrefix;
  ctr ← self counter;
  salt ← self sessionSalt;
  if ctr =? U32_MAX then
    let nextPrefixIndex := wrap32 (index + 1) in
    nextIvPrefix ← lift_res (deriveIvPrefix salt (jint nextPrefixIndex));
    mret (mkReservation (slice 0 IV_RANDOM_BYTES nextIvPrefix) 0 nextPrefixIndex nextIvPrefix
            (wrap32 (0 + 1)))
  else
    mret (mkReservation (slice 0 IV_RANDOM_BYTES prefix) ctr index prefix (wrap32 (ctr + 1))).

Definition commitNonce (n : NonceReservation) : method SecureUdpTransport unit :=
  assign (fun t => mkSecure (link t) (secret t) (sessionSalt t) (nr_nextIvPrefix n)
                     (nr_nextPrefixIndex n) (nr_nextCounter n)).

Definition send (buf : nat) : method SecureUdpTransport unit :=
  queued ← takePendingError;
  match queued with
  | Some e => throw e
  | None =>
    pt ← sys (gets (fun w => contents w buf));
    c ← self (fun t => connected (link t));
    queue ← self (fun t => preConnectQueue (link t));
    if negb (bool_decide (length pt = PLAINTEXT_BYTES))
    then throw (range_error "plaintext must be a 32-byte VLP frame")
    else if negb c && bool_decide (PRE_CONNECT_QUEUE_LIMIT <= length queue)%nat
    then throw (queue_full "SecureUdpTransport: pre-connect queue full")
    else
      nonce ← prepareNonce;
      key ← self secret;
      pid ← sys (gets w_pid);
      sealed ← lift_res
        match key with
        | SecureKeyShared key => encodeShared key (nr_ivRandom nonce) (jint (nr_counter nonce)) pt
        | SecureKeyMaster masterKey =>
            encodeMaster masterKey (jint (wrap32 pid)) (nr_ivRandom nonce) (jint (nr_counter nonce)) pt
        end;
      wire ← sys (new_buffer sealed);
      c ← self (fun t => connected (link t));
      if negb c then
        assign (set_link (fun u => set_queue (preConnectQueue u ++ [wire]) u));;
        commitNonce nonce
      else
        s ← self (fun t => socket (link t));
        sys (sock_send s wire None);;
        commitNonce nonce
  end.

Definition close : method SecureUdpTransport unit :=
  s ← self (fun t => socket (link t));
  sys (try_catch (sock_close s) (fun _ => mret tt)).

(** The test hooks. *)
Definition setCounterForTest (v : jsnum) : method SecureUdpTransport unit :=
  assign (fun t => mkSecure (link t) (secret t) (sessionSalt t) (ivPrefix t) (prefixIndex t) (to_uint32 v)).

Definition setPrefixIndexForTest (v : jsnum) : method SecureUdpTransport unit :=
  assign (fun t => mkSecure (link t) (secret t) (sessionSalt t) (ivPrefix t) (to_uint32 v) (counter t));;
  salt ← self sessionSalt;
  index ← self prefixIndex;
  prefix ← lift_res (deriveIvPrefix salt (jint index));
  assign (fun t => mkSecure (link t) (secret t) (sessionSalt t) prefix (prefixIndex t) (counter t)).

#[global] Instance secure_transport : BeatTransport SecureUdpTransport := {|
  bt_send := send; bt_reconnect := reconnect; bt_close := close
|}.

(** ** Specification *)

(** How the peer opens a datagram. *)
Definition opener (k : SecureKey) : bytes -> res bytes :=
  match k with
  | SecureKeyShared key => decodeShared key
  | SecureKeyMaster masterKey => decodeMaster masterKey
  end.

(** A nonce slot: which entropy draw gave the salt, the prefix index, the counter.
    The prefix of a slot, the nonce it stands for, and the nonce field of a wire. *)
Definition slot : Type := nat * Z * Z.

Definition iv_prefix (salt : bytes) (index : Z) : bytes :=
  hkdfSync salt [] (kdf_info (UseIvPrefix index)) IV_RANDOM_BYTES.

Definition slot_nonce (w : World) (sl : slot) : bytes :=
  let '(k, index, ctr) := sl in
  aead_nonce (iv_prefix (w_random w k SESSION_SALT_BYTES) index) ctr.

Definition wire_nonce (k : SecureKey) (wire : bytes) : bytes :=
  match k with
  | SecureKeyShared _ => take 12 wire
  | SecureKeyMaster _ => take 12 (drop 4 wire)
  end.

Definition key_ok (k : SecureKey) : Prop :=
  match k with SecureKeyShared key | SecureKeyMaster key => length key = KEY_BYTES end.

(** The IV state is coherent: the prefix is the one of the salt and the index. *)
Record secure_inv (t : SecureUdpTransport) : Prop := {
  si_queue : queue_bounded (link t);
  si_key : key_ok (secret t);
  si_salt : length (sessionSalt t) = SESSION_SALT_BYTES;
  si_prefix : ivPrefix t = iv_prefix (sessionSalt t) (prefixIndex t);
  si_index : is_u32 (prefixIndex t);
  si_counter : is_u32 (counter t);
}.

(** The place of a slot in its session's sequence. *)
Definition position (index ctr : Z) : Z := index * U32_MAX + ctr.

(** The sealed datagram of a frame. *)
Definition seal (k : SecureKey) (pid : Z) (iv : bytes) (ctr : Z) (pt : bytes) : res bytes :=
  match k with
  | SecureKeyShared key => encodeShared key iv (jint ctr) pt
  | SecureKeyMaster masterKey => encodeMaster masterKey (jint (wrap32 pid)) iv (jint ctr) pt
  end.

(** ** Lemmas *)

Context `{!CryptoLaws}.

#[local] Arguments slice : simpl never.
#[local] Arguments wrap32 : simpl never.
#[local] Arguments iv_prefix : simpl never.

Lemma length_iv_prefix salt i : length (iv_prefix salt i) = IV_RANDOM_BYTES.
Proof. apply hkdf_length. Qed.

Lemma iv_prefix_eq salt i :
  length salt = SESSION_SALT_BYTES -> is_u32 i -> deriveIvPrefix salt (jint i) = Ret (iv_prefix salt i).
Proof. intros Hs Hi. by rewrite deriveIvPrefix_eq, to_uint32_jint. Qed.

Lemma iv_prefix_slice salt i : slice 0 IV_RANDOM_BYTES (iv_prefix salt i) = iv_prefix salt i.
Proof. unfold slice. rewrite drop_0. apply take_ge. by rewrite length_iv_prefix. Qed.

Lemma seal_ok k pid iv ctr pt :
  key_ok k -> length iv = IV_RANDOM_BYTES -> length pt = PLAINTEXT_BYTES -> is_u32 ctr ->
  exists wire, seal k pid iv ctr pt = Ret wire /\ wire_nonce k wire = aead_nonce iv ctr
  /\ opener k wire = Ret pt.
Proof.
  intros Hk Hiv Hpt Hc. destruct k as [key|key]; cbn in *.
  - destruct (encodeShared_opens key Hk iv (jint ctr) pt Hiv Hpt) as (wire & He & _ & Hn & Hd).
    rewrite to_uint32_jint in Hn by done. eauto.
  - destruct (encodeMaster_opens key Hk (jint (wrap32 pid)) iv (jint ctr) pt Hiv Hpt)
      as (wire & He & _ & Hn & Hd).
    exists wire. split_and!; try done. rewrite take_drop_commute.
    change (4 + 12)%nat with 16%nat. rewrite Hn, (to_uint32_jint ctr) by done.
    by apply drop_app_length'; rewrite length_le_bytes.
Qed.

(** [reconnect] starts a session under the next draw, or changes nothing. *)
Lemma secure_reconnect_run t w :
  entropy_ok w ->
  exists r t' w', reconnect (t, w) = (r, (t', w')) /\ quiet w w'
  /\ match r with
     | Throw _ => t' = t
     | Ret _ => w_draws w' = S (w_draws w)
         /\ exists s, (w_sockets w <= s < w_sockets w')%nat
         /\ let salt := w_random w (w_draws w) SESSION_SALT_BYTES in
            t' = mkSecure (mkUdp s (host (link t)) (port (link t)) false
                             (preConnectQueue (link t)) None)
                   (secret t) salt (iv_prefix salt 0) 0 0
     end.
Proof.
  intros He. unfold reconnect, self, assign, sys. unfold_m. cbn.
  destruct (randomBytes_run SESSION_SALT_BYTES w) as (r1 & w1 & -> & Hq1 & Hr1).
  destruct r1 as [salt|e]; cbn; [|by eexists _, _, _; split_and!].
  destruct Hr1 as [-> Hd1]. rewrite iv_prefix_eq by (apply He || (split; lia)). cbn.
  unfold openSocket. pose proof (quiet_udp_openSocket (host (link t)) (port (link t)) w1) as Hq2.
  pose proof (draws_udp_openSocket (host (link t)) (port (link t)) w1) as Hd2. unfold same_draws in Hd2.
  destruct (Udp.openSocket (host (link t)) (port (link t)) w1) as [[s|e] w2] eqn:Ho; cbn in *.
  - apply udp_openSocket_fresh in Ho as [-> Hs].
    destruct (close_try_run (socket (link t)) w2) as (w3 & Hc & Hq3 & Hd3).
    unfold try_catch, mret, M_ret in Hc. rewrite Hc. eexists _, _, _. split; [reflexivity|].
    split; [by etrans; [exact Hq1|]; etrans|]. split; [congruence|].
    eexists. split; [|reflexivity]. pose proof (ev_sockets _ _ (qu_evolves _ _ Hq1)).
    pose proof (ev_sockets _ _ (qu_evolves _ _ Hq3)). lia.
  - eexists _, _, _. split_and!; [reflexivity|by etrans|by destruct t].
Qed.

(** The slot of the next frame in the current session. *)
Definition next_index (t : SecureUdpTransport) : Z :=
  if counter t =? U32_MAX then prefixIndex t + 1 else prefixIndex t.
Definition next_ctr (t : SecureUdpTransport) : Z :=
  if counter t =? U32_MAX then 0 else counter t.

(** All 2^32 prefixes of the session are used up. *)
Definition exhausted (t : SecureUdpTransport) : bool :=
  (counter t =? U32_MAX) && (prefixIndex t =? U32_MAX).

Definition reservation (salt : bytes) (index ctr : Z) : NonceReservation :=
  mkReservation (iv_prefix salt index) ctr index (iv_prefix salt index) (ctr + 1).

Lemma next_slot_range t :
  secure_inv t -> exhausted t = false ->
  is_u32 (next_index t) /\ 0 <= next_ctr t < U32_MAX
  /\ position (next_index t) (next_ctr t) = position (prefixIndex t) (counter t).
Proof.
  intros [_ _ _ _ Hi Hc]. unfold exhausted, next_index, next_ctr, position, is_u32, U32_MAX in *.
  destruct (Z.eqb_spec (counter t) 4294967295) as [->|]; cbn; intros Hx; boolify; lia.
Qed.

Lemma reconnected_inv t s salt :
  secure_inv t -> length salt = SESSION_SALT_BYTES ->
  secure_inv (mkSecure (mkUdp s (host (link t)) (port (link t)) false (preConnectQueue (link t)) None)
                (secret t) salt (iv_prefix salt 0) 0 0).
Proof.
  intros [[Hq _] Hk _ _ _ _] Hs. constructor; cbn; try done; split; lia || done.
Qed.

(** [prepareNonce] reserves the next slot of the session, after a reconnect when
    the session has no slot left. *)
Lemma prepareNonce_run t w :
  secure_inv t -> entropy_ok w ->
  exists r t' w', prepareNonce (t, w) = (r, (t', w')) /\ quiet w w'
  /\ if exhausted t then
       match r with
       | Throw _ => t' = t
       | Ret n => reconnect (t, w) = (Ret tt, (t', w')) /\ n = reservation (sessionSalt t') 0 0
       end
     else r = Ret (reservation (sessionSalt t) (next_index t) (next_ctr t)) /\ t' = t /\ w' = w.
Proof.
  intros Hinv He. unfold prepareNonce, self. unfold_m. cbn. fold (exhausted t).
  destruct (exhausted t) eqn:Hx.
  - destruct (secure_reconnect_run t w He) as (r & t' & w' & Hrun & Hq & Hr). rewrite Hrun.
    destruct r as [[]|e]; [|by eexists _, _, _; split_and!].
    destruct Hr as (_ & s & _ & ->). eexists _, _, w'. split; [reflexivity|]. split; [done|].
    split; [done|]. unfold reservation. cbn. by rewrite iv_prefix_slice.
  - destruct (next_slot_range t Hinv Hx) as (Hi & Hc & _). destruct Hinv as [_ _ Hs Hp Hi' Hc'].
    unfold next_index, next_ctr in *. cbn. destruct (counter t =? U32_MAX).
    + unfold wrap32. rewrite Z.mod_small by done. rewrite iv_prefix_eq by done. cbn.
      eexists _, _, w. split; [reflexivity|]. unfold reservation. by rewrite iv_prefix_slice.
    + eexists _, _, w. split; [reflexivity|]. unfold reservation.
      rewrite Hp, iv_prefix_slice. unfold wrap32, U32_MAX in *. rewrite Z.mod_small by lia. done.
Qed.

Lemma secure_take t w :
  takePendingError (t, w) =
  (Ret (udp_pendingError (link t)), (set_pendingError None t, w)).
Proof. done. Qed.

Lemma secure_no_pending t : udp_pendingError (link t) = None -> set_pendingError None t = t.
Proof. destruct t as [[] ? ? ? ? ?]; cbn. by intros ->. Qed.

(** The part of [send] after the nonce is reserved: seal, then queue or hand over,
    then commit. *)
Lemma secure_emit_run t w pt index ctr :
  secure_inv t -> length pt = PLAINTEXT_BYTES -> 0 <= ctr < U32_MAX ->
  let nonce := reservation (sessionSalt t) index ctr in
  exists wire r t' w',
    seal (secret t) (w_pid w) (iv_prefix (sessionSalt t) index) ctr pt = Ret wire
    /\ (wire ← lift_res (seal (secret t) (w_pid w) (nr_ivRandom nonce) (nr_counter nonce) pt);
        wire ← sys (new_buffer wire);
        c ← self (fun t => connected (link t));
        if negb c then
          assign (set_link (fun u => set_queue (preConnectQueue u ++ [wire]) u));; commitNonce nonce
        else
          s ← self (fun t => socket (link t)); sys (sock_send s wire None);; commitNonce nonce)
       (t, w) = (r, (t', w'))
    /\ evolves w w' /\ w_next w' = S (w_next w) /\ contents w' (w_next w) = wire
    /\ w_draws w' = w_draws w
    /\ match r with
       | Throw _ => connected (link t) = true /\ t' = t /\ w_inflight w' = w_inflight w
       | Ret _ => exists u,
           t' = mkSecure u (secret t) (sessionSalt t) (iv_prefix (sessionSalt t) index) index (ctr + 1)
           /\ if connected (link t)
              then u = link t
                /\ w_inflight w' = w_inflight w ++ [mkDatagram (socket (link t)) (w_next w) None]
              else u = set_queue (preConnectQueue (link t) ++ [w_next w]) (link t)
                /\ w_inflight w' = w_inflight w
       end.
Proof.
  intros [Hq Hk Hs Hp Hi Hc] Hpt Hctr nonce. assert (is_u32 ctr) as Hu by (unfold is_u32, U32_MAX in *; lia).
  destruct (seal_ok (secret t) (w_pid w) (iv_prefix (sessionSalt t) index) ctr pt Hk
    (length_iv_prefix _ _) Hpt Hu) as (wire & Hw & _ & _).
  exists wire. unfold commitNonce, self, assign, sys. unfold_m. subst nonce. cbn. rewrite Hw. cbn.
  destruct (new_buffer_run wire w) as (w1 & -> & Hev1 & Hn1 & Hi1 & Hc1 & Hd1). cbn.
  destruct (connected (link t)); cbn.
  - destruct (sock_send_run (socket (link t)) (w_next w) None w1) as (r & w2 & -> & Hev2 & Hn2 & Hh2 & Hd2 & Hr).
    assert (contents w2 (w_next w) = wire) by (by unfold contents in *; rewrite Hh2).
    destruct r as [[]|e]; cbn; eexists _, _, w2; (split; [done|]); (split; [reflexivity|]);
      (split; [by etrans|]); (split; [congruence|]); (split; [done|]); (split; [congruence|]).
    + eexists. split; [reflexivity|]. split; [done|]. rewrite <- Hi1. apply Hr.
    + split_and!; [done|by destruct t|]. rewrite <- Hi1. apply Hr.
  - eexists _, _, w1. do 5 (split; [done|]). split; [congruence|]. eexists. by split.
Qed.

(** [send] from the reservation on. *)
Lemma send_unfold l t w :
  udp_pendingError (link t) = None -> length (contents w l) = 32%nat ->
  send l (t, w) =
  if negb (connected (link t)) && bool_decide (PRE_CONNECT_QUEUE_LIMIT <= length (preConnectQueue (link t)))%nat
  then (Throw (queue_full "SecureUdpTransport: pre-connect queue full"), (t, w))
  else match prepareNonce (t, w) with
  | (Throw e, tw) => (Throw e, tw)
  | (Ret nonce, (t1, w1)) =>
      (wire ← lift_res (seal (secret t1) (w_pid w1) (nr_ivRandom nonce) (nr_counter nonce) (contents w l));
       wire ← sys (new_buffer wire);
       c ← self (fun t => connected (link t));
       if negb c then
         assign (set_link (fun u => set_queue (preConnectQueue u ++ [wire]) u));; commitNonce nonce
       else
         s ← self (fun t => socket (link t)); sys (sock_send s wire None);; commitNonce nonce) (t1, w1)
  end.
Proof.
  intros Hpe Hlen. unfold send. unfold_m. rewrite secure_take, Hpe, (secure_no_pending t Hpe).
  unfold self, sys, gets, on_snd. cbn [fst snd].
  rewrite (bool_decide_true (length (contents w l) = PLAINTEXT_BYTES)) by done. cbn [negb].
  destruct (negb _ && _); [done|].
  destruct (prepareNonce (t, w)) as [[nonce|e] [t1 w1]]; [|done]. cbn [fst snd].
  by destruct (secret t1).
Qed.

(** Every outcome of [send] on a 32-byte frame. *)
Lemma secure_send_run t w l :
  secure_inv t -> entropy_ok w -> length (contents w l) = 32%nat ->
  exists r t' w', send l (t, w) = (r, (t', w')) /\ evolves w w'
  /\ match udp_pendingError (link t), r with
     | Some e, _ => r = Throw e /\ w' = w /\ t' = set_pendingError None t
     | None, Throw _ => t' = t /\ w_inflight w' = w_inflight w
     | None, Ret _ => exists t1 w1 index ctr u,
         (if exhausted t then reconnect (t, w) = (Ret tt, (t1, w1)) /\ index = 0 /\ ctr = 0
          else t1 = t /\ w1 = w /\ index = next_index t /\ ctr = next_ctr t)
         /\ seal (secret t) (w_pid w) (iv_prefix (sessionSalt t1) index) ctr (contents w l)
            = Ret (contents w' (w_next w))
         /\ w_next w' = S (w_next w) /\ w_draws w' = w_draws w1
         /\ t' = mkSecure u (secret t) (sessionSalt t1) (iv_prefix (sessionSalt t1) index) index (ctr + 1)
         /\ (connected (link t) = false -> length (preConnectQueue (link t)) < PRE_CONNECT_QUEUE_LIMIT)%nat
         /\ if connected (link t1)
            then u = link t1
              /\ w_inflight w' = w_inflight w ++ [mkDatagram (socket (link t1)) (w_next w) None]
            else u = set_queue (preConnectQueue (link t1) ++ [w_next w]) (link t1)
              /\ w_inflight w' = w_inflight w
     end.
Proof.
  intros Hinv He Hlen. destruct (udp_pendingError (link t)) as [e|] eqn:Hpe.
  { eexists _, _, _. unfold send, mbind, M_bind. rewrite secure_take, Hpe. by split_and!. }
  rewrite (send_unfold _ _ _ Hpe Hlen).
  destruct (negb (connected (link t)) && _) eqn:Hfull.
  { eexists _, _, _. by split_and!. }
  destruct (prepareNonce_run t w Hinv He) as (r & t1 & w1 & -> & Hq & Hr).
  assert ((exists index ctr, r = Ret (reservation (sessionSalt t1) index ctr) /\ 0 <= ctr < U32_MAX
      /\ secret t1 = secret t /\ secure_inv t1
      /\ if exhausted t then reconnect (t, w) = (Ret tt, (t1, w1)) /\ index = 0 /\ ctr = 0
         else t1 = t /\ w1 = w /\ index = next_index t /\ ctr = next_ctr t)
    \/ (exists e, r = Throw e /\ t1 = t)) as [(index & ctr & -> & Hctr & Hsec & Hinv1 & Hx)|(e & -> & ->)].
  { destruct (exhausted t) eqn:Hx.
    - destruct r as [n|e]; [|by right; eauto]. left. destruct Hr as [Hrec ->]. exists 0, 0.
      destruct (secure_reconnect_run t w He) as (r2 & t2 & w2 & Hrec' & _ & Hr2).
      rewrite Hrec in Hrec'. symmetry in Hrec'. simplify_eq.
      destruct Hr2 as (_ & s & _ & ->). split_and!; try done; [apply reconnected_inv; [done|apply He]].
    - destruct Hr as (-> & -> & ->). left. eexists _, _. split; [done|].
      destruct (next_slot_range t Hinv Hx) as (_ & [Hc1 Hc2] & _). by split_and!. }
  - destruct (secure_emit_run t1 w1 (contents w l) index ctr Hinv1 Hlen Hctr)
      as (wire & r & t' & w' & Hseal & -> & Hev & Hn & Hc & Hd & Hr').
    pose proof (qu_next _ _ Hq) as Hnx. pose proof (qu_inflight _ _ Hq) as Hin.
    pose proof (ev_pid _ _ (qu_evolves _ _ Hq)) as Hpid.
    eexists r, t', w'. split; [done|]. split; [by etrans; [apply Hq|]|].
    destruct r as [[]|e].
    + destruct Hr' as (u & -> & Hu). exists t1, w1, index, ctr, u. rewrite Hnx in *.
      rewrite Hc, <- Hseal, Hsec, Hpid, <- Hin. split_and!; try done.
      intros Hct. rewrite Hct in Hfull. cbn in Hfull. apply bool_decide_eq_false in Hfull. lia.
    + destruct Hr' as (Hct & -> & Hi'). rewrite Hin in Hi'. destruct (exhausted t) eqn:Hex.
      * destruct Hx as [Hrec _]. destruct (secure_reconnect_run t w He) as (r2 & t2 & w2 & Hrec' & _ & Hr2).
        rewrite Hrec in Hrec'. symmetry in Hrec'. simplify_eq. destruct Hr2 as (_ & s & _ & ->). done.
      * by destruct Hx as (-> & _).
  - eexists _, _, _. split; [done|]. split; [apply Hq|]. split; [done|]. apply Hq.
Qed.

Lemma secure_close_run t w : exists w', close (t, w) = (Ret tt, (t, w')) /\ quiet w w'.
Proof.
  destruct (close_try_run (socket (link t)) w) as (w' & Hc & Hq & _).
  unfold close, self, sys. unfold_m. cbn. unfold try_catch, mret, M_ret in Hc. rewrite Hc. eauto.
Qed.

Lemma seal_opens k pid salt index ctr pt wire :
  key_ok k -> length pt = PLAINTEXT_BYTES -> 0 <= ctr < U32_MAX ->
  seal k pid (iv_prefix salt index) ctr pt = Ret wire ->
  opener k wire = Ret pt /\ wire_nonce k wire = aead_nonce (iv_prefix salt index) ctr.
Proof.
  intros Hk Hpt Hc Hs. assert (is_u32 ctr) as Hu by (unfold is_u32, U32_MAX in *; lia).
  destruct (seal_ok k pid _ ctr pt Hk (length_iv_prefix salt index) Hpt Hu) as (wire' & Hs' & ? & ?).
  rewrite Hs in Hs'. injection Hs' as <-. auto.
Qed.

(** The session a successful [send] seals under. *)
Lemma session_used t w t1 w1 index ctr :
  secure_inv t -> entropy_ok w ->
  (if exhausted t then reconnect (t, w) = (Ret tt, (t1, w1)) /\ index = 0 /\ ctr = 0
   else t1 = t /\ w1 = w /\ index = next_index t /\ ctr = next_ctr t) ->
  secure_inv t1 /\ secret t1 = secret t /\ is_u32 index /\ 0 <= ctr < U32_MAX /\ quiet w w1
  /\ preConnectQueue (link t1) = preConnectQueue (link t)
  /\ (connected (link t1) = true -> t1 = t)
  /\ ((exhausted t = false /\ t1 = t /\ w_draws w1 = w_draws w
        /\ position index ctr = position (prefixIndex t) (counter t))
      \/ (w_draws w1 = S (w_draws w) /\ connected (link t1) = false /\ position index ctr = 0
          /\ sessionSalt t1 = w_random w (w_draws w) SESSION_SALT_BYTES)).
Proof.
  intros Hinv He. destruct (exhausted t) eqn:Hx.
  - intros (Hrec & -> & ->). destruct (secure_reconnect_run t w He) as (r2 & t2 & w2 & Hrec' & Hq & Hr2).
    rewrite Hrec in Hrec'. symmetry in Hrec'. simplify_eq. destruct Hr2 as (Hd & s & _ & ->).
    split; [apply reconnected_inv; [done|apply He]|]. split_and!; try done. by right.
  - intros (-> & -> & -> & ->). destruct (next_slot_range t Hinv Hx) as (? & [? ?] & ?).
    split_and!; try done. by left.
Qed.

Lemma committed_inv t1 u k index ctr :
  secure_inv t1 -> queue_bounded u -> is_u32 index -> 0 <= ctr < U32_MAX -> key_ok k ->
  secure_inv (mkSecure u k (sessionSalt t1) (iv_prefix (sessionSalt t1) index) index (ctr + 1)).
Proof.
  intros [_ _ Hs _ _ _] Hb Hi Hc Hk. constructor; cbn; try done. unfold is_u32, U32_MAX in *. lia.
Qed.

(** What an accepted [send] leaves behind. *)
Lemma secure_accepted t t1 w1 w w' u index ctr :
  secure_inv t -> secure_inv t1 -> preConnectQueue (link t1) = preConnectQueue (link t) ->
  (connected (link t1) = true -> t1 = t) ->
  (connected (link t) = false -> length (preConnectQueue (link t)) < PRE_CONNECT_QUEUE_LIMIT)%nat ->
  quiet w w1 -> is_u32 index -> 0 <= ctr < U32_MAX ->
  (if connected (link t1)
   then u = link t1 /\ w_inflight w' = w_inflight w ++ [mkDatagram (socket (link t1)) (w_next w) None]
   else u = set_queue (preConnectQueue (link t1) ++ [w_next w]) (link t1)
     /\ w_inflight w' = w_inflight w) ->
  secure_inv (mkSecure u (secret t) (sessionSalt t1) (iv_prefix (sessionSalt t1) index) index (ctr + 1))
  /\ outbox_of (preConnectQueue u) w' ≡ₚ w_next w :: outbox_of (preConnectQueue (link t)) w.
Proof.
  intros Hinv Hinv1 Hq Hct Hlim Hqw Hi Hc Hu. pose proof (si_queue _ Hinv) as [Hb1 Hb2].
  destruct (connected (link t1)) eqn:Hc1; destruct Hu as [-> Hin].
  - rewrite (Hct eq_refl) in *. split.
    + apply committed_inv; try done. apply Hinv.
    + exact (outbox_sent _ _ _ _ Hin).
  - split.
    + apply committed_inv; try done; [|apply Hinv]. split; cbn; rewrite length_app, Hq; cbn; [|congruence].
      destruct (connected (link t)); [specialize (Hb2 eq_refl)|specialize (Hlim eq_refl)]; lia.
    + unfold outbox_of. cbn. rewrite Hin, Hq, (assoc_L (++)). by rewrite (comm (++) _ [_]).
Qed.

#[global] Program Instance secure_laws : BeatTransportLaws SecureUdpTransport := {|
  bt_inv := secure_inv;
  bt_queue t := preConnectQueue (link t);
  bt_open t := opener (secret t);
|}.
Next Obligation.
  intros t w l (Hw & Hinv & Ha) Hl Hlen. cbn.
  destruct (secure_send_run t w l Hinv (proj2 Hw) Hlen) as (r & t' & w' & -> & Hev & Hr).
  exists r, t', w'. split; [done|]. destruct (udp_pendingError (link t)) as [e|] eqn:Hpe.
  { destruct Hr as (-> & -> & ->). split_and!; try done. destruct Hinv. by constructor. }
  destruct r as [[]|e].
  - destruct Hr as (t1 & w1 & index & ctr & u & Hx & Hseal & Hn & _ & -> & Hlim & Hu).
    destruct (session_used _ _ _ _ _ _ Hinv (proj2 Hw) Hx) as (Hinv1 & Hsec & Hi & Hc & Hq & Hqq & Hct & _).
    destruct (secure_accepted t t1 w1 w w' u index ctr) as [Hinv' Hp]; try done.
    assert (w_next w < w_next w')%nat as Hlt by lia.
    split_and!; eauto using allocated_grow with varta.
    exists (w_next w). split_and!; try done.
    by apply seal_opens in Hseal as [-> _]; [|apply Hinv|..].
  - destruct Hr as [-> Hin]. rewrite (outbox_same _ _ _ Hin). split_and!; eauto with varta.
Qed.
Next Obligation.
  intros t w (Hw & Hinv & Ha). cbn.
  destruct (secure_reconnect_run t w (proj2 Hw)) as (r & t' & w' & -> & Hq & Hr).
  pose proof (qu_evolves _ _ Hq). exists r, t', w'. split; [done|].
  destruct r as [[]|e]; [destruct Hr as (_ & s & _ & ->)|subst t']; cbn;
    rewrite (quiet_outbox _ _ _ Hq); split_and!; eauto with varta.
  apply reconnected_inv; [done|apply Hw].
Qed.
Next Obligation.
  intros t w. cbn. destruct (secure_close_run t w) as (w' & -> & Hq).
  eexists. split_and!; [reflexivity|apply Hq..|]. by apply quiet_world_ok.
Qed.

(** ** Executions

    Calls, callbacks and completions in any order, interleaved with the rest of the
    program: any evolution of the world (other sockets, other entropy draws), any
    write to any buffer. The index lists the datagrams accepted, each read off the
    buffer that [send] added to the outbox. *)
Inductive secure_run (h : string) (p : jsnum) (k : SecureKey)
    : SecureUdpTransport -> World -> list bytes -> Prop :=
| srun_new w0 t w :
    world_ok w0 -> key_ok k -> newSecureUdpTransport h p k w0 = (Ret t, w) -> secure_run h p k t w []
| srun_send t w acc l o t' w' :
    secure_run h p k t w acc -> length (contents w l) = 32%nat ->
    send l (t, w) = (Ret tt, (t', w')) -> bt_outbox t' w' ≡ₚ o :: bt_outbox t w ->
    secure_run h p k t' w' (acc ++ [contents w' o])
| srun_reject t w acc l e t' w' :
    secure_run h p k t w acc -> length (contents w l) = 32%nat ->
    send l (t, w) = (Throw e, (t', w')) -> secure_run h p k t' w' acc
| srun_reconnect t w acc r t' w' :
    secure_run h p k t w acc -> reconnect (t, w) = (r, (t', w')) -> secure_run h p k t' w' acc
| srun_close t w acc r t' w' :
    secure_run h p k t w acc -> close (t, w) = (r, (t', w')) -> secure_run h p k t' w' acc
| srun_connect t w acc s r t' w' :
    secure_run h p k t w acc -> on_connect s (t, w) = (r, (t', w')) -> secure_run h p k t' w' acc
| srun_error t w acc s err r t' w' :
    secure_run h p k t w acc -> on_error s err (t, w) = (r, (t', w')) -> secure_run h p k t' w' acc
| srun_complete t w acc err d w1 r t' w' :
    secure_run h p k t w acc -> complete_send err w = Some (d, w1) ->
    on_send_done (dg_socket d) err (t, w1) = (r, (t', w')) -> secure_run h p k t' w' acc
| srun_env t w acc w' : secure_run h p k t w acc -> evolves w w' -> secure_run h p k t w' acc
| srun_write t w acc l b :
    secure_run h p k t w acc -> (l < w_next w)%nat -> secure_run h p k t (set_contents l b w) acc.

(** A slot that has been used: by an earlier session, or earlier in this one. *)
Definition used_before (cur : nat) (t : SecureUdpTransport) (sl : slot) : Prop :=
  let '(n, index, ctr) := sl in
  (n < cur)%nat \/ (n = cur /\ position index ctr < position (prefixIndex t) (counter t)).

(** A datagram sealed under a slot. *)
Definition sealed_under (k : SecureKey) (w : World) (sl : slot) (wire : bytes) : Prop :=
  wire_nonce k wire = slot_nonce w sl
  /\ let '(n, index, ctr) := sl in (n < w_draws w)%nat /\ is_u32 index /\ 0 <= ctr < U32_MAX.

Record srun_inv (k : SecureKey) (t : SecureUdpTransport) (w : World) (acc : list bytes) : Prop := {
  sr_world : world_ok w;
  sr_inv : secure_inv t;
  sr_key : secret t = k;
  sr_slots : exists cur slots,
    sessionSalt t = w_random w cur SESSION_SALT_BYTES /\ (cur < w_draws w)%nat
    /\ NoDup slots /\ Forall (used_before cur t) slots /\ Forall2 (sealed_under k w) slots acc;
}.

Lemma sealed_under_evolves k w w' sl wire :
  w_random w' = w_random w -> (w_draws w <= w_draws w')%nat ->
  sealed_under k w sl wire -> sealed_under k w' sl wire.
Proof.
  intros Hr Hd. destruct sl as [[n i] c]. unfold sealed_under, slot_nonce. rewrite Hr.
  intros (? & ? & ? & ?). split; [done|]. split; [lia|]. by split.
Qed.

(** The IV state and key unchanged, the world only further along. *)
Lemma srun_inv_keep k t w acc t' w' :
  srun_inv k t w acc -> world_ok w' -> w_random w' = w_random w -> (w_draws w <= w_draws w')%nat ->
  queue_bounded (link t') -> t' = set_link (fun _ => link t') t -> srun_inv k t' w' acc.
Proof.
  intros [Hw [? ? ? ? ? ?] Hk (cur & slots & Hs & Hc & Hnd & Hu & Hf)] Hw' Hr Hd Hb Ht.
  constructor; [done|rewrite Ht; by constructor|by rewrite Ht|].
  exists cur, slots. split_and!; try done.
  - rewrite Ht, Hr. done.
  - lia.
  - eapply list.Forall_impl; [exact Hu|]. intros [[n i] c]. cbn. by rewrite Ht.
  - eapply list.Forall2_impl; [exact Hf|]. intros. by eapply sealed_under_evolves.
Qed.

(** A new session, its salt drawn after every salt so far. *)
Lemma srun_inv_reconnect k t w acc r t' w' :
  srun_inv k t w acc -> reconnect (t, w) = (r, (t', w')) -> srun_inv k t' w' acc.
Proof.
  intros Hinv Hrun. pose proof Hinv as [Hw Hi Hk (cur & slots & Hs & Hc & Hnd & Hu & Hf)].
  destruct (secure_reconnect_run t w (proj2 Hw)) as (r2 & t2 & w2 & Hrec' & Hq & Hr2).
  rewrite Hrun in Hrec'. symmetry in Hrec'. simplify_eq.
  pose proof (qu_evolves _ _ Hq) as Hev. pose proof (quiet_world_ok _ _ Hq Hw) as Hw'.
  destruct r as [[]|e].
  - destruct Hr2 as (Hd & s & _ & ->).
    constructor; cbn; [done|apply reconnected_inv; [done|apply Hw]|done|].
    exists (w_draws w), slots. rewrite (ev_random _ _ Hev). split_and!; try done; [lia|..].
    + eapply list.Forall_impl; [exact Hu|]. intros [[n i] c]. cbn. lia.
    + eapply list.Forall2_impl; [exact Hf|]. intros.
      by eapply (sealed_under_evolves _ w); [apply Hev..|].
  - subst t'. apply (srun_inv_keep _ _ _ _ _ _ Hinv); try done; [apply Hev..|apply Hi|by destruct t].
Qed.

Lemma perm_cons_inj {A} (a b : A) l : a :: l ≡ₚ b :: l -> a = b.
Proof.
  intros Hp. apply (Permutation_app_inv_r l [a] [b]) in Hp. by apply Permutation_singleton_inj in Hp.
Qed.

(** One more datagram, under a slot no datagram has used. *)
Lemma srun_inv_send k t w acc l o t' w' :
  srun_inv k t w acc -> length (contents w l) = 32%nat ->
  send l (t, w) = (Ret tt, (t', w')) -> bt_outbox t' w' ≡ₚ o :: bt_outbox t w ->
  srun_inv k t' w' (acc ++ [contents w' o]).
Proof.
  intros [Hw Hinv Hk (cur & slots & Hs & Hc & Hnd & Hu & Hf)] Hlen Hrun Hob.
  destruct (secure_send_run t w l Hinv (proj2 Hw) Hlen) as (r & t2 & w2 & Hrun' & Hev & Hr).
  rewrite Hrun in Hrun'. symmetry in Hrun'. simplify_eq.
  destruct (udp_pendingError (link t)); [by destruct Hr|].
  destruct Hr as (t1 & w1 & index & ctr & u & Hx & Hseal & Hn & Hd & -> & Hlim & Hul).
  destruct (session_used _ _ _ _ _ _ Hinv (proj2 Hw) Hx)
    as (Hinv1 & Hsec & Hi & Hctr & Hq & Hqq & Hct & Hpos).
  destruct (secure_accepted t t1 w1 w w' u index ctr) as [Hinv' Hp]; try done.
  assert (o = w_next w) as ->.
  { unfold bt_outbox in Hob. cbn in Hob. rewrite Hp in Hob. by apply perm_cons_inj in Hob. }
  apply seal_opens in Hseal as [_ Hnonce]; [|apply Hinv|done|done].
  assert (position index (ctr + 1) = position index ctr + 1) as Hsucc by (unfold position; lia).
  assert (forall cur', sessionSalt t1 = w_random w cur' SESSION_SALT_BYTES -> (cur' < w_draws w')%nat ->
    Forall2 (sealed_under (secret t) w') (slots ++ [(cur', index, ctr)]) (acc ++ [contents w' (w_next w)])) as Hf'.
  { intros cur' Hs1 Hlt. apply Forall2_app; [|constructor; [|done]].
    - eapply list.Forall2_impl; [exact Hf|]. intros. by eapply (sealed_under_evolves _ w); [apply Hev..|].
    - split; [|by split_and!; destruct Hctr]. rewrite Hnonce, Hs1. cbn. by rewrite (ev_random _ _ Hev). }
  constructor; [by eapply evolves_world_ok|done|done|]. cbn. rewrite (ev_random _ _ Hev).
  destruct Hpos as [(_ & -> & Hd1 & Hpos)|(Hd1 & _ & Hpos & Hs1)].
  - exists cur, (slots ++ [(cur, index, ctr)]). split_and!; [done|lia|..|apply Hf'; [done|lia]].
    + apply list.NoDup_app. split_and!; [done| |apply NoDup_singleton]. intros sl Hin ->%list_elem_of_singleton.
      rewrite list.Forall_forall in Hu. specialize (Hu _ Hin). cbn in Hu. lia.
    + apply Forall_app; split; [|constructor; [|done]]; cbn; [|right; lia].
      eapply list.Forall_impl; [exact Hu|]. intros [[n i] c]. cbn. lia.
  - exists (w_draws w), (slots ++ [(w_draws w, index, ctr)]). split_and!; [done|lia|..|apply Hf'; [done|lia]].
    + apply list.NoDup_app. split_and!; [done| |apply NoDup_singleton]. intros sl Hin ->%list_elem_of_singleton.
      rewrite list.Forall_forall in Hu. specialize (Hu _ Hin). cbn in Hu. lia.
    + apply Forall_app; split; [|constructor; [|done]]; cbn; [|right; lia].
      eapply list.Forall_impl; [exact Hu|]. intros [[n i] c]. cbn. lia.
Qed.

Lemma on_link_run {A} (m : method UdpTransport A) t w r u w' :
  m (link t, w) = (r, (u, w')) -> on_link m (t, w) = (r, (set_link (fun _ => u) t, w')).
Proof. intros Hm. unfold on_link. cbn. by rewrite Hm. Qed.

(** A new transport: a session under the first draw, an empty queue. *)
Lemma newSecure_run h p k w0 t w :
  world_ok w0 -> key_ok k -> newSecureUdpTransport h p k w0 = (Ret t, w) ->
  let salt := w_random w0 (w_draws w0) SESSION_SALT_BYTES in
  (exists s, t = mkSecure (mkUdp s h p false [] None) k salt (iv_prefix salt 0) 0 0)
  /\ secure_inv t /\ quiet w0 w /\ w_draws w = S (w_draws w0).
Proof.
  intros Hw Hk Hrun salt. unfold newSecureUdpTransport in Hrun. unfold_m.
  destruct (randomBytes_run SESSION_SALT_BYTES w0) as (r & w1 & E & Hq & Hr). rewrite E in Hrun.
  destruct r as [salt'|e]; [|done]. destruct Hr as [-> Hd].
  rewrite iv_prefix_eq in Hrun by (apply Hw || (split; lia)).
  unfold openSocket in Hrun. pose proof (quiet_udp_openSocket h p w1) as Hq2.
  pose proof (draws_udp_openSocket h p w1) as Hd2. unfold same_draws in Hd2.
  destruct (Udp.openSocket h p w1) as [[s|e] w2]; [|done]. simplify_eq/=.
  split_and!; [by exists s| |by etrans|congruence].
  constructor; cbn; try done; [split; cbn; unfold PRE_CONNECT_QUEUE_LIMIT; [lia|done]|apply Hw|split; lia..].
Qed.

Lemma srun_inv_new h p k w0 t w :
  world_ok w0 -> key_ok k -> newSecureUdpTransport h p k w0 = (Ret t, w) -> srun_inv k t w [].
Proof.
  intros Hw Hk Hrun. destruct (newSecure_run _ _ _ _ _ _ Hw Hk Hrun) as ((s & ->) & Hinv & Hq & Hd).
  constructor; [by eapply quiet_world_ok|done|done|].
  exists (w_draws w0), []. cbn. rewrite (ev_random _ _ (qu_evolves _ _ Hq)).
  split_and!; [done|lia|by constructor..].
Qed.

Lemma srun_reachable h p k t w acc : secure_run h p k t w acc -> srun_inv k t w acc.
Proof.
  induction 1 as [w0 t w Hw Hk Hn|t w acc l o t' w' _ IH Hlen Hs Ho|t w acc l e t' w' _ IH Hlen Hs
    |t w acc r t' w' _ IH Hs|t w acc r t' w' _ IH Hs|t w acc s r t' w' _ IH Hs
    |t w acc s err r t' w' _ IH Hs|t w acc err d w1 r t' w' _ IH Hc Hs|t w acc w' _ IH Hev
    |t w acc l b _ IH Hl].
  - by eapply srun_inv_new.
  - by eapply srun_inv_send.
  - pose proof IH as [Hw Hinv Hk _].
    destruct (secure_send_run t w l Hinv (proj2 Hw) Hlen) as (r & t2 & w2 & Hrun' & Hev & Hr).
    rewrite Hs in Hrun'. symmetry in Hrun'. simplify_eq. destruct (udp_pendingError (link t)).
    + destruct Hr as (_ & -> & ->). eapply srun_inv_keep; try done. apply Hinv.
    + destruct Hr as [-> _]. apply (srun_inv_keep _ _ _ _ _ _ IH); try apply Hev; [|apply Hinv|by destruct t].
      by eapply evolves_world_ok.
  - by eapply srun_inv_reconnect.
  - destruct (secure_close_run t w) as (w1 & Hr & Hq). rewrite Hs in Hr. simplify_eq.
    apply (srun_inv_keep _ _ _ _ _ _ IH); try apply Hq; [|apply IH|by destruct t].
    eapply quiet_world_ok; [done|apply IH].
  - destruct (udp_callbacks_run s (plain_error "") (link t) w) as [(r1 & u & w1 & Hr & Hev & Hb) _].
    apply on_link_run in Hr. unfold on_connect in Hs. rewrite Hs in Hr. simplify_eq.
    apply (srun_inv_keep _ _ _ _ _ _ IH); try apply Hev; [|apply Hb, IH|by destruct t].
    eapply evolves_world_ok; [done|apply IH].
  - destruct (udp_callbacks_run s err (link t) w) as (_ & (u & Hr & Hb) & _).
    apply on_link_run in Hr. unfold on_error in Hs. rewrite Hs in Hr. simplify_eq.
    apply (srun_inv_keep _ _ _ _ _ _ IH); try done; [apply IH|apply Hb, IH].
  - destruct (udp_callbacks_run (dg_socket d) (plain_error "") (link t) w1) as (_ & _ & Hsd).
    destruct (Hsd err) as (u & Hr & Hb). apply on_link_run in Hr. unfold on_send_done in Hs.
    rewrite Hs in Hr. simplify_eq. pose proof (complete_send_run [] _ _ _ _ Hc) as (Hw1 & _).
    assert (w_random w1 = w_random w /\ w_draws w1 = w_draws w) as [Hr1 Hd1].
    { unfold complete_send in Hc. destruct (w_inflight w); by simplify_eq. }
    apply (srun_inv_keep _ _ _ _ _ _ IH); try done; [apply Hw1, IH|lia|apply Hb, IH].
  - apply (srun_inv_keep _ _ _ _ _ _ IH); try apply Hev; [|apply IH|by destruct t].
    eapply evolves_world_ok; [done|apply IH].
  - apply (srun_inv_keep _ _ _ _ _ _ IH); try done; [|apply IH|by destruct t].
    apply set_contents_world_ok; [done|apply IH].
Qed.

Lemma aead_nonce_inj iv1 c1 iv2 c2 :
  length iv1 = length iv2 -> is_u32 c1 -> is_u32 c2 ->
  aead_nonce iv1 c1 = aead_nonce iv2 c2 -> iv1 = iv2 /\ c1 = c2.
Proof.
  intros Hl H1 H2 Heq. unfold aead_nonce in Heq. apply app_inj_1 in Heq as [-> Hc]; [|done].
  split; [done|]. by apply (le_bytes_inj 4).
Qed.

(** ** Properties *)

(** C1. No AEAD nonce is used twice. In every execution of the secure transport, with
    reconnects, prefix rotations, session exhaustion, failed sends and callbacks in
    any order, the accepted datagrams are sealed under pairwise different slots
    (entropy draw of the salt, prefix index, counter), and the counter on the wire is
    never 0xffffffff. Hence two datagrams with the same 12-byte nonce exhibit two
    different (salt draw, prefix index) pairs whose derived 8-byte prefixes collide:
    without such a collision in the key derivation the nonces are all different. *)
Theorem secure_nonces_never_repeat (h : string) (p : jsnum) (k : SecureKey) (t : SecureUdpTransport)
    (w : World) (acc : list bytes) :
  secure_run h p k t w acc ->
  (exists slots, NoDup slots /\ Forall2 (sealed_under k w) slots acc)
  /\ forall i j a b, i <> j -> acc !! i = Some a -> acc !! j = Some b ->
     wire_nonce k a = wire_nonce k b ->
     exists n1 i1 n2 i2, (n1, i1) <> (n2, i2) /\ (n1 < w_draws w)%nat /\ (n2 < w_draws w)%nat
     /\ is_u32 i1 /\ is_u32 i2
     /\ iv_prefix (w_random w n1 SESSION_SALT_BYTES) i1
        = iv_prefix (w_random w n2 SESSION_SALT_BYTES) i2.
Proof.
  intros Hrun. destruct (srun_reachable _ _ _ _ _ _ Hrun) as [_ _ _ (cur & slots & _ & _ & Hnd & _ & Hf)].
  split; [by exists slots|]. intros i j a b Hij Ha Hb Heq.
  destruct (Forall2_lookup_r _ _ _ _ _ Hf Ha) as ([[n1 i1] c1] & H1 & Hn1 & Hd1 & Hi1 & Hc1).
  destruct (Forall2_lookup_r _ _ _ _ _ Hf Hb) as ([[n2 i2] c2] & H2 & Hn2 & Hd2 & Hi2 & Hc2).
  rewrite Hn1, Hn2 in Heq. unfold slot_nonce in Heq.
  apply aead_nonce_inj in Heq as [Hiv <-]; [|by rewrite !length_iv_prefix|unfold is_u32, U32_MAX in *; lia..].
  exists n1, i1, n2, i2. split_and!; try done; try apply Hi1; try apply Hi2.
  intros [= <- <-]. apply Hij. by eapply (NoDup_lookup slots).
Qed.

(** C10. A [send] of the secure transport, case by case. A pending error is thrown,
    once, and the IV state is kept. A throw for any other reason (full queue, failed
    rotation, failed socket) changes no field at all: the same slot is used by the
    next attempt. An accepted frame is sealed for the peer under the slot after the last
    one: the next counter of the session, counter 0 of the next prefix when the counter
    is 0xffffffff, or slot (0, 0) of a session under a salt just drawn when the prefix
    index is 0xffffffff too; and the position of the session advances by exactly one. *)
Theorem secure_send_commits (t : SecureUdpTransport) (w : World) (l : nat) :
  secure_inv t -> entropy_ok w -> length (contents w l) = 32%nat ->
  exists r t' w', send l (t, w) = (r, (t', w'))
  /\ match udp_pendingError (link t), r with
     | Some e, _ => r = Throw e /\ t' = set_pendingError None t /\ w' = w
     | None, Throw _ => t' = t /\ w_inflight w' = w_inflight w
     | None, Ret _ =>
         let wire := contents w' (w_next w) in
         let '(salt, index, ctr) :=
           if (counter t =? 0xffffffff) && (prefixIndex t =? 0xffffffff)
           then (w_random w (w_draws w) 16, 0, 0)
           else if counter t =? 0xffffffff then (sessionSalt t, prefixIndex t + 1, 0)
           else (sessionSalt t, prefixIndex t, counter t) in
         opener (secret t) wire = Ret (contents w l)
         /\ wire_nonce (secret t) wire = aead_nonce (iv_prefix salt index) ctr
         /\ (sessionSalt t', prefixIndex t', counter t') = (salt, index, ctr + 1)
         /\ ivPrefix t' = iv_prefix salt index /\ secret t' = secret t
         /\ (exhausted t = false ->
             position (prefixIndex t') (counter t') = position (prefixIndex t) (counter t) + 1)
     end.
Proof.
  intros Hinv He Hlen. destruct (secure_send_run t w l Hinv He Hlen) as (r & t' & w' & -> & Hev & Hr).
  exists r, t', w'. split; [done|]. destruct (udp_pendingError (link t)); [tauto|].
  destruct r as [[]|e]; [|done].
  destruct Hr as (t1 & w1 & index & ctr & u & Hx & Hseal & Hn & Hd & -> & Hlim & Hul). cbn [sessionSalt
    prefixIndex counter ivPrefix secret].
  destruct (session_used _ _ _ _ _ _ Hinv He Hx) as (_ & _ & _ & Hc & _ & _ & _ & Hpos).
  apply seal_opens in Hseal as [Hopen Hnonce]; [|apply Hinv|done|done].
  assert ((if (counter t =? 0xffffffff) && (prefixIndex t =? 0xffffffff)
           then (w_random w (w_draws w) 16%nat, 0, 0)
           else if counter t =? 0xffffffff then (sessionSalt t, prefixIndex t + 1, 0)
           else (sessionSalt t, prefixIndex t, counter t)) = (sessionSalt t1, index, ctr)) as ->.
  { fold U32_MAX. fold (exhausted t). unfold next_index, next_ctr in Hx.
    destruct (exhausted t); [|destruct Hx as (-> & _ & -> & ->); by destruct (counter t =? U32_MAX)].
    destruct Hx as (_ & -> & ->).
    destruct Hpos as [(Hf & _)|(_ & _ & _ & Hs)]; [done|]. by rewrite Hs. }
  split_and!; try done. intros Hex. destruct Hpos as [(_ & _ & _ & Hpos)|(_ & Hct & _)].
  - unfold position in *. lia.
  - rewrite Hex in Hx. destruct Hx as (-> & -> & -> & ->).
    pose proof (next_slot_range t Hinv Hex) as (_ & _ & Hp). unfold position in *. lia.
Qed.

(** [reconnect] of the secure transport has the strong exception guarantee: when
    the entropy source or the socket set-up throws, socket, key, salt, prefix, index,
    counter, queue and pending error are all as before. When it returns, the session
    is a new one (the next draw of the entropy source, prefix 0, counter 0) on a socket
    with a fresh handle, the queued datagrams are kept, and callbacks of every other
    socket leave the transport alone. *)
Theorem secure_reconnect_replaces (t : SecureUdpTransport) (w : World) :
  entropy_ok w ->
  match reconnect (t, w) with
  | (Throw _, (t', w')) => t' = t /\ w_inflight w' = w_inflight w
  | (Ret _, (t', w')) =>
      sessionSalt t' = w_random w (w_draws w) 16 /\ w_draws w' = S (w_draws w)
      /\ prefixIndex t' = 0 /\ counter t' = 0 /\ ivPrefix t' = iv_prefix (sessionSalt t') 0
      /\ preConnectQueue (link t') = preConnectQueue (link t) /\ connected (link t') = false
      /\ udp_pendingError (link t') = None /\ secret t' = secret t
      /\ (w_sockets w <= socket (link t'))%nat
      /\ forall s err w2, s <> socket (link t') ->
           on_error s err (t', w2) = (Ret tt, (t', w2))
           /\ on_send_done s (Some err) (t', w2) = (Ret tt, (t', w2))
           /\ on_connect s (t', w2) = (Ret tt, (t', w2))
  end.
Proof.
  intros He. destruct (secure_reconnect_run t w He) as (r & t' & w' & -> & Hq & Hr).
  destruct r as [[]|e]; [|split; [done|apply Hq]]. destruct Hr as (Hd & s & Hs & ->). cbn.
  split_and!; try done; [lia|]. intros s' err w2 Hne.
  destruct (udp_stale s' err (mkUdp s (host (link t)) (port (link t)) false (preConnectQueue (link t)) None) w2)
    as (H1 & H2 & H3); [cbn; congruence|].
  unfold on_error, on_send_done, on_connect, on_link. cbn. by rewrite H1, H2, H3.
Qed.
End secure_udp.

(** ** Examples, with the toy cryptography *)

#[local] Existing Instance toy_crypto.
#[local] Existing Instance toy_laws.

Definition demo_key : SecureKey := SecureKeyShared (replicate 32 7).

(** A transport at the last slot of its session, connected, on the demo world. *)
Definition last_slot : SecureUdpTransport :=
  mkSecure (mkUdp 0 "127.0.0.1" (jint 9000) true [] None) demo_key (le_bytes 16 5)
    (iv_prefix (le_bytes 16 5) 0xffffffff) 0xffffffff 0xffffffff.

Lemma last_slot_inv : secure_inv last_slot.
Proof.
  constructor; cbn; try done; try (split; lia). split; cbn; unfold PRE_CONNECT_QUEUE_LIMIT; lia.
Qed.

(** The exhausted session is replaced inside [send]: the frame goes out under slot
    (0, 0) of the salt the entropy source gives next. *)
Lemma secure_send_commits_witness :
  exists t' w', send 0 (last_slot, demo_world []) = (Ret tt, (t', w'))
  /\ wire_nonce demo_key (contents w' 1) = aead_nonce (iv_prefix (le_bytes 16 0) 0) 0
  /\ (sessionSalt t', prefixIndex t', counter t') = (le_bytes 16 0, 0, 1).
Proof.
  destruct (secure_send_commits last_slot (demo_world []) 0 last_slot_inv
    (proj2 (demo_world_ok [])) eq_refl) as (r & t' & w' & Hrun & Hr).
  pose proof Hrun as Hrun'. vm_compute in Hrun'. injection Hrun' as <- <- <-.
  eexists _, _. split; [exact Hrun|]. destruct Hr as (_ & Hn & Hs & _). split; [exact Hn|exact Hs].
Defined.

Lemma secure_reconnect_replaces_witness :
  exists t' w', reconnect (last_slot, demo_world []) = (Ret tt, (t', w'))
  /\ prefixIndex t' = 0 /\ counter t' = 0.
Proof.
  pose proof (secure_reconnect_replaces last_slot (demo_world []) (proj2 (demo_world_ok []))) as Hr.
  destruct (reconnect (last_slot, demo_world [])) as [r [t' w']] eqn:Hrun.
  assert (r = Ret tt) as ->.
  { apply (f_equal fst) in Hrun. cbn [fst] in Hrun. rewrite <- Hrun. vm_compute. reflexivity. }
  exists t', w'. split; [done|]. tauto.
Defined.

(** Two frames under the slots (0, 0) and (0, 1) of the first draw. *)
Lemma secure_nonces_never_repeat_witness :
  exists t w wires, secure_run "127.0.0.1" (jint 9000) demo_key t w wires /\ length wires = 2%nat
  /\ exists slots, NoDup slots /\ Forall2 (sealed_under demo_key w) slots wires.
Proof.
  set (r0 := newSecureUdpTransport "127.0.0.1" (jint 9000) demo_key (demo_world [])).
  set (t0 := mkSecure (mkUdp 0 "127.0.0.1" (jint 9000) false [] None) demo_key (le_bytes 16 0)
               (iv_prefix (le_bytes 16 0) 0) 0 0).
  set (s1 := (send 0 (t0, r0.2)).2). set (s2 := (send 0 s1).2).
  assert (secure_run "127.0.0.1" (jint 9000) demo_key s2.1 s2.2 [contents s1.2 1; contents s2.2 2]) as Hrun.
  { apply (srun_send _ _ _ s1.1 s1.2 [contents s1.2 1] 0 2);
      [|vm_compute; reflexivity|vm_compute; reflexivity|vm_compute; apply perm_swap].
    apply (srun_send _ _ _ t0 r0.2 [] 0 1); [|vm_compute; reflexivity..].
    apply (srun_new _ _ _ (demo_world [])); [apply demo_world_ok|done|vm_compute; reflexivity]. }
  exists s2.1, s2.2, [contents s1.2 1; contents s2.2 2]. split; [exact Hrun|]. split; [done|].
  exact (proj1 (secure_nonces_never_repeat _ _ _ _ _ _ Hrun)).
Defined.
