(* ===== verification/Client.v ===== *)
(** * The agent (src/clients/node/src/client.ts)

    [Varta] over any [BeatTransport]: the methods are written against the interface
    and its laws, never against a particular transport. The object's fields are the
    record [Varta]; [nonceWrapWarned] is a module variable and lives in the world. *)

From S2P Require Import Prelude NodeBuffer Crc Vlp Errno Outcome Runtime Transport.

Definition U64_MAX : Z := 0xffffffffffffffff.
Definition MAX_SAFE_INTEGER : Z := 2 ^ 53 - 1.

Definition satAddBig (value delta : Z) : Z :=
  let next := value + delta in
  if U64_MAX <? next then U64_MAX else next.

Definition nl : string := String (Ascii.ascii_of_nat 10) EmptyString.

Definition warnNonceWrapping : M World unit :=
  warned ← gets w_nonce_warned;
  if warned : bool then mret tt
  else
    set_nonce_warned;;
    try_catch (stderr_write ("[varta] nonce exhausted; wrapping to 0" +:+ nl)) (fun _ => mret tt).

Definition closedReconnectError : exn :=
  Exn "Error" "Varta.reconnect: Closed" (Some "EBADF"%string) (Some 9) None None.

(** [monotonicNs()]: the clock, or whatever a test put in its place. *)
Definition monotonicNs : M World Z := hrtime.

Definition coerceBeatStatus (status : StatusLike) : option Status :=
  match status with
  | SLStr str =>
      let name := to_lower str in
      if decide (name = "ok"%string) then Some Ok
      else if decide (name = "degraded"%string) then Some Degraded
      else if decide (name = "critical"%string) then Some Critical
      else if decide (name = "stall"%string) then Some Stall
      else None
  | SLNum n =>
      if num_is n Ok then Some Ok
      else if num_is n Degraded then Some Degraded
      else if num_is n Critical then Some Critical
      else if num_is n Stall then Some Stall
      else None
  end.

Record Varta (T : Type) : Type := mkVarta {
  transport : T;
  buf : nat;
  startNs : Z;
  nonce : Z;
  consecutiveDropped : Z;
  reconnectAfter : jsnum;
  lastTimestamp : Z;
  clockRegressionsCount : Z;
  connectPid : Z;
  forkRecoveriesCount : Z;
  closed : bool;
}.
Arguments mkVarta {T}.
Arguments transport {T}.
Arguments buf {T}.
Arguments startNs {T}.
Arguments nonce {T}.
Arguments consecutiveDropped {T}.
Arguments reconnectAfter {T}.
Arguments lastTimestamp {T}.
Arguments clockRegressionsCount {T}.
Arguments connectPid {T}.
Arguments forkRecoveriesCount {T}.
Arguments closed {T}.

Section agent.
Context {T : Type} `{BeatTransport T} `{Platform}.

(** ** Field assignments *)

Definition set_transport (t : T) (v : Varta T) : Varta T :=
  mkVarta t (buf v) (startNs v) (nonce v) (consecutiveDropped v) (reconnectAfter v)
    (lastTimestamp v) (clockRegressionsCount v) (connectPid v) (forkRecoveriesCount v) (closed v).
Definition set_startNs (x : Z) (v : Varta T) : Varta T :=
  mkVarta (transport v) (buf v) x (nonce v) (consecutiveDropped v) (reconnectAfter v)
    (lastTimestamp v) (clockRegressionsCount v) (connectPid v) (forkRecoveriesCount v) (closed v).
Definition set_nonce (x : Z) (v : Varta T) : Varta T :=
  mkVarta (transport v) (buf v) (startNs v) x (consecutiveDropped v) (reconnectAfter v)
    (lastTimestamp v) (clockRegressionsCount v) (connectPid v) (forkRecoveriesCount v) (closed v).
Definition set_consecutiveDropped (x : Z) (v : Varta T) : Varta T :=
  mkVarta (transport v) (buf v) (startNs v) (nonce v) x (reconnectAfter v)
    (lastTimestamp v) (clockRegressionsCount v) (connectPid v) (forkRecoveriesCount v) (closed v).
Definition set_reconnectAfter (x : jsnum) (v : Varta T) : Varta T :=
  mkVarta (transport v) (buf v) (startNs v) (nonce v) (consecutiveDropped v) x
    (lastTimestamp v) (clockRegressionsCount v) (connectPid v) (forkRecoveriesCount v) (closed v).
Definition set_lastTimestamp (x : Z) (v : Varta T) : Varta T :=
  mkVarta (transport v) (buf v) (startNs v) (nonce v) (consecutiveDropped v) (reconnectAfter v)
    x (clockRegressionsCount v) (connectPid v) (forkRecoveriesCount v) (closed v).
Definition set_clockRegressions (x : Z) (v : Varta T) : Varta T :=
  mkVarta (transport v) (buf v) (startNs v) (nonce v) (consecutiveDropped v) (reconnectAfter v)
    (lastTimestamp v) x (connectPid v) (forkRecoveriesCount v) (closed v).
Definition set_connectPid (x : Z) (v : Varta T) : Varta T :=
  mkVarta (transport v) (buf v) (startNs v) (nonce v) (consecutiveDropped v) (reconnectAfter v)
    (lastTimestamp v) (clockRegressionsCount v) x (forkRecoveriesCount v) (closed v).
Definition set_forkRecoveries (x : Z) (v : Varta T) : Varta T :=
  mkVarta (transport v) (buf v) (startNs v) (nonce v) (consecutiveDropped v) (reconnectAfter v)
    (lastTimestamp v) (clockRegressionsCount v) (connectPid v) x (closed v).
Definition set_closed (x : bool) (v : Varta T) : Varta T :=
  mkVarta (transport v) (buf v) (startNs v) (nonce v) (consecutiveDropped v) (reconnectAfter v)
    (lastTimestamp v) (clockRegressionsCount v) (connectPid v) (forkRecoveriesCount v) x.

(** [this.transport.m()]. *)
Definition on_transport {A} (m : method T A) : method (Varta T) A := fun vw =>
  let '(r, (t, w)) := m (transport vw.1, vw.2) in (r, (set_transport t vw.1, w)).

(** ** Construction *)

(** The private constructor, and [fromTransport]. *)
Definition newVarta (t : T) : M World (Varta T) :=
  b ← new_buffer (buf_alloc FRAME_BYTES);
  start ← monotonicNs;
  pid ← gets w_pid;
  mret (mkVarta t b start 0 0 (jint 0) 0 0 pid 0 false).

Definition fromTransport (t : T) : M World (Varta T) := newVarta t.

(** ** Sending one frame *)

Definition sendFrame : method (Varta T) BeatOutcome :=
  try_catch
    (b ← self buf; on_transport (bt_send b);; mret sent)
    (fun err => mret (classifySendError err)).

Definition commitSentFrame (n timestamp : Z) (wrapped : bool) : method (Varta T) unit :=
  assign (set_nonce n);;
  assign (set_lastTimestamp timestamp);;
  if wrapped then sys warnNonceWrapping else mret tt.

(** ** [beat] *)

(** [x > 0] and [z >= x] for a number field. *)
Definition num_positive (x : jsnum) : bool :=
  match x with JFin q => negb (Qle_bool q 0) | JInf neg => negb neg | JNaN => false end.
Definition at_least (z : Z) (x : jsnum) : bool :=
  match x with JFin q => Qle_bool q (inject_Z z) | JInf neg => neg | JNaN => false end.

(** What a beat starts with: fork recovery. [Some o] returns [o] from [beat]. *)
Definition recoverFork (pid : Z) : method (Varta T) (option BeatOutcome) :=
  known ← self connectPid;
  if pid =? known then mret None
  else
    r ← try_catch (on_transport bt_reconnect;; mret None)
          (fun err => mret (Some (failed (fromNodeError err))));
    match r with
    | Some o => mret (Some o)
    | None =>
        assign (set_connectPid pid);;
        forks ← self forkRecoveriesCount;
        assign (set_forkRecoveries (satAddBig forks 1));;
        assign (set_nonce 0);;
        now ← sys monotonicNs;
        assign (set_startNs now);;
        assign (set_lastTimestamp 0);;
        assign (set_consecutiveDropped 0);;
        mret None
    end.

(** The candidate timestamp: the elapsed time, clamped to 64 bits and to the last
    one, counting a regression of the clock. *)
Definition candidateTimestamp : method (Varta T) Z :=
  now ← sys monotonicNs;
  start ← self startNs;
  let rawElapsed := now - start in
  let rawElapsed := if rawElapsed <? 0 then 0 else rawElapsed in
  let rawElapsed := if U64_MAX <? rawElapsed then U64_MAX else rawElapsed in
  last ← self lastTimestamp;
  regressions ← self clockRegressionsCount;
  whenM (rawElapsed <? last) (assign (set_clockRegressions (satAddBig regressions 1)));;
  mret (if last <? rawElapsed then rawElapsed else last).

(** What a beat ends with: the send, and what each outcome does to the counters. *)
Definition emit (candidateNonce timestamp : Z) (wrappedNonce : bool) : method (Varta T) BeatOutcome :=
  outcome ← sendFrame;
  match outcome with
  | sent =>
      commitSentFrame candidateNonce timestamp wrappedNonce;;
      assign (set_consecutiveDropped 0);;
      mret outcome
  | dropped _ =>
      n ← self consecutiveDropped;
      let n := Z.min (n + 1) MAX_SAFE_INTEGER in
      assign (set_consecutiveDropped n);;
      after ← self reconnectAfter;
      if num_positive after && at_least n after then
        assign (set_consecutiveDropped 0);;
        reconnected ← try_catch (on_transport bt_reconnect;; mret true) (fun _ => mret false);
        if negb reconnected then mret outcome
        else
          retry ← sendFrame;
          (if isSent retry then commitSentFrame candidateNonce timestamp wrappedNonce else mret tt);;
          mret retry
      else mret outcome
  | failed _ =>
      assign (set_consecutiveDropped 0);;
      mret outcome
  end.

(** The candidates, the frame and its emission. *)
Definition attempt (statusValue : Status) (pid : Z) (payload : jsnum) : method (Varta T) BeatOutcome :=
  last ← self nonce;
  let wrappedNonce := negb (last <? NONCE_TERMINAL - 1) in
  let candidateNonce := if wrappedNonce then 0 else last + 1 in
  timestamp ← candidateTimestamp;
  b ← self buf;
  sys (on_buffer b (encodeInto (sl_status statusValue) (jint pid) timestamp candidateNonce payload));;
  emit candidateNonce timestamp wrappedNonce.

Definition beat (status : StatusLike) (payload : jsnum) : method (Varta T) BeatOutcome :=
  match coerceBeatStatus status with
  | None | Some Stall =>
      assign (set_consecutiveDropped 0);;
      mret (failed (newBeatError 0 "InvalidInput" None))
  | Some statusValue =>
      c ← self closed;
      if c : bool then
        assign (set_consecutiveDropped 0);;
        mret (failed (newBeatError 0 "Closed" None))
      else
        pid ← sys (gets w_pid);
        early ← recoverFork pid;
        match early with
        | Some o => mret o
        | None => attempt statusValue pid payload
        end
  end.

(** ** The other methods *)

Definition reconnect : method (Varta T) unit :=
  c ← self closed;
  if c : bool then
    assign (set_consecutiveDropped 0);;
    throw closedReconnectError
  else
    on_transport bt_reconnect;;
    pid ← sys (gets w_pid);
    assign (set_connectPid pid);;
    assign (set_consecutiveDropped 0).

(** [n && n > 0 ? Math.trunc(n) : 0], for [n : number | null]. *)
Definition setReconnectAfter (n : option jsnum) : method (Varta T) unit :=
  assign (set_reconnectAfter
    match n with
    | Some x =>
        if num_positive x
        then match x with JFin q => jint (q_trunc q) | x => x end
        else jint 0
    | None => jint 0
    end);;
  assign (set_consecutiveDropped 0).

Definition clockRegressions : method (Varta T) Z := self clockRegressionsCount.
Definition forkRecoveries : method (Varta T) Z := self forkRecoveriesCount.

Definition close : method (Varta T) unit :=
  c ← self closed;
  if c : bool then mret tt
  else
    assign (set_closed true);;
    assign (set_consecutiveDropped 0);;
    on_transport bt_close.

(** The test hooks. *)
Definition setConnectPidForTest (pid : jsnum) : method (Varta T) unit := assign (set_connectPid (to_uint32 pid)).
Definition setNonceForTest (x : Z) : method (Varta T) unit := assign (set_nonce x).

(** ** Specification *)

Context `{!BeatTransportLaws T}.

(** What the agent may do to the world: use the environment up, allocate, hand
    buffers over, and write to its own scratch buffer [b] only. *)
Record steps (b : nat) (w w' : World) : Prop := {
  st_pid : w_pid w' = w_pid w;
  st_clock : w_clock w' = w_clock w;
  st_random : w_random w' = w_random w;
  st_ticks : (w_ticks w <= w_ticks w')%nat;
  st_next : (w_next w <= w_next w')%nat;
  st_heap : forall l, (l < w_next w)%nat -> l <> b -> w_heap w' !! l = w_heap w !! l;
  st_kernel : w_kernel w' = w_kernel w;
}.

(** The transport is in order and the scratch buffer is the agent's own: 32 bytes,
    in nobody's outbox. *)
Record carrier_ok (t : T) (b : nat) (w : World) : Prop := {
  co_bt : bt_ok t w;
  co_alloc : (b < w_next w)%nat;
  co_len : length (contents w b) = 32%nat;
  co_own : ~ (b ∈ bt_outbox t w);
}.

(** The invariant of the agent. *)
Record agent_ok (v : Varta T) (w : World) : Prop := {
  ao_carrier : carrier_ok (transport v) (buf v) w;
  ao_nonce : 0 <= nonce v < NONCE_TERMINAL;
  ao_time : is_u64 (lastTimestamp v);
}.

(** Exactly one datagram is handed over between two states, in a buffer of its own,
    and the peer opens it to [frame]. *)
Definition delivers (t : T) (w : World) (t' : T) (w' : World) (frame : bytes) : Prop :=
  exists o, (w_next w <= o < w_next w')%nat /\ bt_outbox t' w' ≡ₚ o :: bt_outbox t w
  /\ bt_open t (contents w' o) = Ret frame.

(** The nonce after [n], and the elapsed time since [start] in 64 bits. *)
Definition next_nonce (n : Z) : Z := (n + 1) mod NONCE_TERMINAL.
Definition elapsed (start now : Z) : Z := Z.max 0 (Z.min U64_MAX (now - start)).

(** ** Lemmas *)

#[export] Instance steps_preorder b : PreOrder (steps b).
Proof.
  split.
  - intros w. by constructor.
  - intros w1 w2 w3 [? ? ? ? ? Hh1 ?] [? ? ? ? ? Hh2 ?]. constructor; try congruence; try lia.
    intros l Hl Hb. rewrite Hh2 by (done || lia). by apply Hh1.
Qed.

Lemma evolves_steps b w w' : evolves w w' -> steps b w w'.
Proof.
  intros [? ? ? ? ? ? ? ? Hh ? ? ?]. constructor; try done; [lia|]. intros l Hl _. by apply Hh.
Qed.

Lemma steps_contents b w w' l :
  steps b w w' -> (l < w_next w)%nat -> l <> b -> contents w' l = contents w l.
Proof. intros Hs Hl Hb. unfold contents. by rewrite (st_heap _ _ _ Hs). Qed.

Lemma satAddBig_spec a b : 0 <= a -> 0 <= b -> satAddBig a b = Z.min (a + b) U64_MAX.
Proof. intros. unfold satAddBig. case_match; boolify; lia. Qed.

Lemma candidate_next_nonce n :
  0 <= n < NONCE_TERMINAL ->
  (if negb (n <? NONCE_TERMINAL - 1) then 0 else n + 1) = next_nonce n
  /\ 0 <= next_nonce n < NONCE_TERMINAL /\ is_u64 (next_nonce n).
Proof.
  intros Hn. unfold next_nonce. assert (0 < NONCE_TERMINAL) as Hp by done.
  pose proof (Z.mod_pos_bound (n + 1) _ Hp) as Hb. split; [|split; [done|]].
  - destruct (Z.ltb_spec n (NONCE_TERMINAL - 1)); cbn [negb].
    + rewrite Z.mod_small; lia.
    + replace (n + 1) with NONCE_TERMINAL by lia. by rewrite Z.mod_same by lia.
  - unfold is_u64, NONCE_TERMINAL in *. lia.
Qed.

Lemma classify_not_sent e : classifySendError e <> sent.
Proof. rewrite classify_bucket. by destruct (bucket e). Qed.

Lemma coerce_agrees st s :
  coerceBeatStatus st = Some s <-> coerceStatus st = Ret (OwnStatus s).
Proof.
  destruct st as [n|str]; unfold coerceBeatStatus, coerceStatus, STATUS_BY_NAME.
  - repeat case_match; split; congruence.
  - repeat case_decide; try (split; congruence).
Qed.

(** The transport's laws, on a carrier. *)
Lemma carrier_send t b w :
  carrier_ok t b w ->
  exists r t' w', bt_send b (t, w) = (r, (t', w')) /\ carrier_ok t' b w' /\ evolves w w'
  /\ bt_open t' = bt_open t /\ contents w' b = contents w b
  /\ match r with
     | Ret _ => delivers t w t' w' (contents w b)
     | Throw _ => bt_outbox t' w' = bt_outbox t w
     end.
Proof.
  intros [Hbt Hb Hlen Hown].
  destruct (send_spec t w b Hbt Hb Hlen) as (r & t' & w' & Hrun & Hok & Hev & Hop & Hr).
  exists r, t', w'. pose proof (evolves_contents _ _ _ Hev Hb) as Hc.
  split_and!; try done. constructor; [done| |congruence|].
  - pose proof (ev_next _ _ Hev). lia.
  - destruct r as [u|e]; [|by rewrite Hr]. destruct Hr as (o & Ho & Hp & _).
    rewrite Hp. intros [->|Hin]%elem_of_cons; [lia|done].
Qed.

Lemma carrier_reconnect t b w :
  carrier_ok t b w ->
  exists r t' w', bt_reconnect (t, w) = (r, (t', w')) /\ carrier_ok t' b w' /\ evolves w w'
  /\ bt_open t' = bt_open t /\ contents w' b = contents w b /\ bt_outbox t' w' = bt_outbox t w
  /\ match r with Ret _ => True | Throw _ => t' = t end.
Proof.
  intros [Hbt Hb Hlen Hown].
  destruct (reconnect_spec t w Hbt) as (r & t' & w' & Hrun & Hok & Hev & Hop & Ho & Hr).
  exists r, t', w'. pose proof (evolves_contents _ _ _ Hev Hb) as Hc.
  split_and!; try done. constructor; [done| |congruence|by rewrite Ho].
  pose proof (ev_next _ _ Hev). lia.
Qed.

Lemma sendFrame_run v w :
  carrier_ok (transport v) (buf v) w ->
  exists o t' w', sendFrame (v, w) = (Ret o, (set_transport t' v, w'))
  /\ carrier_ok t' (buf v) w' /\ evolves w w' /\ bt_open t' = bt_open (transport v)
  /\ contents w' (buf v) = contents w (buf v)
  /\ match o with
     | sent => delivers (transport v) w t' w' (contents w (buf v))
     | _ => bt_outbox t' w' = bt_outbox (transport v) w
     end.
Proof.
  intros Hc. destruct (carrier_send _ _ _ Hc) as (r & t' & w' & Hrun & Hc' & Hev & Hop & Hcon & Hr).
  unfold sendFrame, self, on_transport. unfold_m. cbn. rewrite Hrun. destruct r as [[]|e].
  - eexists _, _, _. split; [reflexivity|]. done.
  - eexists _, _, _. split; [reflexivity|]. split_and!; try done.
    pose proof (classify_not_sent e). by destruct (classifySendError e).
Qed.

Lemma recoverFork_run v w pid :
  carrier_ok (transport v) (buf v) w ->
  (pid = connectPid v /\ recoverFork pid (v, w) = (Ret None, (v, w)))
  \/ (pid <> connectPid v /\ exists e w',
       bt_reconnect (transport v, w) = (Throw e, (transport v, w'))
       /\ recoverFork pid (v, w) = (Ret (Some (failed (fromNodeError e))), (v, w'))
       /\ carrier_ok (transport v) (buf v) w' /\ evolves w w'
       /\ bt_outbox (transport v) w' = bt_outbox (transport v) w)
  \/ (pid <> connectPid v /\ exists t' w1,
       bt_reconnect (transport v, w) = (Ret tt, (t', w1))
       /\ let w' := (hrtime w1).2 in
       recoverFork pid (v, w) = (Ret None,
         (mkVarta t' (buf v) (w_clock w (w_ticks w)) 0 0 (reconnectAfter v) 0
            (clockRegressionsCount v) pid (satAddBig (forkRecoveriesCount v) 1) (closed v), w'))
       /\ carrier_ok t' (buf v) w' /\ steps (buf v) w w' /\ w_ticks w' = S (w_ticks w)
       /\ bt_open t' = bt_open (transport v) /\ bt_outbox t' w' = bt_outbox (transport v) w).
Proof.
  intros Hc. unfold recoverFork, self, assign, sys, on_transport. unfold_m. cbn.
  destruct (Z.eqb_spec pid (connectPid v)) as [->|Hne]; [by left|right].
  destruct (carrier_reconnect _ _ _ Hc) as (r & t' & w' & Hrun & Hc' & Hev & Hop & Hcon & Ho & Hr).
  destruct r as [[]|e]; [right|left]; (split; [done|]).
  - exists t', w'. split; [done|]. unfold monotonicNs, hrtime. cbn. rewrite Hrun.
    rewrite <- (ev_clock _ _ Hev), <- (ev_ticks _ _ Hev).
    split; [done|]. destruct Hc' as [Hbt Hb Hl Hown]. split; [by constructor|].
    split; [|by split_and!]. destruct (evolves_steps (buf v) _ _ Hev). constructor; cbn; try done. lia.
  - subst t'. exists e, w'. split; [done|]. cbn. rewrite Hrun. split; [by destruct v|]. done.
Qed.

Lemma clamp_eq x start :
  (if U64_MAX <? (if x - start <? 0 then 0 else x - start) then U64_MAX
   else if x - start <? 0 then 0 else x - start) = elapsed start x.
Proof. unfold elapsed, U64_MAX. repeat case_match; boolify; lia. Qed.

Lemma candidateTimestamp_run v w :
  let now := w_clock w (w_ticks w) in
  let raw := elapsed (startNs v) now in
  candidateTimestamp (v, w) =
  (Ret (Z.max (lastTimestamp v) raw),
   (if raw <? lastTimestamp v
    then set_clockRegressions (satAddBig (clockRegressionsCount v) 1) v else v, (hrtime w).2)).
Proof.
  intros now raw. unfold candidateTimestamp, monotonicNs, self, assign, sys. unfold_m. cbn.
  change (hrtime w) with (Ret now, (hrtime w).2). cbn. rewrite clamp_eq. fold raw.
  destruct (Z.ltb_spec raw (lastTimestamp v)); cbn; do 2 f_equal; case_match; boolify; lia.
Qed.

Lemma carrier_quiet t b w w' : quiet w w' -> carrier_ok t b w -> carrier_ok t b w'.
Proof.
  intros Hq [(Hw & Hi & Ha) Hb Hl Ho]. pose proof (qu_evolves _ _ Hq) as Hev. constructor.
  - split_and!; [by eapply quiet_world_ok|done|]. unfold bt_outbox in *.
    rewrite (quiet_outbox _ _ _ Hq). by eapply evolves_allocated.
  - by rewrite (qu_next _ _ Hq).
  - by rewrite (evolves_contents _ _ _ Hev Hb).
  - unfold bt_outbox in *. by rewrite (quiet_outbox _ _ _ Hq).
Qed.

Lemma delivers_after t w t' w' w2 frame :
  delivers t w t' w' frame -> quiet w' w2 -> delivers t w t' w2 frame.
Proof.
  intros (o & Ho & Hp & Hop) Hq. exists o. unfold bt_outbox in *. rewrite (quiet_outbox _ _ _ Hq).
  rewrite (qu_next _ _ Hq), (evolves_contents _ _ _ (qu_evolves _ _ Hq)) by lia. done.
Qed.

Lemma delivers_before t w t1 w1 t' w' frame :
  bt_outbox t1 w1 = bt_outbox t w -> bt_open t1 = bt_open t -> (w_next w <= w_next w1)%nat ->
  delivers t1 w1 t' w' frame -> delivers t w t' w' frame.
Proof.
  intros Ho Hop Hn (o & Ho' & Hp & Hopen). exists o. rewrite <- Ho, <- Hop. split_and!; try done; lia.
Qed.

Lemma warn_run w :
  exists w', warnNonceWrapping w = (Ret tt, w') /\ quiet w w'.
Proof.
  unfold warnNonceWrapping. unfold_m. destruct (w_nonce_warned w); [by exists w|].
  pose proof (quiet_set_nonce_warned w) as Hq1. unfold set_nonce_warned, modify in *. cbn in Hq1.
  match goal with |- context [stderr_write ?m ?w1] =>
    pose proof (quiet_stderr_write m w1) as Hq2; destruct (stderr_write m w1) as [[[]|e] w2] end;
    (eexists; split; [reflexivity|]; by etrans).
Qed.

#[local] Arguments warnNonceWrapping : simpl never.
#[local] Arguments Z.min : simpl never.
#[local] Arguments MAX_SAFE_INTEGER : simpl never.

Lemma commit_run v w n ts wr :
  exists w', commitSentFrame n ts wr (v, w) = (Ret tt, (set_lastTimestamp ts (set_nonce n v), w'))
  /\ quiet w w'.
Proof.
  unfold commitSentFrame, assign, sys. unfold_m. destruct wr; cbn; [|by exists w].
  destruct (warn_run w) as (w' & -> & Hq). by exists w'.
Qed.

(** The agent's fields after an attempt. *)
Definition attempted (v : Varta T) (t : T) (n ts d : Z) : Varta T :=
  mkVarta t (buf v) (startNs v) n d (reconnectAfter v) ts (clockRegressionsCount v)
    (connectPid v) (forkRecoveriesCount v) (closed v).

(** The window of consecutive drops is full. *)
Definition window_full (v : Varta T) : bool :=
  num_positive (reconnectAfter v)
  && at_least (Z.min (consecutiveDropped v + 1) MAX_SAFE_INTEGER) (reconnectAfter v).

Lemma emit_run v w n ts wr :
  carrier_ok (transport v) (buf v) w ->
  exists o t' d w',
    emit n ts wr (v, w) =
      (Ret o, (attempted v t' (if isSent o then n else nonce v)
                 (if isSent o then ts else lastTimestamp v) d, w'))
    /\ carrier_ok t' (buf v) w' /\ evolves w w' /\ bt_open t' = bt_open (transport v)
    /\ match o with
       | sent => delivers (transport v) w t' w' (contents w (buf v))
       | _ => bt_outbox t' w' = bt_outbox (transport v) w
       end
    /\ d = (if isDropped o && negb (window_full v)
           then Z.min (consecutiveDropped v + 1) MAX_SAFE_INTEGER else 0).
Proof.
  intros Hc. unfold emit, self, assign. unfold_m.
  destruct (sendFrame_run v w Hc) as (o1 & t1 & w1 & -> & Hc1 & Hev1 & Hop1 & Hcon1 & Ho1).
  destruct o1 as [|reason|err].
  - destruct (commit_run (set_transport t1 v) w1 n ts wr) as (w2 & -> & Hq). cbn.
    exists sent, t1, 0, w2. split; [done|]. split; [by eapply carrier_quiet|].
    split; [etrans; [done|apply Hq]|]. split; [done|]. split; [by eapply delivers_after|done].
  - cbn. fold (window_full v). destruct (window_full v) eqn:Hwin.
    + unfold on_transport. cbn.
      destruct (carrier_reconnect _ _ _ Hc1) as (r & t2 & w2 & -> & Hc2 & Hev2 & Hop2 & Hcon2 & Ho2 & Hr).
      destruct r as [[]|e]; cbn.
      * destruct (sendFrame_run (set_transport t2 (set_consecutiveDropped 0 (set_consecutiveDropped
          (Z.min (consecutiveDropped v + 1) MAX_SAFE_INTEGER) (set_transport t1 v)))) w2 Hc2)
          as (o3 & t3 & w3 & -> & Hc3 & Hev3 & Hop3 & Hcon3 & Ho3). cbn in *.
        assert (evolves w w3) as Hev by (by etrans; [|etrans]).
        rewrite Hcon2, Hcon1 in Ho3. rewrite Hop2, Hop1 in Hop3. rewrite Ho1 in Ho2.
        pose proof (ev_next _ _ Hev1). pose proof (ev_next _ _ Hev2). destruct o3 as [|reason3|err3]; cbn.
        -- destruct (commit_run (set_transport t3 (set_transport t2 (set_consecutiveDropped 0
             (set_consecutiveDropped (Z.min (consecutiveDropped v + 1) MAX_SAFE_INTEGER)
             (set_transport t1 v))))) w3 n ts wr) as (w4 & -> & Hq). cbn.
           eexists sent, t3, 0, w4. split; [done|]. split; [by eapply carrier_quiet|].
           split; [etrans; [done|apply Hq]|]. split; [done|]. split; [|done].
           eapply delivers_before; [exact Ho2|congruence|lia|]. by eapply delivers_after.
        -- exists (dropped reason3), t3, 0, w3. split; [done|]. split_and!; try done; congruence.
        -- exists (failed err3), t3, 0, w3. split; [done|]. split_and!; try done; congruence.
      * subst t2. exists (dropped reason), t1, 0, w2. split; [done|]. split_and!; try done; by etrans || congruence.
    + exists (dropped reason), t1, (Z.min (consecutiveDropped v + 1) MAX_SAFE_INTEGER), w1. split; [done|]. split_and!; done.
  - cbn. exists (failed err), t1, 0, w1. split; [done|]. split_and!; done.
Qed.

Lemma on_buffer_encode v w s pid ts n payload :
  carrier_ok (transport v) (buf v) w -> is_u64 ts -> is_u64 n ->
  let frame := wire_of (mkFrame s (to_uint32 (jint pid)) ts n (to_uint32 payload)) in
  on_buffer (buf v) (encodeInto (sl_status s) (jint pid) ts n payload) w
    = (Ret tt, set_contents (buf v) frame w)
  /\ carrier_ok (transport v) (buf v) (set_contents (buf v) frame w)
  /\ contents (set_contents (buf v) frame w) (buf v) = frame
  /\ steps (buf v) w (set_contents (buf v) frame w)
  /\ bt_outbox (transport v) (set_contents (buf v) frame w) = bt_outbox (transport v) w.
Proof.
  intros [(Hw & Hi & Ha) Hb Hl Ho] Ht Hn frame.
  assert (contents (set_contents (buf v) frame w) (buf v) = frame) as Hc
    by (unfold contents; cbn; by rewrite lookup_insert_eq).
  split_and!; try done.
  - assert (FRAME_BYTES <= length (contents w (buf v)))%nat as Hlen by (rewrite Hl; done).
    unfold on_buffer. rewrite (encodeInto_layout _ _ _ _ _ _ _ Hlen (coerceStatus_status s) Ht Hn).
    rewrite drop_ge, app_nil_r, status_byte_own by (rewrite Hl; done). done.
  - constructor; [|done|by rewrite Hc; apply length_frame_wire|done].
    split_and!; [by apply set_contents_world_ok|done..].
  - constructor; cbn; try done. intros l _ Hne. by rewrite lookup_insert_ne.
Qed.

Lemma tick_carrier t b w : carrier_ok t b w -> carrier_ok t b (hrtime w).2 /\ steps b w (hrtime w).2.
Proof. intros [? ? ? ?]. unfold hrtime. split; constructor; cbn; done || lia. Qed.

Lemma attempt_run v w s pid payload :
  agent_ok v w ->
  let raw := elapsed (startNs v) (w_clock w (w_ticks w)) in
  let ts := Z.max (lastTimestamp v) raw in
  let n := next_nonce (nonce v) in
  exists o t' d w',
    attempt s pid payload (v, w) =
      (Ret o, (mkVarta t' (buf v) (startNs v) (if isSent o then n else nonce v) d (reconnectAfter v)
                 (if isSent o then ts else lastTimestamp v)
                 (if raw <? lastTimestamp v then satAddBig (clockRegressionsCount v) 1
                  else clockRegressionsCount v)
                 (connectPid v) (forkRecoveriesCount v) (closed v), w'))
    /\ carrier_ok t' (buf v) w' /\ steps (buf v) w w' /\ w_ticks w' = S (w_ticks w)
    /\ bt_open t' = bt_open (transport v)
    /\ match o with
       | sent => delivers (transport v) w t' w'
           (wire_of (mkFrame s (to_uint32 (jint pid)) ts n (to_uint32 payload)))
       | _ => bt_outbox t' w' = bt_outbox (transport v) w
       end
    /\ d = (if isDropped o && negb (window_full v)
           then Z.min (consecutiveDropped v + 1) MAX_SAFE_INTEGER else 0).
Proof.
  intros [Hc Hn Ht] raw ts n. unfold attempt, self, sys. unfold_m.
  destruct (candidate_next_nonce (nonce v) Hn) as (Hcand & Hnr & Hnu). fold n in Hcand, Hnr, Hnu.
  assert (is_u64 ts) as Hts.
  { unfold ts, raw, elapsed, is_u64, U64_MAX in *. lia. }
  rewrite candidateTimestamp_run. fold raw. fold ts. cbn [fst snd]. rewrite Hcand.
  set (v1 := if raw <? lastTimestamp v then _ else v).
  assert (transport v1 = transport v /\ buf v1 = buf v) as [Htr Hbf] by (unfold v1; by destruct (raw <? lastTimestamp v)).
  destruct (tick_carrier _ _ _ Hc) as [Hc1 Hst1]. set (w1 := (hrtime w).2) in *.
  rewrite <- Htr, <- Hbf in Hc1.
  destruct (on_buffer_encode v1 w1 s pid ts n payload Hc1 Hts Hnu) as (Henc & Hc2 & Hcon & Hst2 & Ho2).
  rewrite Henc. cbn [fst snd]. set (w2 := set_contents _ _ _) in *.
  destruct (emit_run v1 w2 n ts (negb (nonce v <? NONCE_TERMINAL - 1)) Hc2)
    as (o & t' & d & w' & -> & Hc' & Hev & Hop & Hout & Hd).
  exists o, t', d, w'. rewrite Hbf in *. split; [|split; [done|split; [|split; [|split; [|split]]]]].
  - unfold attempted, v1. by destruct (raw <? lastTimestamp v).
  - etrans; [exact Hst1|]. etrans; [exact Hst2|]. by apply evolves_steps.
  - by rewrite (ev_ticks _ _ Hev).
  - by rewrite Hop, Htr.
  - assert (bt_outbox (transport v1) w2 = bt_outbox (transport v) w) as Ho by (by rewrite Ho2, Htr).
    destruct o; [|congruence..]. rewrite Hcon in Hout.
    eapply delivers_before; [exact Ho|by rewrite Htr| |exact Hout]. cbn. done.
  - unfold v1, window_full in *. by destruct (raw <? lastTimestamp v).
Qed.

(** A beat whose status is one the agent may send, on an open agent. *)
Lemma beat_unfold st s payload v w :
  coerceBeatStatus st = Some s -> s <> Stall -> closed v = false ->
  beat st payload (v, w) =
  match recoverFork (w_pid w) (v, w) with
  | (Ret None, (v1, w1)) => attempt s (w_pid w) payload (v1, w1)
  | (Ret (Some o), vw) => (Ret o, vw)
  | (Throw e, vw) => (Throw e, vw)
  end.
Proof.
  intros Hst Hs Hcl. unfold beat, self, sys. rewrite Hst. unfold_m.
  destruct s; [..|done]; cbn; rewrite Hcl; cbn;
    by destruct (recoverFork (w_pid w) (v, w)) as [[[o|]|e] [v1 w1]].
Qed.

Lemma decode_beat s pid ts n payload :
  s <> Stall -> 2 <= to_uint32 (jint pid) -> is_u64 ts -> ts <> TIMESTAMP_INVALID ->
  0 <= n < NONCE_TERMINAL ->
  let f := mkFrame s (to_uint32 (jint pid)) ts n (to_uint32 payload) in decode (wire_of f) = inr f.
Proof.
  intros Hs Hp Ht Hti Hn f. apply decode_wire_of. unfold valid_frame, f.
  cbn [fr_status fr_pid fr_timestamp fr_nonce fr_payload].
  split_and!; try done; try apply to_uint32_range; unfold is_u64, NONCE_TERMINAL in *; [lia|].
  intros Heq. lia.
Qed.

(** The state a beat leaves satisfies the invariant again. *)
Lemma attempted_ok v w t' w' d x n raw (b : bool) :
  agent_ok v w -> carrier_ok t' (buf v) w' -> 0 <= raw <= U64_MAX -> n = next_nonce (nonce v) ->
  agent_ok (mkVarta t' (buf v) (startNs v) (if b then n else nonce v) d (reconnectAfter v)
              (if b then Z.max (lastTimestamp v) raw else lastTimestamp v) x
              (connectPid v) (forkRecoveriesCount v) (closed v)) w'.
Proof.
  intros [_ Hn Ht] Hc Hr ->. destruct (candidate_next_nonce (nonce v) Hn) as (_ & Hn' & _).
  constructor; cbn; [done|by destruct b|]. destruct b; [|done]. unfold is_u64, U64_MAX in *. lia.
Qed.

Lemma elapsed_range start now : 0 <= elapsed start now <= U64_MAX.
Proof. unfold elapsed, U64_MAX. lia. Qed.

(** ** Properties *)

(** C2. Commit on success. A beat of an open agent whose pid has not changed always
    returns. If the transport accepts the frame, exactly one datagram is handed over;
    the peer opens it to the 32-byte frame with the given status and payload, the
    current pid, the nonce after the last committed one and the elapsed time, never
    less than the last committed one; these two become the committed ones. If the
    transport drops or rejects it, nothing is handed over and nonce and timestamp stay
    as they were, so no number is burned. A frame sent with a pid of at least 2
    before the clock saturates is accepted by [decode], with exactly these fields. *)
Theorem beat_commits_on_success (v : Varta T) (w : World) (st : StatusLike) (s : Status)
    (payload : jsnum) :
  agent_ok v w -> closed v = false -> coerceBeatStatus st = Some s -> s <> Stall ->
  w_pid w = connectPid v ->
  let ts := Z.max (lastTimestamp v) (elapsed (startNs v) (w_clock w (w_ticks w))) in
  let f := mkFrame s (to_uint32 (jint (w_pid w))) ts ((nonce v + 1) mod NONCE_TERMINAL)
             (to_uint32 payload) in
  exists o v' w', beat st payload (v, w) = (Ret o, (v', w')) /\ agent_ok v' w'
  /\ match o with
     | sent => delivers (transport v) w (transport v') w' (wire_of f)
         /\ nonce v' = fr_nonce f /\ lastTimestamp v' = fr_timestamp f
     | _ => bt_outbox (transport v') w' = bt_outbox (transport v) w
         /\ nonce v' = nonce v /\ lastTimestamp v' = lastTimestamp v
     end
  /\ (2 <= fr_pid f -> ts <> TIMESTAMP_INVALID -> decode (wire_of f) = inr f).
Proof.
  intros Hok Hcl Hst Hs Hpid ts f. rewrite (beat_unfold st s) by done.
  destruct (recoverFork_run v w (w_pid w) (ao_carrier _ _ Hok)) as [[_ ->]|[[Hne _]|[Hne _]]]; [|done..].
  destruct (attempt_run v w s (w_pid w) payload Hok) as (o & t' & d & w' & -> & Hc & Hst' & _ & _ & Ho & _).
  eexists o, _, w'. split; [done|]. split.
  - eapply attempted_ok; [exact Hok|done|apply elapsed_range|done].
  - split; [by destruct o|]. intros Hp Hti. apply decode_beat; try done.
    + pose proof (elapsed_range (startNs v) (w_clock w (w_ticks w))).
      pose proof (ao_time _ _ Hok). unfold is_u64, U64_MAX in *. unfold ts. lia.
    + apply candidate_next_nonce, Hok.
Qed.

(** C16. Fork recovery. When the pid is not the one the agent connected under, a beat
    reconnects the transport before it encodes anything. If that throws, the beat
    fails with that error, no frame is handed over and no field of the agent changes, so
    the next beat tries again. If it returns, the agent restarts under the new pid: the
    session's clock starts at a fresh reading, the first frame has nonce 1, at most one
    datagram is handed over and it carries the child's pid; the recovery counter is one
    higher (saturating at 2^64 - 1). *)
Theorem beat_recovers_fork (v : Varta T) (w : World) (st : StatusLike) (s : Status) (payload : jsnum) :
  agent_ok v w -> closed v = false -> coerceBeatStatus st = Some s -> s <> Stall ->
  w_pid w <> connectPid v ->
  exists o v' w', beat st payload (v, w) = (Ret o, (v', w')) /\ agent_ok v' w'
  /\ match bt_reconnect (transport v, w) with
     | (Throw e, _) =>
         o = failed (fromNodeError e) /\ v' = v
         /\ bt_outbox (transport v) w' = bt_outbox (transport v) w
     | (Ret _, (t1, w1)) =>
         let start := w_clock w (w_ticks w) in
         let ts := elapsed start (w_clock w (S (w_ticks w))) in
         connectPid v' = w_pid w /\ startNs v' = start
         /\ forkRecoveriesCount v' = satAddBig (forkRecoveriesCount v) 1
         /\ match o with
            | sent => delivers (transport v) w (transport v') w'
                  (wire_of (mkFrame s (to_uint32 (jint (w_pid w))) ts 1 (to_uint32 payload)))
                /\ nonce v' = 1 /\ lastTimestamp v' = ts
            | _ => bt_outbox (transport v') w' = bt_outbox (transport v) w
                /\ nonce v' = 0 /\ lastTimestamp v' = 0
            end
     end.
Proof.
  intros Hok Hcl Hst Hs Hpid. rewrite (beat_unfold st s) by done.
  destruct (recoverFork_run v w (w_pid w) (ao_carrier _ _ Hok))
    as [[? _]|[(_ & e & w1 & -> & -> & Hc & _ & Ho)|(_ & t1 & w1 & -> & Hrun & Hc & Hstep & Htk & Hop & Ho)]];
    [done|..].
  - eexists _, v, w1. split; [done|]. split; [|done]. by constructor; [|apply Hok..].
  - rewrite Hrun. set (w2 := (hrtime w1).2) in *. set (v1 := mkVarta _ _ _ _ _ _ _ _ _ _ _).
    assert (agent_ok v1 w2) as Hok1 by (constructor; cbn; [done|done|split; lia]).
    destruct (attempt_run v1 w2 s (w_pid w) payload Hok1) as (o & t' & d & w' & -> & Hc' & Hst' & _ & _ & Ho' & _).
    eexists o, _, w'. split; [done|].
    pose proof (elapsed_range (startNs v1) (w_clock w2 (w_ticks w2))) as Hel.
    split; [by eapply attempted_ok|]. cbn. split_and!; [done..|].
    assert (forall x, 0 <= x -> Z.max 0 x = x) as Hmax by lia.
    rewrite Htk, (st_clock _ _ _ Hstep) in *. cbn in Hel. rewrite Hmax in * by lia.
    destruct o; cbn in *; [|rewrite Ho'; done..]. rewrite Hmax in Ho' by lia. split_and!; try done.
    eapply delivers_before; [exact Ho|exact Hop|apply Hstep|exact Ho'].
Qed.

(** A beat that cannot be sent is refused before anything happens: an unknown
    status name or number and [Stall] give [InvalidInput], any other beat on a closed
    agent gives [Closed]; transport, world, clock and counters are untouched but for the
    run of drops, which restarts. In particular no beat ever puts [Stall] on the wire. *)
Theorem beat_refusals (v : Varta T) (w : World) (st : StatusLike) (payload : jsnum) :
  (coerceBeatStatus st = None \/ coerceBeatStatus st = Some Stall ->
   beat st payload (v, w) =
     (Ret (failed (newBeatError 0 "InvalidInput" None)), (set_consecutiveDropped 0 v, w)))
  /\ (forall s, coerceBeatStatus st = Some s -> s <> Stall -> closed v = true ->
      beat st payload (v, w) =
        (Ret (failed (newBeatError 0 "Closed" None)), (set_consecutiveDropped 0 v, w))).
Proof.
  split.
  - intros Hst. unfold beat. by destruct Hst as [-> | ->].
  - intros s Hst Hs Hcl. unfold beat, self, assign. rewrite Hst. unfold_m.
    destruct s; [..|done]; cbn; by rewrite Hcl.
Qed.

(** The agent and the codec agree on statuses: [coerceBeatStatus] recognises
    exactly the names (in any case) and numbers that [coerceStatus] resolves to a status
    of the enum; the members of [Object.prototype] that [coerceStatus] lets through are
    not among them. *)
Theorem beat_status_agrees (st : StatusLike) (s : Status) :
  coerceBeatStatus st = Some s <-> coerceStatus st = Ret (OwnStatus s).
Proof. apply coerce_agrees. Qed.

(** Closing is final and idempotent: the first [close] never throws, closes the
    transport once and clears the run of drops; a second one does nothing; [reconnect]
    then throws [EBADF] (errno 9) and [beat] refuses, both without touching the
    transport. *)
Theorem close_is_final (v : Varta T) (w : World) :
  closed v = false ->
  exists w', close (v, w) = (Ret tt, (set_consecutiveDropped 0 (set_closed true v), w'))
  /\ evolves w w' /\ w_inflight w' = w_inflight w
  /\ let v' := set_consecutiveDropped 0 (set_closed true v) in
     close (v', w') = (Ret tt, (v', w'))
     /\ reconnect (v', w') = (Throw closedReconnectError, (v', w'))
     /\ exn_code closedReconnectError = Some "EBADF"%string /\ exn_errno closedReconnectError = Some 9
     /\ forall st payload, exists e, beat st payload (v', w') = (Ret (failed e), (v', w')).
Proof.
  intros Hcl. destruct (close_spec (transport v) w) as (w' & Hrun & Hev & Hi & _).
  exists w'. unfold close, reconnect, self, assign, on_transport. unfold_m. cbn. rewrite Hcl. cbn.
  rewrite Hrun. split_and!; try done. intros st payload.
  unfold beat, self, assign. unfold_m. cbn. destruct (coerceBeatStatus st) as [[]|]; eauto.
Qed.

(** ** A session of an agent

    Calls in any order, the transport's callbacks and the rest of the program
    interleaved ([ar_env]: the transport and the world may change in any way that keeps
    the carrier in order, the pid and the clock), forks of the process included. The
    index lists what the peer opens the datagrams of the current session to, oldest first;
    a session starts with the agent and with each fork recovery. *)
Inductive agent_run : Varta T -> World -> list bytes -> Prop :=
| ar_new t w0 v w :
    bt_ok t w0 -> newVarta t w0 = (Ret v, w) -> agent_run v w []
| ar_sent v w fs st payload v' w' frame :
    agent_run v w fs -> beat st payload (v, w) = (Ret sent, (v', w')) ->
    delivers (transport v) w (transport v') w' frame ->
    agent_run v' w' (if w_pid w =? connectPid v then fs ++ [frame] else [frame])
| ar_unsent v w fs st payload o v' w' :
    agent_run v w fs -> beat st payload (v, w) = (Ret o, (v', w')) -> o <> sent ->
    agent_run v' w' (if connectPid v' =? connectPid v then fs else [])
| ar_reconnect v w fs r v' w' :
    agent_run v w fs -> reconnect (v, w) = (r, (v', w')) -> agent_run v' w' fs
| ar_after v w fs n r v' w' :
    agent_run v w fs -> setReconnectAfter n (v, w) = (r, (v', w')) -> agent_run v' w' fs
| ar_close v w fs r v' w' :
    agent_run v w fs -> close (v, w) = (r, (v', w')) -> agent_run v' w' fs
| ar_fork v w fs pid : agent_run v w fs -> agent_run v (with_pid pid w) fs
| ar_env v w fs t' w' :
    agent_run v w fs -> carrier_ok t' (buf v) w' -> agent_run (set_transport t' v) w' fs.

(** The frames of a session: numbered from 1 without a gap, in nondecreasing time, and
    each with property [P]. *)
Definition numbered_by (P : Frame -> Prop) (fs : list bytes) (n last : Z) : Prop :=
  exists frames, fs = map wire_of frames
  /\ (forall i f, frames !! i = Some f -> fr_nonce f = Z.of_nat (S i) mod NONCE_TERMINAL
       /\ 0 <= fr_timestamp f <= last /\ P f)
  /\ (forall i f g, frames !! i = Some f -> frames !! S i = Some g -> fr_timestamp f <= fr_timestamp g)
  /\ n = Z.of_nat (length frames) mod NONCE_TERMINAL.

Definition numbered : list bytes -> Z -> Z -> Prop := numbered_by (fun _ => True).

Lemma numbered_nil P n last : n = 0 -> numbered_by P [] n last.
Proof. intros ->. exists []. split_and!; try done. Qed.

Lemma numbered_snoc P fs n last f :
  numbered_by P fs n last -> fr_nonce f = (n + 1) mod NONCE_TERMINAL -> 0 <= fr_timestamp f ->
  last <= fr_timestamp f -> P f ->
  numbered_by P (fs ++ [wire_of f]) (fr_nonce f) (fr_timestamp f).
Proof.
  intros (frames & -> & Hn & Ht & ->) Hf Hpos Hl HP. rewrite Zplus_mod_idemp_l in Hf.
  exists (frames ++ [f]). rewrite map_app, length_app. cbn. split_and!.
  - done.
  - intros i g [Hi|[Hi Hg]]%lookup_app_Some.
    + destruct (Hn i g Hi) as (? & ? & ?). split_and!; try done; lia.
    + destruct (i - length frames)%nat eqn:Hz; [|done]. injection Hg as <-.
      replace i with (length frames) by lia. split_and!; try done; lia.
  - intros i g h [Hi|[Hi Hg]]%lookup_app_Some.
    + intros [Hj|[Hj Hh]]%lookup_app_Some; [by eapply Ht|].
      destruct (S i - length frames)%nat; [|done]. injection Hh as <-.
      destruct (Hn i g Hi) as (? & ? & ?). lia.
    + intros [Hj%lookup_lt_Some|[Hj Hh]]%lookup_app_Some; [lia|].
      destruct (S i - length frames)%nat eqn:Hz; [|done]. lia.
  - rewrite Hf. f_equal. lia.
Qed.

Lemma delivers_unique t w t' w' f g : delivers t w t' w' f -> delivers t w t' w' g -> f = g.
Proof.
  intros (o & _ & Hp & Hf) (o' & _ & Hp' & Hg). rewrite Hp in Hp'.
  apply (Permutation_app_inv_r (bt_outbox t w) [o] [o']) in Hp'.
  apply Permutation_singleton_inj in Hp' as ->. congruence.
Qed.

Lemma new_agent_ok t w0 v w : bt_ok t w0 -> newVarta t w0 = (Ret v, w) -> agent_ok v w /\ nonce v = 0.
Proof.
  intros (Hw & Hi & Ha) Hrun. unfold newVarta, monotonicNs, hrtime in Hrun. unfold_m.
  destruct (new_buffer_run (buf_alloc FRAME_BYTES) w0) as (w1 & E & Hev & Hn & Hin & Hc & _).
  rewrite E in Hrun. cbn in Hrun. injection Hrun as <- <-. split; [|done]. constructor; cbn; [|done|split; lia].
  constructor; cbn.
  - destruct (evolves_world_ok _ _ Hev Hw) as [Hh He]. split; [by split|]. split; [done|].
    unfold bt_outbox, outbox_of in *. cbn. rewrite Hin. exact (evolves_allocated _ _ _ Hev Ha).
  - lia.
  - unfold contents in *. cbn. by rewrite Hc.
  - unfold bt_outbox, outbox_of in *. cbn. rewrite Hin. intros Hm. unfold allocated in Ha.
    rewrite list.Forall_forall in Ha. apply Ha in Hm. lia.
Qed.

(** One attempt, as the numbering sees it. *)
Lemma attempt_numbers v w s pid payload :
  agent_ok v w ->
  exists o v' w', attempt s pid payload (v, w) = (Ret o, (v', w')) /\ agent_ok v' w'
  /\ connectPid v' = connectPid v
  /\ match o with
     | sent => exists f, delivers (transport v) w (transport v') w' (wire_of f)
         /\ (fr_status f = s /\ fr_pid f = to_uint32 (jint pid) /\ fr_payload f = to_uint32 payload)
         /\ fr_nonce f = (nonce v + 1) mod NONCE_TERMINAL /\ 0 <= fr_timestamp f
         /\ lastTimestamp v <= fr_timestamp f
         /\ nonce v' = fr_nonce f /\ lastTimestamp v' = fr_timestamp f
     | _ => nonce v' = nonce v /\ lastTimestamp v' = lastTimestamp v
     end.
Proof.
  intros Hok.
  destruct (attempt_run v w s pid payload Hok) as (o & t' & d & w' & -> & Hc & _ & _ & _ & Ho & _).
  pose proof (elapsed_range (startNs v) (w_clock w (w_ticks w))) as Hel.
  eexists o, _, w'. split; [done|]. split; [by eapply attempted_ok|]. split; [done|].
  destruct o; [|done..]. eexists. split; [exact Ho|]. cbn. split_and!; try done; lia.
Qed.

Lemma beat_numbers v w st payload :
  agent_ok v w ->
  exists o v' w', beat st payload (v, w) = (Ret o, (v', w')) /\ agent_ok v' w'
  /\ ((o <> sent /\ connectPid v' = connectPid v /\ nonce v' = nonce v
        /\ lastTimestamp v' = lastTimestamp v)
      \/ exists n0 last0,
         ((w_pid w = connectPid v /\ connectPid v' = connectPid v /\ n0 = nonce v /\ last0 = lastTimestamp v)
          \/ (w_pid w <> connectPid v /\ connectPid v' = w_pid w /\ n0 = 0 /\ last0 = 0))
         /\ match o with
            | sent => exists f, delivers (transport v) w (transport v') w' (wire_of f)
                /\ (coerceBeatStatus st = Some (fr_status f) /\ fr_status f <> Stall
                    /\ fr_pid f = to_uint32 (jint (w_pid w)) /\ fr_payload f = to_uint32 payload)
                /\ fr_nonce f = (n0 + 1) mod NONCE_TERMINAL /\ 0 <= fr_timestamp f
                /\ last0 <= fr_timestamp f
                /\ nonce v' = fr_nonce f /\ lastTimestamp v' = fr_timestamp f
            | _ => nonce v' = n0 /\ lastTimestamp v' = last0
            end).
Proof.
  intros Hok. assert (agent_ok (set_consecutiveDropped 0 v) w) as Hok0 by (destruct Hok; by constructor).
  destruct (decide (closed v = true)) as [Hcl|Hcl%not_true_is_false].
  { unfold beat, self, assign. unfold_m.
    destruct (coerceBeatStatus st) as [[]|]; cbn; rewrite ?Hcl; eexists _, _, _;
      (split; [reflexivity|]); (split; [done|]); by left. }
  destruct (coerceBeatStatus st) as [s|] eqn:Hst; [destruct (decide (s = Stall)) as [->|Hs]|].
  1, 3: unfold beat; rewrite Hst; eexists _, _, _; (split; [reflexivity|]); (split; [done|]); by left.
  rewrite (beat_unfold st s) by done.
  destruct (recoverFork_run v w (w_pid w) (ao_carrier _ _ Hok))
    as [[Hp ->]|[(Hp & e & w1 & _ & -> & Hc & _ & Ho)|(Hp & t1 & w1 & _ & Hrun & Hc & Hstep & Htk & Hop & Ho)]].
  - destruct (attempt_numbers v w s (w_pid w) payload Hok) as (o & v' & w' & -> & Hok' & Hpid & Ho).
    exists o, v', w'. split; [done|]. split; [done|]. right. exists (nonce v), (lastTimestamp v).
    split; [by left|]. destruct o; [|done..]. destruct Ho as (f & Hd & (<- & ? & ?) & Hf).
    exists f. split; [done|]. split; [by split_and!|exact Hf].
  - eexists _, v, w1. split; [done|]. split; [by constructor; [|apply Hok..]|]. by left.
  - rewrite Hrun. set (v1 := mkVarta _ _ _ _ _ _ _ _ _ _ _) in *. set (w2 := (hrtime w1).2) in *.
    assert (agent_ok v1 w2) as Hok1 by (constructor; cbn; [done|done|split; lia]).
    destruct (attempt_numbers v1 w2 s (w_pid w) payload Hok1) as (o & v' & w' & -> & Hok' & Hpid & Ho').
    exists o, v', w'. split; [done|]. split; [done|]. right. exists 0, 0.
    split; [right; by split_and!|]. destruct o; [|done..]. destruct Ho' as (f & Hd & (<- & ? & ?) & Hf).
    exists f. split; [|split; [by split_and!|exact Hf]].
    eapply delivers_before; [exact Ho|exact Hop|apply Hstep|exact Hd].
Qed.

Lemma session_inv v w fs : agent_run v w fs -> agent_ok v w /\ numbered fs (nonce v) (lastTimestamp v).
Proof.
  induction 1 as [t w0 v w Hbt Hn|v w fs st payload v' w' frame _ [Hok Hnum] Hb Hd
    |v w fs st payload o v' w' _ [Hok Hnum] Hb Ho|v w fs r v' w' _ [Hok Hnum] Hr
    |v w fs n r v' w' _ [Hok Hnum] Hr|v w fs r v' w' _ [Hok Hnum] Hr|v w fs pid _ [Hok Hnum]
    |v w fs t' w' _ [Hok Hnum] Hc].
  - destruct (new_agent_ok _ _ _ _ Hbt Hn) as [Hok Hz]. split; [done|by apply numbered_nil].
  - destruct (beat_numbers v w st payload Hok) as (o & v1 & w1 & Hb' & Hok' & Hc).
    rewrite Hb in Hb'. symmetry in Hb'. simplify_eq. split; [done|].
    destruct Hc as [[? _]|(n0 & last0 & Hp & f & Hd' & _ & Hf & Hz & Hl & -> & ->)]; [done|].
    rewrite (delivers_unique _ _ _ _ _ _ Hd Hd').
    destruct Hp as [(Hp & _ & -> & ->)|(Hp & _ & -> & ->)].
    + rewrite (proj2 (Z.eqb_eq _ _) Hp). by eapply numbered_snoc.
    + rewrite (proj2 (Z.eqb_neq _ _) Hp). by apply (numbered_snoc _ [] 0 0); [apply numbered_nil|..].
  - destruct (beat_numbers v w st payload Hok) as (o1 & v1 & w1 & Hb' & Hok' & Hc).
    rewrite Hb in Hb'. symmetry in Hb'. simplify_eq. split; [done|].
    destruct Hc as [(_ & -> & -> & ->)|(n0 & last0 & Hp & Hm)]; [by rewrite Z.eqb_refl|].
    assert (nonce v' = n0 /\ lastTimestamp v' = last0) as [-> ->] by (by destruct o).
    destruct Hp as [(_ & -> & -> & ->)|(Hp & -> & -> & ->)]; [by rewrite Z.eqb_refl|].
    rewrite (proj2 (Z.eqb_neq _ _) Hp). by apply numbered_nil.
  - destruct (closed v) eqn:Hcl.
    + unfold reconnect, self, assign in Hr. unfold_m. cbn in Hr. rewrite Hcl in Hr. simplify_eq.
      split; [by destruct Hok; constructor|done].
    + destruct (carrier_reconnect _ _ _ (ao_carrier _ _ Hok)) as (r1 & t1 & w1 & E & Hc & _).
      unfold reconnect, self, assign, sys, on_transport in Hr. unfold_m. cbn in Hr. rewrite Hcl in Hr.
      cbn in Hr. rewrite E in Hr. destruct Hok as [_ ? ?].
      destruct r1; simplify_eq/=; (split; [by constructor|done]).
  - unfold setReconnectAfter, assign in Hr. unfold_m. cbn in Hr. simplify_eq.
    split; [by destruct Hok; constructor|done].
  - destruct (closed v) eqn:Hcl.
    + unfold close, self, assign in Hr. unfold_m. cbn in Hr. rewrite Hcl in Hr. by simplify_eq.
    + destruct (close_spec (transport v) w) as (w1 & E & Hev & Hi & Hw).
      unfold close, self, assign, on_transport in Hr. unfold_m. cbn in Hr. rewrite Hcl in Hr. cbn in Hr.
      rewrite E in Hr. simplify_eq/=. split; [|done]. destruct Hok as [Hco ? ?]. constructor; cbn; try done.
      destruct Hco as [(Hw0 & Hi0 & Ha0) Hb Hl Hown]. unfold bt_outbox in *. constructor.
      * split_and!; [auto|done|]. unfold bt_outbox. rewrite (outbox_same _ _ _ Hi).
        by eapply evolves_allocated.
      * pose proof (ev_next _ _ Hev). lia.
      * by rewrite (evolves_contents _ _ _ Hev Hb).
      * unfold bt_outbox. by rewrite (outbox_same _ _ _ Hi).
  - split; [|done]. destruct Hok as [[? ? ? ?] ? ?]. by constructor; [constructor|..].
  - split; [|done]. destruct Hok. by constructor.
Qed.

(** C3. Numbering. In every execution of an agent over any transport that keeps the
    contract, with drops, failures, retries, reconnects, callbacks and forks in any order,
    the frames the peer opens in one session carry the nonces 1, 2, 3, ... in the order
    of sending, without a gap or a repeat (modulo 2^64 - 1, so the terminal nonce is never
    used), and timestamps that never decrease; a fork recovery starts a new session. *)
Theorem agent_sessions_numbered (v : Varta T) (w : World) (fs : list bytes) :
  agent_run v w fs ->
  agent_ok v w /\ exists frames, fs = map wire_of frames
  /\ (forall i f, frames !! i = Some f -> fr_nonce f = Z.of_nat (S i) mod NONCE_TERMINAL
       /\ fr_timestamp f <= lastTimestamp v)
  /\ (forall i f g, frames !! i = Some f -> frames !! S i = Some g -> fr_timestamp f <= fr_timestamp g)
  /\ nonce v = Z.of_nat (length fs) mod NONCE_TERMINAL.
Proof.
  intros Hrun. destruct (session_inv _ _ _ Hrun) as [Hok (frames & -> & Hn & Ht & Hc)].
  split; [done|]. exists frames. rewrite length_map. split_and!; try done.
  intros i f Hi. destruct (Hn i f Hi) as (? & ? & _). split; [done|lia].
Qed.

(** [k] beats in a row, each of them dropped. *)
Inductive dropped_beats : nat -> Varta T * World -> Varta T * World -> Prop :=
| db_none vw : dropped_beats 0 vw vw
| db_more k vw v w st payload reason vw' :
    dropped_beats k vw (v, w) -> w_pid w = connectPid v ->
    beat st payload (v, w) = (Ret (dropped reason), vw') -> dropped_beats (S k) vw vw'.

Lemma window_full_int v N :
  reconnectAfter v = jint N -> 0 < N <= MAX_SAFE_INTEGER -> 0 <= consecutiveDropped v < N ->
  window_full v = (consecutiveDropped v + 1 =? N) /\
  Z.min (consecutiveDropped v + 1) MAX_SAFE_INTEGER = consecutiveDropped v + 1.
Proof.
  intros Ha HN Hc. assert (Z.min (consecutiveDropped v + 1) MAX_SAFE_INTEGER = consecutiveDropped v + 1) as Hm by lia.
  split; [|done]. unfold window_full. rewrite Ha, Hm. cbn. unfold Qle_bool. cbn.
  rewrite !Z.mul_1_r. destruct (Z.leb_spec N 0); [lia|]. cbn.
  destruct (Z.leb_spec N (consecutiveDropped v + 1)), (Z.eqb_spec (consecutiveDropped v + 1) N); lia || done.
Qed.

Lemma dropped_beat_run v w st payload reason v' w' :
  agent_ok v w -> w_pid w = connectPid v -> beat st payload (v, w) = (Ret (dropped reason), (v', w')) ->
  agent_ok v' w' /\ reconnectAfter v' = reconnectAfter v
  /\ consecutiveDropped v' = (if window_full v then 0
                             else Z.min (consecutiveDropped v + 1) MAX_SAFE_INTEGER).
Proof.
  intros Hok Hp Hb. destruct (closed v) eqn:Hcl.
  { unfold beat, self, assign in Hb. unfold_m.
    destruct (coerceBeatStatus st) as [[]|]; cbn in Hb; rewrite ?Hcl in Hb; simplify_eq. }
  destruct (coerceBeatStatus st) as [s|] eqn:Hst; [destruct (decide (s = Stall)) as [->|Hs]|];
    [unfold beat in Hb; by rewrite Hst in Hb| |unfold beat in Hb; by rewrite Hst in Hb].
  rewrite (beat_unfold st s) in Hb by done.
  destruct (recoverFork_run v w (w_pid w) (ao_carrier _ _ Hok)) as [[_ E]|[[Hne _]|[Hne _]]]; [|done..].
  rewrite E in Hb. destruct (attempt_run v w s (w_pid w) payload Hok)
    as (o & t' & d & w1 & E' & Hc & _ & _ & _ & _ & Hd). rewrite E' in Hb. simplify_eq.
  split; [|cbn; split; [done|by destruct (window_full v)]].
  apply (attempted_ok v w _ _ _ _ (next_nonce (nonce v)) 0 false); done.
Qed.

(** The reconnect window. With [reconnectAfter] set to a whole number [N] (at most
    2^53 - 1), after [k] beats in a row that all ended dropped, the counter of consecutive
    drops is [(c + k) mod N], where [c] is its value before: every [N]-th drop fills the
    window, reconnects the transport, and starts the count again even when the
    reconnect or the retry fails. *)
Theorem dropped_beats_fill_windows (v : Varta T) (w : World) (N : Z) (k : nat) (v' : Varta T) (w' : World) :
  agent_ok v w -> reconnectAfter v = jint N -> 0 < N <= 2 ^ 53 - 1 -> 0 <= consecutiveDropped v < N ->
  dropped_beats k (v, w) (v', w') ->
  consecutiveDropped v' = (consecutiveDropped v + Z.of_nat k) mod N.
Proof.
  intros Hok Ha HN Hc Hrun. change (2 ^ 53 - 1) with MAX_SAFE_INTEGER in HN.
  assert (agent_ok v' w' /\ reconnectAfter v' = jint N /\
    consecutiveDropped v' = (consecutiveDropped v + Z.of_nat k) mod N) as (_ & _ & E); [|done].
  remember (v, w) as vw eqn:E0. remember (v', w') as vw' eqn:E1. revert v' w' E1.
  induction Hrun as [|k vw v1 w1 st payload reason vw' _ IH Hp Hb]; intros v' w' ->; subst.
  { injection E0 as -> ->. rewrite Z.add_0_r, Z.mod_small by lia. done. }
  destruct (IH eq_refl v1 w1 eq_refl) as (Hok1 & Ha1 & Hc1).
  destruct (dropped_beat_run _ _ _ _ _ _ _ Hok1 Hp Hb) as (Hok' & Ha' & Hd).
  split; [done|]. split; [congruence|].
  pose proof (Z.mod_pos_bound (consecutiveDropped v + Z.of_nat k) N ltac:(lia)) as Hb1. rewrite <- Hc1 in Hb1.
  destruct (window_full_int v1 N Ha1 HN Hb1) as [Hw Hm]. rewrite Hd, Hm, Hw.
  replace (consecutiveDropped v + Z.of_nat (S k)) with (consecutiveDropped v + Z.of_nat k + 1) by lia.
  rewrite <- Zplus_mod_idemp_l, <- Hc1. destruct (Z.eqb_spec (consecutiveDropped v1 + 1) N) as [->|Hne].
  - by rewrite Z.mod_same by lia.
  - rewrite Z.mod_small; lia.
Qed.

(** Clock regressions are counted and hidden from the wire. On an open agent with
    an unchanged pid, whatever becomes of the frame, the counter goes up by one (saturating
    at 2^64 - 1) exactly when the clamped elapsed time is below the last committed
    timestamp, and the beat reads the clock exactly once. *)
Theorem beat_counts_regressions (v : Varta T) (w : World) (st : StatusLike) (s : Status) (payload : jsnum) :
  agent_ok v w -> closed v = false -> coerceBeatStatus st = Some s -> s <> Stall ->
  w_pid w = connectPid v -> 0 <= clockRegressionsCount v ->
  let raw := elapsed (startNs v) (w_clock w (w_ticks w)) in
  exists o v' w', beat st payload (v, w) = (Ret o, (v', w'))
  /\ clockRegressionsCount v' =
       (if decide (raw < lastTimestamp v) then Z.min (clockRegressionsCount v + 1) U64_MAX
        else clockRegressionsCount v)
  /\ lastTimestamp v <= lastTimestamp v'
  /\ w_ticks w' = S (w_ticks w) /\ startNs v' = startNs v.
Proof.
  intros Hok Hcl Hst Hs Hpid Hcnt raw. rewrite (beat_unfold st s) by done.
  destruct (recoverFork_run v w (w_pid w) (ao_carrier _ _ Hok)) as [[_ ->]|[[Hne _]|[Hne _]]]; [|done..].
  destruct (attempt_run v w s (w_pid w) payload Hok) as (o & t' & d & w' & -> & _ & _ & Htk & _).
  eexists o, _, w'. split; [done|]. cbn. fold raw. split_and!; try done.
  - case_decide; destruct (Z.ltb_spec raw (lastTimestamp v)); try lia.
    by rewrite satAddBig_spec by lia.
  - destruct (isSent o); lia.
Qed.

(** [setReconnectAfter] keeps the whole part of a number of at least 1 (and
    infinity, which no counter reaches), and switches the window off for everything else:
    [null], zero, negative numbers, NaN, and also the fractions between 0 and 1. *)
Theorem setReconnectAfter_whole_part (v : Varta T) (w : World) (n : option jsnum) :
  exists after, setReconnectAfter n (v, w) =
    (Ret tt, (set_consecutiveDropped 0 (set_reconnectAfter after v), w))
  /\ num_positive after =
       match n with
       | Some (JFin q) => Qle_bool 1 q
       | Some (JInf neg) => negb neg
       | _ => false
       end
  /\ (forall q, n = Some (JFin q) -> num_positive after = true -> after = jint (Qnum q / Zpos (Qden q)))
  /\ (forall z, n = Some (JInf false) -> at_least z after = false).
Proof.
  eexists. split; [reflexivity|]. destruct n as [[| []|[a b]]|]; cbn; try done.
  assert (Z.quot a (Zpos b) = a / Zpos b \/ a < 0) as Hq.
  { destruct (Z.lt_ge_cases a 0); [by right|left; by apply Z.quot_div_nonneg]. }
  unfold Qle_bool. cbn -[Z.mul]. rewrite Z.mul_1_r, Z.mul_0_l, Z.mul_1_l.
  destruct (Z.leb_spec a 0) as [Ha|Ha]; cbn [negb].
  - split_and!; try done. symmetry. apply Z.leb_gt. lia.
  - unfold q_trunc. cbn [Qnum Qden]. destruct Hq as [Hq|?]; [|lia]. rewrite Hq.
    split_and!; try done; [|by intros q [= <-]].
    unfold jint, inject_Z, num_positive, Qle_bool. cbn -[Z.mul]. rewrite Z.mul_1_r, Z.mul_0_l.
    destruct (Z.leb_spec (a / Zpos b) 0) as [H1|H1], (Z.leb_spec (Zpos b) a) as [H2|H2]; cbn; try done.
    + pose proof (Z.div_le_lower_bound a (Zpos b) 1 ltac:(lia) ltac:(lia)). lia.
    + rewrite Z.div_small in H1 by lia. lia.
Qed.

(** An accepted beat ends in an accepted [send] of the transport, from a state reached
    by rejected sends and reconnects only; so a property they keep holds there. *)
Section last_send.
Variable Q : T -> World -> Prop.
Variable b : nat.
Hypothesis Q_reject : forall t w e t' w', Q t w -> bt_send b (t, w) = (Throw e, (t', w')) -> Q t' w'.
Hypothesis Q_reconnect : forall t w r t' w', Q t w -> bt_reconnect (t, w) = (r, (t', w')) -> Q t' w'.

Lemma sendFrame_last v w o v' w' :
  buf v = b -> Q (transport v) w -> sendFrame (v, w) = (Ret o, (v', w')) ->
  v' = set_transport (transport v') v
  /\ if isSent o then bt_send b (transport v, w) = (Ret tt, (transport v', w')) else Q (transport v') w'.
Proof.
  intros Hb HQ Hrun. unfold sendFrame, self, on_transport in Hrun. unfold_m. cbn in Hrun. rewrite Hb in Hrun.
  destruct (bt_send b (transport v, w)) as [[[]|e] [t1 w1]] eqn:E; simplify_eq/=; [done|].
  split; [done|]. pose proof (classify_not_sent e). destruct (classifySendError e); cbn; eauto; done.
Qed.

Lemma emit_last_send v w n ts wr v' w' :
  buf v = b -> Q (transport v) w -> emit n ts wr (v, w) = (Ret sent, (v', w')) ->
  exists t0 w0 w1, Q t0 w0 /\ bt_send b (t0, w0) = (Ret tt, (transport v', w1)) /\ quiet w1 w'.
Proof.
  intros Hb HQ. unfold emit, self, assign. unfold_m. intros Hrun.
  destruct (sendFrame (v, w)) as [[o|e] [v1 w1]] eqn:E1; [|done].
  destruct (sendFrame_last _ _ _ _ _ Hb HQ E1) as [Hv1 H1]. destruct o as [|reason|err]; cbn in *.
  - destruct (commit_run v1 w1 n ts wr) as (w2 & E2 & Hq). rewrite E2 in Hrun. simplify_eq/=.
    by exists (transport v), w, w1.
  - destruct (num_positive (reconnectAfter v1) && _); [|done]. cbn in Hrun. unfold on_transport in Hrun.
    cbn in Hrun. destruct (bt_reconnect (transport v1, w1)) as [[[]|e] [t2 w2]] eqn:E2; [|done]. cbn in Hrun.
    set (v2 := set_transport t2 _) in *.
    destruct (sendFrame (v2, w2)) as [[o3|e] [v3 w3]] eqn:E3; [|done].
    assert (Q t2 w2) as HQ2 by eauto. assert (buf v2 = b) as Hb2.
    { change (buf v1 = b). by rewrite Hv1. }
    destruct (sendFrame_last v2 _ _ _ _ Hb2 HQ2 E3) as [Hv3 H3]. destruct o3; cbn in Hrun; [|done..].
    destruct (commit_run v3 w3 n ts wr) as (w4 & E4 & Hq). rewrite E4 in Hrun. simplify_eq/=.
    by exists t2, w2, w3.
  - done.
Qed.

Hypothesis Q_tick : forall t w, Q t w -> Q t (hrtime w).2.
Hypothesis Q_write : forall t w frame, length frame = 32%nat -> Q t w -> Q t (set_contents b frame w).

Lemma attempt_last_send v w s pid payload v' w' :
  agent_ok v w -> buf v = b -> Q (transport v) w -> attempt s pid payload (v, w) = (Ret sent, (v', w')) ->
  exists t0 w0 w1, Q t0 w0 /\ bt_send b (t0, w0) = (Ret tt, (transport v', w1)) /\ quiet w1 w'.
Proof.
  intros [Hc Hn Ht] Hb HQ Hrun. unfold attempt, self, sys in Hrun. unfold_m.
  rewrite candidateTimestamp_run in Hrun. cbn [fst snd] in Hrun.
  destruct (candidate_next_nonce (nonce v) Hn) as (Hcand & _ & Hnu). rewrite Hcand in Hrun.
  set (raw := elapsed _ _) in *. set (v1 := if raw <? _ then _ else v) in *.
  assert (transport v1 = transport v /\ buf v1 = buf v) as [Htr Hbf]
    by (unfold v1; by destruct (raw <? lastTimestamp v)).
  destruct (tick_carrier _ _ _ Hc) as [Hc1 _]. rewrite <- Htr, <- Hbf in Hc1.
  assert (is_u64 (Z.max (lastTimestamp v) raw)) as Hts.
  { pose proof (elapsed_range (startNs v) (w_clock w (w_ticks w))). fold raw in H1.
    unfold is_u64, U64_MAX in *. lia. }
  destruct (on_buffer_encode v1 _ s pid _ _ payload Hc1 Hts Hnu) as (Henc & _).
  rewrite Henc in Hrun. cbn [fst snd] in Hrun. eapply emit_last_send; [| |exact Hrun]; [congruence|].
  rewrite Htr, Hbf, Hb. apply Q_write; [apply length_frame_wire|]. by apply Q_tick.
Qed.
End last_send.

Lemma beat_sent_inv st payload v w vw' :
  beat st payload (v, w) = (Ret sent, vw') ->
  exists s, coerceBeatStatus st = Some s /\ s <> Stall /\ closed v = false.
Proof.
  unfold beat, self, assign. unfold_m. intros Hb.
  destruct (coerceBeatStatus st) as [s|]; [|done]. exists s. split; [done|].
  destruct s, (closed v) eqn:Hcl; cbn in Hb; rewrite ?Hcl in Hb; done.
Qed.
End agent.

(** The nonce-wrap warning is given at most once per process: the first call sets
    the flag and writes one line to stderr (or none, when stderr throws), never throws,
    and every later call does nothing at all. *)
Theorem wrap_warning_once (w : World) :
  exists w1, warnNonceWrapping w = (Ret tt, w1) /\ w_nonce_warned w1 = true
  /\ warnNonceWrapping w1 = (Ret tt, w1)
  /\ (w_nonce_warned w = true -> w1 = w)
  /\ (w_nonce_warned w = false ->
      w_stderr w1 = w_stderr w ++ match w_fault w (w_calls w) with
        | None => ["[varta] nonce exhausted; wrapping to 0" +:+ nl] | Some _ => [] end).
Proof.
  unfold warnNonceWrapping, stderr_write, may_throw, set_nonce_warned. unfold_m. cbn.
  destruct (w_nonce_warned w) eqn:Hw; cbn.
  - exists w. by rewrite Hw.
  - destruct (w_fault w (w_calls w)); cbn; eexists; (split; [reflexivity|]); cbn;
      rewrite ?app_nil_r; by split_and!.
Qed.
