(* ===== verification/Panic.v ===== *)
(** * Panic emitters (src/clients/node/src/panic.ts)

    The module's variables are the record [Panic]: the active trigger with the state
    its closure captured, whether the process-wide handlers have been registered, and the
    terminal clock. The process's listener table and the queue of [setImmediate] are
    part of it too, with the listeners of the host application beside the module's own. *)

From S2P Require Import Prelude NodeBuffer Crc Vlp VlpSecure Runtime Transport.
From S2P Require Uds.

Definition PanicInstallError (kind message : string) : exn :=
  Exn "PanicInstallError" (kind +:+ ": " +:+ message) None None (Some kind) None.

Definition FATAL_SIGNALS : list string := ["SIGTERM"; "SIGINT"; "SIGQUIT"; "SIGHUP"]%string.

(** Events of [process], who listens, and what [setImmediate] has been given:
    [throw err], or [process.kill(process.pid, sig)]. *)
Inductive event : Type := UncaughtException | UnhandledRejection | Signal (name : string).
Inductive owner : Type := Ours | App (id : nat).
Inductive deferred : Type := Rethrow (err : exn) | Kill (sig : string).

#[export] Instance event_eq_dec : EqDecision event.
Proof. solve_decision. Defined.
#[export] Instance owner_eq_dec : EqDecision owner.
Proof. solve_decision. Defined.

(** What an installer's closure captures. *)
Inductive Emitter : Type :=
| EmitUdp (sock : nat)
| EmitUds (transport : Uds.UdsTransport)
| EmitSecureUdp (sock : nat) (salt : bytes) (counter : Z) (keyCopy : bytes).

(** [activeTrigger]: its [fired] flag and its emitter. *)
Record Trigger : Type := mkTrigger { fired : bool; emitter : Emitter }.

Record Panic : Type := mkPanic {
  activeTrigger : option Trigger;
  handlersInstalled : bool;
  TERMINAL_CLOCK_EPOCH_NS : Z;
  lastTerminalTimestamp : Z;
  listeners : list (owner * event);
  immediates : list deferred;
}.

(** The module as it is loaded, in a process with the given listeners. *)
Definition loadPanic (ls : list (owner * event)) : M World Panic :=
  epoch ← hrtime;
  mret (mkPanic None false epoch 0 ls []).

Definition set_activeTrigger (t : option Trigger) (p : Panic) : Panic :=
  mkPanic t (handlersInstalled p) (TERMINAL_CLOCK_EPOCH_NS p) (lastTerminalTimestamp p) (listeners p) (immediates p).
Definition set_handlersInstalled (b : bool) (p : Panic) : Panic :=
  mkPanic (activeTrigger p) b (TERMINAL_CLOCK_EPOCH_NS p) (lastTerminalTimestamp p) (listeners p) (immediates p).
Definition set_lastTerminalTimestamp (z : Z) (p : Panic) : Panic :=
  mkPanic (activeTrigger p) (handlersInstalled p) (TERMINAL_CLOCK_EPOCH_NS p) z (listeners p) (immediates p).
Definition set_listeners (ls : list (owner * event)) (p : Panic) : Panic :=
  mkPanic (activeTrigger p) (handlersInstalled p) (TERMINAL_CLOCK_EPOCH_NS p) (lastTerminalTimestamp p) ls (immediates p).
Definition set_immediates (ds : list deferred) (p : Panic) : Panic :=
  mkPanic (activeTrigger p) (handlersInstalled p) (TERMINAL_CLOCK_EPOCH_NS p) (lastTerminalTimestamp p) (listeners p) ds.
Definition set_emitter (e : Emitter) (p : Panic) : Panic :=
  set_activeTrigger (option_map (fun t => mkTrigger (fired t) e) (activeTrigger p)) p.

(** ** The terminal clock *)

Definition claimTerminalTimestamp (previous raw : Z) : option Z :=
  if TIMESTAMP_INVALID - 1 <=? previous then None
  else
    let candidate := if previous <? raw then raw else previous + 1 in
    if candidate <? TIMESTAMP_INVALID then Some candidate else None.

Definition nextTerminalTimestamp : method Panic (option Z) :=
  now ← sys hrtime;
  epoch ← self TERMINAL_CLOCK_EPOCH_NS;
  let rawElapsed := now - epoch in
  let raw := if 0 <? rawElapsed then rawElapsed else 1 in
  last ← self lastTerminalTimestamp;
  match claimTerminalTimestamp last raw with
  | Some candidate => assign (set_lastTerminalTimestamp candidate);; mret (Some candidate)
  | None => mret None
  end.

(** ** The critical frame *)

Record CriticalFrameMeta : Type := mkMeta { cf_frame : nat; cf_pid : Z; cf_timestamp : Z }.

Definition buildCriticalFrameWithMeta (payload : jsnum) : method Panic (option CriticalFrameMeta) :=
  timestamp ← nextTerminalTimestamp;
  match timestamp with
  | None => mret None
  | Some timestamp =>
      pid ← sys (gets w_pid);
      let pid := wrap32 pid in
      buf ← sys (new_buffer (buf_alloc FRAME_BYTES));
      sys (on_buffer buf (encodeInto (sl_status Critical) (jint pid) timestamp NONCE_TERMINAL
                            (jint (to_uint32 payload))));;
      mret (Some (mkMeta buf pid timestamp))
  end.

Definition buildCriticalFrame (payload : jsnum) : method Panic (option nat) :=
  m ← buildCriticalFrameWithMeta payload;
  mret (cf_frame <$> m).

Section panic.
Context `{NodeCrypto}.

(** ** Emitters *)

(** Running a method of the captured Unix-socket transport. *)
Definition on_uds {A} (t : Uds.UdsTransport) (m : method Uds.UdsTransport A) : method Panic A := fun pw =>
  let '(r, (t', w')) := m (t, pw.2) in (r, (set_emitter (EmitUds t') pw.1, w')).

(** The body of each installer's closure, inside its own [try]. *)
Definition emitUdp (sock : nat) : method Panic unit :=
  frame ← buildCriticalFrame (jint 0);
  match frame with
  | None => mret tt
  | Some frame => sys (sock_send sock frame None)
  end.

Definition emitUds (transport : Uds.UdsTransport) : method Panic unit :=
  frame ← buildCriticalFrame (jint 0);
  match frame with
  | None => mret tt
  | Some frame => on_uds transport (Uds.send frame)
  end.

Definition emitSecureUdp (sock : nat) (salt : bytes) (counter : Z) (keyCopy : bytes) : method Panic unit :=
  meta ← buildCriticalFrameWithMeta (jint 0);
  match meta with
  | None => mret tt
  | Some meta =>
      assign (set_emitter (EmitSecureUdp sock salt (wrap32 (counter + 1)) keyCopy));;
      ivPrefix ← lift_res (derivePanicIvPrefix salt (jint (cf_pid meta)) (cf_timestamp meta) (jint counter));
      pt ← sys (gets (fun w => contents w (cf_frame meta)));
      sealed ← lift_res (encodeShared keyCopy (slice 0 IV_RANDOM_BYTES ivPrefix) (jint counter) pt);
      wire ← sys (new_buffer sealed);
      sys (sock_send sock wire None)
  end.

Definition emit_body (e : Emitter) : method Panic unit :=
  match e with
  | EmitUdp sock => emitUdp sock
  | EmitUds transport => emitUds transport
  | EmitSecureUdp sock salt counter keyCopy => emitSecureUdp sock salt counter keyCopy
  end.

Definition emit (e : Emitter) : method Panic unit := try_catch (emit_body e) (fun _ => mret tt).

(** [activeTrigger?.()]. *)
Definition triggerActive : method Panic unit :=
  t ← self activeTrigger;
  match t with
  | None => mret tt
  | Some t =>
      if fired t then mret tt
      else
        assign (set_activeTrigger (Some (mkTrigger true (emitter t))));;
        try_catch (emit (emitter t)) (fun _ => mret tt)
  end.

(** ** Process listeners *)

Definition process_on (ev : event) : method Panic unit :=
  assign (fun p => set_listeners (listeners p ++ [(Ours, ev)]) p).

(** [process.removeListener(ev, ours)]: one registration of that very function. *)
Fixpoint remove_one (x : owner * event) (l : list (owner * event)) : list (owner * event) :=
  match l with
  | [] => []
  | y :: l => if decide (x = y) then l else y :: remove_one x l
  end.

Definition removeListener (ev : event) : method Panic unit :=
  assign (fun p => set_listeners (remove_one (Ours, ev) (listeners p)) p).

Definition setImmediate (d : deferred) : method Panic unit :=
  assign (fun p => set_immediates (immediates p ++ [d]) p).

Definition onUncaughtException (err : exn) : method Panic unit :=
  triggerActive;;
  removeListener UncaughtException;;
  setImmediate (Rethrow err).

Definition onUnhandledRejection (reason : Uds.js_value) : method Panic unit :=
  triggerActive;;
  removeListener UnhandledRejection;;
  setImmediate (Rethrow match reason with Uds.JsError e => e | Uds.JsOther s => plain_error s end).

Definition onSig (sig : string) : method Panic unit :=
  triggerActive;;
  removeListener (Signal sig);;
  setImmediate (Kill sig).

Definition installEmitter (e : Emitter) : method Panic unit :=
  assign (set_activeTrigger (Some (mkTrigger false e)));;
  installed ← self handlersInstalled;
  if installed : bool then mret tt
  else
    assign (set_handlersInstalled true);;
    process_on UncaughtException;;
    process_on UnhandledRejection;;
    foldr (fun sig k => process_on (Signal sig);; k) (mret tt) FATAL_SIGNALS.

(** ** Installers *)

Definition createConnectedSocket (host : string) (port : jsnum) : M World nat :=
  let family := if includes ":" host then "udp6"%string else "udp4"%string in
  s ← createSocket family;
  sock_connect s port host;;
  mret s.

(** [try { m } catch (err) { throw new PanicInstallError(kind, err.message) }]. *)
Definition or_install_error {A} (kind : string) (m : M World A) : method Panic A :=
  try_catch (sys m) (fun err => throw (PanicInstallError kind (exn_message err))).

Definition installSignalHandlerUdp (host : string) (port : jsnum) : method Panic unit :=
  sock ← or_install_error "SocketBind" (createConnectedSocket host port);
  installEmitter (EmitUdp sock).

Definition installSignalHandlerUds (path : string) : method Panic unit :=
  transport ← try_catch (sys (Uds.newUdsTransport path)) (fun err =>
    if decide (exn_name err = "UdsUnavailableError"%string)
    then throw (PanicInstallError "UdsUnavailable" (exn_message err))
    else throw (PanicInstallError "SocketBind" (exn_message err)));
  installEmitter (EmitUds transport).

Definition installSignalHandlerSecureUdp (host : string) (port : jsnum) (key : bytes) : method Panic unit :=
  if negb (bool_decide (length key = KEY_BYTES)) then throw (range_error "key must be 32 bytes")
  else
    salt ← or_install_error "EntropyUnavailable" (randomBytes SESSION_SALT_BYTES);
    sock ← or_install_error "SocketBind" (createConnectedSocket host port);
    installEmitter (EmitSecureUdp sock salt 0 key).

(** [run(fn)]: the awaited outcome of [fn] is the outcome of the method [fn]. *)
Definition run (fn : method Panic unit) : method Panic unit :=
  try_catch fn (fun err => triggerActive;; throw err).

(** ** Specification *)

(** The raw reading of the terminal clock, and the frame of a terminal event. *)
Definition terminal_raw (p : Panic) (w : World) : Z :=
  Z.max 1 (w_clock w (w_ticks w) - TERMINAL_CLOCK_EPOCH_NS p).

Definition terminal_frame (pid ts payload : Z) : Frame :=
  mkFrame Critical (wrap32 pid) ts NONCE_TERMINAL payload.

(** What the module may do to the world: allocate, read the clock, send. *)
Record grows (w w' : World) : Prop := {
  gr_pid : w_pid w' = w_pid w;
  gr_random : w_random w' = w_random w;
  gr_kernel : w_kernel w' = w_kernel w;
  gr_next : (w_next w <= w_next w')%nat;
  gr_heap : forall l, (l < w_next w)%nat -> w_heap w' !! l = w_heap w !! l;
  gr_ok : world_ok w -> world_ok w';
}.

(** The key material of an emitter is well formed, and how its peer opens a datagram. *)
Definition emitter_ok (e : Emitter) : Prop :=
  match e with
  | EmitSecureUdp _ salt counter key =>
      length salt = SESSION_SALT_BYTES /\ length key = KEY_BYTES /\ is_u32 counter
  | _ => True
  end.

Definition opens (e : Emitter) (wire : bytes) : res bytes :=
  match e with
  | EmitSecureUdp _ _ _ key => decodeShared key wire
  | _ => Ret wire
  end.

(** The nonce a secure emitter uses. *)
Definition panic_nonce (salt : bytes) (pid ts counter : Z) : bytes :=
  aead_nonce (hkdfSync salt [] (kdf_info (UsePanicIv pid ts counter)) IV_RANDOM_BYTES) counter.

Record panic_ok (p : Panic) : Prop := {
  po_last : 0 <= lastTerminalTimestamp p;
  po_emitter : forall t, activeTrigger p = Some t -> emitter_ok (emitter t);
}.

(** ** Lemmas *)

#[export] Instance grows_preorder : PreOrder grows.
Proof.
  split.
  - intros w. by constructor.
  - intros w1 w2 w3 [? ? ? ? Hh1 ?] [? ? ? ? Hh2 ?]. constructor; try congruence; try lia; auto.
    intros l Hl. rewrite Hh2 by lia. by apply Hh1.
Qed.

Lemma evolves_grows w w' : evolves w w' -> grows w w'.
Proof.
  intros Hev. pose proof (fun Hw => evolves_world_ok _ _ Hev Hw).
  destruct Hev. by constructor.
Qed.

Lemma claim_spec previous raw :
  claimTerminalTimestamp previous raw =
  let candidate := Z.max raw (previous + 1) in
  if candidate <? TIMESTAMP_INVALID then Some candidate else None.
Proof.
  unfold claimTerminalTimestamp. cbn zeta.
  destruct (Z.leb_spec (TIMESTAMP_INVALID - 1) previous).
  - destruct (Z.ltb_spec (Z.max raw (previous + 1)) TIMESTAMP_INVALID); [lia|done].
  - replace (if previous <? raw then raw else previous + 1) with (Z.max raw (previous + 1)); [done|].
    destruct (Z.ltb_spec previous raw); lia.
Qed.

Lemma next_run p w :
  nextTerminalTimestamp (p, w) =
  let candidate := Z.max (terminal_raw p w) (lastTerminalTimestamp p + 1) in
  if candidate <? TIMESTAMP_INVALID
  then (Ret (Some candidate), (set_lastTerminalTimestamp candidate p, (hrtime w).2))
  else (Ret None, (p, (hrtime w).2)).
Proof.
  unfold nextTerminalTimestamp, self, assign, sys. unfold_m. cbn.
  change (hrtime w) with (Ret (w_clock w (w_ticks w)), (hrtime w).2). cbn. rewrite claim_spec.
  replace (if 0 <? w_clock w (w_ticks w) - TERMINAL_CLOCK_EPOCH_NS p
    then w_clock w (w_ticks w) - TERMINAL_CLOCK_EPOCH_NS p else 1) with (terminal_raw p w);
    [|unfold terminal_raw; destruct (Z.ltb_spec 0 (w_clock w (w_ticks w) - TERMINAL_CLOCK_EPOCH_NS p)); lia].
  cbn zeta. by destruct (_ <? TIMESTAMP_INVALID).
Qed.

Lemma tick_grows w : grows w (hrtime w).2.
Proof. unfold hrtime. constructor; cbn; try done. Qed.

Lemma build_run payload p w :
  0 <= lastTerminalTimestamp p ->
  let ts := Z.max (terminal_raw p w) (lastTerminalTimestamp p + 1) in
  exists m w', buildCriticalFrameWithMeta payload (p, w) =
    (Ret m, (match m with Some _ => set_lastTerminalTimestamp ts p | None => p end, w'))
  /\ grows w w' /\ w_inflight w' = w_inflight w
  /\ if ts <? TIMESTAMP_INVALID then
       m = Some (mkMeta (w_next w) (wrap32 (w_pid w)) ts) /\ (w_next w < w_next w')%nat
       /\ contents w' (w_next w) = wire_of (terminal_frame (w_pid w) ts (to_uint32 payload))
     else m = None.
Proof.
  intros Hl ts. unfold buildCriticalFrameWithMeta, sys. unfold_m. rewrite next_run. cbn zeta. fold ts.
  destruct (Z.ltb_spec ts TIMESTAMP_INVALID) as [Hts|Hts]; cbn -[buf_alloc].
  2: { exists None. eexists. split; [done|]. split; [apply tick_grows|done]. }
  set (w1 := (hrtime w).2).
  destruct (new_buffer_run (buf_alloc FRAME_BYTES) w1) as (w2 & E & Hev & Hn & Hi & Hc & _).
  rewrite E. cbn. change (w_next w1) with (w_next w) in *. change (w_pid w1) with (w_pid w).
  assert (is_u64 ts) as Hu by (unfold is_u64, TIMESTAMP_INVALID, ts in *; lia).
  assert (is_u64 NONCE_TERMINAL) as Hnt by (unfold is_u64, NONCE_TERMINAL; lia).
  assert (FRAME_BYTES <= length (contents w2 (w_next w)))%nat as Hlen by (by rewrite Hc).
  unfold on_buffer.
  rewrite (encodeInto_layout _ _ _ _ _ _ _ Hlen (coerceStatus_status Critical) Hu Hnt).
  rewrite Hc, drop_ge, app_nil_r, status_byte_own, !to_uint32_jint by (done || auto with varta).
  eexists (Some _), _. split; [reflexivity|]. split_and!; try done.
  - pose proof (evolves_grows _ _ Hev) as [? ? ? ? Hh Hok]. constructor; cbn; try done.
    + intros l Hl'. rewrite lookup_insert_ne by lia. by apply Hh.
    + intros Hw. apply set_contents_world_ok; [lia|]. by apply Hok.
  - cbn. lia.
  - unfold contents. cbn. by rewrite lookup_insert_eq.
Qed.

(** At most one datagram left between two states; it carries the terminal frame of the
    moment, under a timestamp later than every earlier one. *)
Definition emitted (e : Emitter) (p : Panic) (w : World) (p' : Panic) (w' : World) : Prop :=
  w_inflight w' = w_inflight w
  \/ exists d, w_inflight w' = w_inflight w ++ [d] /\ (dg_buffer d < w_next w')%nat
     /\ let ts := lastTerminalTimestamp p' in
        lastTerminalTimestamp p < ts < TIMESTAMP_INVALID
        /\ opens e (contents w' (dg_buffer d)) = Ret (wire_of (terminal_frame (w_pid w) ts 0))
        /\ match e with
           | EmitSecureUdp _ salt c _ =>
               take 12 (contents w' (dg_buffer d)) = panic_nonce salt (wrap32 (w_pid w)) ts c
           | _ => True
           end.

(** The emitter's own state, and nothing else, may have moved on. *)
Record touches (p p' : Panic) : Prop := {
  to_handlers : handlersInstalled p' = handlersInstalled p;
  to_epoch : TERMINAL_CLOCK_EPOCH_NS p' = TERMINAL_CLOCK_EPOCH_NS p;
  to_listeners : listeners p' = listeners p;
  to_immediates : immediates p' = immediates p;
  to_last : lastTerminalTimestamp p <= lastTerminalTimestamp p';
  to_fired : fired <$> activeTrigger p' = fired <$> activeTrigger p;
  to_ok : panic_ok p -> panic_ok p';
}.

Lemma touches_later p ts : lastTerminalTimestamp p <= ts -> touches p (set_lastTerminalTimestamp ts p).
Proof. intros Hl. constructor; cbn; try done. intros [? ?]. constructor; cbn; [lia|done]. Qed.

Lemma touches_refl p : touches p p.
Proof. by constructor. Qed.

Lemma touches_emitter p p' e : touches p p' -> emitter_ok e -> touches p (set_emitter e p').
Proof.
  intros [H1 H2 H3 H4 H5 H6 H7] He. constructor; cbn; try done.
  - rewrite <- H6. by destruct (activeTrigger p').
  - intros Hp. destruct (H7 Hp) as [Hl _]. constructor; cbn; [done|].
    intros t. destruct (activeTrigger p'); [|done]. by intros [= <-].
Qed.

Lemma send_emitted e p w p1 w1 d s w2 r dest :
  grows w w1 -> w_inflight w1 = w_inflight w -> (d < w_next w1)%nat ->
  lastTerminalTimestamp p < lastTerminalTimestamp p1 < TIMESTAMP_INVALID ->
  opens e (contents w1 d) = Ret (wire_of (terminal_frame (w_pid w) (lastTerminalTimestamp p1) 0)) ->
  match e with
  | EmitSecureUdp _ salt c _ =>
      take 12 (contents w1 d) = panic_nonce salt (wrap32 (w_pid w)) (lastTerminalTimestamp p1) c
  | _ => True
  end ->
  sock_send s d dest w1 = (r, w2) -> grows w w2 /\ emitted e p w p1 w2.
Proof.
  intros Hg Hi Hd Hts Hop Hn Hs.
  destruct (sock_send_run s d dest w1) as (r' & w' & E & Hev & Hnx & Hh & _ & Hr).
  rewrite Hs in E. symmetry in E. simplify_eq.
  assert (contents w2 d = contents w1 d) as Hc by (unfold contents; by rewrite Hh).
  split; [etrans; [done|by apply evolves_grows]|].
  destruct r as [[]|e']; [right|left; rewrite <- Hi; apply Hr].
  exists (mkDatagram s d dest). cbn. rewrite Hc, <- Hi. split; [apply Hr|]. split; [lia|]. done.
Qed.

Context `{!CryptoLaws}.

Lemma emit_udp_run sock p w :
  panic_ok p ->
  exists r p' w', emit_body (EmitUdp sock) (p, w) = (r, (p', w')) /\ grows w w'
  /\ touches p p' /\ emitted (EmitUdp sock) p w p' w'.
Proof.
  intros Hp. unfold emit_body, emitUdp, buildCriticalFrame, sys. unfold_m.
  destruct (build_run (jint 0) p w (po_last _ Hp)) as (m & w1 & -> & Hg & Hi & Hm).
  set (ts := Z.max _ _) in *.
  assert (lastTerminalTimestamp p <= ts) as Hle by (unfold ts; lia).
  destruct (Z.ltb_spec ts TIMESTAMP_INVALID) as [Hts|Hts]; [|subst m; cbn].
  - destruct Hm as (-> & Hn & Hc). cbn.
    destruct (sock_send sock (w_next w) None w1) as [r w2] eqn:Hs.
    eexists r, _, w2. split; [done|].
    destruct (send_emitted (EmitUdp sock) p w (set_lastTerminalTimestamp ts p) w1 _ _ _ _ _ Hg Hi Hn
      ltac:(cbn; lia) ltac:(cbn; by rewrite Hc) I Hs) as [Hg' Hem].
    split_and!; try done. by apply touches_later.
  - eexists _, _, w1. split; [done|]. split_and!; try done; first [apply touches_refl | by left].
Qed.

Lemma emit_uds_run t p w :
  panic_ok p ->
  exists r p' w', emit_body (EmitUds t) (p, w) = (r, (p', w')) /\ grows w w'
  /\ touches p p' /\ emitted (EmitUds t) p w p' w'.
Proof.
  intros Hp. unfold emit_body, emitUds, buildCriticalFrame, on_uds. unfold_m.
  destruct (build_run (jint 0) p w (po_last _ Hp)) as (m & w1 & -> & Hg & Hi & Hm).
  set (ts := Z.max _ _) in *.
  assert (lastTerminalTimestamp p <= ts) as Hle by (unfold ts; lia).
  destruct (Z.ltb_spec ts TIMESTAMP_INVALID) as [Hts|Hts]; [|subst m; cbn].
  - destruct Hm as (-> & Hn & Hc). cbn.
    destruct (Uds.uds_pendingError t) as [e|] eqn:Hpe.
    + rewrite (Uds.uds_send_pending _ _ _ _ Hpe). eexists _, _, w1. split; [done|].
      split_and!; try done; [|by left]. by apply touches_emitter; [apply touches_later|].
    + destruct (Uds.uds_send_clear t w1 (w_next w) Hpe) as (r & w2 & -> & Hev & Hn2 & Hc2 & Hr).
      eexists _, _, w2. split; [done|]. split; [etrans; [done|by apply evolves_grows]|].
      split; [by apply touches_emitter; [apply touches_later|]|].
      destruct r as [[]|e]; [right|left; congruence].
      eexists. split; [rewrite Hr, Hi; reflexivity|]. cbn. rewrite Hc2, Hc. split_and!; done || lia.
  - eexists _, _, w1. split; [done|]. split_and!; try done; first [apply touches_refl | by left].
Qed.

Lemma emit_secure_run sock salt c key p w :
  panic_ok p -> emitter_ok (EmitSecureUdp sock salt c key) ->
  exists r p' w', emit_body (EmitSecureUdp sock salt c key) (p, w) = (r, (p', w')) /\ grows w w'
  /\ touches p p' /\ emitted (EmitSecureUdp sock salt c key) p w p' w'.
Proof.
  intros Hp (Hsalt & Hkey & Hc). unfold emit_body, emitSecureUdp, assign, sys. unfold_m.
  destruct (build_run (jint 0) p w (po_last _ Hp)) as (m & w1 & -> & Hg & Hi & Hm).
  set (ts := Z.max _ _) in *.
  assert (lastTerminalTimestamp p <= ts) as Hle by (unfold ts; lia).
  destruct (Z.ltb_spec ts TIMESTAMP_INVALID) as [Hts|Hts]; [|subst m; cbn].
  - destruct Hm as (-> & Hn & Hcon). cbn -[slice wrap32 to_uint32].
    pose proof (po_last _ Hp) as Hl0.
    rewrite derivePanicIvPrefix_eq by done. rewrite !to_uint32_jint by auto with varta.
    replace (Z.land ts 18446744073709551615) with ts.
    2: { change 18446744073709551615 with (Z.ones 64). rewrite Z.land_ones by lia.
         rewrite Z.mod_small; [done|]. unfold TIMESTAMP_INVALID, ts in *. lia. }
    set (iv := hkdfSync _ _ _ _).
    assert (slice 0 IV_RANDOM_BYTES iv = iv) as ->.
    { unfold slice. rewrite drop_0. apply take_ge. unfold iv. by rewrite hkdf_length. }
    destruct (encodeShared_opens key Hkey iv (jint c) (contents w1 (w_next w)) (hkdf_length _ _ _ _))
      as (wire & -> & _ & Hnonce & Hdec); [rewrite Hcon; apply length_frame_wire|].
    cbn -[slice wrap32 to_uint32].
    destruct (new_buffer_run wire w1) as (w2 & -> & Hev2 & Hn2 & Hi2 & Hc2 & _).
    cbn -[slice wrap32 to_uint32].
    destruct (sock_send sock (w_next w1) None w2) as [r w3] eqn:Hs.
    eexists r, _, w3. split; [done|].
    destruct (send_emitted (EmitSecureUdp sock salt c key) p w
      (set_emitter (EmitSecureUdp sock salt (wrap32 (c + 1)) key) (set_lastTerminalTimestamp ts p))
      w2 (w_next w1) sock w3 r None) as [Hg' Hem]; try done.
    + etrans; [done|by apply evolves_grows].
    + by rewrite Hi2.
    + lia.
    + cbn. lia.
    + cbn. by rewrite Hc2, Hdec, Hcon.
    + cbn. rewrite Hc2, Hnonce, to_uint32_jint by done. done.
    + split_and!; try done. apply touches_emitter; [by apply touches_later|].
      split_and!; try done. apply wrap32_range.
  - eexists _, _, w1. split; [done|]. split_and!; try done; first [apply touches_refl | by left].
Qed.

Lemma emit_run_any e p w :
  panic_ok p -> emitter_ok e ->
  exists p' w', emit e (p, w) = (Ret tt, (p', w')) /\ grows w w' /\ touches p p' /\ emitted e p w p' w'.
Proof.
  intros Hp He. assert (exists r p' w', emit_body e (p, w) = (r, (p', w')) /\ grows w w'
    /\ touches p p' /\ emitted e p w p' w') as (r & p' & w' & E & Hr).
  { destruct e; [by apply emit_udp_run|by apply emit_uds_run|by apply emit_secure_run]. }
  exists p', w'. split; [|done]. unfold emit, try_catch. rewrite E. by destruct r as [[]|].
Qed.

(** The trigger armed and not yet fired, if any. *)
Definition armed (p : Panic) : option Emitter :=
  match activeTrigger p with Some (mkTrigger false e) => Some e | _ => None end.

Lemma triggerActive_run p w :
  panic_ok p ->
  exists p' w', triggerActive (p, w) = (Ret tt, (p', w')) /\ grows w w' /\ panic_ok p'
  /\ armed p' = None /\ listeners p' = listeners p /\ immediates p' = immediates p
  /\ handlersInstalled p' = handlersInstalled p
  /\ lastTerminalTimestamp p <= lastTerminalTimestamp p'
  /\ match armed p with
     | None => p' = p /\ w' = w
     | Some e => emitted e p w p' w'
     end.
Proof.
  intros Hp. unfold triggerActive, armed, self, assign. unfold_m. cbn.
  destruct (activeTrigger p) as [[[] e]|] eqn:Ha; cbn.
  - exists p, w. rewrite Ha. by split_and!.
  - set (p1 := set_activeTrigger (Some (mkTrigger true e)) p).
    assert (panic_ok p1) as Hp1.
    { destruct Hp as [Hl He]. constructor; cbn; [done|]. intros t [= <-]. exact (He _ Ha). }
    destruct (emit_run_any e p1 w Hp1 (po_emitter _ Hp _ Ha)) as (p' & w' & E & Hg & Ht & Hem).
    rewrite E. exists p', w'. destruct Ht as [? ? ? ? Hl Hf Hok]. split_and!; try done; [by apply Hok|].
    cbn in Hf. destruct (activeTrigger p') as [[[] ?]|]; done.
  - exists p, w. rewrite Ha. by split_and!.
Qed.

(** ** Terminal events *)

(** What can run the trigger: the three kinds of listeners, and [run] around a function
    that throws. *)
Inductive terminal_event : Type :=
| TUncaught (err : exn)
| TRejection (reason : Uds.js_value)
| TSignal (sig : string)
| TRun (err : exn).

Definition handle (t : terminal_event) : method Panic unit :=
  match t with
  | TUncaught err => onUncaughtException err
  | TRejection reason => onUnhandledRejection reason
  | TSignal sig => onSig sig
  | TRun err => run (throw err)
  end.

Fixpoint handle_all (ts : list terminal_event) (pw : Panic * World) : Panic * World :=
  match ts with
  | [] => pw
  | t :: ts => handle_all ts (handle t pw).2
  end.

(** The listeners of the host application. *)
Definition app_listeners (p : Panic) : list (owner * event) :=
  filter (fun l => l.1 <> Ours) (listeners p).

Lemma remove_one_app ev ls : filter (fun l => l.1 <> Ours) (remove_one (Ours, ev) ls) = filter (fun l => l.1 <> Ours) ls.
Proof.
  induction ls as [|[o e] ls IH]; [done|]. cbn [remove_one]. case_decide as Heq.
  - injection Heq as <- <-. rewrite filter_cons_False; [done|]. cbn. tauto.
  - rewrite !filter_cons. by rewrite IH.
Qed.

(** One terminal event. *)
Lemma handle_run t p w :
  panic_ok p ->
  exists p' w', (handle t (p, w)).2 = (p', w') /\ grows w w' /\ panic_ok p' /\ armed p' = None
  /\ app_listeners p' = app_listeners p /\ lastTerminalTimestamp p <= lastTerminalTimestamp p'
  /\ (armed p = None -> w' = w /\ lastTerminalTimestamp p' = lastTerminalTimestamp p)
  /\ (forall e, armed p = Some e -> emitted e p w p' w').
Proof.
  intros Hp. destruct (triggerActive_run p w Hp) as (p1 & w1 & E & Hg & Hok & Har & Hls & His & Hh & Hl & Hem).
  assert (forall p2, activeTrigger p2 = activeTrigger p1 -> lastTerminalTimestamp p2 = lastTerminalTimestamp p1 ->
    panic_ok p2 /\ armed p2 = None) as Hsame.
  { intros p2 H1 H2. destruct Hok as [? ?]. unfold armed in *. rewrite H1. split; [|done].
    constructor; rewrite ?H1, ?H2; done. }
  destruct t; unfold handle, onUncaughtException, onUnhandledRejection, onSig, run, removeListener,
    setImmediate, assign; unfold_m; rewrite E; cbn; eexists _, w1; (split; [reflexivity|]);
    (split; [done|]); destruct (Hsame p1 eq_refl eq_refl);
    split_and!; try done; unfold app_listeners; cbn; rewrite ?Hls, ?remove_one_app; try done;
    try (intros Hn; rewrite Hn in Hem; destruct Hem; by subst); try (intros e He; rewrite He in Hem; exact Hem);
    by apply Hsame.
Qed.

Lemma handle_all_disarmed ts p w :
  panic_ok p -> armed p = None ->
  exists p', handle_all ts (p, w) = (p', w) /\ armed p' = None /\ app_listeners p' = app_listeners p
  /\ lastTerminalTimestamp p' = lastTerminalTimestamp p.
Proof.
  revert p w. induction ts as [|t ts IH]; intros p w Hp Ha; [by exists p|]. cbn.
  destruct (handle_run t p w Hp) as (p1 & w1 & -> & _ & Hp1 & Ha1 & Happ & _ & Hsame & _).
  destruct (Hsame Ha) as [-> Hl]. destruct (IH p1 w Hp1 Ha1) as (p' & -> & ? & ? & ?).
  exists p'. split_and!; try done; congruence.
Qed.

Lemma installEmitter_run e p w :
  exists p', installEmitter e (p, w) = (Ret tt, (p', w)) /\ armed p' = Some e
  /\ handlersInstalled p' = true /\ immediates p' = immediates p
  /\ lastTerminalTimestamp p' = lastTerminalTimestamp p
  /\ listeners p' = listeners p ++
       (if handlersInstalled p then []
        else map (pair Ours) (UncaughtException :: UnhandledRejection :: map Signal FATAL_SIGNALS))
  /\ (panic_ok p -> emitter_ok e -> panic_ok p').
Proof.
  unfold installEmitter, process_on, FATAL_SIGNALS, self, assign. cbn [foldr map]. unfold_m. cbn.
  destruct (handlersInstalled p) eqn:Hh; cbn; eexists; (split; [reflexivity|]); unfold armed; cbn;
    rewrite ?app_nil_r, <- ?(assoc_L (++)); split_and!; try done;
    intros [? ?] ?; (constructor; cbn; [done|]); by intros t [= <-].
Qed.

(** ** Properties *)

(** C19. Terminal timestamps are strictly increasing and never the invalid one.
    [nextTerminalTimestamp] never throws; what it returns is later than every timestamp
    it has returned before, at least the elapsed time (and at least 1), below 2^64 - 1,
    and remembered. It returns [undefined], remembering nothing, only when no such
    timestamp is left. *)
Theorem terminal_clock_strict (p : Panic) (w : World) :
  0 <= lastTerminalTimestamp p ->
  match nextTerminalTimestamp (p, w) with
  | (Ret (Some ts), (p', _)) =>
      lastTerminalTimestamp p < ts < TIMESTAMP_INVALID /\ terminal_raw p w <= ts
      /\ lastTerminalTimestamp p' = ts
  | (Ret None, (p', _)) =>
      p' = p /\ TIMESTAMP_INVALID <= Z.max (terminal_raw p w) (lastTerminalTimestamp p + 1)
  | (Throw _, _) => False
  end.
Proof.
  intros Hl. rewrite next_run. cbn zeta.
  destruct (Z.ltb_spec (Z.max (terminal_raw p w) (lastTerminalTimestamp p + 1)) TIMESTAMP_INVALID);
    cbn; [split_and!; lia|done].
Qed.

(** The critical frame is one the observer accepts: for a pid of at least 2, and as
    long as the terminal clock has a timestamp left, [buildCriticalFrame] returns a fresh
    buffer that [decode] reads as status [Critical], the terminal nonce, the current pid,
    the payload, and a timestamp later than that of every earlier critical frame. *)
Theorem critical_frame_accepted (payload : jsnum) (p : Panic) (w : World) :
  0 <= lastTerminalTimestamp p -> 2 <= wrap32 (w_pid w) ->
  terminal_raw p w < TIMESTAMP_INVALID -> lastTerminalTimestamp p < TIMESTAMP_INVALID - 1 ->
  exists l p' w', buildCriticalFrame payload (p, w) = (Ret (Some l), (p', w'))
  /\ (w_next w <= l < w_next w')%nat
  /\ lastTerminalTimestamp p < lastTerminalTimestamp p'
  /\ decode (contents w' l) =
      inr (mkFrame Critical (wrap32 (w_pid w)) (lastTerminalTimestamp p') NONCE_TERMINAL (to_uint32 payload)).
Proof.
  intros Hl Hpid Hraw Hlast. unfold buildCriticalFrame. unfold_m.
  destruct (build_run payload p w Hl) as (m & w' & -> & _ & _ & Hm).
  rewrite (proj2 (Z.ltb_lt _ _)) in Hm by lia. destruct Hm as (-> & Hn & Hc). cbn.
  eexists _, _, w'. split; [done|]. split; [lia|]. split; [cbn; lia|].
  rewrite Hc. apply decode_wire_of. unfold valid_frame, terminal_frame.
  cbn [fr_status fr_pid fr_timestamp fr_nonce fr_payload lastTerminalTimestamp set_lastTerminalTimestamp].
  split_and!; try done; try apply wrap32_range; try apply to_uint32_range;
    unfold is_u64, TIMESTAMP_INVALID, NONCE_TERMINAL in *; lia.
Qed.

(** C8. One terminal frame per installation. After an installer has published its
    emitter, any sequence of uncaught exceptions, unhandled rejections, signals and [run]
    wrappers, in any order and number, hands at most one datagram to a socket. It carries
    the critical frame of that moment, under a timestamp later than all before; over the
    secure transport the peer opens it with the key, under the nonce derived from salt,
    pid, timestamp and counter. The host application's own listeners all stay. *)
Theorem at_most_one_terminal_frame (e : Emitter) (ts : list terminal_event) (p : Panic) (w : World) :
  panic_ok p -> emitter_ok e ->
  exists p1 p' w', installEmitter e (p, w) = (Ret tt, (p1, w)) /\ handle_all ts (p1, w) = (p', w')
  /\ emitted e p w p' w' /\ app_listeners p' = app_listeners p
  /\ (ts <> [] -> armed p' = None).
Proof.
  intros Hp He. destruct (installEmitter_run e p w) as (p1 & -> & Ha & Hh & Hi & Hl & Hls & Hok).
  specialize (Hok Hp He). exists p1.
  assert (app_listeners p1 = app_listeners p) as Happ.
  { unfold app_listeners. rewrite Hls, list.filter_app. destruct (handlersInstalled p); by rewrite app_nil_r. }
  destruct ts as [|t ts]; cbn.
  { exists p1, w. split_and!; try done. by left. }
  destruct (handle_run t p1 w Hok) as (p2 & w2 & -> & _ & Hp2 & Ha2 & Happ2 & _ & _ & Hem).
  destruct (handle_all_disarmed ts p2 w2 Hp2 Ha2) as (p' & -> & Ha' & Happ' & Hl').
  exists p', w2. split_and!; try done; [|congruence]. specialize (Hem e Ha). unfold emitted in *.
  rewrite Hl', <- Hl. exact Hem.
Qed.

(** Listeners: each of the module's listeners returns normally, removes exactly its
    own registration from the process (one entry, never another one's), and defers
    exactly one action: throwing the error again, or sending the signal to the process
    again. [run] rethrows the error of the wrapped function, after the trigger, and is
    transparent when the function returns. *)
Theorem listeners_step_aside (p : Panic) (w : World) (err : exn) (sig : string) (fn : method Panic unit) :
  panic_ok p ->
  (exists p' w', onUncaughtException err (p, w) = (Ret tt, (p', w'))
     /\ listeners p' = remove_one (Ours, UncaughtException) (listeners p)
     /\ immediates p' = immediates p ++ [Rethrow err])
  /\ (exists p' w', onUnhandledRejection (Uds.JsError err) (p, w) = (Ret tt, (p', w'))
     /\ listeners p' = remove_one (Ours, UnhandledRejection) (listeners p)
     /\ immediates p' = immediates p ++ [Rethrow err])
  /\ (exists p' w', onSig sig (p, w) = (Ret tt, (p', w'))
     /\ listeners p' = remove_one (Ours, Signal sig) (listeners p)
     /\ immediates p' = immediates p ++ [Kill sig])
  /\ (forall pw, fn (p, w) = (Ret tt, pw) -> run fn (p, w) = (Ret tt, pw))
  /\ (fn (p, w) = (Throw err, (p, w)) ->
      exists p' w', run fn (p, w) = (Throw err, (p', w')) /\ armed p' = None
      /\ match armed p with Some e => emitted e p w p' w' | None => p' = p /\ w' = w end).
Proof.
  intros Hp. destruct (triggerActive_run p w Hp) as (p1 & w1 & E & _ & _ & Ha & Hls & His & _ & _ & Hem).
  unfold onUncaughtException, onUnhandledRejection, onSig, run, removeListener, setImmediate, assign.
  unfold_m. rewrite E. cbn. rewrite Hls, His. split_and!; try (by eexists _, _).
  - intros pw Hf. by rewrite Hf.
  - intros Hf. rewrite Hf, E. by exists p1, w1.
Qed.

(** An installer either throws one of its documented errors with the module untouched,
    or arms a fresh trigger of the right kind and registers the six listeners, once
    per process. *)
Definition installs (p : Panic) (kinds : list string) (good : Emitter -> Prop)
    (out : res unit * (Panic * World)) : Prop :=
  match out with
  | (Throw e, (p', _)) => p' = p
      /\ exists k m, k ∈ kinds /\ e = PanicInstallError k m
  | (Ret _, (p', _)) => (exists e, armed p' = Some e /\ good e) /\ handlersInstalled p' = true
      /\ listeners p' = listeners p ++
          (if handlersInstalled p then []
           else map (pair Ours) (UncaughtException :: UnhandledRejection :: map Signal FATAL_SIGNALS))
  end.

Lemma install_armed e p w kinds (good : Emitter -> Prop) :
  good e -> installs p kinds good (installEmitter e (p, w)).
Proof.
  intros Hg. destruct (installEmitter_run e p w) as (p' & -> & Ha & Hh & _ & _ & Hls & _). cbn. eauto.
Qed.

Lemma or_install_error_run {A} kind (m : M World A) p w :
  or_install_error kind m (p, w) =
  match m w with
  | (Ret a, w') => (Ret a, (p, w'))
  | (Throw e, w') => (Throw (PanicInstallError kind (exn_message e)), (p, w'))
  end.
Proof. unfold or_install_error, sys. unfold_m. cbn. by destruct (m w) as [[]]. Qed.

Lemma randomBytes_throw n w e w' : randomBytes n w = (Throw e, w') -> w_sockets w' = w_sockets w.
Proof.
  unfold randomBytes, may_throw, draw. unfold_m. destruct (w_fault w (w_calls w)); by intros [= <- <-].
Qed.

(** C20. Installation is fail-closed. Each installer throws only its documented errors
    ([PanicInstallError] of kind [SocketBind], [UdsUnavailable] or [EntropyUnavailable];
    a [RangeError] for a key that is not 32 bytes), and then publishes nothing, registers
    nothing and leaves an earlier installation armed; otherwise it arms a trigger that
    has not fired, the secure one with 16 bytes of fresh entropy, counter 0 and the
    given key, and registers the listeners if no installer has done so before. When
    the entropy source throws, no socket is opened. *)
Theorem install_fail_closed (p : Panic) (w : World) (host path : string) (port : jsnum) (key : bytes) :
  entropy_ok w ->
  installs p ["SocketBind"%string] (fun e => exists s, e = EmitUdp s)
    (installSignalHandlerUdp host port (p, w))
  /\ installs p ["UdsUnavailable"; "SocketBind"]%string
       (fun e => exists t, e = EmitUds t /\ Uds.uds_path t = path /\ Uds.uds_pendingError t = None)
       (installSignalHandlerUds path (p, w))
  /\ (length key = 32%nat ->
      installs p ["EntropyUnavailable"; "SocketBind"]%string
        (fun e => exists s, e = EmitSecureUdp s (w_random w (w_draws w) 16) 0 key /\ emitter_ok e)
        (installSignalHandlerSecureUdp host port key (p, w))
      /\ (forall e w', randomBytes 16 w = (Throw e, w') ->
          installSignalHandlerSecureUdp host port key (p, w) =
            (Throw (PanicInstallError "EntropyUnavailable" (exn_message e)), (p, w'))
          /\ w_sockets w' = w_sockets w))
  /\ (length key <> 32%nat ->
      installSignalHandlerSecureUdp host port key (p, w) = (Throw (range_error "key must be 32 bytes"), (p, w))).
Proof.
  intros He. split_and!.
  - unfold installSignalHandlerUdp. unfold_m. rewrite or_install_error_run.
    destruct (createConnectedSocket host port w) as [[s|e] w1]; [apply install_armed; eauto|].
    split; [done|]. eexists _, _. split; [|done]. by apply list_elem_of_singleton.
  - unfold installSignalHandlerUds, Uds.newUdsTransport, sys. unfold_m. cbn.
    destruct (Uds.openSocket w) as [[s|e] w1]; cbn; [apply install_armed; by eexists|].
    case_decide; (split; [done|]); eexists _, _; (split; [|done]); set_solver.
  - intros Hk. unfold installSignalHandlerSecureUdp. unfold_m.
    rewrite bool_decide_true by done. cbn [negb]. rewrite or_install_error_run.
    change SESSION_SALT_BYTES with 16%nat. pose proof (randomBytes_throw 16 w) as Hns.
    destruct (randomBytes_run 16 w) as (r & w1 & E & Hq & Hr). rewrite E in *. split.
    + destruct r as [salt|e]; [|split; [done|]; eexists _, _; split; [|done]; set_solver].
      destruct Hr as [-> _]. rewrite or_install_error_run.
      destruct (createConnectedSocket host port w1) as [[s|e] w2].
      * apply install_armed. exists s. split; [done|]. split_and!; [apply He|done|split; lia].
      * split; [done|]. eexists _, _; split; [|done]; set_solver.
    + intros e w' [= -> ->]. split; [done|]. by eapply Hns.
  - intros Hk. unfold installSignalHandlerSecureUdp. by rewrite bool_decide_false.
Qed.
End panic.

(** ** Examples, with the toy cryptography *)

#[local] Existing Instance toy_crypto.
#[local] Existing Instance toy_laws.

Definition demo_panic : Panic := mkPanic None false 0 0 [(App 1, Signal "SIGTERM")] [].

Lemma demo_panic_ok : panic_ok demo_panic.
Proof. by constructor. Qed.

Lemma terminal_clock_strict_witness :
  exists ts p' w', nextTerminalTimestamp (demo_panic, demo_world []) = (Ret (Some ts), (p', w'))
  /\ 0 < ts < TIMESTAMP_INVALID.
Proof.
  pose proof (terminal_clock_strict demo_panic (demo_world []) ltac:(done)) as Ht.
  exists 1000. eexists _, _. split; [vm_compute; reflexivity|].
  destruct (nextTerminalTimestamp (demo_panic, demo_world [])) as [[[ts|]|] [p' w']] eqn:E;
    [|by vm_compute in E..].
  assert (ts = 1000) as -> by (vm_compute in E; by injection E). apply Ht.
Defined.

Lemma critical_frame_accepted_witness :
  exists l p' w', buildCriticalFrame (jint 7) (demo_panic, demo_world []) = (Ret (Some l), (p', w'))
  /\ decode (contents w' l) =
      inr (mkFrame Critical 4821 (lastTerminalTimestamp p') NONCE_TERMINAL 7).
Proof.
  destruct (critical_frame_accepted (jint 7) demo_panic (demo_world [])) as (l & p' & w' & E & _ & _ & Hd);
    [vm_compute; congruence..|]. exists l, p', w'. split; [exact E|].
  assert (wrap32 (w_pid (demo_world [])) = 4821) as Hw by reflexivity.
  assert (to_uint32 (jint 7) = 7) as Hp by reflexivity. rewrite Hw, Hp in Hd. exact Hd.
Defined.

(** A signal, then the exception it provokes: one datagram. *)
Lemma at_most_one_terminal_frame_witness :
  exists p' w', emitted (EmitSecureUdp 3 (replicate 16 1) 0 (replicate 32 7)) demo_panic (demo_world []) p' w'
  /\ length (w_inflight w') = 1%nat /\ app_listeners p' = [(App 1, Signal "SIGTERM")].
Proof.
  destruct (at_most_one_terminal_frame (EmitSecureUdp 3 (replicate 16 1) 0 (replicate 32 7))
    [TSignal "SIGTERM"; TUncaught (plain_error "boom")] demo_panic (demo_world []) demo_panic_ok)
    as (p1 & p' & w' & E1 & E2 & Hem & Happ & _); [by split_and!|].
  exists p', w'. split; [exact Hem|]. split; [|exact Happ].
  assert (p1 = (installEmitter (EmitSecureUdp 3 (replicate 16 1) 0 (replicate 32 7))
    (demo_panic, demo_world [])).2.1) as -> by (by rewrite E1).
  apply (f_equal (fun pw => length (w_inflight pw.2))) in E2. cbn [snd] in E2. rewrite <- E2.
  vm_compute. reflexivity.
Defined.

Lemma listeners_step_aside_witness :
  exists p' w', onSig "SIGTERM" (demo_panic, demo_world []) = (Ret tt, (p', w'))
  /\ listeners p' = [(App 1, Signal "SIGTERM")] /\ immediates p' = [Kill "SIGTERM"].
Proof.
  destruct (listeners_step_aside demo_panic (demo_world []) (plain_error "boom") "SIGTERM" (mret tt)
    demo_panic_ok) as (_ & _ & (p' & w' & E & Hl & Hi) & _).
  exists p', w'. split; [exact E|]. split; [exact Hl|exact Hi].
Defined.

Lemma install_fail_closed_witness :
  installSignalHandlerSecureUdp "127.0.0.1" (jint 9000) (replicate 32 7)
    (demo_panic, demo_world [(0%nat, plain_error "no entropy")])
  = (Throw (PanicInstallError "EntropyUnavailable" "no entropy"),
     (demo_panic, (randomBytes 16 (demo_world [(0%nat, plain_error "no entropy")])).2)).
Proof.
  pose proof (install_fail_closed demo_panic (demo_world [(0%nat, plain_error "no entropy")])
    "127.0.0.1" "/run/varta.sock" (jint 9000) (replicate 32 7)
    (proj2 (demo_world_ok [(0%nat, plain_error "no entropy")]))) as (_ & _ & Hs & _).
  exact (proj1 (proj2 (Hs eq_refl) (plain_error "no entropy") _ eq_refl)).
Defined.
