(* ===== verification/System.v ===== *)
(** * The client put together (src/clients/node/src/client.ts, lines 130-161)

    The static constructors of [Varta] over the three transports, and what holds of the
    whole: the frames of an agent reach the peer's decoder, and a forked child never
    seals under a nonce of its parent's session. *)

From S2P Require Import Prelude NodeBuffer Crc Vlp VlpSecure Errno Outcome Runtime Transport.
From S2P Require Uds Udp SecureUdp.
From S2P Require Import Client.

Section connect.
Context `{NodeCrypto} `{Platform}.

Definition connectUds (path : string) : M World (Varta Uds.UdsTransport) :=
  t ← Uds.newUdsTransport path; newVarta t.

Definition connectUdp (host : string) (port : jsnum) : M World (Varta Udp.UdpTransport) :=
  t ← Udp.newUdpTransport host port; newVarta t.

Definition connectSecureUdp (host : string) (port : jsnum) (key : bytes)
    : M World (Varta SecureUdp.SecureUdpTransport) :=
  t ← SecureUdp.shared host port key; newVarta t.

Definition connectSecureUdpWithMaster (host : string) (port : jsnum) (masterKey : bytes)
    : M World (Varta SecureUdp.SecureUdpTransport) :=
  t ← SecureUdp.master host port masterKey; newVarta t.

Context `{!CryptoLaws}.

(** ** Lemmas *)

(** A constructor of a transport that starts with an empty queue gives a transport in
    order, in a world that has only moved on quietly. *)
Definition starts {T} `{BeatTransportLaws T} (m : M World T) : Prop :=
  forall w t w', world_ok w -> allocated w (map dg_buffer (w_inflight w)) ->
  m w = (Ret t, w') -> bt_inv t /\ bt_queue t = [] /\ quiet w w'.

Lemma starts_ok {T} `{BeatTransportLaws T} (m : M World T) w t w' :
  starts m -> world_ok w -> allocated w (map dg_buffer (w_inflight w)) -> m w = (Ret t, w') ->
  bt_ok t w' /\ w_pid w' = w_pid w.
Proof.
  intros Hm Hw Ha Hrun. destruct (Hm _ _ _ Hw Ha Hrun) as (Hi & Hq & Hqu).
  pose proof (qu_evolves _ _ Hqu) as Hev. split; [|apply Hev]. split_and!; [by eapply quiet_world_ok|done|].
  unfold bt_outbox, outbox_of. rewrite Hq, app_nil_r, (qu_inflight _ _ Hqu).
  by eapply evolves_allocated.
Qed.

Lemma uds_starts path : starts (Uds.newUdsTransport path).
Proof.
  intros w t w' _ _ Hrun. unfold Uds.newUdsTransport in Hrun. unfold_m.
  pose proof (Uds.quiet_uds_openSocket w) as Hq.
  destruct (Uds.openSocket w) as [[s|e] w1]; by simplify_eq/=.
Qed.

Lemma udp_starts h p : starts (Udp.newUdpTransport h p).
Proof.
  intros w t w' _ _ Hrun. unfold Udp.newUdpTransport in Hrun. unfold_m.
  pose proof (Udp.quiet_udp_openSocket h p w) as Hq.
  destruct (Udp.openSocket h p w) as [[s|e] w1]; simplify_eq/=. split_and!; try done.
  split; cbn; unfold Udp.PRE_CONNECT_QUEUE_LIMIT; lia || done.
Qed.

Lemma shared_starts h p key : starts (SecureUdp.shared h p key).
Proof.
  intros w t w' Hw _ Hrun. unfold SecureUdp.shared in Hrun.
  destruct (bool_decide (length key = 32%nat)) eqn:Hk; cbn in Hrun; [|done].
  apply bool_decide_eq_true in Hk.
  by destruct (SecureUdp.newSecure_run _ _ _ _ _ _ Hw (Hk : SecureUdp.key_ok (SecureUdp.SecureKeyShared key)) Hrun) as ((s & ->) & Hinv & Hq & _).
Qed.

Lemma master_starts h p key : starts (SecureUdp.master h p key).
Proof.
  intros w t w' Hw _ Hrun. unfold SecureUdp.master in Hrun.
  destruct (bool_decide (length key = 32%nat)) eqn:Hk; cbn in Hrun; [|done].
  apply bool_decide_eq_true in Hk.
  by destruct (SecureUdp.newSecure_run _ _ _ _ _ _ Hw (Hk : SecureUdp.key_ok (SecureUdp.SecureKeyMaster key)) Hrun) as ((s & ->) & Hinv & Hq & _).
Qed.

(** Connecting: the transport's constructor, then the agent's. *)
Lemma connect_run {T} `{BeatTransportLaws T} (m : M World T) w v w' :
  starts m -> world_ok w -> allocated w (map dg_buffer (w_inflight w)) ->
  (t ← m; newVarta t) w = (Ret v, w') -> agent_run v w' [] /\ agent_ok v w' /\ nonce v = 0
    /\ connectPid v = w_pid w /\ closed v = false.
Proof.
  intros Hm Hw Ha Hrun. unfold mbind, M_bind in Hrun. destruct (m w) as [[t|e] w1] eqn:E; [|done].
  destruct (starts_ok m w t w1 Hm Hw Ha E) as [Hok Hpid].
  destruct (new_agent_ok t w1 v w' Hok Hrun) as [Hv Hn]. split_and!; try done.
  - by eapply ar_new.
  - unfold newVarta, monotonicNs, hrtime in Hrun. unfold_m.
    destruct (new_buffer_run (buf_alloc FRAME_BYTES) w1) as (w2 & E2 & Hev & _).
    rewrite E2 in Hrun. injection Hrun as <- <-. cbn. rewrite (ev_pid _ _ Hev). done.
  - unfold newVarta, monotonicNs, hrtime in Hrun. unfold_m.
    destruct (new_buffer_run (buf_alloc FRAME_BYTES) w1) as (w2 & E2 & Hev & _).
    rewrite E2 in Hrun. by injection Hrun as <- <-.
Qed.

(** ** Properties *)

(** Every way to connect yields an agent to which all the theorems about agents
    apply: whichever of the four constructors returns, in a process whose heap and
    entropy are in order, the agent satisfies the invariant and starts an empty session
    under the current pid with nonce 0 committed. A secure constructor given a key that is
    not 32 bytes throws a [RangeError] before it opens anything. *)
Theorem connect_starts_a_session (w : World) (path host : string) (port : jsnum) (key : bytes) :
  world_ok w -> allocated w (map dg_buffer (w_inflight w)) ->
  (forall v w', connectUds path w = (Ret v, w') ->
     agent_run v w' [] /\ agent_ok v w' /\ nonce v = 0 /\ connectPid v = w_pid w /\ closed v = false)
  /\ (forall v w', connectUdp host port w = (Ret v, w') ->
     agent_run v w' [] /\ agent_ok v w' /\ nonce v = 0 /\ connectPid v = w_pid w /\ closed v = false)
  /\ (forall v w', connectSecureUdp host port key w = (Ret v, w')
       \/ connectSecureUdpWithMaster host port key w = (Ret v, w') ->
     agent_run v w' [] /\ agent_ok v w' /\ nonce v = 0 /\ connectPid v = w_pid w /\ closed v = false)
  /\ (length key <> 32%nat ->
     connectSecureUdp host port key w = (Throw (range_error "secure-UDP shared key must be 32 bytes"), w)
     /\ connectSecureUdpWithMaster host port key w
        = (Throw (range_error "secure-UDP master key must be 32 bytes"), w)).
Proof.
  intros Hw Ha. split_and!.
  - intros v w'. apply connect_run; auto using uds_starts.
  - intros v w'. apply connect_run; auto using udp_starts.
  - intros v w' [Hr|Hr]; revert Hr; apply connect_run; auto using shared_starts, master_starts.
  - intros Hk. unfold connectSecureUdp, connectSecureUdpWithMaster, SecureUdp.shared, SecureUdp.master.
    by rewrite bool_decide_false.
Qed.

(** C11. End to end over the secure transport. A beat that the agent reports as sent has
    put exactly one datagram in the outbox, in a buffer of its own; the peer that holds
    the key opens it ([decodeShared] or [decodeMaster]) and decodes it to the status,
    pid and payload of the call, the nonce that the agent has committed and a timestamp
    that is the committed one, provided the pid is at least 2 and the clock has not
    saturated. *)
Theorem secure_beat_end_to_end (v : Varta SecureUdp.SecureUdpTransport) (w : World) (st : StatusLike)
    (payload : jsnum) (v' : Varta SecureUdp.SecureUdpTransport) (w' : World) :
  agent_ok v w -> beat st payload (v, w) = (Ret sent, (v', w')) ->
  2 <= to_uint32 (jint (w_pid w)) -> lastTimestamp v' <> TIMESTAMP_INVALID ->
  exists o f frame, bt_outbox (transport v') w' ≡ₚ o :: bt_outbox (transport v) w
  /\ SecureUdp.opener (SecureUdp.secret (transport v)) (contents w' o) = Ret frame
  /\ decode frame = inr f
  /\ coerceBeatStatus st = Some (fr_status f) /\ fr_pid f = to_uint32 (jint (w_pid w))
  /\ fr_payload f = to_uint32 payload /\ fr_nonce f = nonce v' /\ fr_timestamp f = lastTimestamp v'.
Proof.
  intros Hok Hb Hpid Hts. destruct (beat_numbers v w st payload Hok) as (o & v1 & w1 & Hb' & Hok' & Hc).
  rewrite Hb in Hb'. symmetry in Hb'. simplify_eq.
  destruct Hc as [[? _]|(n0 & last0 & _ & f & (loc & _ & Hp & Hop) & (Hst & Hs & Hfp & Hpl) & _ & _ & _ & Hn & Ht)]; [done|].
  exists loc, f, (wire_of f). split; [exact Hp|]. split; [exact Hop|]. split; [|by split_and!].
  apply decode_wire_of. destruct Hok' as [_ Hnr Htr]. rewrite Hn, Ht in *. unfold valid_frame.
  rewrite Hfp, Hpl. split_and!; try done; try apply to_uint32_range; unfold is_u64, NONCE_TERMINAL in *;
    [lia|intros Heq; lia].
Qed.

(** A session that started after [w0] and has sealed nothing yet. *)
Definition fresh_session (w0 : World) (b : nat) (t : SecureUdp.SecureUdpTransport) (w : World) : Prop :=
  carrier_ok t b w /\ w_random w = w_random w0
  /\ exists n, (w_draws w0 <= n < w_draws w)%nat
     /\ SecureUdp.sessionSalt t = w_random w0 n SESSION_SALT_BYTES
     /\ SecureUdp.prefixIndex t = 0 /\ SecureUdp.counter t = 0.

Lemma fresh_reject w0 b t w e t' w' :
  fresh_session w0 b t w -> bt_send b (t, w) = (Throw e, (t', w')) -> fresh_session w0 b t' w'.
Proof.
  intros (Hc & Hr & n & Hn & Hs & Hi & Hctr) Hrun.
  destruct (carrier_send t b w Hc) as (r & t1 & w1 & Hrun' & Hc' & Hev & _).
  rewrite Hrun in Hrun'. symmetry in Hrun'. simplify_eq.
  destruct Hc as [(Hw & Hinv & _) _ Hlen _].
  destruct (SecureUdp.secure_send_run t w b Hinv (proj2 Hw) Hlen) as (r2 & t2 & w2 & Hrun2 & _ & Hr2).
  cbn in Hrun. rewrite Hrun in Hrun2. symmetry in Hrun2. simplify_eq.
  assert (SecureUdp.sessionSalt t' = SecureUdp.sessionSalt t
    /\ SecureUdp.prefixIndex t' = SecureUdp.prefixIndex t /\ SecureUdp.counter t' = SecureUdp.counter t)
    as (E1 & E2 & E3).
  { destruct (Udp.udp_pendingError (SecureUdp.link t)); [destruct Hr2 as (_ & _ & ->); done|].
    by destruct Hr2 as [-> _]. }
  split; [done|]. split; [by rewrite (ev_random _ _ Hev)|]. exists n. pose proof (ev_draws _ _ Hev).
  split_and!; try congruence; lia.
Qed.

Lemma fresh_after_reconnect w0 b t w t' w' :
  carrier_ok t b w -> w_random w = w_random w0 -> (w_draws w0 <= w_draws w)%nat ->
  bt_reconnect (t, w) = (Ret tt, (t', w')) -> fresh_session w0 b t' w'.
Proof.
  intros Hc Hr Hd Hrun. destruct (carrier_reconnect t b w Hc) as (r & t1 & w1 & Hrun' & Hc' & Hev & _).
  rewrite Hrun in Hrun'. symmetry in Hrun'. simplify_eq. destruct Hc as [(Hw & _) _ _ _].
  destruct (SecureUdp.secure_reconnect_run t w (proj2 Hw)) as (r2 & t2 & w2 & Hrun2 & _ & Hr2).
  cbn in Hrun. rewrite Hrun in Hrun2. symmetry in Hrun2. simplify_eq.
  destruct Hr2 as (Hd' & s & _ & ->). split; [done|]. split; [by rewrite (ev_random _ _ Hev)|].
  exists (w_draws w). cbn. rewrite Hr. split_and!; try done; lia.
Qed.

Lemma fresh_reconnect w0 b t w r t' w' :
  fresh_session w0 b t w -> bt_reconnect (t, w) = (r, (t', w')) -> fresh_session w0 b t' w'.
Proof.
  intros Hf Hrun. pose proof Hf as (Hc & Hr & n & Hn & Hs & Hi & Hctr). destruct r as [[]|e].
  - eapply fresh_after_reconnect; [exact Hc|done|lia|exact Hrun].
  - destruct (carrier_reconnect t b w Hc) as (r & t1 & w1 & Hrun' & Hc' & Hev & _ & _ & _ & Hthrow).
    rewrite Hrun in Hrun'. symmetry in Hrun'. simplify_eq.
    split; [done|]. split; [by rewrite (ev_random _ _ Hev)|]. exists n. pose proof (ev_draws _ _ Hev).
    split_and!; done || lia.
Qed.

Lemma fresh_world w0 b t w w' :
  w_random w' = w_random w -> w_draws w' = w_draws w -> carrier_ok t b w' ->
  fresh_session w0 b t w -> fresh_session w0 b t w'.
Proof. intros Hr Hd Hc (_ & Hr0 & n & Hn & Hs). split; [done|]. split; [congruence|]. exists n. by rewrite Hd. Qed.

Lemma write_carrier {T} `{BeatTransportLaws T} (t : T) b w frame :
  length frame = 32%nat -> carrier_ok t b w -> carrier_ok t b (set_contents b frame w).
Proof.
  intros Hf [(Hw & Hi & Ha) Hb Hl Ho].
  constructor; [|done|unfold contents; cbn; by rewrite lookup_insert_eq|done].
  split_and!; [by apply set_contents_world_ok|done..].
Qed.

(** The nonce of a frame accepted from a fresh session. *)
Lemma fresh_send w0 b t w t' w' :
  fresh_session w0 b t w -> bt_send b (t, w) = (Ret tt, (t', w')) ->
  exists n, (w_draws w0 <= n < w_draws w')%nat
  /\ SecureUdp.wire_nonce (SecureUdp.secret t) (contents w' (w_next w)) =
      aead_nonce (SecureUdp.iv_prefix (w_random w0 n SESSION_SALT_BYTES) 0) 0
  /\ bt_outbox t' w' ≡ₚ w_next w :: bt_outbox t w.
Proof.
  intros (Hc & Hr & n & Hn & Hs & Hi & Hctr) Hrun. pose proof Hc as [(Hw & Hinv & _) _ Hlen _].
  destruct (SecureUdp.secure_send_run t w b Hinv (proj2 Hw) Hlen) as (r2 & t2 & w2 & Hrun2 & Hev & Hr2).
  cbn in Hrun. rewrite Hrun in Hrun2. symmetry in Hrun2. simplify_eq.
  destruct (Udp.udp_pendingError (SecureUdp.link t)); [by destruct Hr2|].
  destruct Hr2 as (t1 & w1 & index & ctr & u & Hx & Hseal & Hnx & Hd & -> & Hlim & Hul).
  destruct (SecureUdp.session_used _ _ _ _ _ _ Hinv (proj2 Hw) Hx)
    as (Hinv1 & _ & Hiu & Hcr & Hq & Hqq & Hct & _).
  destruct (SecureUdp.secure_accepted t t1 w1 w w' u index ctr) as [_ Hp]; try done.
  unfold SecureUdp.exhausted, SecureUdp.next_index, SecureUdp.next_ctr in Hx. rewrite Hctr, Hi in Hx.
  destruct Hx as (-> & -> & -> & ->). exists n. split; [rewrite Hd; lia|]. split; [|exact Hp].
  rewrite <- Hs. eapply SecureUdp.seal_opens; [apply Hinv|exact Hlen|by split|exact Hseal].
Qed.

(** The same, with the outbox and the key as they were when the child first ran. *)
Definition child_session (w0 : World) (b : nat) (out : list nat) (k : SecureUdp.SecureKey)
    (t : SecureUdp.SecureUdpTransport) (w : World) : Prop :=
  fresh_session w0 b t w /\ bt_outbox t w = out /\ SecureUdp.secret t = k.

Lemma secret_kept b t w r t' w' :
  carrier_ok t b w -> bt_send b (t, w) = (r, (t', w')) \/ bt_reconnect (t, w) = (r, (t', w')) ->
  SecureUdp.secret t' = SecureUdp.secret t.
Proof.
  intros [(Hw & Hinv & _) _ Hlen _] [Hrun|Hrun].
  - destruct (SecureUdp.secure_send_run t w b Hinv (proj2 Hw) Hlen) as (r2 & t2 & w2 & Hrun2 & _ & Hr).
    cbn in Hrun. rewrite Hrun in Hrun2. symmetry in Hrun2. simplify_eq.
    destruct (Udp.udp_pendingError (SecureUdp.link t)); [by destruct Hr as (_ & _ & ->)|].
    destruct r; [|by destruct Hr as [-> _]].
    by destruct Hr as (t1 & w1 & index & ctr & u & _ & _ & _ & _ & -> & _).
  - destruct (SecureUdp.secure_reconnect_run t w (proj2 Hw)) as (r2 & t2 & w2 & Hrun2 & _ & Hr).
    cbn in Hrun. rewrite Hrun in Hrun2. symmetry in Hrun2. simplify_eq.
    destruct r; [by destruct Hr as (_ & s & _ & ->)|by subst].
Qed.

Section child.
Variables (w0 : World) (b : nat) (out : list nat) (k : SecureUdp.SecureKey).
Let Q := child_session w0 b out k.

Lemma child_reject t w e t' w' : Q t w -> bt_send b (t, w) = (Throw e, (t', w')) -> Q t' w'.
Proof.
  intros (Hf & Hout & Hsec) Hrun. pose proof Hf as (Hc & _).
  destruct (carrier_send _ _ _ Hc) as (r & t2 & w3 & Hrun' & _ & _ & _ & _ & Hr).
  rewrite Hrun in Hrun'. injection Hrun' as <- <- <-.
  split; [by eapply fresh_reject|]. split; [congruence|].
  rewrite <- Hsec. eapply secret_kept; [exact Hc|left; exact Hrun].
Qed.

Lemma child_reconnect t w r t' w' : Q t w -> bt_reconnect (t, w) = (r, (t', w')) -> Q t' w'.
Proof.
  intros (Hf & Hout & Hsec) Hrun. pose proof Hf as (Hc & _).
  destruct (carrier_reconnect _ _ _ Hc) as (r2 & t2 & w3 & Hrun' & _ & _ & _ & _ & Ho2 & _).
  rewrite Hrun in Hrun'. injection Hrun' as <- <- <-.
  split; [by eapply fresh_reconnect|]. split; [congruence|].
  rewrite <- Hsec. eapply secret_kept; [exact Hc|right; exact Hrun].
Qed.

Lemma child_tick t w : Q t w -> Q t (hrtime w).2.
Proof.
  intros (Hf & Hout & Hsec). split; [|done].
  apply (fresh_world _ _ _ w); [done..| |exact Hf]. apply tick_carrier, Hf.
Qed.

Lemma child_write t w frame : length frame = 32%nat -> Q t w -> Q t (set_contents b frame w).
Proof.
  intros Hlen (Hf & Hout & Hsec). split; [|done].
  apply (fresh_world _ _ _ w); [done..| |exact Hf]. apply write_carrier; [done|apply Hf].
Qed.
End child.

(** C4. Fork safety of the secure session. When a forked child (or any process whose pid
    is not the one the agent connected under) sends its first frame, the frame is sealed
    under slot (0, 0) of a salt that the entropy source delivered after the fork: never
    under a salt, prefix or counter inherited from the parent, even when the first
    attempt is dropped and retried. *)
Theorem forked_child_seals_under_fresh_salt (v : Varta SecureUdp.SecureUdpTransport) (w : World)
    (st : StatusLike) (payload : jsnum) (v' : Varta SecureUdp.SecureUdpTransport) (w' : World) :
  agent_ok v w -> w_pid w <> connectPid v -> beat st payload (v, w) = (Ret sent, (v', w')) ->
  exists o n, bt_outbox (transport v') w' ≡ₚ o :: bt_outbox (transport v) w
  /\ (w_draws w <= n < w_draws w')%nat
  /\ SecureUdp.wire_nonce (SecureUdp.secret (transport v)) (contents w' o)
     = aead_nonce (SecureUdp.iv_prefix (w_random w n SESSION_SALT_BYTES) 0) 0.
Proof.
  intros Hok Hpid Hb. destruct (beat_sent_inv _ _ _ _ _ Hb) as (s & Hst & Hs & Hcl).
  rewrite (beat_unfold st s) in Hb by done.
  destruct (recoverFork_run v w (w_pid w) (ao_carrier _ _ Hok))
    as [[? _]|[(_ & e & w1 & _ & E & _)|(_ & t1 & w1 & Hrec & E & Hc & Hstep & _ & Hop & Ho)]];
    [done|by rewrite E in Hb|]. rewrite E in Hb. set (w2 := (hrtime w1).2) in *.
  set (v1 := mkVarta _ _ _ _ _ _ _ _ _ _ _) in Hb.
  assert (agent_ok v1 w2) as Hok1 by (constructor; cbn; [done|done|split; lia]).
  set (out := bt_outbox (transport v) w) in *. set (k := SecureUdp.secret (transport v)).
  assert (child_session w (buf v) out k t1 w2) as HQ1.
  { apply child_tick. split; [by eapply fresh_after_reconnect; [apply Hok|done|done|exact Hrec]|].
    split; [exact Ho|]. eapply secret_kept; [apply Hok|right; exact Hrec]. }
  destruct (attempt_last_send (child_session w (buf v) out k) (buf v)
    (child_reject w (buf v) out k) (child_reconnect w (buf v) out k) (child_tick w (buf v) out k)
    (child_write w (buf v) out k) v1 w2 s (w_pid w) payload v' w' Hok1 eq_refl HQ1 Hb)
    as (t0 & w0 & w3 & (Hf & Hout & Hsec) & Hsend & Hq).
  destruct (fresh_send _ _ _ _ _ _ Hf Hsend) as (n & Hn & Hnonce & Hp).
  exists (w_next w0), n. rewrite <- Hout. unfold bt_outbox in *.
  rewrite (quiet_outbox _ _ _ Hq). split; [done|].
  pose proof (ev_draws _ _ (qu_evolves _ _ Hq)). split; [lia|].
  rewrite <- Hnonce, Hsec. unfold contents. by rewrite (qu_heap _ _ Hq).
Qed.
End connect.

(** ** Examples *)

#[local] Existing Instance linux_platform.
#[local] Existing Instance toy_crypto.
#[local] Existing Instance toy_laws.

(** An agent over a connected UDP socket on the demo world, its scratch buffer at
    location 0. *)
Definition demo_udp : Udp.UdpTransport := Udp.mkUdp 0 "127.0.0.1" (jint 9000) true [] None.
Definition demo_agent (pid after : Z) : Varta Udp.UdpTransport :=
  mkVarta demo_udp 0 500 0 0 (jint after) 0 0 pid 0 false.

Lemma demo_carrier faults : carrier_ok demo_udp 0 (demo_world faults).
Proof.
  constructor.
  - split_and!; [apply demo_world_ok| |by constructor].
    split; cbn; unfold Udp.PRE_CONNECT_QUEUE_LIMIT; lia.
  - cbn. lia.
  - vm_compute. reflexivity.
  - cbn. by intros ?%not_elem_of_nil.
Qed.

Lemma demo_agent_ok faults pid after : agent_ok (demo_agent pid after) (demo_world faults).
Proof. constructor; [apply demo_carrier|vm_compute; split; congruence|split; cbn; lia]. Qed.

(** The first beat goes out with nonce 1 and 500 ns on the clock. *)
Lemma beat_commits_on_success_witness :
  exists v' w', beat (SLStr "OK") (jint 7) (demo_agent 4821 0, demo_world []) = (Ret sent, (v', w'))
  /\ nonce v' = 1 /\ lastTimestamp v' = 500
  /\ decode (wire_of (mkFrame Ok 4821 500 1 7)) = inr (mkFrame Ok 4821 500 1 7).
Proof.
  destruct (beat_commits_on_success (demo_agent 4821 0) (demo_world []) (SLStr "OK") Ok (jint 7))
    as (o & v' & w' & E & _ & Ho & Hd);
    [apply demo_agent_ok|reflexivity|reflexivity|discriminate|reflexivity|].
  assert (o = sent) as ->.
  { assert ((beat (SLStr "OK") (jint 7) (demo_agent 4821 0, demo_world [])).1 = Ret sent) as E1
      by (vm_compute; reflexivity). rewrite E in E1. cbn [fst] in E1. injection E1 as E1. exact E1. }
  exists v', w'. split; [exact E|]. destruct Ho as (_ & Hn & Ht).
  split; [rewrite Hn; vm_compute; reflexivity|]. split; [rewrite Ht; vm_compute; reflexivity|].
  apply Hd; vm_compute; congruence.
Defined.

(** The same agent in a forked child. *)
Lemma beat_recovers_fork_witness :
  exists v' w', beat (SLStr "ok") (jint 0) (demo_agent 99 0, demo_world []) = (Ret sent, (v', w'))
  /\ connectPid v' = 4821 /\ nonce v' = 1 /\ forkRecoveriesCount v' = 1.
Proof.
  destruct (beat_recovers_fork (demo_agent 99 0) (demo_world []) (SLStr "ok") Ok (jint 0))
    as (o & v' & w' & E & _ & Ho);
    [apply demo_agent_ok|reflexivity|reflexivity|discriminate|discriminate|].
  assert (o = sent) as ->.
  { assert ((beat (SLStr "ok") (jint 0) (demo_agent 99 0, demo_world [])).1 = Ret sent) as E1
      by (vm_compute; reflexivity). rewrite E in E1. cbn [fst] in E1. injection E1 as E1. exact E1. }
  destruct (bt_reconnect (transport (demo_agent 99 0), demo_world [])) as [[[]|e] [t1 w1]].
  - exists v', w'. destruct Ho as (Hc & _ & Hf & _ & Hn & _). split; [exact E|].
    split; [exact Hc|]. split; [exact Hn|exact Hf].
  - destruct Ho as (Ho & _). discriminate Ho.
Defined.

Lemma beat_refusals_witness :
  beat (SLStr "constructor") (jint 0) (demo_agent 4821 0, demo_world [])
  = (Ret (failed (newBeatError 0 "InvalidInput" None)), (demo_agent 4821 0, demo_world [])).
Proof.
  exact (proj1 (beat_refusals (demo_agent 4821 0) (demo_world []) (SLStr "constructor") (jint 0))
    (or_introl eq_refl)).
Defined.

Lemma close_is_final_witness :
  exists v' w', close (demo_agent 4821 0, demo_world []) = (Ret tt, (v', w'))
  /\ reconnect (v', w') = (Throw closedReconnectError, (v', w')).
Proof.
  destruct (close_is_final (demo_agent 4821 0) (demo_world []) eq_refl) as (w' & E & _ & _ & _ & Hr & _).
  eexists _, w'. split; [exact E|exact Hr].
Defined.

Lemma beat_counts_regressions_witness :
  exists o v' w', beat (SLStr "ok") (jint 0)
    (set_lastTimestamp 9000 (demo_agent 4821 0), demo_world []) = (Ret o, (v', w'))
  /\ clockRegressionsCount v' = 1.
Proof.
  destruct (beat_counts_regressions (set_lastTimestamp 9000 (demo_agent 4821 0)) (demo_world [])
    (SLStr "ok") Ok (jint 0)) as (o & v' & w' & E & Hc & _);
    [constructor; [apply demo_carrier|vm_compute; split; congruence|split; cbn; lia]
    |reflexivity|reflexivity|discriminate|reflexivity|vm_compute; congruence|].
  exists o, v', w'. split; [exact E|]. rewrite Hc. vm_compute. reflexivity.
Defined.

Lemma setReconnectAfter_whole_part_witness :
  exists after, num_positive after = false
  /\ setReconnectAfter (Some (JFin (1 # 2))) (demo_agent 4821 3, demo_world [])
     = (Ret tt, (set_reconnectAfter after (demo_agent 4821 3), demo_world [])).
Proof.
  destruct (setReconnectAfter_whole_part (demo_agent 4821 3) (demo_world []) (Some (JFin (1 # 2))))
    as (after & E & Hp & _). exists after. split; [exact Hp|exact E].
Defined.

Lemma wrap_warning_once_witness :
  exists w1, warnNonceWrapping (demo_world []) = (Ret tt, w1) /\ warnNonceWrapping w1 = (Ret tt, w1)
  /\ length (w_stderr w1) = 1%nat.
Proof.
  destruct (wrap_warning_once (demo_world [])) as (w1 & E & _ & Hagain & _ & Hw).
  exists w1. split; [exact E|]. split; [exact Hagain|]. by rewrite (Hw eq_refl).
Defined.

(** Two drops with a window of three. *)
Definition enobufs : exn := Exn "Error" "send ENOBUFS" (Some "ENOBUFS"%string) (Some (-105)) None None.

Lemma dropped_beats_fill_windows_witness :
  exists v' w', dropped_beats 2 (demo_agent 4821 3, demo_world [(0, enobufs); (1, enobufs)]%nat) (v', w')
  /\ consecutiveDropped v' = 2.
Proof.
  set (w0 := demo_world [(0, enobufs); (1, enobufs)]%nat).
  set (s1 := (beat (SLStr "ok") (jint 0) (demo_agent 4821 3, w0)).2).
  set (s2 := (beat (SLStr "ok") (jint 0) s1).2).
  assert (dropped_beats 2 (demo_agent 4821 3, w0) (s2.1, s2.2)) as Hrun.
  { apply (db_more 1 _ s1.1 s1.2 (SLStr "ok") (jint 0) KernelQueueFull); [|vm_compute; reflexivity..].
    apply (db_more 0 _ (demo_agent 4821 3) w0 (SLStr "ok") (jint 0) KernelQueueFull);
      [apply db_none|vm_compute; reflexivity..]. }
  exists s2.1, s2.2. split; [exact Hrun|].
  rewrite (dropped_beats_fill_windows (demo_agent 4821 3) w0 3 2 s2.1 s2.2);
    [vm_compute; reflexivity|apply demo_agent_ok|reflexivity|cbn; lia|cbn; lia|exact Hrun].
Defined.

(** Connecting over UDP and beating twice. *)
Lemma agent_sessions_numbered_witness :
  exists (v : Varta Udp.UdpTransport) w fs, agent_run v w fs /\ length fs = 1%nat /\ nonce v = 1
  /\ exists f, fs = [wire_of f] /\ fr_nonce f = 1.
Proof.
  destruct (connect_run (Udp.newUdpTransport "127.0.0.1" (jint 9000)) (demo_world [])
    (mkVarta (Udp.mkUdp 0 "127.0.0.1" (jint 9000) false [] None) 1 1000 0 0 (jint 0) 0 0 4821 0 false)
    (connectUdp "127.0.0.1" (jint 9000) (demo_world [])).2 (udp_starts _ _) (demo_world_ok []) ltac:(by constructor)
    ltac:(vm_compute; reflexivity)) as (Hrun & Hok & _).
  set (v0 := mkVarta _ _ _ _ _ _ _ _ _ _ _) in *. set (w0 := (connectUdp _ _ _).2) in *.
  destruct (beat_numbers v0 w0 (SLStr "ok") (jint 0) Hok) as (o & v1 & w1 & E & _ & Hc).
  assert (o = sent) as ->.
  { assert ((beat (SLStr "ok") (jint 0) (v0, w0)).1 = Ret sent) as E1 by (vm_compute; reflexivity).
    rewrite E in E1. cbn [fst] in E1. injection E1 as E1. exact E1. }
  destruct Hc as [[Hne _]|(n0 & last0 & _ & f & Hd & _)]; [destruct (Hne eq_refl)|].
  pose proof (ar_sent v0 w0 [] (SLStr "ok") (jint 0) v1 w1 (wire_of f) Hrun E Hd) as Hrun1.
  change (if w_pid w0 =? connectPid v0 then [] ++ [wire_of f] else [wire_of f]) with [wire_of f] in Hrun1.
  exists v1, w1, [wire_of f]. split; [exact Hrun1|]. split; [reflexivity|].
  destruct (agent_sessions_numbered v1 w1 [wire_of f] Hrun1) as (_ & frames & Hfs & Hn & _ & Hcount).
  split; [rewrite Hcount; reflexivity|]. pose proof (f_equal length Hfs) as Hl. rewrite length_map in Hl.
  destruct frames as [|g [|? ?]]; [discriminate Hl| |discriminate Hl].
  exists g. split; [exact Hfs|]. destruct (Hn 0%nat g eq_refl) as [Hg _]. rewrite Hg. reflexivity.
Defined.

Lemma connect_starts_a_session_witness :
  exists v w', connectSecureUdp "::1" (jint 9000) (replicate 32 7) (demo_world []) = (Ret v, w') /\ agent_ok v w'.
Proof.
  destruct (connectSecureUdp "::1" (jint 9000) (replicate 32 7) (demo_world [])) as [[v|e] w'] eqn:E.
  - exists v, w'. split; [reflexivity|].
    apply (connect_starts_a_session (demo_world []) "/run/varta.sock" "::1" (jint 9000) (replicate 32 7)
      (demo_world_ok []) ltac:(by constructor)). left. exact E.
  - exfalso. apply (f_equal (fun x => match x.1 with Ret _ => true | Throw _ => false end)) in E.
    vm_compute in E. discriminate E.
Defined.

(** A secure agent, with its scratch buffer at location 0. *)
Definition demo_secure : SecureUdp.SecureUdpTransport :=
  SecureUdp.mkSecure demo_udp (SecureUdp.SecureKeyMaster (replicate 32 7)) (le_bytes 16 5)
    (SecureUdp.iv_prefix (le_bytes 16 5) 0) 0 41.
Definition demo_secure_agent (pid : Z) : Varta SecureUdp.SecureUdpTransport :=
  mkVarta demo_secure 0 500 0 0 (jint 0) 0 0 pid 0 false.

Lemma demo_secure_ok pid : agent_ok (demo_secure_agent pid) (demo_world []).
Proof.
  constructor; [|vm_compute; split; congruence|split; cbn; lia]. destruct (demo_carrier []) as [(Hw & Hq & Ha) Hb Hl Ho].
  constructor; [|exact Hb|exact Hl|exact Ho]. split; [exact Hw|]. split; [|exact Ha].
  constructor; cbn; try done; split; lia.
Qed.

Lemma secure_beat_end_to_end_witness :
  exists v' w' o f frame,
    beat (SLStr "critical") (jint 3) (demo_secure_agent 4821, demo_world []) = (Ret sent, (v', w'))
    /\ decodeMaster (replicate 32 7) (contents w' o) = Ret frame /\ decode frame = inr f
    /\ fr_pid f = 4821 /\ fr_payload f = 3.
Proof.
  destruct (beat (SLStr "critical") (jint 3) (demo_secure_agent 4821, demo_world [])) as [r [v' w']] eqn:E.
  assert (r = Ret sent /\ lastTimestamp v' = 500) as [-> Ht].
  { assert ((beat (SLStr "critical") (jint 3) (demo_secure_agent 4821, demo_world [])).1 = Ret sent) as E1
      by (vm_compute; reflexivity).
    assert (lastTimestamp (beat (SLStr "critical") (jint 3) (demo_secure_agent 4821, demo_world [])).2.1
      = 500) as E2 by (vm_compute; reflexivity).
    rewrite E in E1, E2. split; [exact E1|exact E2]. }
  destruct (secure_beat_end_to_end (demo_secure_agent 4821) (demo_world []) (SLStr "critical") (jint 3) v' w'
    (demo_secure_ok 4821) E) as (o & f & frame & _ & Hop & Hd & _ & Hp & Hpl & _);
    [vm_compute; congruence|rewrite Ht; discriminate|].
  exists v', w', o, f, frame. split; [reflexivity|]. split; [exact Hop|]. split; [exact Hd|].
  split; [rewrite Hp; reflexivity|rewrite Hpl; reflexivity].
Defined.

Lemma forked_child_seals_under_fresh_salt_witness :
  exists v' w' o n, beat (SLStr "ok") (jint 0) (demo_secure_agent 99, demo_world []) = (Ret sent, (v', w'))
  /\ (0 <= n < w_draws w')%nat
  /\ SecureUdp.wire_nonce (SecureUdp.SecureKeyMaster (replicate 32 7)) (contents w' o)
     = aead_nonce (SecureUdp.iv_prefix (le_bytes 16 (Z.of_nat n)) 0) 0.
Proof.
  destruct (beat (SLStr "ok") (jint 0) (demo_secure_agent 99, demo_world [])) as [r [v' w']] eqn:E.
  assert (r = Ret sent) as ->.
  { assert ((beat (SLStr "ok") (jint 0) (demo_secure_agent 99, demo_world [])).1 = Ret sent) as E1
      by (vm_compute; reflexivity). rewrite E in E1. exact E1. }
  destruct (forked_child_seals_under_fresh_salt (demo_secure_agent 99) (demo_world []) (SLStr "ok") (jint 0) v' w'
    (demo_secure_ok 99) ltac:(discriminate) E) as (o & n & _ & Hn & Hnonce).
  exists v', w', o, n. split; [reflexivity|]. split; [exact Hn|exact Hnonce].
Defined.
