(* ===== verification/Session.v ===== *)
(** * A UDP agent and its kernel (src/clients/node/src/client.ts over transport.ts)

    The agent touches its transport only through the interface: [uses] lists what a
    method of the agent may do to the transport and the world, and the frames it hands
    over on the way. With it an invariant of the transport's own executions carries over to
    the agent's, and the frames the kernel takes from a UDP agent are the agent's numbered
    frames. *)

From S2P Require Import Prelude NodeBuffer Crc Vlp VlpSecure Errno Outcome Runtime Transport.
From S2P Require Udp.
From S2P Require Import Client System.

(** ** The agent uses its transport through the interface *)

Section uses.
Context {T : Type} `{BeatTransport T} `{Platform} `{!BeatTransportLaws T}.

(** One access by an agent whose scratch buffer is [b], with the frames accepted. *)
Inductive use (b : nat) : T * World -> list bytes -> T * World -> Prop :=
| use_send t w r t' w' :
    carrier_ok t b w -> bt_send b (t, w) = (r, (t', w')) ->
    use b (t, w) (match r with Ret _ => [contents w b] | Throw _ => [] end) (t', w')
| use_reconnect t w r t' w' :
    carrier_ok t b w -> bt_reconnect (t, w) = (r, (t', w')) -> use b (t, w) [] (t', w')
| use_close t w r t' w' :
    carrier_ok t b w -> bt_close (t, w) = (r, (t', w')) -> use b (t, w) [] (t', w')
| use_quiet t w w' : quiet w w' -> use b (t, w) [] (t, w')
| use_tick t w : use b (t, w) [] (t, (hrtime w).2)
| use_write t w frame :
    carrier_ok t b w -> length frame = 32%nat -> use b (t, w) [] (t, set_contents b frame w).

Inductive uses (b : nat) : T * World -> list bytes -> T * World -> Prop :=
| uses_nil tw : uses b tw [] tw
| uses_cons tw fs tw1 gs tw2 :
    use b tw fs tw1 -> uses b tw1 gs tw2 -> uses b tw (fs ++ gs) tw2.

Lemma uses_one b tw fs tw' : use b tw fs tw' -> uses b tw fs tw'.
Proof. intros Hu. rewrite <- (app_nil_r fs). econstructor; [exact Hu|constructor]. Qed.

Lemma uses_app b tw fs tw1 gs tw2 :
  uses b tw fs tw1 -> uses b tw1 gs tw2 -> uses b tw (fs ++ gs) tw2.
Proof.
  induction 1 as [|tw fs tw1 gs' tw' Hu _ IH]; intros Hg; [done|].
  rewrite <- (assoc_L (++)). econstructor; [exact Hu|auto].
Qed.

(** What [sendFrame] hands over: the scratch buffer, if the outcome is [sent]. *)
Definition offered (o : BeatOutcome) (frame : bytes) : list bytes :=
  if isSent o then [frame] else [].

Lemma sendFrame_uses v w o v' w' :
  carrier_ok (transport v) (buf v) w -> sendFrame (v, w) = (Ret o, (v', w')) ->
  v' = set_transport (transport v') v
  /\ uses (buf v) (transport v, w) (offered o (contents w (buf v))) (transport v', w').
Proof.
  intros Hc Hrun. unfold sendFrame, self, on_transport in Hrun. unfold_m. cbn in Hrun.
  destruct (bt_send (buf v) (transport v, w)) as [r [t1 w1]] eqn:E.
  pose proof (uses_one _ _ _ _ (use_send (buf v) _ _ _ _ _ Hc E)) as Hu.
  destruct r as [[]|e]; simplify_eq/=; (split; [done|]); [done|].
  unfold offered. pose proof (classify_not_sent e). by destruct (classifySendError e).
Qed.

Lemma commit_uses b v w n ts wr r v' w' :
  commitSentFrame n ts wr (v, w) = (r, (v', w')) ->
  r = Ret tt /\ transport v' = transport v /\ uses b (transport v, w) [] (transport v', w').
Proof.
  destruct (commit_run v w n ts wr) as (w1 & E & Hq). rewrite E. intros [= <- <- <-].
  split_and!; try done. by apply uses_one, use_quiet.
Qed.

(** The retry after a reconnect offers the same frame. *)
Lemma emit_uses v w n ts wr o v' w' :
  carrier_ok (transport v) (buf v) w -> emit n ts wr (v, w) = (Ret o, (v', w')) ->
  uses (buf v) (transport v, w) (offered o (contents w (buf v))) (transport v', w').
Proof.
  intros Hc. unfold emit, self, assign. unfold_m. intros Hrun.
  destruct (sendFrame_run v w Hc) as (o1 & t1 & w1 & E1 & Hc1 & _ & _ & Hcon1 & _).
  destruct (sendFrame_uses _ _ _ _ _ Hc E1) as [_ H1]. rewrite E1 in Hrun. cbn in H1.
  destruct o1 as [|reason|err]; cbn in Hrun.
  - destruct (commitSentFrame n ts wr (set_transport t1 v, w1)) as [r [v2 w2]] eqn:E2.
    destruct (commit_uses (buf v) _ _ _ _ _ _ _ _ E2) as (-> & Ht & H2). cbn in Hrun, H2. simplify_eq/=.
    exact (uses_app _ _ _ _ _ _ H1 H2).
  - destruct (num_positive (reconnectAfter v) && _); [|by simplify_eq/=]. cbn in Hrun.
    unfold on_transport in Hrun. cbn in Hrun.
    destruct (carrier_reconnect _ _ _ Hc1) as (r2 & t2 & w2 & E2 & Hc2 & _ & _ & Hcon2 & _).
    pose proof (uses_one _ _ _ _ (use_reconnect (buf v) _ _ _ _ _ Hc1 E2)) as H2. rewrite E2 in Hrun.
    destruct r2 as [[]|e]; cbn in Hrun; [|simplify_eq/=; exact (uses_app _ _ _ _ _ _ H1 H2)].
    set (v2 := set_transport t2 _) in *.
    destruct (sendFrame (v2, w2)) as [[o3|e] [v3 w3]] eqn:E3; [|done].
    destruct (sendFrame_uses v2 w2 _ _ _ Hc2 E3) as [_ H3]. cbn in H3. rewrite Hcon2, Hcon1 in H3.
    pose proof (uses_app _ _ _ _ _ _ H1 (uses_app _ _ _ _ _ _ H2 H3)) as H13. cbn in H13.
    destruct o3; cbn in Hrun; [|by simplify_eq/=..].
    destruct (commitSentFrame n ts wr (v3, w3)) as [r [v4 w4]] eqn:E4.
    destruct (commit_uses (buf v) _ _ _ _ _ _ _ _ E4) as (-> & Ht & H4). cbn in Hrun. simplify_eq/=.
    rewrite <- (app_nil_r (offered _ _)). exact (uses_app _ _ _ _ _ _ H13 H4).
  - by simplify_eq/=.
Qed.
(** An attempt: the clock is read, the frame written to the scratch buffer and emitted;
    what it offers carries the next nonce and the clamped timestamp. *)
Lemma attempt_session v w s pid payload :
  agent_ok v w ->
  exists o v' w' f, attempt s pid payload (v, w) = (Ret o, (v', w')) /\ agent_ok v' w'
  /\ buf v' = buf v /\ connectPid v' = connectPid v /\ w_pid w' = w_pid w
  /\ uses (buf v) (transport v, w) (offered o (wire_of f)) (transport v', w')
  /\ contents w' (buf v) = wire_of f
  /\ (fr_status f = s /\ fr_pid f = to_uint32 (jint pid) /\ is_u64 (fr_timestamp f)
      /\ fr_nonce f = next_nonce (nonce v) /\ lastTimestamp v <= fr_timestamp f
      /\ fr_payload f = to_uint32 payload)
  /\ nonce v' = (if isSent o then fr_nonce f else nonce v)
  /\ lastTimestamp v' = (if isSent o then fr_timestamp f else lastTimestamp v).
Proof.
  intros Hok. pose proof Hok as [Hc Hn Ht].
  destruct (attempt_run v w s pid payload Hok) as (o & t' & d & w' & E & Hc' & Hst & _).
  set (raw := elapsed (startNs v) (w_clock w (w_ticks w))) in *.
  set (ts := Z.max (lastTimestamp v) raw) in *.
  assert (is_u64 ts) as Hts.
  { pose proof (elapsed_range (startNs v) (w_clock w (w_ticks w))) as Hr. fold raw in Hr.
    unfold ts, is_u64, U64_MAX in *. lia. }
  destruct (candidate_next_nonce (nonce v) Hn) as (Hcand & _ & Hnu).
  exists o. eexists _, w', (mkFrame s (to_uint32 (jint pid)) ts (next_nonce (nonce v)) (to_uint32 payload)).
  split; [exact E|]. split; [eapply attempted_ok; [exact Hok|done|apply elapsed_range|done]|].
  enough (uses (buf v) (transport v, w) (offered o (wire_of (mkFrame s (to_uint32 (jint pid)) ts
    (next_nonce (nonce v)) (to_uint32 payload)))) (t', w')
    /\ contents w' (buf v) = wire_of (mkFrame s (to_uint32 (jint pid)) ts
         (next_nonce (nonce v)) (to_uint32 payload))) as [Hu Hcon].
  { split_and!; try done; [apply Hst|cbn; lia]. }
  unfold attempt, self, sys in E. unfold_m. rewrite candidateTimestamp_run in E.
  fold raw in E. fold ts in E. cbn [fst snd] in E. rewrite Hcand in E.
  set (v1 := if raw <? lastTimestamp v then _ else v) in *.
  assert (transport v1 = transport v /\ buf v1 = buf v) as [Htr Hbf]
    by (unfold v1; by destruct (raw <? lastTimestamp v)).
  destruct (tick_carrier _ _ _ Hc) as [Hc1 _]. rewrite <- Htr, <- Hbf in Hc1.
  destruct (on_buffer_encode v1 _ s pid ts _ payload Hc1 Hts Hnu) as (Henc & Hc2 & Hcon & _ & _).
  rewrite Henc in E. cbn [fst snd] in E. split; [|
    destruct (emit_run v1 _ (next_nonce (nonce v)) ts (negb (nonce v <? NONCE_TERMINAL - 1)) Hc2)
      as (o1 & t1 & d1 & w1 & E1 & _ & Hev & _); rewrite E in E1; simplify_eq;
    rewrite <- Hbf, (evolves_contents _ _ _ Hev); [exact Hcon|apply Hc2]].
  pose proof (emit_uses _ _ _ _ _ _ _ _ Hc2 E) as Hu. rewrite Hcon, Htr, Hbf in Hu.
  eapply (uses_cons _ _ []); [apply use_tick|]. eapply (uses_cons _ _ []); [|exact Hu].
  apply use_write; [|apply length_frame_wire]. by rewrite <- Htr, <- Hbf.
Qed.

(** A beat in the process the agent belongs to. *)
Lemma beat_session v w st payload :
  agent_ok v w -> w_pid w = connectPid v ->
  exists o v' w' f, beat st payload (v, w) = (Ret o, (v', w')) /\ agent_ok v' w'
  /\ connectPid v' = connectPid v /\ w_pid w' = w_pid w /\ buf v' = buf v
  /\ uses (buf v) (transport v, w) (offered o (wire_of f)) (transport v', w')
  /\ (o = sent -> contents w' (buf v) = wire_of f)
  /\ (o = sent -> fr_status f <> Stall /\ fr_pid f = to_uint32 (jint (w_pid w))
      /\ is_u64 (fr_timestamp f) /\ fr_nonce f = next_nonce (nonce v)
      /\ lastTimestamp v <= fr_timestamp f /\ is_u32 (fr_payload f))
  /\ nonce v' = (if isSent o then fr_nonce f else nonce v)
  /\ lastTimestamp v' = (if isSent o then fr_timestamp f else lastTimestamp v).
Proof.
  intros Hok Hpid. assert ((exists s, coerceBeatStatus st = Some s /\ s <> Stall /\ closed v = false)
    \/ exists e, beat st payload (v, w) = (Ret (failed e), (set_consecutiveDropped 0 v, w)))
    as [(s & Hst & Hs & Hcl)|[e E]].
  { unfold beat, self, assign. unfold_m. destruct (coerceBeatStatus st) as [[]|] eqn:Hst;
      cbn; eauto; destruct (closed v) eqn:Hcl; cbn; eauto; left; eexists; (split; [done|]); done. }
  - rewrite (beat_unfold st s) by done.
    destruct (recoverFork_run v w (w_pid w) (ao_carrier _ _ Hok)) as [[_ ->]|[[? _]|[? _]]]; [|done..].
    destruct (attempt_session v w s (w_pid w) payload Hok)
      as (o & v' & w' & f & -> & Hok' & Hb & Hc & Hp & Hu & Hcn & (H1 & H2 & H3 & H4 & H5 & H6) & Hn & Ht).
    exists o, v', w', f. split_and!; try done. intros _. rewrite H1, H6. split_and!; try done.
    apply to_uint32_range.
  - exists (failed e), (set_consecutiveDropped 0 v), w, (mkFrame Ok 0 0 0 0).
    split; [exact E|]. split; [destruct Hok; by constructor|]. split_and!; try done. constructor.
Qed.

(** A step that changes neither the transport nor what it holds. *)
Lemma carrier_moved t b w w' :
  carrier_ok t b w -> evolves w w' -> w_inflight w' = w_inflight w -> (world_ok w -> world_ok w') ->
  carrier_ok t b w'.
Proof.
  intros [(Hw & Hi & Ha) Hb Hl Ho] Hev Hin Hw'.
  assert (bt_outbox t w' = bt_outbox t w) as Hout by (unfold bt_outbox; by apply outbox_same).
  constructor.
  - split_and!; [auto|done|]. rewrite Hout. by eapply evolves_allocated.
  - pose proof (ev_next _ _ Hev). lia.
  - by rewrite (evolves_contents _ _ _ Hev Hb).
  - by rewrite Hout.
Qed.

(** The other methods of the agent. *)
Lemma reconnect_session v w r v' w' :
  agent_ok v w -> w_pid w = connectPid v -> reconnect (v, w) = (r, (v', w')) ->
  agent_ok v' w' /\ connectPid v' = connectPid v /\ w_pid w' = w_pid w
  /\ nonce v' = nonce v /\ lastTimestamp v' = lastTimestamp v
  /\ uses (buf v) (transport v, w) [] (transport v', w').
Proof.
  intros Hok Hpid. unfold reconnect, self, assign, sys, on_transport. unfold_m. cbn.
  destruct (closed v); cbn.
  { intros [= <- <- <-]. split; [destruct Hok; by constructor|]. split_and!; try done. constructor. }
  destruct (carrier_reconnect _ _ _ (ao_carrier _ _ Hok)) as (r1 & t1 & w1 & E & Hc & Hev & _).
  pose proof (uses_one _ _ _ _ (use_reconnect (buf v) _ _ _ _ _ (ao_carrier _ _ Hok) E)) as Hu.
  rewrite E. pose proof (ev_pid _ _ Hev) as Hp. destruct Hok as [_ ? ?].
  destruct r1 as [[]|e]; cbn; intros [= <- <- <-]; (split; [by constructor|]); split_and!; try done.
  cbn. congruence.
Qed.

Lemma close_session v w r v' w' :
  agent_ok v w -> close (v, w) = (r, (v', w')) ->
  agent_ok v' w' /\ connectPid v' = connectPid v /\ w_pid w' = w_pid w
  /\ nonce v' = nonce v /\ lastTimestamp v' = lastTimestamp v
  /\ uses (buf v) (transport v, w) [] (transport v', w').
Proof.
  intros Hok. unfold close, self, assign, on_transport. unfold_m. cbn. destruct (closed v); cbn.
  { intros [= <- <- <-]. split_and!; try done. constructor. }
  pose proof (ao_carrier _ _ Hok) as Hc. destruct (close_spec (transport v) w) as (w1 & E & Hev & Hi & Hw').
  pose proof (uses_one _ _ _ _ (use_close (buf v) _ _ _ _ _ Hc E)) as Hu. rewrite E.
  intros [= <- <- <-]. split; [|split_and!; try done; apply Hev]. destruct Hok.
  constructor; [by eapply carrier_moved|done..].
Qed.
End uses.

(** ** The UDP transport under an agent *)

Section udp_agent.
Context `{Platform}.

(** An access keeps the invariant of the transport's executions, the accepted frames
    appended. *)
Lemma use_run_inv b ok n t w acc fs t' w' :
  use b (t, w) fs (t', w') -> Udp.run_inv ok n t w acc -> Udp.run_inv ok n t' w' (acc ++ fs).
Proof.
  intros Hu Hinv. inversion Hu as [? ? r ? ? Hc E|? ? r ? ? Hc E|? ? r ? ? Hc E|? ? ? Hq| |? ? frame Hc Hl];
    subst; rewrite ?app_nil_r.
  - destruct Hc as [_ Hb Hl _]. pose proof (Udp.run_inv_send _ _ _ _ _ _ _ _ _ Hinv Hb Hl E) as Hr.
    destruct r; by rewrite ?app_nil_r.
  - destruct (Udp.udp_reconnect_run t w) as (r1 & t1 & w1 & E1 & Hq & Hr1).
    cbn in E. rewrite E in E1. simplify_eq.
    eapply Udp.run_inv_quiet; [exact Hinv|apply Hq|apply Hq|..]; destruct r1 as [|];
      [destruct Hr1 as [? ->]|subst|destruct Hr1 as [? ->]|subst]; done.
  - destruct (Udp.udp_close_run t w) as (w1 & E1 & Hq). cbn in E. rewrite E in E1. simplify_eq.
    eapply Udp.run_inv_quiet; [exact Hinv|apply Hq|apply Hq|..]; done.
  - eapply Udp.run_inv_quiet; [exact Hinv|apply Hq|apply Hq|..]; done.
  - destruct Hinv as [Hok ? ? ? ?]. by constructor.
  - apply Udp.run_inv_write; [done|apply Hc..].
Qed.

Lemma uses_run_inv b ok n t w acc fs t' w' :
  uses b (t, w) fs (t', w') -> Udp.run_inv ok n t w acc -> Udp.run_inv ok n t' w' (acc ++ fs).
Proof.
  intros Hu. remember (t, w) as tw. remember (t', w') as tw'. revert t w acc Heqtw Heqtw'.
  induction Hu as [tw|tw fs [t1 w1] gs tw2 Hu _ IH]; intros t w acc -> Heq Hinv.
  - simplify_eq. by rewrite app_nil_r.
  - rewrite (assoc_L (++)). eapply IH; [reflexivity|exact Heq|]. by eapply use_run_inv.
Qed.

(** An execution of an agent over UDP in one process: calls of its methods in any
    order, the three callbacks of its transport, the kernel completing sends, and the rest
    of the program allocating buffers and overwriting those it may. [fs] are the
    frames of the beats that returned [sent], as the scratch buffer held them; [ok] and [lost] are as in [udp_run]. *)
Inductive udp_session (h : string) (p : jsnum) :
    bool -> nat -> Varta Udp.UdpTransport -> World -> list bytes -> Prop :=
| us_connect w0 v w :
    world_ok w0 -> w_inflight w0 = [] -> w_kernel w0 = [] ->
    connectUdp h p w0 = (Ret v, w) -> udp_session h p true 0 v w []
| us_beat ok n v w fs st payload o v' w' :
    udp_session h p ok n v w fs -> beat st payload (v, w) = (Ret o, (v', w')) ->
    udp_session h p ok n v' w' (fs ++ offered o (contents w' (buf v)))
| us_reconnect ok n v w fs r v' w' :
    udp_session h p ok n v w fs -> reconnect (v, w) = (r, (v', w')) -> udp_session h p ok n v' w' fs
| us_after ok n v w fs x r v' w' :
    udp_session h p ok n v w fs -> setReconnectAfter x (v, w) = (r, (v', w')) ->
    udp_session h p ok n v' w' fs
| us_close ok n v w fs r v' w' :
    udp_session h p ok n v w fs -> close (v, w) = (r, (v', w')) -> udp_session h p ok n v' w' fs
| us_connected ok n v w fs s r t' w' :
    udp_session h p ok n v w fs -> Udp.on_connect s (transport v, w) = (r, (t', w')) ->
    udp_session h p (match r with Ret _ => ok | Throw _ => false end)
      (match r with Ret _ => n | Throw _ => S n end) (set_transport t' v) w' fs
| us_error ok n v w fs s err r t' w' :
    udp_session h p ok n v w fs -> Udp.on_error s err (transport v, w) = (r, (t', w')) ->
    udp_session h p ok n (set_transport t' v) w' fs
| us_complete ok n v w fs err d w1 r t' w' :
    udp_session h p ok n v w fs -> complete_send err w = Some (d, w1) ->
    Udp.on_send_done (dg_socket d) err (transport v, w1) = (r, (t', w')) ->
    udp_session h p ok (match err with None => n | Some _ => S n end) (set_transport t' v) w' fs
| us_alloc ok n v w fs b l w' :
    udp_session h p ok n v w fs -> new_buffer b w = (Ret l, w') -> udp_session h p ok n v w' fs
| us_write ok n v w fs l b :
    udp_session h p ok n v w fs -> (l < w_next w)%nat -> l <> buf v ->
    ~ (l ∈ bt_outbox (transport v) w) -> udp_session h p ok n v (set_contents l b w) fs.

(** A frame a beat of process [pid] may produce. *)
Definition beat_frame (pid : Z) (f : Frame) : Prop :=
  fr_status f <> Stall /\ fr_pid f = to_uint32 (jint pid) /\ is_u64 (fr_timestamp f)
  /\ is_u32 (fr_payload f).

Record session_ok (ok : bool) (n : nat) (v : Varta Udp.UdpTransport) (w : World) (fs : list bytes) : Prop := {
  so_agent : agent_ok v w;
  so_pid : w_pid w = connectPid v;
  so_run : Udp.run_inv ok n (transport v) w fs;
  so_frames : numbered_by (beat_frame (connectPid v)) fs (nonce v) (lastTimestamp v);
}.

(** What the callbacks leave of the outbox was there before. *)
Lemma on_connect_outbox s t w r t' w' :
  Udp.on_connect s (t, w) = (r, (t', w')) -> evolves w w' /\ bt_outbox t' w' `sublist_of` bt_outbox t w.
Proof.
  unfold Udp.on_connect, self, assign. unfold_m. cbn. case_bool_decide; cbn; [|by intros [= <- <- <-]].
  destruct (Udp.flush_run s (Udp.preConnectQueue t) (Udp.set_connected true t) w eq_refl)
    as (r1 & rest & w1 & -> & Hev & _ & _ & sent & Hi & Hr).
  intros [= <- <- <-]. split; [done|]. unfold bt_outbox, outbox_of. cbn.
  rewrite Hi, map_app, map_map, map_id, <- (assoc_L (++)). apply sublist_app; [done|].
  destruct r1 as [[]|e]; [destruct Hr as [-> ->]; by rewrite app_nil_r|].
  destruct Hr as [lost ->]. apply sublist_app; [done|]. by apply sublist_cons.
Qed.

(** The transport moved by a callback or by the kernel: the agent's own fields, its
    scratch buffer and the numbering are untouched. *)
Lemma session_moved ok n ok' n' v w fs t' w' :
  session_ok ok n v w fs -> Udp.run_inv ok' n' t' w' fs -> w_pid w' = w_pid w ->
  (w_next w <= w_next w')%nat -> contents w' (buf v) = contents w (buf v) ->
  (forall l, l ∈ bt_outbox t' w' -> l ∈ bt_outbox (transport v) w) ->
  session_ok ok' n' (set_transport t' v) w' fs.
Proof.
  intros [[[Hbt Hb Hl Hown] Hn Ht] Hp Hr Hf] Hr' Hp' Hnx Hc Hsub.
  constructor; [|cbn; congruence|exact Hr'|exact Hf].
  constructor; [|done..]. constructor; cbn.
  - apply Hr'.
  - lia.
  - by rewrite Hc.
  - intros Hin%Hsub. done.
Qed.

(** The agent itself moved through the interface, accepting [gs]. *)
Lemma session_attempt_used ok n v w fs v' w' gs b :
  session_ok ok n v w fs -> uses b (transport v, w) gs (transport v', w') ->
  agent_ok v' w' -> connectPid v' = connectPid v -> w_pid w' = w_pid w ->
  numbered_by (beat_frame (connectPid v)) (fs ++ gs) (nonce v') (lastTimestamp v') ->
  session_ok ok n v' w' (fs ++ gs).
Proof.
  intros [Hok Hp Hr Hf] Hu Hok' Hc Hw Hn. constructor; [done|congruence| |by rewrite Hc].
  by eapply uses_run_inv.
Qed.

Lemma beat_keeps ok n v w fs st payload o v' w' :
  session_ok ok n v w fs -> beat st payload (v, w) = (Ret o, (v', w')) ->
  session_ok ok n v' w' (fs ++ offered o (contents w' (buf v))).
Proof.
  intros Hs E. pose proof Hs as [Hok Hp _ Hf].
  destruct (beat_session v w st payload Hok Hp)
    as (o1 & v1 & w1 & f & E1 & Hok' & Hc & Hw & Hb & Hu & Hcon & Hfr & Hn & Ht).
  rewrite E in E1. injection E1 as <- <- <-.
  assert (offered o (contents w' (buf v)) = offered o (wire_of f)) as ->.
  { unfold offered. destruct o; [|done..]. by rewrite Hcon. }
  eapply session_attempt_used; [exact Hs|exact Hu|done|done|done|]. rewrite Hn, Ht. unfold offered.
  destruct o; cbn [isSent]; [|by rewrite app_nil_r..].
  destruct (Hfr eq_refl) as (H1 & H2 & H3 & H4 & H5 & H6).
  eapply numbered_snoc; [exact Hf|done|unfold is_u64 in H3; lia|done|].
  unfold beat_frame. rewrite <- Hp. done.
Qed.

Lemma connect_session h p w0 v w :
  world_ok w0 -> w_inflight w0 = [] -> w_kernel w0 = [] -> connectUdp h p w0 = (Ret v, w) ->
  session_ok true 0 v w [].
Proof.
  intros Hw Hi Hk Hrun.
  assert (allocated w0 (map dg_buffer (w_inflight w0))) as Ha by (rewrite Hi; constructor).
  destruct (connect_run _ _ _ _ (udp_starts h p) Hw Ha Hrun) as (_ & Hok & Hn & Hc & _).
  unfold connectUdp in Hrun. unfold mbind, M_bind in Hrun.
  destruct (Udp.newUdpTransport h p w0) as [[t|e] w1] eqn:E; [|done].
  pose proof (Udp.run_inv_reachable _ _ _ _ _ _ _ (Udp.run_new h p w0 t w1 Hw Hi Hk E)) as Hinv.
  destruct (udp_starts h p w0 t w1 Hw Ha E) as (_ & _ & Hq).
  unfold newVarta, monotonicNs, hrtime in Hrun. unfold_m.
  destruct (new_buffer_run (buf_alloc FRAME_BYTES) w1) as (w2 & E2 & Hev & _ & Hin & _).
  rewrite E2 in Hrun. injection Hrun as <- <-. constructor; [done| | |].
  - reflexivity.
  - cbn [transport]. assert (Udp.run_inv true 0 t w2 []) as H2
      by (eapply Udp.run_inv_quiet; [exact Hinv|exact Hev|exact Hin|done..]).
    destruct H2. by constructor.
  - by apply numbered_nil.
Qed.

Lemma session_reachable h p ok n v w fs : udp_session h p ok n v w fs -> session_ok ok n v w fs.
Proof.
  induction 1 as [w0 v w Hw Hi Hk Hrun|ok n v w fs st pl o v' w' _ IH E|ok n v w fs r v' w' _ IH E
    |ok n v w fs x r v' w' _ IH E|ok n v w fs r v' w' _ IH E|ok n v w fs s r t' w' _ IH E
    |ok n v w fs s err r t' w' _ IH E|ok n v w fs err d w1 r t' w' _ IH Hc E
    |ok n v w fs b l w' _ IH E|ok n v w fs l b _ IH Hl Hne Hno].
  - by eapply connect_session.
  - by eapply beat_keeps.
  - pose proof IH as [Hok Hp _ Hf].
    destruct (reconnect_session _ _ _ _ _ Hok Hp E) as (Hok' & Hc & Hw & Hn & Ht & Hu).
    rewrite <- (app_nil_r fs). eapply session_attempt_used; [exact IH|exact Hu|done..|].
    by rewrite Hn, Ht, app_nil_r.
  - unfold setReconnectAfter, assign in E. unfold_m. cbn in E. injection E as <- <- <-.
    destruct IH as [[? ? ?] ? ? ?]. by constructor.
  - pose proof IH as [Hok Hp _ Hf].
    destruct (close_session _ _ _ _ _ Hok E) as (Hok' & Hc & Hw & Hn & Ht & Hu).
    rewrite <- (app_nil_r fs). eapply session_attempt_used; [exact IH|exact Hu|done..|].
    by rewrite Hn, Ht, app_nil_r.
  - destruct (on_connect_outbox _ _ _ _ _ _ E) as [Hev Hsub]. pose proof (so_agent _ _ _ _ _ IH) as [Hc _ _].
    eapply session_moved; [exact IH|eapply Udp.run_inv_connect; [apply IH|exact E]|apply Hev|apply Hev| |].
    + apply (evolves_contents _ _ _ Hev), Hc.
    + intros k Hk. exact (elem_of_submseteq _ _ _ Hk (sublist_submseteq _ _ Hsub)).
  - unfold Udp.on_error, self, assign in E. unfold_m. cbn in E.
    eapply session_moved; [exact IH| |case_bool_decide; by simplify_eq/=..].
    case_bool_decide; simplify_eq/=; eapply Udp.run_inv_quiet; (apply IH || done).
  - pose proof (so_run _ _ _ _ _ IH) as Hr.
    assert (Udp.run_inv ok (match err with None => n | Some _ => S n end) t' w' fs) as Hr'.
    { by eapply Udp.run_inv_complete. }
    assert (w' = w1 /\ Udp.preConnectQueue t' = Udp.preConnectQueue (transport v)) as [-> Hq].
    { unfold Udp.on_send_done, self, assign in E. unfold_m. cbn in E.
      destruct err; try case_bool_decide; by simplify_eq/=. }
    unfold complete_send in Hc. destruct (w_inflight w) as [|d0 rest] eqn:Hi; [done|].
    injection Hc as -> <-. eapply session_moved; [exact IH|exact Hr'|done..|].
    intros k. unfold bt_outbox, outbox_of. cbn. rewrite Hq, Hi. set_solver.
  - pose proof (evolves_new_buffer b w) as Hev. rewrite E in Hev. cbn in Hev.
    pose proof (so_agent _ _ _ _ _ IH) as [Hc _ _].
    assert (w_inflight w' = w_inflight w) as Hi by (unfold new_buffer in E; by simplify_eq).
    replace v with (set_transport (transport v) v) by (by destruct v).
    eapply session_moved; [exact IH| |apply Hev|apply Hev| |].
    + by eapply Udp.run_inv_quiet; [apply IH|..].
    + apply (evolves_contents _ _ _ Hev), Hc.
    + intros k. unfold bt_outbox. by rewrite (outbox_same _ _ _ Hi).
  - replace v with (set_transport (transport v) v) by (by destruct v).
    eapply session_moved; [exact IH| |done|done| |done].
    + by apply Udp.run_inv_write; [apply IH|..].
    + unfold contents. cbn. by rewrite lookup_insert_ne.
Qed.

(** C12. A UDP agent end to end. In every execution of an agent over the UDP transport,
    with any interleaving of beats, reconnects, close, socket callbacks, kernel completions and
    writes of the application, the accepted frames carry the nonces 1, 2, 3, ..., the
    process's pid and nondecreasing timestamps, and each decodes to its fields (for a pid
    of at least 2 and until the 64-bit clock is exhausted). What the kernel has taken,
    what is in flight and what is queued is a sub-multiset of these frames with exactly the lost
    ones missing, in order while no connect callback has thrown; with nothing lost it is
    the whole numbered sequence. *)
Theorem udp_agent_end_to_end (h : string) (p : jsnum) (ok : bool) (lost : nat)
    (v : Varta Udp.UdpTransport) (w : World) (fs : list bytes) :
  udp_session h p ok lost v w fs ->
  let wire := map snd (w_kernel w) ++ map (contents w) (bt_outbox (transport v) w) in
  (exists frames, fs = map wire_of frames
    /\ (forall i f, frames !! i = Some f ->
          fr_nonce f = Z.of_nat (S i) mod NONCE_TERMINAL /\ fr_pid f = to_uint32 (jint (w_pid w))
          /\ (2 <= fr_pid f -> fr_timestamp f <> TIMESTAMP_INVALID -> decode (wire_of f) = inr f))
    /\ (forall i f g, frames !! i = Some f -> frames !! S i = Some g -> fr_timestamp f <= fr_timestamp g))
  /\ wire ⊆+ fs /\ (length wire + lost = length fs)%nat
  /\ (ok = true -> wire `sublist_of` fs) /\ (ok = true -> lost = 0%nat -> wire = fs).
Proof.
  intros Hs. destruct (session_reachable _ _ _ _ _ _ _ Hs) as [_ Hp [_ Hcnt Hsub Hord _] Hf].
  destruct Hf as (frames & -> & Hn & Ht & _). split.
  - exists frames. split_and!; try done. intros i f Hi. destruct (Hn i f Hi) as (Hno & _ & Hst & Hpid & Hu & Hpl).
    rewrite Hp. split_and!; try done. intros H2 Hti. apply decode_wire_of. unfold valid_frame.
    assert (0 <= fr_nonce f < NONCE_TERMINAL) as Hnr by (rewrite Hno; by apply Z.mod_pos_bound).
    split_and!; try done; [rewrite Hpid; apply to_uint32_range|..];
      unfold is_u64, NONCE_TERMINAL in *; [lia|]. intros Heq. lia.
  - split_and!; try done. intros Hok ->. apply sublist_full; [auto|].
    unfold handed in Hcnt. unfold bt_outbox. cbn in *. lia.
Qed.

End udp_agent.

(** ** Example *)

#[local] Existing Instance linux_platform.

Definition is_ret {A} (r : res A) : bool := match r with Ret _ => true | Throw _ => false end.

Lemma run_pair {A S1 S2} (x : A * (S1 * S2)) r : x.1 = r -> x = (r, (x.2.1, x.2.2)).
Proof. by destruct x as [? [? ?]]; intros <-. Qed.

(** Connect, beat while the socket is connecting, beat after the callback, and let the
    kernel take the first datagram. *)
Definition demo_start : res (Varta Udp.UdpTransport) * World :=
  connectUdp "127.0.0.1" (jint 9000) (demo_world []).
Definition demo_v0 : Varta Udp.UdpTransport :=
  match demo_start.1 with Ret v => v | Throw _ => demo_agent 0 0 end.
Definition demo_s1 := (beat (SLStr "ok") (jint 7) (demo_v0, demo_start.2)).2.
Definition demo_t2 := (Udp.on_connect (Udp.socket (transport demo_v0)) (transport demo_s1.1, demo_s1.2)).2.
Definition demo_s3 := (beat (SLStr "degraded") (jint 8) (set_transport demo_t2.1 demo_s1.1, demo_t2.2)).2.
Definition demo_w3 : datagram * World :=
  default (mkDatagram 0 0 None, demo_s3.2) (complete_send None demo_s3.2).
Definition demo_t4 := (Udp.on_send_done (dg_socket demo_w3.1) None (transport demo_s3.1, demo_w3.2)).2.

Definition demo_v4 : Varta Udp.UdpTransport := set_transport demo_t4.1 demo_s3.1.

(** The two frames as the scratch buffer held them. *)
Definition demo_frames : list bytes :=
  ([] ++ offered sent (contents demo_s1.2 (buf demo_v0)))
    ++ offered sent (contents demo_s3.2 (buf (set_transport demo_t2.1 demo_s1.1))).

Lemma demo_start_run : connectUdp "127.0.0.1" (jint 9000) (demo_world []) = (Ret demo_v0, demo_start.2).
Proof.
  assert (is_ret (connectUdp "127.0.0.1" (jint 9000) (demo_world [])).1 = true) as H
    by (vm_compute; reflexivity).
  unfold demo_v0, demo_start. revert H. generalize (connectUdp "127.0.0.1" (jint 9000) (demo_world [])).
  by intros [[v|e] w].
Qed.

Lemma demo_beat1 :
  beat (SLStr "ok") (jint 7) (demo_v0, demo_start.2) = (Ret sent, (demo_s1.1, demo_s1.2)).
Proof. unfold demo_s1. apply run_pair. vm_compute. reflexivity. Qed.

Lemma demo_connected :
  Udp.on_connect (Udp.socket (transport demo_v0)) (transport demo_s1.1, demo_s1.2)
  = (Ret tt, (demo_t2.1, demo_t2.2)).
Proof. unfold demo_t2. apply run_pair. vm_compute. reflexivity. Qed.

Lemma demo_beat2 :
  beat (SLStr "degraded") (jint 8) (set_transport demo_t2.1 demo_s1.1, demo_t2.2)
  = (Ret sent, (demo_s3.1, demo_s3.2)).
Proof. unfold demo_s3. apply run_pair. vm_compute. reflexivity. Qed.

Lemma demo_completed : complete_send None demo_s3.2 = Some (demo_w3.1, demo_w3.2).
Proof.
  unfold demo_w3. destruct (complete_send None demo_s3.2) as [[d w]|] eqn:E; [done|].
  assert (is_Some (complete_send None demo_s3.2)) as [? H1] by (vm_compute; eauto). congruence.
Qed.

Lemma demo_done :
  Udp.on_send_done (dg_socket demo_w3.1) None (transport demo_s3.1, demo_w3.2)
  = (Ret tt, (demo_t4.1, demo_t4.2)).
Proof. unfold demo_t4. apply run_pair. vm_compute. reflexivity. Qed.

Lemma demo_udp_session :
  udp_session "127.0.0.1" (jint 9000) true 0 demo_v4 demo_t4.2 demo_frames.
Proof.
  pose proof (us_connect _ _ _ _ _ (demo_world_ok []) eq_refl eq_refl demo_start_run) as S0.
  pose proof (us_beat _ _ _ _ _ _ _ _ _ _ _ _ S0 demo_beat1) as S1.
  pose proof (us_connected _ _ _ _ _ _ _ _ _ _ _ S1 demo_connected) as S2.
  pose proof (us_beat _ _ _ _ _ _ _ _ _ _ _ _ S2 demo_beat2) as S3.
  exact (us_complete _ _ _ _ _ _ _ _ _ _ _ _ _ S3 demo_completed demo_done).
Qed.

(** Both datagrams are out, the first one with the kernel. *)
Lemma udp_agent_end_to_end_witness :
  exists frames, demo_frames = map wire_of frames
  /\ map snd (w_kernel demo_t4.2) ++ map (contents demo_t4.2) (bt_outbox (transport demo_v4) demo_t4.2)
     = demo_frames.
Proof.
  destruct (udp_agent_end_to_end "127.0.0.1" (jint 9000) true 0 _ _ _ demo_udp_session)
    as ((frames & Hf & _) & _ & _ & _ & Hw).
  exists frames. split; [exact Hf|]. exact (Hw eq_refl eq_refl).
Defined.
