(* ===== verification/Terminal.v ===== *)
(** * The terminal simulation of the landing page (src/script.js, lines 185-351)

    A self-rescheduling animation: every callback does a piece of work and asks
    [safeTimeout] for the next one. While the tab is hidden [safeTimeout] parks the
    callback on the [visibilitychange] event instead of a timer. The page's browser
    side (live timeouts, registered listeners, [document.hidden]) is part of the
    state; any live timeout may fire and the tab may be hidden or shown at any
    point, which covers every timing. *)

From stdpp Require Import pretty.
From S2P Require Import Prelude.

#[local] Open Scope string_scope.

(** ** Markup *)

Definition quot : string := String (Ascii.ascii_of_nat 34) EmptyString.

Definition span (cls body : string) : string :=
  "<span class=" +:+ quot +:+ cls +:+ quot +:+ ">" +:+ body +:+ "</span>".

Definition command : string :=
  "varta-watch --socket /tmp/varta.sock --udp-port 9000 --key-file /tmp/varta.key".

Definition commandColored : string :=
  span "t-cmd" "varta-watch" +:+ " " +:+ span "t-flag" "--socket" +:+ " " +:+
  span "t-path" "/tmp/varta.sock" +:+ " " +:+ span "t-flag" "--udp-port" +:+ " " +:+
  span "t-num" "9000" +:+ " " +:+ span "t-flag" "--key-file" +:+ " " +:+
  span "t-path" "/tmp/varta.key".

Definition listeningHTML : string :=
  span "t-info" "&bull;" +:+ " listening on " +:+ span "t-path" "/tmp/varta.sock" +:+
  " &amp; " +:+ span "t-path" "0.0.0.0:9000 (secure UDP)".

Definition beatLine (ms : nat) : string :=
  span "t-info" "&bull;" +:+ " pid " +:+ span "t-num" "4821" +:+ " &mdash; status: " +:+
  span "t-ok" "Ok" +:+ " &mdash; last beat: " +:+ span "t-num" (pretty ms +:+ "ms") +:+ " ago".

Definition stallHTML : string :=
  span "t-warn" "&bull;" +:+ " pid " +:+ span "t-num" "4821" +:+ " &mdash; " +:+
  span "t-warn" "STALL DETECTED" +:+ " &mdash; silence: " +:+ span "t-num" "2104ms".

Definition recoveryHTML : string :=
  span "t-warn" "&rarr;" +:+ " running recovery: " +:+ span "t-cmd" "systemctl restart my-agent".

Definition metricsHTML : string :=
  span "t-info" "&bull;" +:+ " metrics &rarr; " +:+ span "t-path" "http://127.0.0.1:9100/metrics".

(** The two prompts the script writes inline. *)
Definition promptHTML : string := span "t-prompt" "$" +:+ " ".
Definition cursorHTML : string := span "t-cursor" "_".

(** [s.replace(pat, rep)] for a string pattern and a replacement without [$]. *)
Fixpoint replace_first (pat rep s : string) : string :=
  if String.prefix pat s
  then rep +:+ String.substring (String.length pat) (String.length s) s
  else match s with
       | EmptyString => EmptyString
       | String c s => String c (replace_first pat rep s)
       end.

(** The colouring of a typed prefix. *)
Definition colored (text : string) : string :=
  replace_first "/tmp/varta.key" (span "t-path" "/tmp/varta.key")
  (replace_first "9000" (span "t-num" "9000")
  (replace_first "/tmp/varta.sock" (span "t-path" "/tmp/varta.sock")
  (replace_first "--key-file" (span "t-flag" "--key-file")
  (replace_first "--udp-port" (span "t-flag" "--udp-port")
  (replace_first "--socket" (span "t-flag" "--socket") text))))).

(** ** State *)

(** A child of [terminalOutput]. The prompt line keeps the two spans the script
    holds on to: the contents of [.t-cmd], and whether [.t-cursor] is still there.
    [run] is the call of [startTerminalSimulation] whose closures hold them. *)
Inductive Content : Type :=
| Html (h : string)
| PromptLine (run : nat) (cmdSpan : string) (cursorSpan : bool).

Record Line : Type := mkLine { className : string; content : Content }.

Definition innerHTML (l : Line) : string :=
  match content l with
  | Html h => h
  | PromptLine _ cmd cursor =>
      promptHTML +:+ span "t-cmd" cmd +:+ (if cursor then cursorHTML else "")
  end.

(** The function objects handed to [safeTimeout]; those declared inside
    [startTerminalSimulation] close over the variables of one call. *)
Inductive Task : Type :=
| TypeCommand (run : nat)
| PrintListening (run : nat)
| StartHeartbeats (run : nat)
| PrintBeat (run : nat)
| TriggerStall (run : nat)
| RunRecovery (run : nat)
| PrintRecoveredBeat (run : nat)
| PrintMetrics (run : nat)
| LoopBack (run : nat)
| Restart.

(** [ms], or [base + Math.random() * spread]. *)
Inductive Delay : Type :=
| After (ms : Z)
| Between (base spread : Z).

(** The variables one call of [startTerminalSimulation] closes over. *)
Record Run : Type := mkRun { charIndex : nat; beatIndex : nat }.

Record Timeout : Type := mkTimeout { to_id : nat; to_fn : Task; to_delay : Delay }.

Record Terminal : Type := mkTerminal {
  terminalOutput : list Line;
  scrollTop : Z;
  simulationActive : bool;
  pendingTimers : list nat;
  runs : list Run;
  (** The browser's side. *)
  timeouts : list Timeout;
  nextId : nat;
  onVisible : list Task;
  hidden : bool;
}.

Definition set_output (o : list Line) (t : Terminal) : Terminal :=
  mkTerminal o (scrollTop t) (simulationActive t) (pendingTimers t) (runs t) (timeouts t)
    (nextId t) (onVisible t) (hidden t).
Definition set_scrollTop (z : Z) (t : Terminal) : Terminal :=
  mkTerminal (terminalOutput t) z (simulationActive t) (pendingTimers t) (runs t) (timeouts t)
    (nextId t) (onVisible t) (hidden t).
Definition set_pending (p : list nat) (t : Terminal) : Terminal :=
  mkTerminal (terminalOutput t) (scrollTop t) (simulationActive t) p (runs t) (timeouts t)
    (nextId t) (onVisible t) (hidden t).
Definition set_runs (r : list Run) (t : Terminal) : Terminal :=
  mkTerminal (terminalOutput t) (scrollTop t) (simulationActive t) (pendingTimers t) r (timeouts t)
    (nextId t) (onVisible t) (hidden t).
Definition set_timeouts (l : list Timeout) (n : nat) (t : Terminal) : Terminal :=
  mkTerminal (terminalOutput t) (scrollTop t) (simulationActive t) (pendingTimers t) (runs t) l
    n (onVisible t) (hidden t).
Definition set_onVisible (l : list Task) (t : Terminal) : Terminal :=
  mkTerminal (terminalOutput t) (scrollTop t) (simulationActive t) (pendingTimers t) (runs t)
    (timeouts t) (nextId t) l (hidden t).
Definition set_hidden (h : bool) (t : Terminal) : Terminal :=
  mkTerminal (terminalOutput t) (scrollTop t) (simulationActive t) (pendingTimers t) (runs t)
    (timeouts t) (nextId t) (onVisible t) h.

Section terminal.
(** [matchMedia('(prefers-reduced-motion: reduce)').matches], read once, and the
    browser's layout: the height of the output. *)
Context (prefersReducedMotion : bool) (scrollHeight : list Line -> Z).

(** ** Operations *)

Definition createLine (htmlContent : string) (isCursorLine : bool) : Line :=
  mkLine ("terminal-line" +:+ (if isCursorLine then " terminal-line--cursor" else ""))
    (Html htmlContent).

Definition appendChild (l : Line) (t : Terminal) : Terminal :=
  set_output (terminalOutput t ++ [l]) t.

Definition appendAndScroll (htmlContent : string) (isCursorLine : bool) (t : Terminal) : Terminal :=
  let t := appendChild (createLine htmlContent isCursorLine) t in
  set_scrollTop (scrollHeight (terminalOutput t)) t.

Definition safeTimeout (fn : Task) (delay : Delay) (t : Terminal) : Terminal :=
  if hidden t then set_onVisible (onVisible t ++ [fn]) t
  else
    let id := nextId t in
    let t := set_timeouts (timeouts t ++ [mkTimeout id fn delay]) (S id) t in
    set_pending (pendingTimers t ++ [id]) t.

(** [clearTimeout(id)]. *)
Definition clearTimeout (id : nat) (t : Terminal) : Terminal :=
  set_timeouts (filter (fun o => to_id o <> id) (timeouts t)) (nextId t) t.

Definition clearPendingTimers (t : Terminal) : Terminal :=
  set_pending [] (foldl (fun t id => clearTimeout id t) t (pendingTimers t)).

Definition run_of (r : nat) (t : Terminal) : Run := default (mkRun 0 0) (runs t !! r).

Definition set_charIndex (r n : nat) (t : Terminal) : Terminal :=
  set_runs (<[r := mkRun n (beatIndex (run_of r t))]> (runs t)) t.

Definition set_beatIndex (r n : nat) (t : Terminal) : Terminal :=
  set_runs (<[r := mkRun (charIndex (run_of r t)) n]> (runs t)) t.

(** Writes through [cmdSpan] and [cursorSpan] of call [r]. A prompt line that is no
    longer in the document is written to no effect. *)
Definition on_prompt (r : nat) (f : string -> bool -> string * bool) (t : Terminal) : Terminal :=
  set_output
    ((fun l => match content l with
               | PromptLine r' cmd cur =>
                   if decide (r' = r)
                   then mkLine (className l) (PromptLine r' (f cmd cur).1 (f cmd cur).2)
                   else l
               | Html _ => l
               end) <$> terminalOutput t) t.

Definition typeCommand (r : nat) (t : Terminal) : Terminal :=
  if negb (simulationActive t) then t
  else
    let i := charIndex (run_of r t) in
    if bool_decide (i < String.length command)%nat then
      let text := String.substring 0 (i + 1) command in
      let t := on_prompt r (fun _ cur => (colored text, cur)) t in
      let t := set_charIndex r (i + 1) t in
      safeTimeout (TypeCommand r) (Between 30 20) t
    else
      let t := on_prompt r (fun cmd _ => (cmd, false)) t in
      safeTimeout (PrintListening r) (After 400) t.

Definition startTerminalSimulation (t : Terminal) : Terminal :=
  if negb (simulationActive t) then t
  else
    let t := clearPendingTimers t in
    let t := set_output [] t in
    if prefersReducedMotion then
      let t := appendAndScroll (promptHTML +:+ commandColored) false t in
      let t := appendAndScroll listeningHTML false t in
      let t := appendAndScroll (beatLine 12) false t in
      let t := appendAndScroll (beatLine 8) false t in
      let t := appendAndScroll stallHTML false t in
      let t := appendAndScroll recoveryHTML false t in
      let t := appendAndScroll (beatLine 6) false t in
      let t := appendAndScroll metricsHTML false t in
      let t := appendAndScroll (promptHTML +:+ cursorHTML) true t in
      safeTimeout Restart (After 6000) t
    else
      let r := length (runs t) in
      let t := set_runs (runs t ++ [mkRun 0 0]) t in
      let t := appendChild (mkLine "terminal-line" (PromptLine r "" true)) t in
      typeCommand r t.

Definition printListening (r : nat) (t : Terminal) : Terminal :=
  if negb (simulationActive t) then t
  else safeTimeout (StartHeartbeats r) (After 600) (appendAndScroll listeningHTML false t).

Definition beatTimings : list nat := [12; 8]%nat.

Definition printBeat (r : nat) (t : Terminal) : Terminal :=
  if negb (simulationActive t) then t
  else
    let i := beatIndex (run_of r t) in
    match beatTimings !! i with
    | Some ms =>
        let t := appendAndScroll (beatLine ms) false t in
        let t := set_beatIndex r (i + 1) t in
        safeTimeout (PrintBeat r) (Between 800 200) t
    | None => safeTimeout (TriggerStall r) (After 800) t
    end.

Definition startHeartbeats (r : nat) (t : Terminal) : Terminal :=
  if negb (simulationActive t) then t else printBeat r t.

Definition triggerStall (r : nat) (t : Terminal) : Terminal :=
  if negb (simulationActive t) then t
  else safeTimeout (RunRecovery r) (After 1200) (appendAndScroll stallHTML false t).

Definition runRecovery (r : nat) (t : Terminal) : Terminal :=
  if negb (simulationActive t) then t
  else safeTimeout (PrintRecoveredBeat r) (After 1200) (appendAndScroll recoveryHTML false t).

Definition printRecoveredBeat (r : nat) (t : Terminal) : Terminal :=
  if negb (simulationActive t) then t
  else safeTimeout (PrintMetrics r) (After 800) (appendAndScroll (beatLine 6) false t).

Definition printMetrics (r : nat) (t : Terminal) : Terminal :=
  if negb (simulationActive t) then t
  else
    let t := appendAndScroll metricsHTML false t in
    let t := appendAndScroll (promptHTML +:+ cursorHTML) true t in
    safeTimeout (LoopBack r) (After 5000) t.

Definition call (fn : Task) (t : Terminal) : Terminal :=
  match fn with
  | TypeCommand r => typeCommand r t
  | PrintListening r => printListening r t
  | StartHeartbeats r => startHeartbeats r t
  | PrintBeat r => printBeat r t
  | TriggerStall r => triggerStall r t
  | RunRecovery r => runRecovery r t
  | PrintRecoveredBeat r => printRecoveredBeat r t
  | PrintMetrics r => printMetrics r t
  | LoopBack r =>
      if negb (simulationActive t) then t else startTerminalSimulation (set_beatIndex r 0 t)
  | Restart => if negb (simulationActive t) then t else startTerminalSimulation t
  end.

(** ** The event loop *)

(** A live timeout fires: the browser forgets it and runs the wrapper of
    [safeTimeout], which unlists the id and calls [fn]. *)
Definition fire (o : Timeout) (t : Terminal) : Terminal :=
  let t := set_timeouts (filter (fun o' => to_id o' <> to_id o) (timeouts t)) (nextId t) t in
  let t := set_pending (filter (fun i => i <> to_id o) (pendingTimers t)) t in
  call (to_fn o) t.

(** [visibilitychange]: the listeners registered when the event is dispatched run in
    order, each removing itself first; one that a listener adds waits for the next
    event. *)
Definition visibilitychange (h : bool) (t : Terminal) : Terminal :=
  let t := set_hidden h t in
  foldl (fun t fn => safeTimeout fn (After 0) (set_onVisible (drop 1 (onVisible t)) t))
    t (onVisible t).

(** The script's load: the static fallback is cleared and the simulation started. *)
Definition load (fallback : list Line) (h : bool) : Terminal :=
  let t := mkTerminal fallback 0 true [] [] [] 1 [] h in
  startTerminalSimulation (set_output [] t).

(** [session n t]: the page, loaded in a shown or hidden tab, is in state [t] after
    [n] callbacks, with the tab hidden and shown in between in any way. *)
Inductive session : nat -> Terminal -> Prop :=
| session_load fallback h : session 0 (load fallback h)
| session_fire n t o : session n t -> o ∈ timeouts t -> session (S n) (fire o t)
| session_visibility n t h : session n t -> h <> hidden t -> session n (visibilitychange h t).

(** ** The screenplay: what is on screen, and what comes next, by callback *)

Definition typed : nat := String.length command.

(** Callbacks in one round of the animation. *)
Definition round : nat := typed + 9.

Definition prompt_line (r k : nat) (cursor : bool) : Line :=
  mkLine "terminal-line" (PromptLine r (colored (String.substring 0 k command)) cursor).

(** The lines below the prompt, in order. *)
Definition printed : list Line :=
  [createLine listeningHTML false; createLine (beatLine 12) false; createLine (beatLine 8) false;
   createLine stallHTML false; createLine recoveryHTML false; createLine (beatLine 6) false;
   createLine metricsHTML false; createLine (promptHTML +:+ cursorHTML) true].

(** How many of them are there [j] callbacks after the typing. *)
Definition lines_after (j : nat) : nat := nth j [0; 1; 2; 3; 3; 4; 5; 6; 8]%nat 8%nat.

Definition stage (r k : nat) : list Line :=
  if decide (k < typed)%nat then [prompt_line r (k + 1) true]
  else prompt_line r typed false :: take (lines_after (k - typed)) printed.

Definition task_at (r k : nat) : Task :=
  if decide (k < typed)%nat then TypeCommand r
  else nth (k - typed)
         [PrintListening r; StartHeartbeats r; PrintBeat r; PrintBeat r; TriggerStall r;
          RunRecovery r; PrintRecoveredBeat r; PrintMetrics r; LoopBack r] (LoopBack r).

Definition run_at (k : nat) : Run :=
  if decide (k < typed)%nat then mkRun (k + 1) 0
  else mkRun typed (nth (k - typed) [0; 0; 1; 2]%nat 2%nat).

Definition reduced_screen : list Line :=
  [createLine (promptHTML +:+ commandColored) false; createLine listeningHTML false;
   createLine (beatLine 12) false; createLine (beatLine 8) false; createLine stallHTML false;
   createLine recoveryHTML false; createLine (beatLine 6) false; createLine metricsHTML false;
   createLine (promptHTML +:+ cursorHTML) true].

(** ** One thread of control *)

Definition idle (t : Terminal) : Prop :=
  simulationActive t = true /\ timeouts t = [] /\ pendingTimers t = [] /\ onVisible t = [].

(** [fn] is the only callback outstanding: on a listed timeout, or, in a hidden tab,
    parked on the event. *)
Definition waiting (fn : Task) (t : Terminal) : Prop :=
  simulationActive t = true
  /\ ((exists id d, timeouts t = [mkTimeout id fn d] /\ pendingTimers t = [id] /\ onVisible t = [])
      \/ (hidden t = true /\ timeouts t = [] /\ pendingTimers t = [] /\ onVisible t = [fn])).

(** What is on screen and in the closures of call [r] at callback [k]. *)
Definition at_stage (r k : nat) (t : Terminal) : Prop :=
  terminalOutput t = stage r k /\ length (runs t) = S r /\ runs t !! r = Some (run_at k).

Lemma safeTimeout_waiting fn d t : idle t -> waiting fn (safeTimeout fn d t).
Proof.
  intros (Ha & Ht & Hp & Hv). unfold safeTimeout, waiting.
  destruct (hidden t) eqn:Hh; cbn; rewrite ?Ht, ?Hp, ?Hv, ?Ha, ?Hh; split; auto.
  left. eauto.
Qed.

Lemma safeTimeout_screen fn d t :
  terminalOutput (safeTimeout fn d t) = terminalOutput t /\ runs (safeTimeout fn d t) = runs t.
Proof. unfold safeTimeout. by destruct (hidden t). Qed.

Lemma safeTimeout_stage fn d r k t :
  idle t -> at_stage r k t -> waiting fn (safeTimeout fn d t) /\ at_stage r k (safeTimeout fn d t).
Proof.
  intros Hi Ha. split; [by apply safeTimeout_waiting|].
  unfold at_stage. destruct (safeTimeout_screen fn d t) as [-> ->]. exact Ha.
Qed.

Lemma fire_waiting fn o t :
  waiting fn t -> o ∈ timeouts t ->
  exists t', idle t' /\ fire o t = call fn t' /\ terminalOutput t' = terminalOutput t
    /\ runs t' = runs t.
Proof.
  intros [Ha [(id & d & Ht & Hp & Hv)|(_ & Ht & _)]] Ho; rewrite Ht in Ho; [|set_solver].
  apply list_elem_of_singleton in Ho as ->. eexists. split; [|split; [reflexivity|done]].
  unfold idle; cbn. rewrite Ht, Hp. cbn. unfold filter. cbn.
  rewrite !decide_False by tauto. auto.
Qed.

Lemma visibility_waiting fn h t :
  waiting fn t ->
  waiting fn (visibilitychange h t) /\ terminalOutput (visibilitychange h t) = terminalOutput t
    /\ runs (visibilitychange h t) = runs t.
Proof.
  intros [Ha [(id & d & Ht & Hp & Hv)|(Hh & Ht & Hp & Hv)]]; unfold visibilitychange; cbn;
    rewrite Hv; cbn.
  - split; [|done]. split; [done|]. left. eauto.
  - rewrite Hv. cbn. set (t' := set_onVisible _ _).
    split; [by apply safeTimeout_waiting|].
    destruct (safeTimeout_screen fn (After 0) t') as [-> ->]. done.
Qed.

(** ** One callback, one stage *)

(** Leaves the timers alone. *)
Definition same_timers (t t' : Terminal) : Prop :=
  simulationActive t' = simulationActive t /\ timeouts t' = timeouts t
  /\ pendingTimers t' = pendingTimers t /\ onVisible t' = onVisible t.

Lemma same_timers_idle t t' : same_timers t t' -> idle t -> idle t'.
Proof. unfold same_timers, idle. intros (-> & -> & -> & ->). auto. Qed.

Lemma appended_stage h c fn d r k k' t :
  idle t -> at_stage r k t -> stage r k' = (stage r k ++ [createLine h c])%list ->
  run_at k' = run_at k ->
  waiting fn (safeTimeout fn d (appendAndScroll h c t))
  /\ at_stage r k' (safeTimeout fn d (appendAndScroll h c t)).
Proof.
  intros Hi (Ho & Hl & Hr) Hs Hrun. apply safeTimeout_stage; [done|].
  unfold at_stage; cbn. rewrite Hs, Hrun, Ho. auto.
Qed.

Lemma run_of_at r k t : at_stage r k t -> run_of r t = run_at k.
Proof. intros (_ & _ & Hr). unfold run_of. by rewrite Hr. Qed.

Lemma on_prompt_line r f n cur t :
  terminalOutput t = [prompt_line r n cur] ->
  terminalOutput (on_prompt r f t)
  = [mkLine "terminal-line" (PromptLine r (f (colored (String.substring 0 n command)) cur).1
                                          (f (colored (String.substring 0 n command)) cur).2)].
Proof. intros Ho. cbn. rewrite Ho. cbn. by rewrite decide_True by done. Qed.

Lemma insert_last {A} (l : list A) r (x y : A) :
  l !! r = Some x -> length (<[r := y]> l) = length l /\ <[r := y]> l !! r = Some y.
Proof.
  intros Hl. split; [apply length_insert|]. apply list_lookup_insert_eq.
  by eapply lookup_lt_Some.
Qed.

(** A write of a closure variable of call [r], with the screen already as it should be. *)
Lemma at_stage_runs r k k' n t :
  terminalOutput t = stage r k' -> length (runs t) = S r -> runs t !! r = Some (run_at k) ->
  n = run_at k' -> at_stage r k' (set_runs (<[r := n]> (runs t)) t).
Proof.
  intros Ho Hl Hr ->. destruct (insert_last (runs t) r _ (run_at k') Hr) as [H1 H2].
  unfold at_stage; cbn. rewrite H1. auto.
Qed.

Lemma stage_typing r k : (k < typed)%nat -> stage r k = [prompt_line r (k + 1) true].
Proof. intros Hk. unfold stage. by rewrite decide_True. Qed.

Lemma run_at_typing k : (k < typed)%nat -> run_at k = mkRun (k + 1) 0.
Proof. intros Hk. unfold run_at. by rewrite decide_True. Qed.

Lemma stage_printing r j :
  stage r (typed + j) = prompt_line r typed false :: take (lines_after j) printed.
Proof. unfold stage. rewrite decide_False by lia. do 3 f_equal. lia. Qed.

Lemma run_at_printing j : run_at (typed + j) = mkRun typed (nth j [0; 0; 1; 2]%nat 2%nat).
Proof. unfold run_at. rewrite decide_False by lia. do 2 f_equal. lia. Qed.

(** The general step of the typing loop: with [n] characters typed, the next is shown. *)
Lemma typeCommand_types r n cmd t :
  (n < typed)%nat -> idle t -> length (runs t) = S r -> runs t !! r = Some (mkRun n 0) ->
  terminalOutput t = [mkLine "terminal-line" (PromptLine r cmd true)] ->
  waiting (TypeCommand r) (typeCommand r t) /\ at_stage r n (typeCommand r t).
Proof.
  intros Hn Hi Hl Hr Ho. destruct (Hi) as (Hact & _). unfold typeCommand.
  rewrite Hact. unfold run_of. rewrite Hr. cbn [negb default from_option id charIndex].
  rewrite bool_decide_true by (unfold typed in Hn; lia).
  apply safeTimeout_stage; [exact Hi|]. unfold set_charIndex, run_of.
  cbn [runs on_prompt set_output]. rewrite Hr.
  destruct (insert_last (runs t) r _ (mkRun (n + 1) 0) Hr) as [H1 H2].
  unfold at_stage. cbn [runs set_runs terminalOutput default from_option id beatIndex].
  rewrite H1, run_at_typing, stage_typing by done. split; [|done].
  unfold on_prompt. cbn. rewrite Ho. cbn. by rewrite decide_True.
Qed.

Lemma typing_step r k t :
  (S k < typed)%nat -> idle t -> at_stage r k t ->
  waiting (TypeCommand r) (typeCommand r t) /\ at_stage r (S k) (typeCommand r t).
Proof.
  intros Hk Hi (Ho & Hl & Hr). rewrite stage_typing in Ho by lia.
  rewrite run_at_typing, Nat.add_1_r in Hr by lia. by eapply typeCommand_types.
Qed.

Lemma typing_ends r t :
  idle t -> at_stage r (typed - 1) t ->
  waiting (PrintListening r) (typeCommand r t) /\ at_stage r typed (typeCommand r t).
Proof.
  intros Hi Hs. destruct (Hi) as (Hact & _), Hs as (Ho & Hl & Hr).
  assert (typed - 1 < typed)%nat as Hlt by (unfold typed; cbn; lia).
  rewrite stage_typing in Ho by done. rewrite run_at_typing in Hr by done.
  replace (typed - 1 + 1)%nat with typed in * by lia.
  unfold typeCommand. rewrite Hact. unfold run_of. rewrite Hr.
  cbn [negb default from_option id charIndex]. unfold typed at 1.
  rewrite bool_decide_false by lia.
  apply safeTimeout_stage; [exact Hi|]. unfold at_stage.
  rewrite (on_prompt_line _ _ _ _ _ Ho). cbn [fst snd runs on_prompt set_output].
  pose proof (stage_printing r 0) as Hs. pose proof (run_at_printing 0) as Hn.
  rewrite Nat.add_0_r in Hs, Hn. rewrite Hs, Hn. auto.
Qed.

(** Printing one line and scheduling the next task. *)
Lemma printing_step h c fn d r j t :
  idle t -> at_stage r (typed + j) t ->
  take (lines_after (S j)) printed = (take (lines_after j) printed ++ [createLine h c])%list ->
  nth (S j) [0; 0; 1; 2]%nat 2%nat = nth j [0; 0; 1; 2]%nat 2%nat ->
  waiting fn (safeTimeout fn d (appendAndScroll h c t))
  /\ at_stage r (typed + S j) (safeTimeout fn d (appendAndScroll h c t)).
Proof.
  intros Hi Hs Hl Hn. eapply appended_stage; [done..| |].
  - by rewrite !stage_printing, Hl.
  - by rewrite !run_at_printing, Hn.
Qed.

Lemma beat_step r j ms t :
  idle t -> at_stage r (typed + j) t ->
  beatTimings !! nth j [0; 0; 1; 2]%nat 2%nat = Some ms ->
  nth (S j) [0; 0; 1; 2]%nat 2%nat = S (nth j [0; 0; 1; 2]%nat 2%nat) ->
  take (lines_after (S j)) printed
  = (take (lines_after j) printed ++ [createLine (beatLine ms) false])%list ->
  waiting (PrintBeat r) (printBeat r t) /\ at_stage r (typed + S j) (printBeat r t).
Proof.
  intros Hi Hs Hb Hn Hl. destruct (Hi) as (Hact & _). unfold printBeat.
  rewrite Hact, (run_of_at _ _ _ Hs), run_at_printing. cbn [negb beatIndex]. rewrite Hb.
  apply safeTimeout_stage; [exact Hi|]. unfold set_beatIndex.
  destruct Hs as (Ho & Hlen & Hr).
  eapply at_stage_runs with (k := (typed + j)%nat); [|done..|].
  - cbn [terminalOutput appendAndScroll set_scrollTop appendChild set_output].
    by rewrite Ho, !stage_printing, Hl.
  - unfold run_of. cbn [runs appendAndScroll set_scrollTop appendChild set_output].
    rewrite Hr, !run_at_printing, Hn. cbn. f_equal. lia.
Qed.

(** Everything printed: [startTerminalSimulation] clears the screen for a new call. *)
Lemma restart_stage t :
  prefersReducedMotion = false -> idle t ->
  waiting (TypeCommand (length (runs t))) (startTerminalSimulation t)
  /\ at_stage (length (runs t)) 0 (startTerminalSimulation t).
Proof.
  intros Hm Hi. destruct (Hi) as (Hact & Ht & Hp & Hv). unfold startTerminalSimulation.
  rewrite Hact, Hm. unfold clearPendingTimers. rewrite Hp. cbn [negb foldl].
  apply typeCommand_types with (cmd := ""); cbn.
  - unfold typed. cbn. lia.
  - unfold idle. cbn. auto.
  - rewrite length_app. cbn. lia.
  - by rewrite list_lookup_middle.
  - done.
Qed.

Lemma task_at_typing r k : (k < typed)%nat -> task_at r k = TypeCommand r.
Proof. intros Hk. unfold task_at. by rewrite decide_True. Qed.

Lemma task_at_printing r j :
  task_at r (typed + j)
  = nth j [PrintListening r; StartHeartbeats r; PrintBeat r; PrintBeat r; TriggerStall r;
           RunRecovery r; PrintRecoveredBeat r; PrintMetrics r; LoopBack r] (LoopBack r).
Proof. unfold task_at. rewrite decide_False by lia. f_equal. lia. Qed.

(** The callbacks below the typing loop, up to the last line. *)
Lemma printing_calls r j t :
  (j < 8)%nat -> idle t -> at_stage r (typed + j) t ->
  waiting (task_at r (typed + S j)) (call (task_at r (typed + j)) t)
  /\ at_stage r (typed + S j) (call (task_at r (typed + j)) t).
Proof.
  intros Hj Hi Hs. destruct (Hi) as (Hact & _). rewrite !task_at_printing.
  destruct j as [|[|[|[|[|[|[|[|j]]]]]]]]; [..|lia]; cbn [nth call];
    unfold printListening, startHeartbeats, triggerStall, runRecovery, printRecoveredBeat;
    rewrite ?Hact; cbn [negb]; try (by eapply printing_step); try (by eapply beat_step).
  - unfold printBeat. rewrite Hact, (run_of_at _ _ _ Hs), run_at_printing. cbn [negb beatIndex nth].
    cbn [beatTimings lookup list_lookup]. apply safeTimeout_stage; [exact Hi|].
    unfold at_stage in *. rewrite stage_printing, run_at_printing in *. exact Hs.
  - unfold printMetrics. rewrite Hact. cbn [negb]. apply safeTimeout_stage; [exact Hi|].
    destruct Hs as (Ho & Hl & Hr). unfold at_stage. cbn. rewrite Ho.
    rewrite !stage_printing, !run_at_printing in *. auto.
Qed.

Lemma next_stage r k t :
  prefersReducedMotion = false -> (S k < round)%nat -> idle t -> at_stage r k t ->
  waiting (task_at r (S k)) (call (task_at r k) t) /\ at_stage r (S k) (call (task_at r k) t).
Proof.
  intros Hm Hk Hi Hs. unfold round in Hk. destruct (decide (S k < typed)%nat) as [Hlt|Hge].
  { rewrite !task_at_typing by lia. by apply typing_step. }
  destruct (decide (S k = typed)) as [Heq|Hne].
  { rewrite (task_at_typing r k) by lia. replace k with (typed - 1)%nat in * by lia.
    replace (S (typed - 1)) with typed in * by lia.
    pose proof (task_at_printing r 0) as Ht. rewrite Nat.add_0_r in Ht. rewrite Ht.
    by apply typing_ends. }
  replace k with (typed + (k - typed))%nat in * by lia. rewrite <- Nat.add_succ_r.
  apply printing_calls; [lia|done..].
Qed.

Lemma next_round r t :
  prefersReducedMotion = false -> idle t -> at_stage r (round - 1) t ->
  waiting (task_at (S r) 0) (call (task_at r (round - 1)) t)
  /\ at_stage (S r) 0 (call (task_at r (round - 1)) t).
Proof.
  intros Hm Hi (_ & Hl & Hr). replace (round - 1)%nat with (typed + 8)%nat by (unfold round; lia).
  rewrite task_at_printing. cbn [nth call]. destruct (Hi) as (Hact & _). rewrite Hact. cbn [negb].
  rewrite (task_at_typing (S r) 0) by (unfold typed; cbn; lia).
  assert (length (runs (set_beatIndex r 0 t)) = S r) as Hn.
  { unfold set_beatIndex. cbn. by rewrite length_insert. }
  rewrite <- Hn at 1 2. by apply restart_stage.
Qed.

Lemma reduced_start t :
  prefersReducedMotion = true -> idle t ->
  waiting Restart (startTerminalSimulation t)
  /\ terminalOutput (startTerminalSimulation t) = reduced_screen.
Proof.
  intros Hm Hi. destruct (Hi) as (Hact & Ht & Hp & Hv). unfold startTerminalSimulation.
  rewrite Hact, Hm. unfold clearPendingTimers. rewrite Hp. cbn [negb foldl]. split.
  - apply safeTimeout_waiting. repeat split; [exact Hact|exact Ht|exact Hv].
  - by rewrite (proj1 (safeTimeout_screen _ _ _)).
Qed.

(** ** The invariant of a session *)

Definition follows (n : nat) (t : Terminal) : Prop :=
  if prefersReducedMotion then waiting Restart t /\ terminalOutput t = reduced_screen
  else waiting (task_at (n / round) (n mod round)) t /\ at_stage (n / round) (n mod round) t.

Lemma div_mod_succ n :
  ((S (n mod round) < round)%nat /\ S n / round = n / round /\ S n mod round = S (n mod round))%nat
  \/ (n mod round = round - 1 /\ S n / round = S (n / round) /\ S n mod round = 0)%nat.
Proof.
  assert (round <> 0%nat) as Hr by (unfold round; lia).
  pose proof (Nat.div_mod_eq n round) as He. pose proof (Nat.mod_upper_bound n round Hr) as Hb.
  destruct (decide (S (n mod round) < round)%nat); [left|right].
  - split; [done|]. split.
    + symmetry. apply (Nat.div_unique _ _ _ (S (n mod round))); lia.
    + symmetry. apply (Nat.mod_unique _ _ (n / round)); lia.
  - split; [lia|]. split.
    + symmetry. apply (Nat.div_unique _ _ _ 0); nia.
    + symmetry. apply (Nat.mod_unique _ _ (S (n / round))); nia.
Qed.

Lemma session_follows n t : session n t -> follows n t.
Proof.
  unfold follows. induction 1 as [fb h|n t o _ IH Ho|n t h _ IH _].
  - unfold load. set (t0 := set_output [] _). assert (idle t0) as Hi by done.
    destruct prefersReducedMotion eqn:Hm; [by apply reduced_start|].
    rewrite Nat.Div0.div_0_l, Nat.Div0.mod_0_l.
    rewrite (task_at_typing 0 0) by (unfold typed; cbn; lia). by apply (restart_stage t0).
  - destruct prefersReducedMotion eqn:Hm.
    + destruct IH as [Hw Hs]. destruct (fire_waiting _ _ _ Hw Ho) as (t' & Hi & -> & _ & _).
      cbn [call]. destruct (Hi) as (-> & _). cbn [negb]. by apply reduced_start.
    + destruct IH as [Hw Hs]. destruct (fire_waiting _ _ _ Hw Ho) as (t' & Hi & -> & Ho' & Hr').
      assert (at_stage (n / round) (n mod round) t') as Hs'
        by (unfold at_stage; by rewrite Ho', Hr').
      destruct (div_mod_succ n) as [(Hlt & -> & ->)|(He & -> & ->)].
      * by apply next_stage.
      * rewrite He in *. by apply next_round.
  - destruct prefersReducedMotion eqn:Hm; destruct IH as [Hw Hs];
      destruct (visibility_waiting _ h _ Hw) as (Hw' & Ho' & Hr'); split; try done.
    + by rewrite Ho'.
    + unfold at_stage. by rewrite Ho', Hr'.
Qed.

(** The markup on screen after [n] callbacks. *)
Definition screen (n : nat) : list string :=
  let k := (n mod round)%nat in
  if prefersReducedMotion then innerHTML <$> reduced_screen
  else if decide (k < typed)%nat then
    [promptHTML +:+ span "t-cmd" (colored (String.substring 0 (k + 1) command)) +:+ cursorHTML]
  else
    (promptHTML +:+ span "t-cmd" (colored command) +:+ "")
      :: take (lines_after (k - typed)) (innerHTML <$> printed).

Lemma screen_stage r k :
  innerHTML <$> stage r k =
  if decide (k < typed)%nat then
    [promptHTML +:+ span "t-cmd" (colored (String.substring 0 (k + 1) command)) +:+ cursorHTML]
  else
    (promptHTML +:+ span "t-cmd" (colored command) +:+ "")
      :: take (lines_after (k - typed)) (innerHTML <$> printed).
Proof.
  unfold stage. case_decide; [done|]. rewrite fmap_cons. f_equal. by rewrite fmap_take.
Qed.

Lemma screen_follows n t : session n t -> innerHTML <$> terminalOutput t = screen n.
Proof.
  intros Hs%session_follows. unfold follows, screen in *.
  destruct prefersReducedMotion; destruct Hs as [_ Hs].
  - by rewrite Hs.
  - destruct Hs as [-> _]. apply screen_stage.
Qed.

Lemma session_waiting n t : session n t -> exists fn, waiting fn t.
Proof.
  intros Hs%session_follows. unfold follows in Hs.
  destruct prefersReducedMotion; destruct Hs as [Hw _]; eauto.
Qed.

Lemma waiting_due n t :
  session n t -> exists o, timeouts (if hidden t then visibilitychange false t else t) = [o].
Proof.
  intros [fn Hw]%session_waiting.
  destruct Hw as [_ [(id & d & Ht & Hp & Hv)|(Hh & Ht & Hp & Hv)]].
  - exists (mkTimeout id fn d). destruct (hidden t); [|done]. unfold visibilitychange. cbn. by rewrite Hv.
  - rewrite Hh. unfold visibilitychange. cbn. rewrite Hv. cbn. rewrite Ht. cbn. eauto.
Qed.

(** The terminal plays its script: however timeouts fire and however often the tab
    is hidden and shown, after [n] callbacks the output is exactly the [n]-th screen of
    the script, which types the command one character per callback, prints its eight
    lines in order and starts over after [round] callbacks (or, with reduced motion,
    always shows the composed final screen). *)
Theorem terminal_follows_script (n : nat) (t : Terminal) :
  session n t -> innerHTML <$> terminalOutput t = screen n.
Proof. apply screen_follows. Qed.

(** One thread of control: at every moment exactly one continuation is outstanding,
    on a timeout or parked on the visibility event, [pendingTimers] lists exactly the
    live timeouts, and the simulation can go on: a shown tab has a live timeout, and a
    hidden one has it when it is shown again. *)
Theorem terminal_one_thread (n : nat) (t : Terminal) :
  session n t ->
  (length (timeouts t) + length (onVisible t) = 1)%nat
  /\ pendingTimers t = to_id <$> timeouts t
  /\ exists o, timeouts (if hidden t then visibilitychange false t else t) = [o].
Proof.
  intros Hs. destruct (session_waiting _ _ Hs) as [fn [_ Hw]].
  destruct Hw as [(id & d & Ht & Hp & Hv)|(Hh & Ht & Hp & Hv)];
    (split; [by rewrite Ht, Hv|]); (split; [by rewrite Ht, Hp|]); by eapply waiting_due.
Qed.

(** What can happen from a state on, counting callbacks. *)
Inductive leads (t : Terminal) : nat -> Terminal -> Prop :=
| leads_refl : leads t 0 t
| leads_fire k t' o : leads t k t' -> o ∈ timeouts t' -> leads t (S k) (fire o t')
| leads_visibility k t' h : leads t k t' -> h <> hidden t' -> leads t k (visibilitychange h t').

Lemma session_leads n k t t' : session n t -> leads t k t' -> session (n + k) t'.
Proof.
  intros Hs. induction 1 as [|k t' o _ IH Ho|k t' h _ IH Hh].
  - by rewrite Nat.add_0_r.
  - rewrite Nat.add_succ_r. by apply session_fire.
  - by apply session_visibility.
Qed.

Lemma hidden_safeTimeout fn d t : hidden (safeTimeout fn d t) = hidden t.
Proof. unfold safeTimeout. by destruct (hidden t) eqn:Hh. Qed.

Lemma hidden_visibilitychange h t : hidden (visibilitychange h t) = h.
Proof.
  unfold visibilitychange. cbn zeta.
  change h with (hidden (set_hidden h t)) at 3. generalize (onVisible (set_hidden h t)) as l.
  generalize (set_hidden h t) as t0. intros t0 l. revert t0.
  induction l as [|fn l IH]; intros t0; cbn [foldl]; [done|].
  rewrite IH. by rewrite hidden_safeTimeout.
Qed.

(** A shown tab, now or after one event, has its next callback due. *)
Lemma leads_shown n k t t' :
  session n t -> leads t k t' ->
  exists t1 o, leads t k t1 /\ hidden t1 = false /\ timeouts t1 = [o].
Proof.
  intros Hs Hl. pose proof (session_leads _ _ _ _ Hs Hl) as Hs'.
  destruct (hidden t') eqn:Hh.
  - destruct (waiting_due _ _ Hs') as [o Ho]. rewrite Hh in Ho.
    exists (visibilitychange false t'), o. split; [apply leads_visibility; [done|by rewrite Hh]|].
    split; [apply hidden_visibilitychange|done].
  - destruct (waiting_due _ _ Hs') as [o Ho]. rewrite Hh in Ho. eauto.
Qed.

(** C22. The terminal never stops: from any state of any session, hidden or shown, any
    further number [k] of callbacks can be run (once the tab is shown, the next one is always
    due), and whichever way they are run, the screen then shown is the one [k] places
    further in the script. *)
Theorem terminal_keeps_playing (n k : nat) (t : Terminal) :
  session n t ->
  (exists t' o, leads t k t' /\ hidden t' = false /\ timeouts t' = [o])
  /\ (forall t', leads t k t' -> innerHTML <$> terminalOutput t' = screen (n + k)).
Proof.
  intros Hs. split.
  - enough (exists t', leads t k t') as [t' Hl] by (by eapply leads_shown).
    induction k as [|k [t' Hl]]; [exists t; constructor|].
    destruct (leads_shown _ _ _ _ Hs Hl) as (t1 & o & Hl1 & _ & Ho).
    exists (fire o t1). apply leads_fire; [done|]. rewrite Ho. by left.
  - intros t' Hl. by apply screen_follows, (session_leads _ _ t).
Qed.

End terminal.

(** ** What a visitor reads *)

(** The text of markup: everything outside tags. *)
Fixpoint text_of (in_tag : bool) (s : string) : string :=
  match s with
  | EmptyString => EmptyString
  | String c s =>
      if Ascii.eqb c (Ascii.ascii_of_nat 60) then text_of true s
      else if Ascii.eqb c (Ascii.ascii_of_nat 62) then text_of false s
      else if in_tag then text_of in_tag s else String c (text_of in_tag s)
  end.

Definition visible (l : list string) : list string := text_of false <$> l.

(** What is read on screen: while typing, the prompt shows exactly the characters
    typed so far and the cursor, so the colouring never alters or reorders the text; and
    the last screen of the animation reads the same as the reduced-motion screen. *)
Theorem terminal_reads_as_typed (k : nat) :
  (k < typed)%nat ->
  visible (screen false k) = ["$ " +:+ String.substring 0 (k + 1) command +:+ "_"]
  /\ visible (screen false (round - 1)) = visible (screen true 0).
Proof.
  intros Hk. split; [|vm_compute; reflexivity].
  assert (Forall (fun k => visible (screen false k)
                           = ["$ " +:+ String.substring 0 (k + 1) command +:+ "_"]) (seq 0 typed)) as H
    by (apply (bool_decide_unpack _); vm_compute; exact I).
  rewrite list.Forall_forall in H. apply H, elem_of_seq. lia.
Qed.

Lemma terminal_reads_as_typed_witness :
  visible (screen false 11) = ["$ varta-watch _"]
  /\ visible (screen false (round - 1)) = visible (screen true 0).
Proof. apply (terminal_reads_as_typed 11). vm_compute. lia. Defined.

(** A session: loaded in a shown tab, two characters typed, hidden, and shown again. *)
Definition demo_page : Terminal :=
  let run o t := fire false (fun _ => 0) o t in
  let t := load false (fun _ => 0) [] false in
  let t := run (mkTimeout 1 (TypeCommand 0) (Between 30 20)) t in
  let t := visibilitychange true t in
  let t := run (mkTimeout 2 (TypeCommand 0) (Between 30 20)) t in
  visibilitychange false t.

Lemma demo_session : session false (fun _ => 0) 2 demo_page.
Proof.
  repeat first [apply session_load | apply session_fire | apply session_visibility];
    vm_compute; try discriminate; left.
Qed.

Lemma terminal_follows_script_witness :
  innerHTML <$> terminalOutput demo_page = screen false 2.
Proof. apply (terminal_follows_script false (fun _ => 0) 2 demo_page), demo_session. Defined.

Lemma terminal_one_thread_witness :
  (length (timeouts demo_page) + length (onVisible demo_page) = 1)%nat
  /\ pendingTimers demo_page = to_id <$> timeouts demo_page
  /\ exists o, timeouts (if hidden demo_page then visibilitychange false demo_page else demo_page) = [o].
Proof. apply (terminal_one_thread false (fun _ => 0) 2 demo_page), demo_session. Defined.

Lemma terminal_keeps_playing_witness :
  (exists t' o, leads false (fun _ => 0) demo_page 100 t' /\ hidden t' = false /\ timeouts t' = [o])
  /\ (forall t', leads false (fun _ => 0) demo_page 100 t' ->
       innerHTML <$> terminalOutput t' = screen false (2 + 100)).
Proof. apply (terminal_keeps_playing false (fun _ => 0) 2 100 demo_page), demo_session. Defined.
