(* ===== verification/Site.v ===== *)
(** * The landing page and the book's theme script (src/script.js, src/book/mermaid-init.js)

    One module per block of the page script: the throttled scroll handler, the section
    reveal, the copy button and the navigation drawer; the terminal has a file of its
    own. What the browser does between two callbacks (frames, intersection reports,
    settled promises, due timeouts) is a step of each module's run relation. Elements
    are their class lists, texts and attributes, as far as the script touches them. *)

From S2P Require Import Prelude.

#[local] Open Scope string_scope.

Definition type_error (m : string) : exn := Exn "TypeError" m None None None None.

(** ** Scroll handler *)

Module Nav.

(** [nav] is the element's class list, absent when the page has no such element;
    [frames] counts the animation-frame requests the browser has not served. *)
Record NavState : Type := mkNav {
  nav : option (gset string);
  scrollY : Q;
  scrollTicking : bool;
  frames : nat;
}.

Definition set_nav (c : gset string) (s : NavState) : NavState :=
  mkNav (Some c) (scrollY s) (scrollTicking s) (frames s).
Definition set_ticking (b : bool) (s : NavState) : NavState :=
  mkNav (nav s) (scrollY s) b (frames s).
Definition set_frames (n : nat) (s : NavState) : NavState :=
  mkNav (nav s) (scrollY s) (scrollTicking s) n.
Definition set_scrollY (y : Q) (s : NavState) : NavState :=
  mkNav (nav s) y (scrollTicking s) (frames s).

Definition scrollThreshold : Q := 40.

(** [window.scrollY > scrollThreshold]. *)
Definition past_threshold (y : Q) : bool := negb (Qle_bool y scrollThreshold).

Definition applyScrollState : M NavState unit :=
  y ← gets scrollY;
  el ← gets nav;
  match el with
  | None => throw (type_error "nav is null")
  | Some c =>
      modify (set_nav (if past_threshold y then {["scrolled"]} ∪ c else c ∖ {["scrolled"]}));;
      modify (set_ticking false)
  end.

Definition onScroll : M NavState unit :=
  ticking ← gets scrollTicking;
  if (ticking : bool) then mret tt
  else
    modify (set_ticking true);;
    modify (fun s => set_frames (S (frames s)) s).

(** The page scrolls to [y] and dispatches the event. *)
Definition scroll (y : Q) : M NavState unit := modify (set_scrollY y);; onScroll.

(** A rendering opportunity: every request made before it is served, in order; an
    exception in one callback is reported and does not stop the others. *)
Fixpoint serve (n : nat) : M NavState unit :=
  match n with
  | O => mret tt
  | S n => try_catch applyScrollState (fun _ => mret tt);; serve n
  end.

Definition frame : M NavState unit :=
  n ← gets frames;
  modify (set_frames 0);;
  serve n.

(** Loading the script on a page scrolled to [y]. *)
Definition load_nav (el : option (gset string)) (y : Q) : res unit * NavState :=
  applyScrollState (mkNav el y false 0).

Inductive nav_run (c : gset string) : NavState -> Prop :=
| run_load y s : load_nav (Some c) y = (Ret tt, s) -> nav_run c s
| run_scroll s y : nav_run c s -> nav_run c (scroll y s).2
| run_frame s : nav_run c s -> nav_run c (frame s).2.

Lemma applyScrollState_some c s :
  nav s = Some c ->
  applyScrollState s
  = (Ret tt, mkNav (Some (if past_threshold (scrollY s) then {["scrolled"]} ∪ c else c ∖ {["scrolled"]}))
                   (scrollY s) false (frames s)).
Proof. intros Hc. unfold applyScrollState. unfold_m. cbn. by rewrite Hc. Qed.

(** The class list the page should have at scroll position [y]. *)
Definition expected_classes (c : gset string) (y : Q) : gset string :=
  if past_threshold y then {["scrolled"]} ∪ c else c ∖ {["scrolled"]}.

Lemma expected_twice c y y' : expected_classes (expected_classes c y) y' = expected_classes c y'.
Proof.
  unfold expected_classes. destruct (past_threshold y), (past_threshold y');
    apply set_eq; intros x; rewrite ?elem_of_union, ?elem_of_difference, ?elem_of_union,
      ?elem_of_difference, !elem_of_singleton; destruct (decide (x = "scrolled")); tauto.
Qed.

Definition settled (c : gset string) (s : NavState) : Prop :=
  frames s = (if scrollTicking s then 1 else 0)%nat
  /\ exists y, nav s = Some (expected_classes c y) /\ (scrollTicking s = false -> y = scrollY s).

Lemma settled_run c s : nav_run c s -> settled c s.
Proof.
  induction 1 as [y s Hl|s y _ IH|s _ IH].
  - unfold load_nav in Hl. rewrite (applyScrollState_some c) in Hl by done. simplify_eq/=.
    split; [done|]. exists y. done.
  - destruct IH as (Hf & y' & Hn & Hy). unfold scroll, onScroll. unfold_m. cbn.
    destruct (scrollTicking s) eqn:Ht; cbn; (split; [cbn; rewrite ?Ht; lia|]); exists y'; cbn;
      rewrite ?Ht; done.
  - destruct IH as (Hf & y' & Hn & Hy). unfold frame. unfold_m. cbn. rewrite Hf.
    destruct (scrollTicking s) eqn:Ht; cbn.
    + unfold_m. rewrite (applyScrollState_some (expected_classes c y')) by done. cbn.
      split; [done|]. exists (scrollY s). cbn. split; [|done].
      f_equal. apply (expected_twice c y' (scrollY s)).
    + split; [cbn; by rewrite Ht|]. exists y'. cbn. auto.
Qed.

(** The scroll handler is throttled and converges: after any sequence of scrolls and
    frames there is at most one outstanding frame request, held exactly while
    [scrollTicking] is set, and once it has been served the bar carries the class
    [scrolled] exactly when the page is scrolled past the threshold, its other classes
    untouched. *)
Theorem nav_throttled (c : gset string) (s : NavState) :
  nav_run c s ->
  (frames s <= 1)%nat /\ (frames s = 1%nat <-> scrollTicking s = true)
  /\ (frames s = 0%nat -> nav s = Some (expected_classes c (scrollY s))).
Proof.
  intros (Hf & y & Hn & Hy)%settled_run. rewrite Hf. destruct (scrollTicking s).
  - repeat split; lia.
  - repeat split; [lia|lia|discriminate|]. intros _. by rewrite Hn, Hy.
Qed.

(** Scrolled to 120 and back to 10 within one frame. *)
Definition demo_nav : NavState :=
  (frame (scroll 10 (scroll 120 (load_nav (Some {["nav"]}) 0).2).2).2).2.

Lemma nav_throttled_witness :
  (frames demo_nav <= 1)%nat /\ (frames demo_nav = 1%nat <-> scrollTicking demo_nav = true)
  /\ (frames demo_nav = 0%nat -> nav demo_nav = Some (expected_classes {["nav"]} (scrollY demo_nav))).
Proof.
  apply (nav_throttled {["nav"]} demo_nav). apply run_frame, run_scroll, run_scroll.
  by eapply (run_load {["nav"]} 0).
Defined.

(** Without the element the script stops at the first call. *)
Lemma load_without_nav y : (load_nav None y).1 = Throw (type_error "nav is null").
Proof. done. Qed.

End Nav.

(** ** Section reveal *)

Module Reveal.

(** The class list of each [.section], and the targets the observer watches. *)
Record RevealState : Type := mkReveal {
  revealSections : list (gset string);
  observed : gset nat;
}.

(** The block as it runs at load: without [IntersectionObserver] nothing is hidden. *)
Definition load_reveal (supported : bool) (sections : list (gset string)) : RevealState :=
  if supported
  then mkReveal ((fun c => {["reveal"]} ∪ c) <$> sections)
         (list_to_set (seq 0 (length sections)))
  else mkReveal sections ∅.

(** One entry of the observer's callback: the target and [isIntersecting]. *)
Definition on_entry (s : RevealState) (entry : nat * bool) : RevealState :=
  if entry.2
  then mkReveal (alter (fun c => {["visible"]} ∪ c) entry.1 (revealSections s))
         (observed s ∖ {[entry.1]})
  else s.

Definition on_intersection (entries : list (nat * bool)) (s : RevealState) : RevealState :=
  foldl on_entry s entries.

(** The observer reports watched targets only. *)
Inductive reveal_run (supported : bool) (sections : list (gset string)) : RevealState -> Prop :=
| run_load : reveal_run supported sections (load_reveal supported sections)
| run_report s entries :
    reveal_run supported sections s -> Forall (fun e => e.1 ∈ observed s) entries ->
    reveal_run supported sections (on_intersection entries s).

(** What the style sheet hides: [.reveal] without [.visible]. *)
Definition hidden_section (c : gset string) : bool :=
  bool_decide ("reveal" ∈ c) && bool_decide ("visible" ∉ c).

Lemma on_entry_watched s e :
  (forall i c, revealSections s !! i = Some c -> hidden_section c = true -> i ∈ observed s) ->
  forall i c, revealSections (on_entry s e) !! i = Some c -> hidden_section c = true ->
    i ∈ observed (on_entry s e).
Proof.
  intros IH i c. unfold on_entry. destruct e as [j [|]]; cbn; [|apply IH].
  destruct (decide (i = j)) as [->|Hne].
  - rewrite list_lookup_alter_eq. destruct (revealSections s !! j) as [c0|]; cbn; [|done].
    intros [= <-]. unfold hidden_section. intros [_ Hv]%andb_true_iff.
    rewrite bool_decide_eq_true in Hv. set_solver.
  - rewrite list_lookup_alter_ne by done. intros Hl Hh. specialize (IH i c Hl Hh). set_solver.
Qed.

(** No section is lost: at every moment a section that the style sheet hides is still
    watched by the observer, so it is shown when it scrolls into view; in a browser
    without [IntersectionObserver] no section is ever hidden. *)
Theorem hidden_sections_watched (supported : bool) (sections : list (gset string)) (s : RevealState) :
  reveal_run supported sections s -> Forall (fun c => hidden_section c = false) sections ->
  forall i c, revealSections s !! i = Some c -> hidden_section c = true ->
    supported = true /\ i ∈ observed s.
Proof.
  intros Hrun Hs.
  assert (forall i c, revealSections s !! i = Some c -> hidden_section c = true -> i ∈ observed s) as Hw.
  { induction Hrun as [|s entries _ IH _].
    - unfold load_reveal. destruct supported; cbn; intros i c Hl Hh.
      + rewrite list_lookup_fmap_Some in Hl. destruct Hl as (c0 & _ & Hl).
        apply elem_of_list_to_set, elem_of_seq. apply lookup_lt_Some in Hl. lia.
      + rewrite list.Forall_lookup in Hs. by rewrite (Hs i c Hl) in Hh.
    - unfold on_intersection. revert s IH.
      induction entries as [|e es IHes]; intros s IH; cbn; [exact IH|].
      apply IHes. by apply on_entry_watched. }
  intros i c Hl Hh. split; [|by eapply Hw]. specialize (Hw i c Hl Hh).
  destruct supported; [done|]. exfalso. clear Hl Hh.
  assert (observed s = ∅) as He; [|set_solver].
  clear Hw. induction Hrun as [|s entries _ IH Hobs]; [done|].
  destruct entries as [|e es]; [done|]. inversion Hobs; subst. set_solver.
Qed.

Lemma hidden_sections_watched_witness :
  true = true /\ 1%nat ∈ observed (on_intersection [(0%nat, true); (1%nat, false)]
                                     (load_reveal true [{["section"]}; {["section"]}])).
Proof.
  apply (hidden_sections_watched true [{["section"]}; {["section"]}]
    (on_intersection [(0%nat, true); (1%nat, false)] (load_reveal true [{["section"]}; {["section"]}])))
    with (c := {["reveal"; "section"]}).
  - apply run_report; [apply run_load|]. repeat constructor; vm_compute; set_solver.
  - repeat constructor.
  - reflexivity.
  - reflexivity.
Defined.

End Reveal.

(** ** Copy button *)

Module Clipboard.

(** The button's class list, the texts of its two labels (absent when the page has no
    such element) and the pending reset; then the browser's side: helper text areas in
    the document, everything written to the clipboard, [writeText] promises not yet
    settled, live timeouts with their due time, the clock, and how many calls into the
    document have been made. *)
Record ClipState : Type := mkClip {
  copyBtn : gset string;
  copyHint : option string;
  copyStatus : option string;
  copyResetTimer : option nat;
  textareas : nat;
  clipboard : list string;
  writing : nat;
  timeouts : list (nat * Z);
  nextId : nat;
  now : Z;
  calls : nat;
}.

Definition set_button (c : gset string) (h s : option string) (s0 : ClipState) : ClipState :=
  mkClip c h s (copyResetTimer s0) (textareas s0) (clipboard s0) (writing s0) (timeouts s0)
    (nextId s0) (now s0) (calls s0).
Definition set_timer (r : option nat) (l : list (nat * Z)) (n : nat) (s : ClipState) : ClipState :=
  mkClip (copyBtn s) (copyHint s) (copyStatus s) r (textareas s) (clipboard s) (writing s) l
    n (now s) (calls s).
Definition set_textareas (n : nat) (s : ClipState) : ClipState :=
  mkClip (copyBtn s) (copyHint s) (copyStatus s) (copyResetTimer s) n (clipboard s) (writing s)
    (timeouts s) (nextId s) (now s) (calls s).
Definition set_clipboard (l : list string) (s : ClipState) : ClipState :=
  mkClip (copyBtn s) (copyHint s) (copyStatus s) (copyResetTimer s) (textareas s) l (writing s)
    (timeouts s) (nextId s) (now s) (calls s).
Definition set_writing (n : nat) (s : ClipState) : ClipState :=
  mkClip (copyBtn s) (copyHint s) (copyStatus s) (copyResetTimer s) (textareas s) (clipboard s) n
    (timeouts s) (nextId s) (now s) (calls s).
Definition set_now (z : Z) (s : ClipState) : ClipState :=
  mkClip (copyBtn s) (copyHint s) (copyStatus s) (copyResetTimer s) (textareas s) (clipboard s)
    (writing s) (timeouts s) (nextId s) z (calls s).
Definition set_calls (n : nat) (s : ClipState) : ClipState :=
  mkClip (copyBtn s) (copyHint s) (copyStatus s) (copyResetTimer s) (textareas s) (clipboard s)
    (writing s) (timeouts s) (nextId s) (now s) n.

Section clipboard.
(** The browser: whether it has [navigator.clipboard.writeText], which calls into the
    document throw, what [execCommand] answers; and the button's [data-copy]. *)
Context (has_clipboard : bool) (dom_fault : nat -> bool) (exec_result : nat -> bool)
  (dataCopy : string).

(** One call into the document. *)
Definition dom : M ClipState nat :=
  i ← gets calls;
  modify (set_calls (S i));;
  if dom_fault i then throw (plain_error "DOMException") else mret i.

(** [document.execCommand('copy')] with a text area holding [text] selected. *)
Definition execCommand_copy (text : string) : M ClipState bool :=
  i ← dom;
  whenM (exec_result i) (modify (fun s => set_clipboard (clipboard s ++ [text]) s));;
  mret (exec_result i).

Definition message (ok : bool) : string := if ok then "copied!" else "copy failed".

Definition clearTimeout (id : nat) (s : ClipState) : ClipState :=
  set_timer (copyResetTimer s) (filter (fun o => o.1 <> id) (timeouts s)) (nextId s) s.

(** [copyResetTimer = setTimeout(..., 2000)]. *)
Definition start_reset (s : ClipState) : ClipState :=
  set_timer (Some (nextId s)) (timeouts s ++ [(nextId s, now s + 2000)%Z]) (S (nextId s)) s.

Definition showCopied (ok : bool) : M ClipState unit :=
  let msg := message ok in
  modify (fun s => set_button ({["copied"]} ∪ copyBtn s) ((fun _ => msg) <$> copyHint s) ((fun _ => msg) <$> copyStatus s) s);;
  timer ← gets copyResetTimer;
  (match timer with
   | Some id => modify (clearTimeout id)
   | None => mret tt
   end);;
  modify start_reset.

(** The callback of that timeout. *)
Definition on_reset : M ClipState unit :=
  modify (fun s => set_button (copyBtn s ∖ {["copied"]}) ((fun _ => "click to copy") <$> copyHint s)
                     ((fun _ => "") <$> copyStatus s) s);;
  modify (fun s => set_timer None (timeouts s) (nextId s) s).

Definition fallbackCopy (text : string) : M ClipState unit :=
  try_catch
    (dom;; (* createElement *)
     dom;; (* value, readonly, position, opacity *)
     dom;; (* appendChild *)
     modify (fun s => set_textareas (S (textareas s)) s);;
     dom;; (* select *)
     ok ← try_catch (execCommand_copy text) (fun _ => mret false);
     dom;; (* removeChild *)
     modify (fun s => set_textareas (textareas s - 1) s);;
     showCopied ok)
    (fun _ => showCopied false).

(** The click listener. *)
Definition on_click : M ClipState unit :=
  if has_clipboard then modify (fun s => set_writing (S (writing s)) s)
  else fallbackCopy dataCopy.

(** A [writeText] promise is fulfilled or rejected. *)
Definition on_written (fulfilled : bool) : M ClipState unit :=
  modify (fun s => set_writing (writing s - 1) s);;
  if fulfilled
  then modify (fun s => set_clipboard (clipboard s ++ [dataCopy]) s);; showCopied true
  else fallbackCopy dataCopy.

(** A due timeout fires. *)
Definition fire_reset (id : nat) : M ClipState unit :=
  modify (fun s => set_timer (copyResetTimer s) (filter (fun o => o.1 <> id) (timeouts s)) (nextId s) s);;
  on_reset.

Definition load_clip (classes : gset string) (hasHint hasStatus : bool) : ClipState :=
  mkClip classes (if hasHint then Some "click to copy" else None)
    (if hasStatus then Some "" else None) None 0 [] 0 [] 1 0 0.

(** [clip_run shown s]: the page is in state [s] and [showCopied] last ran at time [shown]. *)
Inductive clip_run : option Z -> ClipState -> Prop :=
| run_load classes hasHint hasStatus :
    "copied" ∉ classes -> clip_run None (load_clip classes hasHint hasStatus)
| run_wait shown s t : clip_run shown s -> (now s <= t)%Z -> clip_run shown (set_now t s)
| run_click shown s :
    clip_run shown s -> clip_run (if has_clipboard then shown else Some (now s)) (on_click s).2
| run_written shown s b :
    clip_run shown s -> (0 < writing s)%nat -> clip_run (Some (now s)) (on_written b s).2
| run_fire shown s id due :
    clip_run shown s -> (id, due) ∈ timeouts s -> (due <= now s)%Z -> clip_run shown (fire_reset id s).2.

(** ** Its invariant *)

Definition at_rest (s : ClipState) : Prop :=
  copyResetTimer s = None /\ timeouts s = [] /\ ("copied" ∉ copyBtn s)
  /\ from_option (fun m => m = "click to copy") True (copyHint s)
  /\ from_option (fun m => m = "") True (copyStatus s).

(** The message of a copy that ended at [shown] with result [ok] is on display. *)
Definition showing (shown : Z) (ok : bool) (s : ClipState) : Prop :=
  (exists id, copyResetTimer s = Some id /\ timeouts s = [(id, shown + 2000)%Z])
  /\ "copied" ∈ copyBtn s
  /\ from_option (fun m => m = message ok) True (copyHint s)
  /\ from_option (fun m => m = message ok) True (copyStatus s)
  /\ (ok = true -> [dataCopy] `suffix_of` clipboard s).

(** The timer and the timeouts agree. *)
Definition timer_ok (s : ClipState) : Prop :=
  (copyResetTimer s = None /\ timeouts s = [])
  \/ exists id due, copyResetTimer s = Some id /\ timeouts s = [(id, due)].

Lemma showCopied_shows ok s :
  timer_ok s -> (ok = true -> [dataCopy] `suffix_of` clipboard s) ->
  (showCopied ok s).1 = Ret tt /\ showing (now s) ok (showCopied ok s).2.
Proof.
  intros Ht Hc. unfold showCopied. unfold_m. cbn.
  destruct Ht as [[Hr Ht]|(id & due & Hr & Ht)]; rewrite Hr; cbn.
  - split; [done|]. unfold showing; cbn. rewrite Ht. split; [eauto|]. split; [set_solver|].
    destruct (copyHint s), (copyStatus s); cbn; auto.
  - split; [done|]. unfold showing; cbn. rewrite Ht. unfold filter. cbn.
    rewrite decide_False by tauto. split; [eauto|]. split; [set_solver|].
    destruct (copyHint s), (copyStatus s); cbn; auto.
Qed.

Lemma showing_timer_ok shown ok s : showing shown ok s -> timer_ok s.
Proof. intros ((id & Hr & Ht) & _). right. eauto. Qed.

Lemma at_rest_timer_ok s : at_rest s -> timer_ok s.
Proof. intros (Hr & Ht & _). by left. Qed.

(** What the calls before [showCopied] change is none of the timer's business. *)
Definition same_clock (s s' : ClipState) : Prop :=
  copyResetTimer s' = copyResetTimer s /\ timeouts s' = timeouts s /\ now s' = now s.

Lemma showCopied_after ok s s' :
  same_clock s s' -> timer_ok s -> (ok = true -> [dataCopy] `suffix_of` clipboard s') ->
  (showCopied ok s').1 = Ret tt /\ showing (now s) ok (showCopied ok s').2.
Proof.
  intros (Hr & Ht & Hn) Hok Hc. rewrite <- Hn. apply showCopied_shows; [|done].
  unfold timer_ok in *. by rewrite Hr, Ht.
Qed.

(** [fallbackCopy] never throws, and always ends with a message on display. *)
Lemma fallbackCopy_shows s :
  timer_ok s ->
  (fallbackCopy dataCopy s).1 = Ret tt
  /\ exists ok, showing (now s) ok (fallbackCopy dataCopy s).2.
Proof.
  intros Hok.
  assert (forall s', same_clock s s' ->
            (showCopied false s').1 = Ret tt /\ exists ok, showing (now s) ok (showCopied false s').2) as Hfail.
  { intros s' Hs. destruct (showCopied_after false s s' Hs Hok) as [H1 H2]; [done|eauto]. }
  assert (forall ok s', same_clock s s' -> (ok = true -> [dataCopy] `suffix_of` clipboard s') ->
            exists s'', showCopied ok s' = (Ret tt, s'') /\ showing (now s) ok s'') as Hshow.
  { intros ok s' Hs Hc. destruct (showCopied_after ok s s' Hs Hok Hc) as [H1 H2].
    destruct (showCopied ok s') as [r s'']. cbn in *. subst. eauto. }
  unfold fallbackCopy, execCommand_copy, dom. unfold_m. cbn -[showCopied].
  do 4 (destruct (dom_fault _); cbn -[showCopied]; [by apply Hfail|]).
  destruct (dom_fault _); [|destruct (exec_result _) eqn:He]; cbn -[showCopied];
    (destruct (dom_fault _); cbn -[showCopied]; [by apply Hfail|]);
    match goal with |- context [showCopied ?ok ?st] =>
      destruct (Hshow ok st) as (s'' & -> & Hs); [done| |cbn; eauto] end;
    cbn; try discriminate; intros _; by eexists.
Qed.

Lemma on_reset_rests shown ok s :
  showing shown ok s ->
  forall id due, (id, due) ∈ timeouts s -> due = (shown + 2000)%Z /\ at_rest (fire_reset id s).2.
Proof.
  intros ((id0 & Hr & Ht) & Hb & Hh & Hs & _) id due Hin. rewrite Ht in Hin.
  apply list_elem_of_singleton in Hin. simplify_eq. split; [done|].
  unfold fire_reset, on_reset. unfold_m. cbn. unfold at_rest; cbn. rewrite Ht. unfold filter. cbn.
  rewrite decide_False by tauto. split; [done|]. split; [done|]. split; [set_solver|].
  destruct (copyHint s), (copyStatus s); cbn; auto.
Qed.

(** The copy button: at every moment it is either at rest, unmarked and with its
    initial labels and no timeout, or it shows the result of the most recent attempt, with exactly
    one timeout, due two seconds after that attempt ended, however many clicks came before.
    The message says [copied!] only if the text was the last thing written to the
    clipboard, and the reset never comes early. *)
Theorem copy_button_shows_result (shown : option Z) (s : ClipState) :
  clip_run shown s ->
  at_rest s \/ exists t ok, shown = Some t /\ showing t ok s.
Proof.
  induction 1 as [cs hh hs Hc|shown s t _ IH _|shown s _ IH|shown s b _ IH _|shown s id due _ IH Hin _].
  - left. unfold at_rest, load_clip; cbn. destruct hh, hs; cbn; auto 10.
  - exact IH.
  - unfold on_click. destruct has_clipboard; [exact IH|]. right.
    destruct (fallbackCopy_shows s) as [_ [ok Hs]]; [|eauto].
    destruct IH as [?|(? & ? & _ & ?)]; eauto using at_rest_timer_ok, showing_timer_ok.
  - assert (timer_ok s) as Hok
      by (destruct IH as [?|(? & ? & _ & ?)]; eauto using at_rest_timer_ok, showing_timer_ok).
    right. unfold on_written. unfold_m. destruct b.
    + destruct (showCopied_after true s (set_clipboard (clipboard s ++ [dataCopy]) (set_writing (writing s - 1) s)))
        as [_ Hs]; [done|done|intros _; by eexists|]. eauto.
    + destruct (fallbackCopy_shows (set_writing (writing s - 1) s)) as [_ [ok Hs]]; [done|eauto].
  - left. destruct IH as [(_ & Ht & _)|(t & ok & _ & Hs)].
    + rewrite Ht in Hin. set_solver.
    + by eapply on_reset_rests.
Qed.

End clipboard.

(** A click in a browser without the clipboard interface, whose [execCommand] works;
    a second click 500 ms later. *)
Definition demo_click (s : ClipState) : ClipState :=
  (on_click false (fun _ => false) (fun _ => true) "cargo add varta-client" s).2.
Definition demo_idle : ClipState := load_clip {["cta-primary"]} true true.
Definition demo_clip : ClipState := demo_click (set_now 500 (demo_click demo_idle)).

Lemma copy_button_shows_result_witness :
  at_rest demo_clip
  \/ exists t ok, Some 500%Z = Some t /\ showing "cargo add varta-client" t ok demo_clip.
Proof.
  apply (copy_button_shows_result false (fun _ => false) (fun _ => true)
           "cargo add varta-client" (Some 500%Z) demo_clip).
  refine (run_click false (fun _ => false) (fun _ => true) "cargo add varta-client" (Some 0%Z)
            (set_now 500 (demo_click demo_idle)) _).
  apply run_wait; [|vm_compute; discriminate].
  refine (run_click false (fun _ => false) (fun _ => true) "cargo add varta-client" None demo_idle _).
  apply run_load. vm_compute. set_solver.
Defined.

End Clipboard.

(** ** Navigation drawer *)

Module Drawer.

Record DrawerState : Type := mkDrawer { navMenu : gset string; aria_expanded : string }.

Definition closeMenu (d : DrawerState) : DrawerState := mkDrawer (navMenu d ∖ {["open"]}) "false".

(** [classList.toggle] answers whether the class is now there. *)
Definition on_toggle (d : DrawerState) : DrawerState :=
  let isOpen := bool_decide ("open" ∉ navMenu d) in
  mkDrawer (if isOpen then {["open"]} ∪ navMenu d else navMenu d ∖ {["open"]})
    (if isOpen then "true" else "false").

Definition on_resize (innerWidth : Q) (d : DrawerState) : DrawerState :=
  if negb (Qle_bool innerWidth 640) then closeMenu d else d.

Inductive event : Type := Toggle | LinkClick | Resize (innerWidth : Q).

Definition handle (d : DrawerState) (e : event) : DrawerState :=
  match e with
  | Toggle => on_toggle d
  | LinkClick => closeMenu d
  | Resize w => on_resize w d
  end.

(** What assistive technology is told is what is on screen, whatever the events. *)
Lemma drawer_aria_agrees (classes : gset string) (es : list event) :
  ("open" ∉ classes) ->
  let d := foldl handle (mkDrawer classes "false") es in
  aria_expanded d = if bool_decide ("open" ∈ navMenu d) then "true" else "false".
Proof.
  intros Hc. induction es as [|e es IH] using rev_ind; cbn.
  - by rewrite bool_decide_false.
  - rewrite foldl_snoc. set (d := foldl _ _ _) in *. destruct e; cbn.
    + repeat case_bool_decide; set_solver.
    + rewrite bool_decide_false by set_solver. done.
    + unfold on_resize. case_match; [|done]. cbn. rewrite bool_decide_false by set_solver. done.
Qed.

End Drawer.

(** ** The book's diagram theme *)

Module Theme.

Definition darkThemes : list string := ["ayu"; "navy"; "coal"].
Definition lightThemes : list string := ["light"; "rust"].

(** The loop over the root element's class list, with its [break]. *)
Fixpoint lastThemeWasLight (classList : list string) : bool :=
  match classList with
  | [] => true
  | cssClass :: rest =>
      if bool_decide (cssClass ∈ darkThemes) then false else lastThemeWasLight rest
  end.

Definition theme (classList : list string) : string :=
  if lastThemeWasLight classList then "default" else "dark".

(** Whether a click on a theme's button reloads the page. *)
Definition click_reloads (classList : list string) (button : string) : bool :=
  if bool_decide (button ∈ darkThemes) then lastThemeWasLight classList
  else if bool_decide (button ∈ lightThemes) then negb (lastThemeWasLight classList)
  else false.

(** A click reloads exactly when the diagrams would be drawn in the other theme. *)
Lemma reload_iff_theme_changes (classes : list string) (button : string) :
  button ∈ (darkThemes ++ lightThemes)%list ->
  click_reloads classes button = true <-> theme [button] <> theme classes.
Proof.
  unfold click_reloads, theme.
  assert (forall b, b ∈ (darkThemes ++ lightThemes)%list -> lastThemeWasLight [b] = negb (bool_decide (b ∈ darkThemes))
            /\ bool_decide (b ∈ lightThemes) = negb (bool_decide (b ∈ darkThemes))) as Hb.
  { intros b Hb. cbn in Hb. repeat (apply elem_of_cons in Hb as [->|Hb]; [done|]). by apply elem_of_nil in Hb. }
  intros [-> ->]%Hb. destruct (bool_decide _), (lastThemeWasLight classes); cbn; split; congruence.
Qed.

End Theme.
