(* ===== verification/Examples.v ===== *)
(** * The payload example (src/clients/node/examples/with_payload.ts)

    [packPayload] and the interval callback that calls the agent with it. *)

From S2P Require Import Prelude Vlp.

(** [a | b] and [a << n] on integer-valued operands. *)
Definition js_or (a b : Z) : Z := to_int32 (Z.lor (wrap32 a) (wrap32 b)).
Definition js_shl (a n : Z) : Z := to_int32 (Z.shiftl (wrap32 a) n).

Definition packPayload (queueDepth lastErrorCode : jsnum) : Z :=
  js_ushr
    (js_or (js_and (to_uint32 queueDepth) 0xffff)
           (js_shl (js_and (to_uint32 lastErrorCode) 0xff) 16)) 0.

(** The module's variables, and one run of the interval callback: the new variables and
    the arguments of its call of [agent.beat]. *)
Record Metrics : Type := mkMetrics { depth : Z; lastError : Z }.

Definition tick (m : Metrics) : Metrics * (Status * Z) :=
  let d := js_and (depth m + 1) 0xffff in
  let e := if Z.rem d 4 =? 0 then 1 else 0 in
  let status := if negb (e =? 0) then Degraded else Ok in
  (mkMetrics d e, (status, packPayload (jint d) (jint e))).

Lemma to_int32_small z : 0 <= z < 2 ^ 31 -> to_int32 z = z.
Proof.
  intros Hz. unfold to_int32, wrap32. rewrite Z.mod_small by lia.
  by rewrite (proj2 (Z.ltb_lt _ _)) by lia.
Qed.

Lemma js_and_mask a n :
  0 <= n <= 31 -> js_and a (Z.ones n) = a mod 2 ^ n.
Proof.
  intros Hn. unfold js_and.
  assert (2 ^ n <= 2 ^ 31) as Hp by (apply Z.pow_le_mono_r; lia).
  assert (0 < 2 ^ n) as Hp0 by (apply Z.pow_pos_nonneg; lia).
  unfold wrap32. rewrite (Z.mod_small (Z.ones n)) by (rewrite Z.ones_equiv; lia).
  rewrite Z.land_ones by lia.
  rewrite Z.mod_mod_divide by (exists (2 ^ (32 - n)); rewrite <- Z.pow_add_r by lia; f_equal; lia).
  apply to_int32_small. pose proof (Z.mod_pos_bound a (2 ^ n)). lia.
Qed.

(** Disjoint fields: [or] is addition. *)
Lemma lor_fields a b n : 0 <= n -> 0 <= a < 2 ^ n -> Z.lor a (Z.shiftl b n) = a + Z.shiftl b n.
Proof.
  intros Hn Ha. enough (Z.land a (Z.shiftl b n) = 0) as H by (pose proof (Z.add_lor_land a (Z.shiftl b n)); lia).
  apply Z.bits_inj'. intros i Hi. rewrite Z.land_spec, Z.bits_0.
  destruct (decide (i < n)) as [Hlt|Hge].
  - by rewrite Z.shiftl_spec_low, andb_false_r.
  - assert (2 ^ n <= 2 ^ i) as Hp by (apply Z.pow_le_mono_r; lia).
    by rewrite (Z.testbit_eqb a i), Z.div_small by lia.
Qed.

Lemma packPayload_sum q e :
  packPayload q e = to_uint32 q mod 2 ^ 16 + 2 ^ 16 * (to_uint32 e mod 2 ^ 8).
Proof.
  unfold packPayload. change 0xffff with (Z.ones 16). change 0xff with (Z.ones 8).
  rewrite !js_and_mask by lia.
  pose proof (Z.mod_pos_bound (to_uint32 q) (2 ^ 16) ltac:(lia)) as Hq.
  pose proof (Z.mod_pos_bound (to_uint32 e) (2 ^ 8) ltac:(lia)) as He.
  set (a := to_uint32 q mod 2 ^ 16) in *. set (b := to_uint32 e mod 2 ^ 8) in *.
  assert (js_shl b 16 = b * 2 ^ 16) as ->.
  { unfold js_shl, wrap32. rewrite (Z.mod_small b), Z.shiftl_mul_pow2 by lia.
    apply to_int32_small. lia. }
  assert (Z.lor a (b * 2 ^ 16) = a + b * 2 ^ 16) as Hor
    by (rewrite <- Z.shiftl_mul_pow2 by lia; by apply lor_fields).
  unfold js_or, js_ushr, wrap32. rewrite Z.shiftr_0_r.
  rewrite (Z.mod_small a), (Z.mod_small (b * 2 ^ 16)), Hor, to_int32_small, Z.mod_small by lia. lia.
Qed.

(** The payload's layout: whatever numbers are passed, [packPayload] returns a 32-bit
    value whose bits 0 to 15 are the queue depth, bits 16 to 23 the error code, each
    reduced to its width, and whose top byte is zero, so both fields can be read back. *)
Theorem packPayload_layout (q e : jsnum) :
  let p := packPayload q e in
  is_u32 p /\ p mod 2 ^ 16 = to_uint32 q mod 2 ^ 16
  /\ p / 2 ^ 16 mod 2 ^ 8 = to_uint32 e mod 2 ^ 8 /\ p / 2 ^ 24 = 0.
Proof.
  cbn zeta. rewrite packPayload_sum. unfold is_u32.
  pose proof (Z.mod_pos_bound (to_uint32 q) (2 ^ 16) ltac:(lia)) as Hq.
  pose proof (Z.mod_pos_bound (to_uint32 e) (2 ^ 8) ltac:(lia)) as He.
  set (a := to_uint32 q mod 2 ^ 16) in *. set (b := to_uint32 e mod 2 ^ 8) in *.
  repeat split; [lia|lia| | |].
  - rewrite Z.mul_comm, Z.mod_add by lia. by apply Z.mod_small.
  - rewrite Z.mul_comm, Z.div_add, (Z.div_small a) by lia. by apply Z.mod_small.
  - apply Z.div_small. lia.
Qed.

(** The example's loop sends only beats whose status agrees with the error code they
    carry, and its depth stays a 16-bit value. *)
Lemma tick_consistent m :
  let '(m', (status, payload)) := tick m in
  0 <= depth m' < 2 ^ 16
  /\ payload = depth m' + 2 ^ 16 * lastError m'
  /\ (status = Degraded <-> lastError m' <> 0).
Proof.
  unfold tick. change 0xffff with (Z.ones 16). rewrite js_and_mask by lia. cbn [depth lastError].
  pose proof (Z.mod_pos_bound (depth m + 1) (2 ^ 16) ltac:(lia)) as Hd.
  set (d := (depth m + 1) mod 2 ^ 16) in *. split; [done|]. rewrite packPayload_sum.
  rewrite (to_uint32_jint d), (Z.mod_small d) by (unfold is_u32; lia).
  destruct (Z.rem d 4 =? 0); (split; [by rewrite to_uint32_jint|done]).
Qed.
