(* ===== verification/Search.v ===== *)
(** * The book's search page (src/_site/book/searcher-c2a407aa.js)

    The teaser of a search result: the document is cut into sentences and words, each
    word gets a weight, the heaviest window of words is chosen and the matching words are
    enclosed in [<em>]; and [escapeHTML], which the body passes through first.

    A text is its list of UTF-16 code units. The stemmer of the search library is a
    parameter; so is [toLowerCase], whose Unicode tables are the language's. *)

From S2P Require Import Prelude.

Abbreviation text := (list Z).

(** Literals, by their characters. *)
Definition txt (s : string) : text := latin1 s.

(** ** [split] and [join] *)

(** [s.split(sep)] for a non-empty separator: [skip] units of a separator are still to
    be passed over, [acc] is the piece being read. *)
Fixpoint split_from (sep : text) (skip : nat) (acc s : text) : list text :=
  match s with
  | [] => [acc]
  | c :: s' =>
      match skip with
      | S k => split_from sep k acc s'
      | O =>
          if bool_decide (sep `prefix_of` s)
          then acc :: split_from sep (length sep - 1) [] s'
          else split_from sep 0 (acc ++ [c]) s'
      end
  end.

Definition split (sep s : text) : list text := split_from sep 0 [] s.

Fixpoint join (sep : text) (l : list text) : text :=
  match l with
  | [] => []
  | [x] => x
  | x :: l => x ++ sep ++ join sep l
  end.

(** ** Weights *)

(** An element of [weighted]: the word, its weight, and its index in the document. *)
Record Word : Type := mkWord { w_text : text; w_weight : Z; w_index : nat }.

(** The variables of the two loops. *)
Record Scan : Type := mkScan {
  sc_index : nat;
  sc_value : Z;
  sc_found : bool;
  sc_weighted : list Word;
}.

Definition searchterm_weight : Z := 40.

Section teaser.
Context (toLowerCase : text -> text) (stemmer : text -> text).

(** One word of a sentence, with the stemmed search terms. *)
Definition scan_word (terms : list text) (st : Scan) (word : text) : Scan :=
  let st :=
    if bool_decide (0 < length word)%nat then
      let hit := existsb (fun t => bool_decide (t `prefix_of` stemmer word)) terms in
      let value := if hit then searchterm_weight else sc_value st in
      mkScan (sc_index st) 2 (sc_found st || hit)
        (sc_weighted st ++ [mkWord word value (sc_index st)])
    else st in
  mkScan (sc_index st + length word + 1) (sc_value st) (sc_found st) (sc_weighted st).

Definition scan_sentence (terms : list text) (st : Scan) (sentence : text) : Scan :=
  let st := mkScan (sc_index st) 8 (sc_found st) (sc_weighted st) in
  let st := foldl (scan_word terms) st (split (txt " ") sentence) in
  mkScan (sc_index st + 1) (sc_value st) (sc_found st) (sc_weighted st).

Definition scan (terms : list text) (body : text) : Scan :=
  foldl (scan_sentence terms) (mkScan 0 0 false []) (split (txt ". ") (toLowerCase body)).

(** ** The window *)

Definition weight_at (weighted : list Word) (i : nat) : Z :=
  default 0 (w_weight <$> weighted !! i).

(** The two loops that fill [window_weight]. *)
Definition first_sum (weighted : list Word) (window_size : nat) : Z :=
  foldl (fun s i => s + weight_at weighted i) 0 (seq 0 window_size).

Definition slide (weighted : list Word) (window_size : nat) (st : Z * list Z) (i : nat) : Z * list Z :=
  let cur_sum := st.1 - weight_at weighted i in
  let cur_sum := cur_sum + weight_at weighted (i + window_size) in
  (cur_sum, st.2 ++ [cur_sum]).

Definition window_weight (weighted : list Word) (window_size : nat) : list Z :=
  let cur_sum := first_sum weighted window_size in
  (foldl (slide weighted window_size) (cur_sum, [cur_sum])
     (seq 0 (length weighted - window_size))).2.

(** The backwards loop. *)
Definition pick (windows : list Z) (st : Z * nat) (i : nat) : Z * nat :=
  let x := default 0 (windows !! i) in if st.1 <? x then (x, i) else st.

Definition max_sum_window_index (windows : list Z) (searchterm_found : bool) : nat :=
  if searchterm_found
  then (foldl (pick windows) (0, 0%nat) (reverse (seq 0 (length windows)))).2
  else 0%nat.

(** ** The markup *)

Definition substring (s : text) (i j : nat) : text := take (j - i) (drop i s).

Definition em_open : text := txt "<em>".
Definition em_close : text := txt "</em>".

(** One turn of the last loop: [index], and the pieces pushed so far. *)
Definition emit_word (body : text) (st : nat * list text) (word : Word) : nat * list text :=
  let '(index, out) := st in
  let '(index, out) :=
    if bool_decide (index < w_index word)%nat
    then (w_index word, out ++ [substring body index (w_index word)]) else (index, out) in
  let out := if w_weight word =? searchterm_weight then out ++ [em_open] else out in
  let index := (w_index word + length (w_text word))%nat in
  let out := out ++ [substring body (w_index word) index] in
  let out := if w_weight word =? searchterm_weight then out ++ [em_close] else out in
  (index, out).

Definition makeTeaser (teaser_word_count : nat) (body : text) (searchterms : list text) : text :=
  let terms := map (fun w => stemmer (toLowerCase w)) searchterms in
  let st := scan terms body in
  let weighted := sc_weighted st in
  match weighted with
  | [] => body
  | _ =>
      let window_size := Nat.min (length weighted) teaser_word_count in
      let windows := window_weight weighted window_size in
      let start := max_sum_window_index windows (sc_found st) in
      let index := default 0%nat (w_index <$> weighted !! start) in
      concat (foldl (emit_word body) (index, []) (take window_size (drop start weighted))).2
  end.

End teaser.

(** ** Escaping *)

Definition escape_unit (c : Z) : text := Eval cbv -[Z.eqb] in
  if c =? 38 then txt "&amp;" else if c =? 60 then txt "&lt;" else if c =? 62 then txt "&gt;"
  else if c =? 34 then txt "&#34;" else if c =? 39 then txt "&#39;" else [c].

Definition escapeHTML (s : text) : text := concat (map escape_unit s).

(** ** [join] inverts [split] *)

Lemma split_from_skip sep k acc s : split_from sep k acc s = split_from sep 0 acc (drop k s).
Proof.
  revert k. induction s as [|c s IH]; intros [|k]; try done. cbn [drop]. rewrite <- IH. done.
Qed.

Lemma split_from_cons sep k acc s : exists x l, split_from sep k acc s = x :: l.
Proof.
  revert k acc. induction s as [|c s IH]; intros k acc; cbn; [eauto|].
  destruct k; [case_bool_decide|]; eauto.
Qed.

Lemma join_cons sep x l : l <> [] -> join sep (x :: l) = x ++ sep ++ join sep l.
Proof. by destruct l. Qed.

Lemma join_split_from sep acc s :
  sep <> [] -> join sep (split_from sep 0 acc s) = acc ++ s.
Proof.
  intros Hsep. remember (length s) as n eqn:Hn. revert s acc Hn.
  induction n as [n IH] using lt_wf_ind; intros s acc ->.
  destruct s as [|c s]; cbn [split_from]; [by rewrite app_nil_r|].
  case_bool_decide as Hp.
  - destruct Hp as [rest Hrest]. destruct sep as [|d sep]; [done|]. cbn in Hrest. injection Hrest as <- ->.
    rewrite split_from_skip. cbn [length]. rewrite Nat.sub_succ, Nat.sub_0_r, drop_app_length.
    rewrite join_cons by (destruct (split_from_cons (c :: sep) 0 [] rest) as (? & ? & ->); done).
    rewrite (IH (length rest)); [done|cbn; rewrite length_app; lia|done].
  - rewrite (IH (length s)); [by rewrite <- (assoc_L (++))|cbn; lia|done].
Qed.

Lemma join_split sep s : sep <> [] -> join sep (split sep s) = s.
Proof. intros Hsep. unfold split. by rewrite join_split_from. Qed.

(** ** Words are where [weighted] says they are *)

Definition w_end (w : Word) : nat := w_index w + length (w_text w).

(** The stem of the word starts with one of the stemmed terms. *)
Definition is_hit (stemmer : text -> text) (terms : list text) (word : text) : bool :=
  existsb (fun t => bool_decide (t `prefix_of` stemmer word)) terms.

(** In text [t]: every entry is a non-empty word at its index, weighted by whether it
    matches, the entries are in order and apart, and the scan has passed them all. *)
Record located (stemmer : text -> text) (terms : list text) (t : text) (st : Scan) : Prop := {
  lo_word : forall w, w ∈ sc_weighted st -> w_text w <> []
    /\ substring t (w_index w) (w_end w) = w_text w /\ 0 < w_weight w
    /\ (w_weight w =? searchterm_weight) = is_hit stemmer terms (w_text w);
  lo_order : forall i j a b, (i < j)%nat -> sc_weighted st !! i = Some a ->
    sc_weighted st !! j = Some b -> (w_end a < w_index b)%nat;
  lo_past : forall w, w ∈ sc_weighted st -> (w_end w < sc_index st)%nat;
}.

(** The weight of a word that does not match. *)
Definition ordinary (v : Z) : Prop := v = 2 \/ v = 8.

Lemma drop_after {A} (l a b : list A) n : drop n l = a ++ b -> drop (n + length a) l = b.
Proof. intros Hd. by rewrite <- drop_drop, Hd, drop_app_length. Qed.

Lemma scan_word_located stemmer terms t st word rest :
  located stemmer terms t st -> ordinary (sc_value st) -> drop (sc_index st) t = word ++ rest ->
  (located stemmer terms t (scan_word stemmer terms st word) /\ ordinary (sc_value (scan_word stemmer terms st word)))
  /\ sc_index (scan_word stemmer terms st word) = (sc_index st + length word + 1)%nat.
Proof.
  intros [Hw Ho Hp] Hv Hd. unfold scan_word. split; [|by case_bool_decide].
  split; [|case_bool_decide; [by left|done]].
  case_bool_decide as Hl; cbn.
  - set (v := if existsb _ _ then searchterm_weight else sc_value st).
    assert (0 < v /\ (v =? searchterm_weight) = is_hit stemmer terms word) as Hv'.
    { unfold v, is_hit, searchterm_weight. destruct (existsb _ _); [done|].
      destruct Hv as [-> | ->]; done. }
    constructor; cbn.
    + intros w [Hin|Heq%list_elem_of_singleton]%elem_of_app; [auto|]. subst w. cbn.
      split; [by intros ->; cbn in Hl; lia|]. split; [|done]. unfold substring, w_end. cbn.
      replace (sc_index st + length word - sc_index st)%nat with (length word) by lia.
      by rewrite Hd, take_app_length.
    + intros i j a b Hij [Ha|[Ha1 Ha2]]%lookup_app_Some [Hb|[Hb1 Hb2]]%lookup_app_Some.
      * eauto.
      * destruct (j - length (sc_weighted st))%nat; [|done]. injection Hb2 as <-. cbn.
        apply Hp. by eapply list_elem_of_lookup_2.
      * apply lookup_lt_Some in Hb. lia.
      * apply lookup_lt_Some in Ha2, Hb2. cbn in *. lia.
    + intros w [Hin%Hp|Heq%list_elem_of_singleton]%elem_of_app; subst; unfold w_end in *; cbn; lia.
  - constructor; cbn; [done|done|]. intros w Hin%Hp. lia.
Qed.

Lemma scan_words_located stemmer terms t ws st rest :
  located stemmer terms t st -> ordinary (sc_value st) -> ws <> [] -> drop (sc_index st) t = join (txt " ") ws ++ rest ->
  located stemmer terms t (foldl (scan_word stemmer terms) st ws)
  /\ sc_index (foldl (scan_word stemmer terms) st ws)
     = (sc_index st + length (join (txt " ") ws) + 1)%nat.
Proof.
  revert st. induction ws as [|x ws IH]; intros st Hst Hv Hne Hd; [done|]. cbn [foldl].
  destruct ws as [|y ws].
  - cbn [foldl join] in *. destruct (scan_word_located stemmer terms t st x rest Hst Hv Hd) as [[H1 _] H2]. done.
  - rewrite join_cons in Hd |- * by done. rewrite <- (assoc_L (++)) in Hd.
    destruct (scan_word_located stemmer terms t st x _ Hst Hv Hd) as [[Hst' Hv'] Hi].
    destruct (IH (scan_word stemmer terms st x)) as [H1 H2]; [done|done|done| |].
    + rewrite Hi, <- Nat.add_assoc. rewrite <- (assoc_L (++)) in Hd.
      rewrite (assoc_L (++)) in Hd. apply drop_after in Hd. rewrite length_app in Hd. exact Hd.
    + split; [exact H1|]. rewrite H2, Hi, !length_app. cbn. lia.
Qed.

Lemma scan_sentences_located stemmer terms t ss st rest :
  located stemmer terms t st -> ss <> [] -> drop (sc_index st) t = join (txt ". ") ss ++ rest ->
  located stemmer terms t (foldl (scan_sentence stemmer terms) st ss).
Proof.
  revert st. induction ss as [|x ss IH]; intros st [Hw Ho Hp] Hne Hd; [done|]. cbn [foldl].
  assert (exists more, drop (sc_index st) t = x ++ more) as [more Hx].
  { destruct ss; [by exists rest|]. rewrite join_cons in Hd by done.
    rewrite <- (assoc_L (++)) in Hd. eauto. }
  set (st1 := mkScan (sc_index st) 8 (sc_found st) (sc_weighted st)).
  destruct (scan_words_located stemmer terms t (split (txt " ") x) st1 more) as [[Hw' Ho' Hp'] Hi].
  { by constructor. }
  { by right. }
  { destruct (split_from_cons (txt " ") 0 [] x) as (? & ? & E). unfold split. by rewrite E. }
  { by rewrite join_split. }
  rewrite join_split in Hi by done.
  assert (located stemmer terms t (scan_sentence stemmer terms st x)
    /\ sc_index (scan_sentence stemmer terms st x) = (sc_index st + (length x + 2))%nat) as [Hloc Hidx].
  { unfold scan_sentence. fold st1. cbn [sc_index]. split; [|rewrite Hi; cbn; lia].
    constructor; cbn [sc_index sc_weighted]; [exact Hw'|exact Ho'|]. intros w Hin%Hp'. lia. }
  destruct ss as [|y ss]; [exact Hloc|]. apply IH; [done|done|]. rewrite Hidx.
  rewrite join_cons in Hd by done. rewrite (assoc_L (++)), <- (assoc_L (++) (x ++ _)) in Hd.
  apply drop_after in Hd. rewrite length_app in Hd. exact Hd.
Qed.

Lemma scan_located lower stemmer terms body :
  located stemmer terms (lower body) (scan lower stemmer terms body).
Proof.
  unfold scan. apply scan_sentences_located with (rest := []).
  - constructor; cbn; [intros w Hw; by apply elem_of_nil in Hw|done|intros w Hw; by apply elem_of_nil in Hw].
  - destruct (split_from_cons (txt ". ") 0 [] (lower body)) as (? & ? & E). unfold split. by rewrite E.
  - by rewrite join_split, app_nil_r.
Qed.

(** ** The sliding sum *)

(** The sum of the [size] weights from word [i] on. *)
Definition window_sum (weighted : list Word) (size i : nat) : Z :=
  foldr Z.add 0 (map (fun j => weight_at weighted (i + j)) (seq 0 size)).

Lemma foldl_sum (f : nat -> Z) l z : foldl (fun s i => s + f i) z l = z + foldr Z.add 0 (map f l).
Proof. revert z. induction l as [|x l IH]; intros z; cbn; [lia|]. rewrite IH. lia. Qed.

Lemma foldr_add_snoc l x : foldr Z.add 0 (l ++ [x]) = foldr Z.add 0 l + x.
Proof. induction l as [|y l IH]; cbn; [lia|]. rewrite IH. lia. Qed.

Lemma first_sum_window weighted size : first_sum weighted size = window_sum weighted size 0.
Proof. unfold first_sum, window_sum. rewrite (foldl_sum (weight_at weighted)). reflexivity. Qed.

Lemma window_sum_slide weighted size i :
  window_sum weighted size i - weight_at weighted i + weight_at weighted (i + size)
  = window_sum weighted size (S i).
Proof.
  assert (window_sum weighted (S size) i = weight_at weighted i + window_sum weighted size (S i)) as H1.
  { unfold window_sum. rewrite <- cons_seq. cbn [map foldr]. rewrite Nat.add_0_r. f_equal.
    rewrite <- fmap_S_seq. rewrite map_map. f_equal. apply map_ext. intros j. by rewrite Nat.add_succ_r. }
  assert (window_sum weighted (S size) i = window_sum weighted size i + weight_at weighted (i + size)) as H2.
  { unfold window_sum. rewrite seq_S, map_app. cbn [map]. by rewrite foldr_add_snoc. }
  lia.
Qed.

Lemma window_weight_sums weighted size :
  window_weight weighted size
  = map (window_sum weighted size) (seq 0 (S (length weighted - size))).
Proof.
  unfold window_weight. rewrite first_sum_window. generalize (length weighted - size)%nat as n. intros n.
  enough (foldl (slide weighted size) (window_sum weighted size 0, [window_sum weighted size 0]) (seq 0 n)
    = (window_sum weighted size n, map (window_sum weighted size) (seq 0 (S n)))) as -> by done.
  induction n as [|n IH]; [done|].
  rewrite seq_S, foldl_app, IH. cbn [foldl Nat.add]. unfold slide. cbn [fst snd].
  rewrite window_sum_slide. f_equal. rewrite (seq_S (S n)), map_app. done.
Qed.

(** ** The choice of the window *)

(** The last maximum of [windows] from index [m] to the end, if it is positive. *)
Definition last_max (windows : list Z) (m : nat) (st : Z * nat) : Prop :=
  (forall j x, (m <= j)%nat -> windows !! j = Some x -> x <= st.1)
  /\ ((st.1 = 0 /\ st.2 = 0%nat)
      \/ ((m <= st.2)%nat /\ windows !! st.2 = Some st.1 /\ 0 < st.1
          /\ forall j x, (st.2 < j)%nat -> windows !! j = Some x -> x < st.1)).

Lemma pick_last_max windows k m :
  (m + k = length windows)%nat ->
  last_max windows m (foldl (pick windows) (0, 0%nat) (reverse (seq m k))).
Proof.
  revert m. induction k as [|k IH]; intros m Hk.
  - cbn. split; [|by left]. intros j x Hj Hx%lookup_lt_Some. lia.
  - cbn [seq]. rewrite reverse_cons, foldl_app. cbn [foldl].
    specialize (IH (S m) ltac:(lia)). set (st := foldl _ _ _) in *. destruct IH as [Hle Hst].
    destruct (lookup_lt_is_Some_2 windows m ltac:(lia)) as [x Hx].
    unfold pick. rewrite Hx. cbn. destruct (Z.ltb_spec st.1 x) as [Hlt|Hge].
    + split; cbn.
      * intros j y Hj Hy. destruct (decide (j = m)) as [->|]; [rewrite Hx in Hy; by simplify_eq|].
        specialize (Hle j y ltac:(lia) Hy). lia.
      * right. split_and!; try done.
        -- destruct Hst as [[? ?]|(_ & _ & ? & _)]; lia.
        -- intros j y Hj Hy. specialize (Hle j y ltac:(lia) Hy). lia.
    + split.
      * intros j y Hj Hy. destruct (decide (j = m)) as [->|]; [rewrite Hx in Hy; by simplify_eq|].
        apply (Hle j y ltac:(lia) Hy).
      * destruct Hst as [?|(? & ? & ? & ?)]; [by left|right]. split_and!; try done. lia.
Qed.

(** ** The excerpt *)

(** A piece of the teaser: highlighted or not, and its text. *)
Definition render (p : bool * text) : text :=
  if p.1 then em_open ++ p.2 ++ em_close else p.2.

Lemma substring_app s a b c :
  (a <= b)%nat -> (b <= c)%nat -> substring s a b ++ substring s b c = substring s a c.
Proof.
  intros Hab Hbc. unfold substring. replace (c - a)%nat with ((b - a) + (c - b))%nat by lia.
  rewrite <- take_take_drop. rewrite drop_drop. do 3 f_equal. lia.
Qed.

Lemma substring_nil s a : substring s a a = [].
Proof. unfold substring. by rewrite Nat.sub_diag. Qed.

(** The text of a word in the document, and whether it matched. *)
Definition shown (body : text) (w : Word) : text := substring body (w_index w) (w_end w).
Definition matched (w : Word) : bool := w_weight w =? searchterm_weight.

Lemma emit_word_pieces body w index out :
  (index <= w_index w)%nat ->
  (emit_word body (index, out) w).1 = w_end w
  /\ concat (emit_word body (index, out) w).2
     = concat out ++ substring body index (w_index w) ++ render (matched w, shown body w).
Proof.
  intros Hi. unfold emit_word, render, matched, shown, w_end. cbn [fst snd].
  case_bool_decide as Hlt; (split; [done|]); cbn [fst snd].
  - destruct (w_weight w =? searchterm_weight);
      by rewrite !concat_app; cbn [concat]; rewrite ?app_nil_r, <- ?(assoc_L (++)).
  - replace (w_index w) with index by lia. rewrite substring_nil. cbn [app].
    destruct (w_weight w =? searchterm_weight);
      by rewrite !concat_app; cbn [concat]; rewrite ?app_nil_r, <- ?(assoc_L (++)).
Qed.

(** Where the last word of a non-empty list ends. *)
Definition end_of (index : nat) (ws : list Word) : nat := foldl (fun _ w => w_end w) index ws.

Lemma emit_words body ws index out :
  (forall i j a b, (i < j)%nat -> ws !! i = Some a -> ws !! j = Some b -> (w_end a < w_index b)%nat) ->
  (forall w, ws !! 0%nat = Some w -> (index <= w_index w)%nat) ->
  exists pieces, let r := foldl (emit_word body) (index, out) ws in
    concat r.2 = concat out ++ concat (map render pieces)
    /\ concat (map snd pieces) = substring body index (end_of index ws)
    /\ map snd (filter (fun p => p.1 = true) pieces)
       = map (shown body) (filter (fun w => matched w = true) ws)
    /\ (index <= end_of index ws)%nat.
Proof.
  revert index out. induction ws as [|w ws IH]; intros index out Hord Hfirst.
  { exists []. unfold end_of. cbn [foldl map concat filter]. rewrite app_nil_r, substring_nil. by split_and!. }
  specialize (Hfirst w eq_refl).
  destruct (emit_word_pieces body w index out Hfirst) as [Hidx Hout].
  destruct (emit_word body (index, out) w) as [index' out'] eqn:E. cbn [fst snd] in Hidx, Hout. subst index'.
  destruct (IH (w_end w) out') as (pieces & H1 & H2 & H3 & H4).
  { intros i j a b Hij Ha Hb. apply (Hord (S i) (S j) a b); [lia|done..]. }
  { intros w' Hw'. specialize (Hord 0%nat 1%nat w w' ltac:(lia) eq_refl Hw'). lia. }
  assert (w_index w <= w_end w)%nat as Hw by (unfold w_end; lia).
  exists ((false, substring body index (w_index w)) :: (matched w, shown body w) :: pieces).
  cbn [foldl]. rewrite E. cbn zeta in *. cbn [end_of foldl]. fold (end_of (w_end w) ws). split_and!.
  - rewrite H1, Hout. cbn [map concat]. unfold render at 2. cbn [fst snd].
    by rewrite <- !(assoc_L (++)).
  - cbn [map concat snd]. rewrite H2. unfold shown.
    rewrite (substring_app body (w_index w)) by lia. by rewrite substring_app by lia.
  - rewrite !filter_cons. cbn [fst]. rewrite (decide_False (P := false = true)) by done.
    destruct (matched w); [rewrite !decide_True by done|rewrite !decide_False by done];
      cbn [map snd]; [f_equal|]; exact H3.
  - lia.
Qed.

Lemma filter_ext_elem {A} (P Q : A -> bool) (l : list A) :
  (forall x, x ∈ l -> P x = Q x) -> filter (fun x => P x = true) l = filter (fun x => Q x = true) l.
Proof.
  induction l as [|x l IH]; intros Heq; [done|]. rewrite !filter_cons, IH by set_solver.
  by rewrite (Heq x) by set_solver.
Qed.

(** ** Properties *)

Section properties.
Context (toLowerCase stemmer : text -> text) (count : nat) (body : text) (searchterms : list text).

(** The stemmed terms, the words of the document, and the window the teaser shows. *)
Definition stems : list text := map (fun w => stemmer (toLowerCase w)) searchterms.
Definition doc_words : list Word := sc_weighted (scan toLowerCase stemmer stems body).
Definition size : nat := Nat.min (length doc_words) count.
Definition start : nat :=
  max_sum_window_index (window_weight doc_words size) (sc_found (scan toLowerCase stemmer stems body)).
Definition window : list Word := take size (drop start doc_words).

Lemma window_count : length (window_weight doc_words size) = S (length doc_words - size).
Proof. rewrite window_weight_sums, length_map, length_seq. done. Qed.

Lemma window_lookup j x :
  window_weight doc_words size !! j = Some x <->
  (j <= length doc_words - size)%nat /\ x = window_sum doc_words size j.
Proof.
  rewrite window_weight_sums, list_lookup_fmap_Some. split.
  - intros (k & -> & [-> Hk]%lookup_seq). split; [lia|done].
  - intros [Hj ->]. exists j. split; [done|]. apply lookup_seq. lia.
Qed.

Lemma start_bound : (start <= length doc_words - size)%nat.
Proof.
  unfold start, max_sum_window_index. case_match; [|lia].
  pose proof (pick_last_max (window_weight doc_words size) (length (window_weight doc_words size)) 0 eq_refl)
    as [_ [[_ ->]|(_ & Hl & _)]]; [lia|]. by apply window_lookup in Hl as [? _].
Qed.

Lemma window_sum_positive j :
  (0 < size)%nat -> (j <= length doc_words - size)%nat -> 0 < window_sum doc_words size j.
Proof.
  intros Hs Hj. assert (size <= length doc_words)%nat as Hsz by (unfold size; lia).
  assert (forall i, (i < length doc_words)%nat -> 0 < weight_at doc_words i) as Hpos.
  { intros i Hi. destruct (lookup_lt_is_Some_2 doc_words i Hi) as [w Hw]. unfold weight_at. rewrite Hw. cbn.
    by apply (lo_word _ _ _ _ (scan_located toLowerCase stemmer stems body)), (list_elem_of_lookup_2 _ i). }
  assert (forall l, Forall (fun k => (j + k < length doc_words)%nat) l ->
    0 <= foldr Z.add 0 (map (fun k => weight_at doc_words (j + k)) l)) as Hnn.
  { intros l. induction 1 as [|k l Hk _ IH]; cbn; [lia|]. specialize (Hpos _ Hk). lia. }
  unfold window_sum. destruct size as [|n] eqn:En; [lia|]. rewrite <- cons_seq. cbn [map foldr].
  specialize (Hpos (j + 0)%nat ltac:(lia)).
  specialize (Hnn (seq 1 n)). cbn in Hnn. enough (Forall (fun k => (j + k < length doc_words)%nat) (seq 1 n)) as Hf by (specialize (Hnn Hf); lia).
  apply list.Forall_forall. intros k Hk%elem_of_seq. lia.
Qed.

(** C29. The teaser is an excerpt: with at least one word in the document, [makeTeaser]
    returns a passage of the body, from the first word of the chosen window to the end of
    its last one, letter for letter; it only adds [<em>] and [</em>] around words, and
    around exactly those words of the window whose stem starts with the stem of a search
    term. The words are where the scan says they are in the lower-cased body. *)
Theorem teaser_is_excerpt :
  doc_words <> [] -> (0 < count)%nat ->
  length window = size /\ (0 < size)%nat
  /\ Forall (fun w => substring (toLowerCase body) (w_index w) (w_end w) = w_text w) window
  /\ exists first pieces, head window = Some first
  /\ makeTeaser toLowerCase stemmer count body searchterms = concat (map render pieces)
  /\ concat (map snd pieces) = substring body (w_index first) (end_of (w_index first) window)
  /\ map snd (filter (fun p => p.1 = true) pieces)
     = map (shown body) (filter (fun w => is_hit stemmer stems (w_text w) = true) window).
Proof.
  intros Hne Hc. pose proof (scan_located toLowerCase stemmer stems body) as [Hw Ho _].
  pose proof start_bound as Hst.
  assert (0 < length doc_words)%nat as Hpos by (destruct doc_words; [done|cbn; lia]).
  assert (size <= length doc_words /\ 0 < size)%nat as [Hsz Hsz0] by (unfold size; lia).
  assert (length window = size) as Hlen by (unfold window; rewrite length_take, length_drop; lia).
  assert (forall i w, window !! i = Some w -> doc_words !! (start + i)%nat = Some w) as Hlk.
  { intros i w Hi. unfold window in Hi. apply lookup_take_Some in Hi as [Hi _]. by rewrite lookup_drop in Hi. }
  assert (forall w, w ∈ window -> w ∈ doc_words) as Hin.
  { intros w [i Hi]%list_elem_of_lookup_1. by eapply list_elem_of_lookup_2, Hlk. }
  split_and!; [done|done|apply list.Forall_forall; intros w Hww; by apply (Hw w), Hin|].
  destruct window as [|first rest] eqn:Ew; [cbn in Hlen; lia|].
  destruct (emit_words body (first :: rest) (w_index first) []) as (pieces & H1 & H2 & H3 & _).
  { intros i j a b Hij Ha Hb. eapply (Ho (start + i)%nat (start + j)%nat); [lia|by apply Hlk..]. }
  { intros w [= <-]. done. }
  exists first, pieces. split; [done|]. split; [|split; [exact H2|]].
  - unfold makeTeaser. fold stems. fold doc_words. fold size. fold start. fold window. rewrite Ew.
    assert (doc_words !! start = Some first) as -> by (rewrite <- (Nat.add_0_r start); by apply Hlk).
    cbn [fmap option_fmap option_map default from_option id]. cbn in H1.
    destruct doc_words; [done|]. exact H1.
  - rewrite H3. f_equal. apply filter_ext_elem. intros w Hww. unfold matched.
    by rewrite (proj2 (proj2 (proj2 (Hw w (Hin w Hww))))).
Qed.

(** C30. The window is the heaviest: if some word matches, no window of that many words
    weighs more than the chosen one, and every later one weighs less (of several maxima
    the last is taken, as the comment says); if none matches, it is the document's
    beginning. The weights the loops computed incrementally are the sums themselves. *)
Theorem teaser_window_heaviest :
  doc_words <> [] -> (0 < count)%nat ->
  (forall j, (j <= length doc_words - size)%nat ->
     window_weight doc_words size !! j = Some (window_sum doc_words size j))
  /\ if sc_found (scan toLowerCase stemmer stems body)
     then forall j, (j <= length doc_words - size)%nat ->
       window_sum doc_words size j <= window_sum doc_words size start
       /\ ((start < j)%nat -> window_sum doc_words size j < window_sum doc_words size start)
     else start = 0%nat.
Proof.
  intros Hne Hc. split; [intros j Hj; by apply window_lookup|].
  assert (0 < length doc_words)%nat as Hpos by (destruct doc_words; [done|cbn; lia]).
  assert (0 < size)%nat as Hsz by (unfold size; lia).
  pose proof start_bound as Hsb. unfold start, max_sum_window_index in *.
  destruct (sc_found _); [|done]. intros j Hj.
  pose proof (pick_last_max (window_weight doc_words size) (length (window_weight doc_words size)) 0 eq_refl)
    as [Hle Hst]. set (st := foldl _ _ _) in *.
  assert (window_weight doc_words size !! j = Some (window_sum doc_words size j)) as Hwj by (by apply window_lookup).
  pose proof (Hle j _ ltac:(lia) Hwj) as Hlj. pose proof (window_sum_positive j Hsz Hj) as Hp.
  destruct Hst as [[H0 _]|(_ & Hl & _ & Hlt)]; [lia|].
  apply window_lookup in Hl as [_ Hl]. split; [lia|]. intros Hsj. rewrite <- Hl. by eapply Hlt.
Qed.
End properties.

(** ** Escaping is safe and loses nothing *)

(** The reader's side: the five character references back to their characters. *)
Definition entities : list (text * Z) := Eval cbv in
  [(txt "&amp;", 38); (txt "&lt;", 60); (txt "&gt;", 62); (txt "&#34;", 34); (txt "&#39;", 39)].

Definition entity_at (s : text) : option (text * Z) :=
  List.find (fun e => bool_decide (e.1 `prefix_of` s)) entities.

Fixpoint unescape_from (skip : nat) (s : text) : text :=
  match s with
  | [] => []
  | c :: s' =>
      match skip with
      | S k => unescape_from k s'
      | O =>
          match entity_at s with
          | Some (e, d) => d :: unescape_from (length e - 1) s'
          | None => c :: unescape_from 0 s'
          end
      end
  end.

Lemma unescape_skip k s : unescape_from k s = unescape_from 0 (drop k s).
Proof. revert k. induction s as [|c s IH]; intros [|k]; try done. cbn [drop]. by rewrite <- IH. Qed.

Lemma prefix_cons_ne (a b : Z) (l k : text) : a <> b -> bool_decide ((a :: l) `prefix_of` (b :: k)) = false.
Proof. intros Hne. apply bool_decide_false. by intros ?%prefix_cons_inv_1. Qed.

Lemma prefix_cons_same (a : Z) (l k : text) :
  bool_decide ((a :: l) `prefix_of` (a :: k)) = bool_decide (l `prefix_of` k).
Proof. apply bool_decide_ext. split; [apply prefix_cons_inv_2|apply prefix_cons]. Qed.

Lemma prefix_nil_true (k : text) : bool_decide ([] `prefix_of` k) = true.
Proof. apply bool_decide_true, prefix_nil. Qed.

Lemma entity_at_unit c rest :
  entity_at (escape_unit c ++ rest)
  = List.find (fun e => e.2 =? c) entities.
Proof.
  unfold escape_unit.
  repeat (match goal with |- context [c =? ?n] => destruct (Z.eqb_spec c n) as [->|?] end;
    [cbn; repeat (rewrite ?prefix_cons_same, ?prefix_nil_true; rewrite ?prefix_cons_ne by done; cbn); done|]).
  cbn -[Z.eqb]. rewrite !prefix_cons_ne by congruence.
  by repeat (rewrite (proj2 (Z.eqb_neq _ c)) by congruence).
Qed.

Lemma unescape_unit c rest : unescape_from 0 (escape_unit c ++ rest) = c :: unescape_from 0 rest.
Proof.
  pose proof (entity_at_unit c rest) as He. unfold escape_unit in *.
  repeat (match goal with |- context [c =? ?n] => destruct (Z.eqb_spec c n) as [->|?] end;
    [cbn in He; cbn; rewrite He; by rewrite unescape_skip|]).
  cbn -[Z.eqb] in He. repeat (rewrite (proj2 (Z.eqb_neq _ c)) in He by congruence). cbn. by rewrite He.
Qed.

(** Escaping: the escaped text has no angle bracket and no quote, so it cannot open
    a tag or end an attribute, and resolving the five character references gives the
    original back, so nothing is lost or merged. *)
Theorem escapeHTML_safe (s : text) :
  Forall (fun c => c <> 60 /\ c <> 62 /\ c <> 34 /\ c <> 39) (escapeHTML s)
  /\ unescape_from 0 (escapeHTML s) = s.
Proof.
  unfold escapeHTML. induction s as [|c s [IH1 IH2]]; [done|]. cbn [map concat]. split.
  - apply list.Forall_app. split; [|exact IH1]. unfold escape_unit.
    repeat case_match; boolify; repeat constructor; try lia; congruence.
  - by rewrite unescape_unit, IH2.
Qed.

(** ** Example *)

(** Lower-casing of ASCII letters, and a stemmer that keeps words as they are. *)
Definition demo_lower (s : text) : text :=
  map (fun c => if (65 <=? c) && (c <=? 90) then c + 32 else c) s.
Definition demo_stem (s : text) : text := s.
Definition demo_body : text := txt "The agent emits. A Beat per tick  keeps it alive. Beats stop".

Lemma demo_teaser :
  makeTeaser demo_lower demo_stem 4 demo_body [txt "beat"]
  = txt "A <em>Beat</em> per tick".
Proof. vm_compute. reflexivity. Qed.

Lemma teaser_is_excerpt_witness :
  exists pieces,
  makeTeaser demo_lower demo_stem 4 demo_body [txt "beat"] = concat (map render pieces)
  /\ concat (map snd pieces) = txt "A Beat per tick".
Proof.
  destruct (teaser_is_excerpt demo_lower demo_stem 4 demo_body [txt "beat"])
    as (_ & _ & _ & first & pieces & Hf & H1 & H2 & _); [vm_compute; discriminate|lia|].
  exists pieces. split; [exact H1|]. rewrite H2. clear H1 H2. vm_compute in Hf.
  injection Hf as <-. vm_compute. reflexivity.
Defined.

Lemma teaser_window_heaviest_witness :
  window_sum (doc_words demo_lower demo_stem demo_body [txt "beat"]) 4 1
  <= window_sum (doc_words demo_lower demo_stem demo_body [txt "beat"]) 4
       (start demo_lower demo_stem 4 demo_body [txt "beat"]).
Proof.
  destruct (teaser_window_heaviest demo_lower demo_stem 4 demo_body [txt "beat"]) as [_ H];
    [vm_compute; discriminate|lia|].
  apply (H 1%nat). vm_compute. lia.
Defined.
