(* ===== verification/Dom.v ===== *)
(** * Document trees of the book's pages

    The scripts of the book build and search the page's tree through references to its
    nodes, so the model keeps a store of nodes: a node is named by its position in the
    store, holds the names of its children in order and the name of its parent, and
    [createElement] adds a node at the end. Only elements are nodes of the store; the text
    and inline markup a script copies as a whole is the node's [content]. *)

From S2P Require Import Prelude.

(** Inline content: what a heading or a link holds. *)
#[warnings="-register-all"]
Inductive Inline : Type :=
| Text (s : string)
| Elem (tag : string) (inside : list Inline).

Record Node : Type := mkNode {
  tagName : string;
  classList : gset string;
  href : option string;
  content : list Inline;
  parentElement : option nat;
  childNodes : list nat;
}.

Abbreviation dom := (list Node).

Definition new_node (tag : string) : Node := mkNode tag ∅ None [] None [].

(** ** Operations *)

Definition createElement (tag : string) (d : dom) : dom * nat := (d ++ [new_node tag], length d).

Definition on_classes (f : gset string -> gset string) (x : Node) : Node :=
  mkNode (tagName x) (f (classList x)) (href x) (content x) (parentElement x) (childNodes x).

Definition addClass (n : nat) (c : string) (d : dom) : dom := alter (on_classes (fun s => {[c]} ∪ s)) n d.
Definition removeClass (n : nat) (c : string) (d : dom) : dom :=
  alter (on_classes (fun s => s ∖ {[c]})) n d.
Definition hasClass (d : dom) (n : nat) (c : string) : bool :=
  match d !! n with Some x => bool_decide (c ∈ classList x) | None => false end.
Definition toggleClass (n : nat) (c : string) (d : dom) : dom :=
  if hasClass d n c then removeClass n c d else addClass n c d.

Definition set_href (n : nat) (v : string) (d : dom) : dom :=
  alter (fun x => mkNode (tagName x) (classList x) (Some v) (content x) (parentElement x)
                    (childNodes x)) n d.
Definition append_content (n : nat) (v : list Inline) (d : dom) : dom :=
  alter (fun x => mkNode (tagName x) (classList x) (href x) (content x ++ v) (parentElement x)
                    (childNodes x)) n d.

Definition on_children (f : list nat -> list nat) (x : Node) : Node :=
  mkNode (tagName x) (classList x) (href x) (content x) (parentElement x) (f (childNodes x)).
Definition set_parent (p : option nat) (x : Node) : Node :=
  mkNode (tagName x) (classList x) (href x) (content x) p (childNodes x).

Definition kids (d : dom) (n : nat) : list nat := default [] (childNodes <$> d !! n).
Definition parent (d : dom) (n : nat) : option nat := d !! n ≫= parentElement.

(** A node that is put somewhere leaves the place it had. *)
Definition detach (c : nat) (d : dom) : dom :=
  match parent d c with
  | Some q => alter (set_parent None) c (alter (on_children (filter (.≠ c))) q d)
  | None => d
  end.

Definition appendChild (p c : nat) (d : dom) : dom :=
  let d := detach c d in
  alter (set_parent (Some p)) c (alter (on_children (fun ks => ks ++ [c])) p d).

Fixpoint insert_after (n c : nat) (ks : list nat) : list nat :=
  match ks with
  | [] => []
  | k :: ks => if decide (k = n) then k :: c :: ks else k :: insert_after n c ks
  end.

(** [n.after(c)]. *)
Definition after (n c : nat) (d : dom) : dom :=
  match parent d n with
  | Some p => alter (set_parent (Some p)) c (alter (on_children (insert_after n c)) p (detach c d))
  | None => d
  end.

Definition lastChild (d : dom) (n : nat) : option nat := list.last (kids d n).

(** Document order: a node, then what its children hold. The fuel bounds the depth. *)
Fixpoint document_order (fuel : nat) (d : dom) (n : nat) : list nat :=
  match fuel with
  | O => []
  | S fuel => n :: concat (map (document_order fuel d) (kids d n))
  end.

Definition querySelectorAll (d : dom) (root : nat) (c : string) : list nat :=
  filter (fun n => hasClass d n c = true) (document_order (length d) d root).

(** ** What the operations do to the links *)

Lemma kids_alter_same (f : Node -> Node) (n m : nat) (d : dom) :
  (forall x, childNodes (f x) = childNodes x) -> kids (alter f n d) m = kids d m.
Proof.
  intros Hf. unfold kids. destruct (decide (n = m)) as [->|Hne].
  - rewrite list_lookup_alter_eq. destruct (d !! m); cbn; [apply Hf|done].
  - by rewrite list_lookup_alter_ne.
Qed.

Lemma parent_alter_same (f : Node -> Node) (n m : nat) (d : dom) :
  (forall x, parentElement (f x) = parentElement x) -> parent (alter f n d) m = parent d m.
Proof.
  intros Hf. unfold parent. destruct (decide (n = m)) as [->|Hne].
  - rewrite list_lookup_alter_eq. destruct (d !! m); cbn; [apply Hf|done].
  - by rewrite list_lookup_alter_ne.
Qed.

(** The node [c], which had no parent, is put among the children of [p], between [k1] and
    [k2]; no other link changes. *)
Record put (d d' : dom) (p : nat) (k1 : list nat) (c : nat) (k2 : list nat) : Prop := {
  put_length : length d' = length d;
  put_before : kids d p = k1 ++ k2;
  put_kids : kids d' p = k1 ++ c :: k2;
  put_other : forall n, n <> p -> kids d' n = kids d n;
  put_parent : parent d' c = Some p;
  put_parents : forall n, n <> c -> parent d' n = parent d n;
}.

Lemma put_children (d : dom) (p c : nat) (f : list nat -> list nat) (k1 k2 : list nat) :
  (p < length d)%nat -> (c < length d)%nat -> kids d p = k1 ++ k2 -> f (k1 ++ k2) = k1 ++ c :: k2 ->
  put d (alter (set_parent (Some p)) c (alter (on_children f) p d)) p k1 c k2.
Proof.
  intros Hp Hc Hk Hf. split.
  - by rewrite !length_alter.
  - done.
  - rewrite kids_alter_same by done. revert Hk. unfold kids. rewrite list_lookup_alter_eq.
    destruct (lookup_lt_is_Some_2 d p Hp) as [x ->]. cbn. intros ->. exact Hf.
  - intros n Hn. rewrite kids_alter_same by done. unfold kids. by rewrite list_lookup_alter_ne.
  - unfold parent. rewrite list_lookup_alter_eq.
    destruct (lookup_lt_is_Some_2 (alter (on_children f) p d) c) as [x ->]; [by rewrite length_alter|done].
  - intros n Hn. unfold parent at 1. rewrite list_lookup_alter_ne by done.
    apply (parent_alter_same (on_children f)); done.
Qed.

Lemma appendChild_put (d : dom) (p c : nat) :
  (p < length d)%nat -> (c < length d)%nat -> parent d c = None ->
  put d (appendChild p c d) p (kids d p) c [].
Proof.
  intros Hp Hc Hn. unfold appendChild, detach. rewrite Hn.
  apply put_children; rewrite ?app_nil_r; done.
Qed.

Lemma insert_after_split (n c : nat) (k1 k2 : list nat) :
  n ∉ k1 -> insert_after n c (k1 ++ n :: k2) = k1 ++ n :: c :: k2.
Proof.
  induction k1 as [|k k1 IH]; cbn; intros Hn.
  - by rewrite decide_True.
  - apply not_elem_of_cons in Hn as [? Hn]. rewrite decide_False by done. by rewrite IH.
Qed.

Lemma after_put (d : dom) (n c p : nat) :
  parent d n = Some p -> n ∈ kids d p -> (p < length d)%nat -> (c < length d)%nat ->
  parent d c = None ->
  exists k1 k2, put d (after n c d) p k1 c k2.
Proof.
  intros Hpn Hin Hp Hc Hn. unfold after, detach. rewrite Hpn, Hn.
  apply list_elem_of_split_l in Hin as (k1 & k2 & Hk & Hout). exists (k1 ++ [n]), k2.
  apply put_children; [done|done|by rewrite Hk, <- app_assoc|].
  rewrite <- !app_assoc. by apply insert_after_split.
Qed.

Lemma kids_lt (d : dom) (n k : nat) : k ∈ kids d n -> (n < length d)%nat.
Proof.
  unfold kids. destruct (d !! n) eqn:E; [intros; by eapply lookup_lt_Some|].
  cbn. intros []%not_elem_of_nil.
Qed.

(** ** Document order as a relation *)

(** [order d n l]: the tree under [n] is finite and holds the nodes [l], in document
    order. *)
Inductive order (d : dom) : nat -> list nat -> Prop :=
| order_node n l : (n < length d)%nat -> orders d (kids d n) l -> order d n (n :: l)
with orders (d : dom) : list nat -> list nat -> Prop :=
| orders_nil : orders d [] []
| orders_cons n ns l1 l2 : order d n l1 -> orders d ns l2 -> orders d (n :: ns) (l1 ++ l2).

Scheme order_mut := Induction for order Sort Prop
with orders_mut := Induction for orders Sort Prop.
Combined Scheme order_ind2 from order_mut, orders_mut.

Lemma order_lt (d : dom) :
  (forall n l, order d n l -> Forall (fun m => (m < length d)%nat) l)
  /\ (forall ns l, orders d ns l -> Forall (fun m => (m < length d)%nat) l).
Proof.
  apply (order_ind2 d (fun _ l _ => Forall (fun m => (m < length d)%nat) l)
                      (fun _ l _ => Forall (fun m => (m < length d)%nat) l)).
  - intros n l Hn _ IH. by constructor.
  - constructor.
  - intros n ns l1 l2 _ IH1 _ IH2. by apply Forall_app_2.
Qed.

Lemma document_order_complete (d : dom) :
  (forall n l, order d n l -> forall f, (length l <= f)%nat -> document_order f d n = l)
  /\ (forall ns l, orders d ns l -> forall f, (length l <= f)%nat ->
        concat (map (document_order f d) ns) = l).
Proof.
  apply (order_ind2 d
    (fun n l _ => forall f, (length l <= f)%nat -> document_order f d n = l)
    (fun ns l _ => forall f, (length l <= f)%nat -> concat (map (document_order f d) ns) = l)).
  - intros n l _ _ IH [|f] Hf; cbn in Hf; [lia|]. cbn. by rewrite IH by lia.
  - done.
  - intros n ns l1 l2 _ IH1 _ IH2 f Hf. rewrite length_app in Hf. cbn.
    by rewrite IH1, IH2 by lia.
Qed.

(** Enough fuel: a node of the store is met once. *)
Lemma document_order_order (d : dom) (n : nat) (l : list nat) :
  order d n l -> NoDup l -> document_order (length d) d n = l.
Proof.
  intros Ho Hd. apply (proj1 (document_order_complete d)); [done|].
  rewrite <- (length_seq (length d) 0).
  apply submseteq_length, NoDup_submseteq; [done|]. intros m Hm.
  apply elem_of_seq. pose proof (proj1 (order_lt d) _ _ Ho) as Hlt.
  rewrite list.Forall_forall in Hlt. specialize (Hlt m Hm). lia.
Qed.

(** Nodes that are not in the tree do not matter to it. *)
Lemma order_frame (d d' : dom) :
  (length d <= length d')%nat ->
  (forall n l, order d n l -> (forall m, m ∈ l -> kids d' m = kids d m) -> order d' n l)
  /\ (forall ns l, orders d ns l -> (forall m, m ∈ l -> kids d' m = kids d m) -> orders d' ns l).
Proof.
  intros Hle. apply (order_ind2 d
    (fun n l _ => (forall m, m ∈ l -> kids d' m = kids d m) -> order d' n l)
    (fun ns l _ => (forall m, m ∈ l -> kids d' m = kids d m) -> orders d' ns l)).
  - intros n l Hn _ IH Hk. constructor; [lia|]. rewrite Hk by left.
    apply IH. intros m Hm. apply Hk. by right.
  - constructor.
  - intros n ns l1 l2 _ IH1 _ IH2 Hk.
    constructor; [apply IH1|apply IH2]; intros m Hm; apply Hk; set_solver.
Qed.

Lemma orders_app (d : dom) (ns1 ns2 l1 l2 : list nat) :
  orders d ns1 l1 -> orders d ns2 l2 -> orders d (ns1 ++ ns2) (l1 ++ l2).
Proof.
  intros H1 H2. revert l1 H1. induction ns1 as [|n ns1 IH]; intros l1 H1; inversion H1; subst.
  - done.
  - rewrite <- app_assoc. cbn. constructor; auto.
Qed.

Lemma orders_app_inv (d : dom) (ns1 ns2 l : list nat) :
  orders d (ns1 ++ ns2) l -> exists l1 l2, l = l1 ++ l2 /\ orders d ns1 l1 /\ orders d ns2 l2.
Proof.
  revert l. induction ns1 as [|n ns1 IH]; intros l H; cbn in H.
  - exists [], l. split_and!; [done|constructor|done].
  - inversion H as [|? ? l1 l2 H1 H2]; subst. destruct (IH _ H2) as (l3 & l4 & -> & H3 & H4).
    exists (l1 ++ l3), l4. split_and!; [by rewrite app_assoc|by constructor|done].
Qed.

Lemma orders_single (d : dom) (n : nat) (l : list nat) : orders d [n] l <-> order d n l.
Proof.
  split; intros H.
  - inversion H as [|? ? l1 l2 H1 H2]; subst. inversion H2; subst. by rewrite app_nil_r.
  - rewrite <- (app_nil_r l). by constructor; [|constructor].
Qed.

(** A tree with the subtree of [c] put into it. *)
Lemma order_put (d d' : dom) (p c : nat) (k1 k2 lc : list nat) :
  put d d' p k1 c k2 -> order d' c lc ->
  (forall n l, order d n l -> NoDup l -> p ∈ l ->
     exists l1 l2, l = l1 ++ l2 /\ order d' n (l1 ++ lc ++ l2))
  /\ (forall ns l, orders d ns l -> NoDup l -> p ∈ l ->
     exists l1 l2, l = l1 ++ l2 /\ orders d' ns (l1 ++ lc ++ l2)).
Proof.
  intros Hput Hc.
  assert (Hframe : forall ns l, orders d ns l -> p ∉ l -> orders d' ns l).
  { intros ns l Ho Hp. eapply (proj2 (order_frame d d' ltac:(rewrite (put_length _ _ _ _ _ _ Hput); lia)));
      [done|]. intros m Hm. apply (put_other _ _ _ _ _ _ Hput). set_solver. }
  apply (order_ind2 d
    (fun n l _ => NoDup l -> p ∈ l -> exists l1 l2, l = l1 ++ l2 /\ order d' n (l1 ++ lc ++ l2))
    (fun ns l _ => NoDup l -> p ∈ l -> exists l1 l2, l = l1 ++ l2 /\ orders d' ns (l1 ++ lc ++ l2))).
  - intros n l Hn Ho IH [Hni Hd]%list.NoDup_cons Hp.
    rewrite <- (put_length _ _ _ _ _ _ Hput) in Hn.
    destruct (decide (p = n)) as [->|Hne].
    + rewrite (put_before _ _ _ _ _ _ Hput) in Ho.
      destruct (orders_app_inv _ _ _ _ Ho) as (l1 & l2 & -> & H1 & H2).
      exists (n :: l1), l2. split; [done|]. cbn. constructor; [done|].
      rewrite (put_kids _ _ _ _ _ _ Hput).
      apply orders_app; [apply Hframe; set_solver|]. constructor; [done|apply Hframe; set_solver].
    + destruct (IH Hd ltac:(set_solver)) as (l1 & l2 & -> & Ho').
      exists (n :: l1), l2. split; [done|]. cbn. constructor; [done|].
      by rewrite (put_other _ _ _ _ _ _ Hput).
  - intros _ []%not_elem_of_nil.
  - intros n ns l1 l2 H1 IH1 H2 IH2 (Hd1 & Hdis & Hd2)%list.NoDup_app Hp.
    destruct (decide (p ∈ l1)) as [Hp1|Hp1].
    + destruct (IH1 Hd1 Hp1) as (l3 & l4 & -> & Ho). exists l3, (l4 ++ l2).
      split; [by rewrite app_assoc|].
      replace (l3 ++ lc ++ l4 ++ l2) with ((l3 ++ lc ++ l4) ++ l2) by (by rewrite <- !app_assoc).
      constructor; [done|]. apply Hframe; [done|]. by apply Hdis.
    + destruct (IH2 Hd2 ltac:(set_solver)) as (l3 & l4 & -> & Ho). exists (l1 ++ l3), l4.
      split; [by rewrite app_assoc|]. rewrite <- app_assoc. constructor; [|done].
      apply orders_single, Hframe; [by apply orders_single|done].
Qed.

(** ** The right edge *)

(** [edge d r p]: [p] is reached from [r] through last children. *)
Inductive edge (d : dom) : nat -> nat -> Prop :=
| edge_here n : edge d n n
| edge_down n k p : lastChild d n = Some k -> edge d k p -> edge d n p.

Lemma edge_trans (d : dom) (a b c : nat) : edge d a b -> edge d b c -> edge d a c.
Proof. induction 1; [done|]. intros. by eapply edge_down; [|apply IHedge]. Qed.

Lemma lastChild_last (d : dom) (n k : nat) :
  lastChild d n = Some k -> exists ks, kids d n = ks ++ [k].
Proof. apply last_Some. Qed.

Lemma edge_member (d : dom) (r p : nat) : edge d r p -> forall l, order d r l -> p ∈ l.
Proof.
  induction 1 as [n|n k p Hk He IH]; intros l Ho; inversion Ho as [? l0 _ Hs]; subst.
  - left.
  - destruct (lastChild_last _ _ _ Hk) as [ks Hks]. rewrite Hks in Hs.
    destruct (orders_app_inv _ _ _ _ Hs) as (l1 & l2 & -> & _ & H2).
    apply orders_single in H2. apply IH in H2. set_solver.
Qed.

Lemma edge_frame (d d' : dom) (r p : nat) :
  (forall n, n <> p -> kids d' n = kids d n) -> edge d r p -> edge d' r p.
Proof.
  intros Hk. induction 1 as [n|n k p Hl He IH]; [constructor|].
  destruct (decide (n = p)) as [->|Hn]; [constructor|].
  econstructor; [|by apply IH]. unfold lastChild. by rewrite Hk.
Qed.

(** What is put last at the right edge comes last in document order. *)
Lemma order_put_edge (d d' : dom) (r p c : nat) (k1 lc : list nat) :
  put d d' p k1 c [] -> order d' c lc -> edge d r p ->
  forall l, order d r l -> NoDup l -> order d' r (l ++ lc).
Proof.
  intros Hput Hc He.
  assert (Hframe : forall ns l, orders d ns l -> p ∉ l -> orders d' ns l).
  { intros ns l Ho Hp. eapply (proj2 (order_frame d d' ltac:(rewrite (put_length _ _ _ _ _ _ Hput); lia)));
      [done|]. intros m Hm. apply (put_other _ _ _ _ _ _ Hput). set_solver. }
  induction He as [n|n k p Hk He IH]; intros l Ho Hd; inversion Ho as [? l0 Hn Hs]; subst;
    apply list.NoDup_cons in Hd as [Hni Hd]; rewrite <- (put_length _ _ _ _ _ _ Hput) in Hn;
    cbn; (constructor; [done|]).
  - rewrite (put_kids _ _ _ _ _ _ Hput).
    rewrite (put_before _ _ _ _ _ _ Hput), app_nil_r in Hs.
    apply orders_app; [by apply Hframe|]. by apply orders_single.
  - destruct (lastChild_last _ _ _ Hk) as [ks Hks]. rewrite Hks in Hs.
    destruct (orders_app_inv _ _ _ _ Hs) as (l1 & l2 & -> & H1 & H2). apply orders_single in H2.
    apply list.NoDup_app in Hd as (Hd1 & Hdis & Hd2).
    pose proof (edge_member _ _ _ He _ H2) as Hp.
    rewrite (put_other _ _ _ _ _ _ Hput), Hks by set_solver.
    rewrite <- app_assoc. apply orders_app; [apply Hframe; [done|]; intros ?; by eapply Hdis|].
    apply orders_single. by apply IH.
Qed.

(** ** Ancestors *)

(** The nodes met from [n] upwards, [n] first: [up d n l]. *)
Inductive up (d : dom) : nat -> list nat -> Prop :=
| up_top n : parent d n = None -> up d n [n]
| up_step n p l : parent d n = Some p -> up d p l -> up d n (n :: l).

Fixpoint climb (fuel : nat) (d : dom) (n : nat) : list nat :=
  match fuel with
  | O => []
  | S fuel => n :: match parent d n with Some p => climb fuel d p | None => [] end
  end.

Lemma climb_up (d : dom) (n : nat) (l : list nat) :
  up d n l -> forall f, (length l <= f)%nat -> climb f d n = l.
Proof.
  induction 1 as [n Hn|n p l Hn Hu IH]; intros [|f] Hf; cbn in *; try lia; rewrite Hn; [done|].
  by rewrite IH by lia.
Qed.

Lemma up_frame (d d' : dom) (n : nat) (l : list nat) :
  up d n l -> (forall m, m ∈ l -> parent d' m = parent d m) -> up d' n l.
Proof.
  induction 1 as [n Hn|n p l Hn Hu IH]; intros Hp.
  - constructor. rewrite Hp; [done|]. left.
  - econstructor; [rewrite Hp; [done|]; left|]. apply IH. intros m Hm. apply Hp. by right.
Qed.
