(* ===== verification/Toc.v ===== *)
(** * The tree of headings in the book's sidebar (src/_site/book/toc-2d897c67.js)

    On DOMContentLoaded the script lists the headings of the page in the sidebar, as a
    nested list it builds with a stack of open lists. [build_tree] and [place_tree] are
    the two halves of that handler; the lemmas show that the list is right: the links
    stand in the order of the headings, and what encloses a link is what encloses its
    heading. TocPage.v has the rest of the script. *)

From S2P Require Import Prelude Dom.

(** ** Headings *)

Inductive HTag : Type := H2 | H3 | H4 | H5 | H6.

(** [parseInt(header.tagName.charAt(1))]. *)
Definition level (t : HTag) : nat :=
  match t with H2 => 2 | H3 => 3 | H4 => 4 | H5 => 5 | H6 => 6 end.

(** A heading of the page: its element's tag and id, and what it holds. *)
Record Heading : Type := mkHeading { h_tag : HTag; h_id : string; h_nodes : list Inline }.

(** [header.children]: the elements it holds. *)
Definition children (l : list Inline) : list (string * list Inline) :=
  omap (fun i => match i with Text _ => None | Elem t inside => Some (t, inside) end) l.

(** The filter on the headings of the page. *)
Definition eligible (h : Heading) : bool :=
  negb (bool_decide (h_id h = ""))
  && match children (h_nodes h) with (t, _) :: _ => bool_decide (t = "A") | [] => false end.

(** [filterHeader]: the copy of the heading, every [mark] replaced with what it holds. *)
Fixpoint unmark (i : Inline) : list Inline :=
  match i with
  | Text s => [Text s]
  | Elem t inside =>
      let inside := concat (map unmark inside) in
      if bool_decide (t = "MARK") then inside else [Elem t inside]
  end.

Definition filterHeader (source : list Inline) (dest : nat) (d : dom) : dom :=
  append_content dest (concat (map unmark source)) d.

(** ** The tree of headings *)

(** The variables of the loop: the document, the stack (its top first) of open lists with
    their levels, and [headerToggles]. *)
Record Build : Type := mkBuild {
  b_dom : dom;
  b_stack : list (nat * nat);
  b_toggles : list nat;
}.

(** A new [ol], put into [p] when there is one. *)
Definition open_section (p : option nat) (d : dom) : dom * nat :=
  let '(d, ol) := createElement "OL" d in
  let d := addClass ol "section" d in
  (match p with Some p => appendChild p ol d | None => d end, ol).

(** The loop from [i] to [firstLevel - 1], of [k] turns. *)
Fixpoint first_sections (k i : nat) (b : Build) : Build :=
  match k with
  | O => b
  | S k =>
      let '(d, ol) := open_section (snd <$> head (b_stack b)) (b_dom b) in
      first_sections k (S i) (mkBuild d ((S i, ol) :: b_stack b) (b_toggles b))
  end.

(** The loop that opens lists down to the heading's level, of [k] turns. [None] where the
    source would read a property of [undefined]. *)
Fixpoint nest (k nextLevel : nat) (b : Build) : option Build :=
  match k with
  | O => Some b
  | S k =>
      '(_, last) ← head (b_stack b);
      let place := default last (lastChild (b_dom b) last) in
      let '(d, ol) := open_section (Some place) (b_dom b) in
      nest k (S nextLevel) (mkBuild d ((nextLevel, ol) :: b_stack b) (b_toggles b))
  end.

(** The loop that closes lists. *)
Fixpoint close_to (lev : nat) (stack : list (nat * nat)) : list (nat * nat) :=
  match stack with
  | (l, _) :: ((_ :: _) as rest) => if (lev <? l)%nat then close_to lev rest else stack
  | _ => stack
  end.

Definition foldLevel : nat := 3.

(** Whether the item gets a toggle: deeper headings follow it. *)
Definition wants_toggle (header : Heading) (nextHeader : option Heading) : bool :=
  match nextHeader with
  | Some next => (level (h_tag header) <? level (h_tag next))%nat
                 && (foldLevel <=? level (h_tag header))%nat
  | None => false
  end.

(** The toggle, at the end of the item's [span]. *)
Definition add_toggle (span : nat) (d : dom) : dom :=
  let '(d, toggle) := createElement "A" d in
  let d := addClass toggle "chapter-fold-toggle" d in
  let d := addClass toggle "header-toggle" d in
  let '(d, toggleDiv) := createElement "DIV" d in
  let d := append_content toggleDiv [Text "❱"] d in
  let d := appendChild toggle toggleDiv d in
  appendChild span toggle d.

(** The list item of a heading: the document with the item's elements, the item, and the
    items that got a toggle. *)
Definition make_item (header : Heading) (nextHeader : option Heading) (d : dom) : dom * nat * list nat :=
  let lev := level (h_tag header) in
  let '(d, li) := createElement "LI" d in
  let d := addClass li "header-item" d in
  let d := addClass li "expanded" d in
  let d := if (lev <? foldLevel)%nat then addClass li "expanded" d else d in
  let '(d, span) := createElement "SPAN" d in
  let d := addClass span "chapter-link-wrapper" d in
  let '(d, a) := createElement "A" d in
  let d := appendChild span a d in
  let d := set_href a ("#" +:+ h_id header) d in
  let d := addClass a "header-in-summary" d in
  let d := filterHeader (default [] (snd <$> head (children (h_nodes header)))) a d in
  let '(d, toggles) :=
    if wants_toggle header nextHeader then (add_toggle span d, [li]) else (d, []) in
  (appendChild li span d, li, toggles).

(** One turn of the loop over the headings. *)
Definition add_header (b : Build) (header : Heading) (nextHeader : option Heading) : option Build :=
  let lev := level (h_tag header) in
  '(currentLevel, _) ← head (b_stack b);
  b ← (if (currentLevel <? lev)%nat then nest (lev - currentLevel) (S currentLevel) b
       else if (lev <? currentLevel)%nat
       then Some (mkBuild (b_dom b) (close_to lev (b_stack b)) (b_toggles b))
       else Some b);
  let '(d, li, toggles) := make_item header nextHeader (b_dom b) in
  '(_, ol) ← head (b_stack b);
  Some (mkBuild (appendChild ol li d) (b_stack b) (b_toggles b ++ toggles)).

Fixpoint add_headers (b : Build) (headers : list Heading) : option Build :=
  match headers with
  | [] => Some b
  | header :: rest => b ← add_header b header (head rest); add_headers b rest
  end.

(** The sidebar's new part: [div.on-this-page] holding the outermost list, put after the
    active item's link. *)
Definition place_tree (activeSection : nat) (stack : list (nat * nat)) (d : dom) : option dom :=
  '(_, ol) ← list.last stack;
  let '(d, onThisPage) := createElement "DIV" d in
  let d := addClass onThisPage "on-this-page" d in
  let d := appendChild onThisPage ol d in
  activeItemSpan ← parent d activeSection;
  Some (after activeItemSpan onThisPage d).

(** The tree of [headers], which is not empty. *)
Definition build_tree (headers : list Heading) (d : dom) : option Build :=
  h ← head headers;
  add_headers (first_sections (level (h_tag h) - 1) 1 (mkBuild d [] [])) headers.

(** ** The tree under construction *)

(** A document that has grown: nodes that were there keep everything but their children. *)
Definition grows (d d' : dom) : Prop :=
  forall n x, d !! n = Some x -> exists ks, d' !! n = Some (on_children (fun _ => ks) x).

Lemma on_children_same (x : Node) : on_children (fun _ => childNodes x) x = x.
Proof. by destruct x. Qed.

Lemma grows_refl (d : dom) : grows d d.
Proof. intros n x H. exists (childNodes x). by rewrite on_children_same. Qed.

Lemma grows_trans (d d' d'' : dom) : grows d d' -> grows d' d'' -> grows d d''.
Proof.
  intros H1 H2 n x Hx. destruct (H1 n x Hx) as [ks Hks].
  destruct (H2 _ _ Hks) as [ks' Hks']. by exists ks'.
Qed.

Lemma grows_length (d d' : dom) : grows d d' -> (length d <= length d')%nat.
Proof.
  intros H. destruct (decide (length d <= length d')%nat) as [|Hl]; [done|].
  destruct (lookup_lt_is_Some_2 d (length d')) as [x Hx]; [lia|].
  destruct (H _ _ Hx) as [ks Hks]. apply lookup_lt_Some in Hks. lia.
Qed.

Lemma grows_parent (d d' : dom) (n : nat) : grows d d' -> (n < length d)%nat -> parent d' n = parent d n.
Proof.
  intros H [x Hx]%lookup_lt_is_Some_2. destruct (H _ _ Hx) as [ks Hks].
  unfold parent. by rewrite Hx, Hks.
Qed.

Lemma grows_class (d d' : dom) (n : nat) (c : string) :
  grows d d' -> (n < length d)%nat -> hasClass d' n c = hasClass d n c.
Proof.
  intros H [x Hx]%lookup_lt_is_Some_2. destruct (H _ _ Hx) as [ks Hks].
  unfold hasClass. by rewrite Hx, Hks.
Qed.

(** The list items the script makes. *)
Definition header_item (d : dom) (n : nat) : bool :=
  match d !! n with
  | Some x => bool_decide (tagName x = "LI") && bool_decide ("header-item" ∈ classList x)
  | None => false
  end.

Lemma grows_item (d d' : dom) (n : nat) :
  grows d d' -> (n < length d)%nat -> header_item d' n = header_item d n.
Proof.
  intros H [x Hx]%lookup_lt_is_Some_2. destruct (H _ _ Hx) as [ks Hks].
  unfold header_item. by rewrite Hx, Hks.
Qed.

Lemma filter_ext_in {A} (P Q : A -> bool) (l : list A) :
  (forall x, x ∈ l -> P x = Q x) -> filter (fun x => P x = true) l = filter (fun x => Q x = true) l.
Proof.
  induction l as [|x l IH]; intros H; [done|]. rewrite !filter_cons, IH by set_solver.
  specialize (H x ltac:(left)). by destruct (decide (P x = true)), (decide (Q x = true)); congruence.
Qed.

Lemma filter_none {A} (P : A -> bool) (l : list A) :
  (forall x, x ∈ l -> P x = false) -> filter (fun x => P x = true) l = [].
Proof.
  induction l as [|x l IH]; intros H; [done|]. rewrite filter_cons, IH by set_solver.
  rewrite decide_False; [done|]. by rewrite (H x ltac:(left)).
Qed.

Lemma filter_map_in {A B} (f : A -> B) (P : B -> bool) (Q : A -> bool) (l : list A) :
  (forall x, x ∈ l -> P (f x) = Q x) ->
  filter (fun y => P y = true) (map f l) = map f (filter (fun x => Q x = true) l).
Proof.
  induction l as [|x l IH]; intros H; [done|]. cbn [map]. rewrite !filter_cons, IH by set_solver.
  specialize (H x ltac:(left)).
  by destruct (decide (P (f x) = true)), (decide (Q x = true)); cbn; congruence.
Qed.

(** [encl d root n L]: going up from [n] one reaches [root], and the items met, [n]
    included, are [L]. *)
Definition encl (d : dom) (root n : nat) (L : list nat) : Prop :=
  exists l, up d n (l ++ [root]) /\ Forall (fun m => (m < length d)%nat) (l ++ [root])
  /\ filter (fun m => header_item d m = true) (l ++ [root]) = L.

Lemma encl_grows (d d' : dom) (root n : nat) (L : list nat) :
  grows d d' -> encl d root n L -> encl d' root n L.
Proof.
  intros Hg (l & Hu & Hlt & Hf). exists l. pose proof (grows_length _ _ Hg).
  rewrite list.Forall_forall in Hlt. split_and!.
  - eapply up_frame; [done|]. intros m Hm. apply grows_parent; [done|]. by apply Hlt.
  - apply list.Forall_forall. intros m Hm. specialize (Hlt m Hm). lia.
  - rewrite <- Hf. apply filter_ext_in. intros m Hm. apply grows_item; [done|]. by apply Hlt.
Qed.

Lemma encl_step (d : dom) (root p n : nat) (L : list nat) :
  parent d n = Some p -> (n < length d)%nat -> encl d root p L ->
  encl d root n (if header_item d n then n :: L else L).
Proof.
  intros Hp Hn (l & Hu & Hlt & Hf). exists (n :: l). split_and!.
  - cbn. by econstructor.
  - by constructor.
  - cbn [app]. rewrite filter_cons, Hf. by destruct (header_item d n); [rewrite decide_True|rewrite decide_False].
Qed.

(** *** The elements of an item *)

(** The operations on the last nodes of the document. *)
Lemma alter_tail (f : Node -> Node) (d t : dom) (i k : nat) :
  i = (length d + k)%nat -> alter f i (d ++ t) = d ++ alter f k t.
Proof. intros ->. apply alter_app_r. Qed.

Lemma create_tail (tag : string) (d t : dom) :
  createElement tag (d ++ t) = (d ++ (t ++ [new_node tag]), length d + length t)%nat.
Proof. unfold createElement. by rewrite <- app_assoc, length_app. Qed.

Lemma appendChild_tail (p c kp kc : nat) (d t : dom) :
  p = (length d + kp)%nat -> c = (length d + kc)%nat -> t !! kc ≫= parentElement = None ->
  appendChild p c (d ++ t)
  = d ++ alter (set_parent (Some p)) kc (alter (on_children (fun ks => ks ++ [c])) kp t).
Proof.
  intros Hp Hc Hn. unfold appendChild, detach, parent.
  rewrite lookup_app_r by lia. replace (c - length d)%nat with kc by lia. rewrite Hn.
  rewrite (alter_tail _ d t p kp) by done. by rewrite (alter_tail _ _ _ c kc).
Qed.

Lemma addClass_twice (n : nat) (c : string) (d : dom) : addClass n c (addClass n c d) = addClass n c d.
Proof.
  unfold addClass. rewrite list_alter_alter_eq. apply list_alter_ext; [|done].
  intros x _. unfold on_classes; cbn. f_equal. set_solver.
Qed.

Definition li_node (span : list nat) (p : option nat) : Node :=
  mkNode "LI" ({["expanded"]} ∪ ({["header-item"]} ∪ ∅)) None [] p span.

Definition item_nodes (n : nat) (header : Heading) (toggle : bool) : list Node :=
  [ li_node [n + 1]%nat None;
    mkNode "SPAN" ({["chapter-link-wrapper"]} ∪ ∅) None [] (Some n)
      ([n + 2]%nat ++ if toggle then [n + 3]%nat else []);
    mkNode "A" ({["header-in-summary"]} ∪ ∅) (Some ("#" +:+ h_id header))
      (concat (map unmark (default [] (snd <$> head (children (h_nodes header)))))) (Some (n + 1)%nat) [] ]
  ++ if toggle then
       [ mkNode "A" ({["header-toggle"]} ∪ ({["chapter-fold-toggle"]} ∪ ∅)) None [] (Some (n + 1)%nat) [n + 4]%nat;
         mkNode "DIV" ∅ None [Text "❱"] (Some (n + 3)%nat) [] ]
     else [].

Lemma add_toggle_tail (d : dom) (x y z : Node) :
  add_toggle (length d + 1) (d ++ [x; y; z])
  = d ++ [x; on_children (fun ks => ks ++ [length d + 3]%nat) y; z;
          mkNode "A" ({["header-toggle"]} ∪ ({["chapter-fold-toggle"]} ∪ ∅)) None []
            (Some (length d + 1)%nat) [length d + 4]%nat;
          mkNode "DIV" ∅ None [Text "❱"] (Some (length d + 3)%nat) []].
Proof.
  unfold add_toggle, addClass, append_content. rewrite create_tail, !alter_app_r.
  cbn [length alter list_alter app]. rewrite create_tail, !alter_app_r. cbn.
  do 2 (erewrite appendChild_tail by reflexivity; cbn). done.
Qed.

Lemma make_item_eq (header : Heading) (nextHeader : option Heading) (d : dom) :
  make_item header nextHeader d
  = (d ++ item_nodes (length d) header (wants_toggle header nextHeader), length d,
     if wants_toggle header nextHeader then [length d] else []).
Proof.
  unfold make_item. rewrite <- (app_nil_r d) at 1. rewrite create_tail. cbn [app length].
  rewrite addClass_twice.
  replace (if (level (h_tag header) <? foldLevel)%nat then _ else _)
    with (addClass (length d + 0) "expanded" (addClass (length d + 0) "header-item"
            (d ++ [new_node "LI"]))) by (by destruct (level _ <? _)%nat).
  unfold addClass, set_href, filterHeader, append_content. rewrite !alter_app_r.
  rewrite create_tail, alter_app_r. rewrite create_tail. cbn [length app alter list_alter].
  erewrite appendChild_tail by reflexivity. rewrite !alter_app_r. cbn -[add_toggle].
  destruct (wants_toggle header nextHeader).
  - rewrite add_toggle_tail. erewrite appendChild_tail by reflexivity. cbn. by rewrite Nat.add_0_r.
  - erewrite appendChild_tail by reflexivity. cbn. by rewrite Nat.add_0_r.
Qed.

(** *** Grafting new elements at the right edge *)

Lemma kids_app_l (d t : dom) (n : nat) : (n < length d)%nat -> kids (d ++ t) n = kids d n.
Proof. intros H. unfold kids. by rewrite lookup_app_l. Qed.

Lemma kids_app_r (d t : dom) (k : nat) : kids (d ++ t) (length d + k) = kids t k.
Proof. unfold kids. by rewrite lookup_app_r, Nat.add_comm, Nat.add_sub by lia. Qed.

Lemma parent_app_r (d t : dom) (k : nat) : parent (d ++ t) (length d + k) = parent t k.
Proof. unfold parent. by rewrite lookup_app_r, Nat.add_comm, Nat.add_sub by lia. Qed.

(** The nodes [t] are created and the first of them, which holds the others, becomes the
    last child of [p]. *)
Record grafted (d t : dom) (p : nat) (d' : dom) : Prop := {
  gr_put : put (d ++ t) d' p (kids d p) (length d) [];
  gr_grows : grows d d';
  gr_new : forall k x, t !! k = Some x ->
    d' !! (length d + k)%nat = Some (if decide (k = 0%nat) then set_parent (Some p) x else x);
}.

Lemma graft (d t : dom) (p : nat) :
  (p < length d)%nat -> (0 < length t)%nat -> parent t 0 = None ->
  grafted d t p (appendChild p (length d) (d ++ t)).
Proof.
  intros Hp Ht Hn.
  assert (Hn' : parent (d ++ t) (length d) = None).
  { by rewrite <- (Nat.add_0_r (length d)), parent_app_r. }
  split.
  - rewrite <- (kids_app_l d t p Hp). apply appendChild_put; rewrite ?length_app; [lia|lia|done].
  - intros n x Hx. pose proof (lookup_lt_Some _ _ _ Hx) as Hl. unfold appendChild, detach. rewrite Hn'.
    rewrite list_lookup_alter_ne by lia. destruct (decide (p = n)) as [->|Hne].
    + rewrite list_lookup_alter_eq, lookup_app_l, Hx by done. by eexists.
    + rewrite list_lookup_alter_ne, lookup_app_l by done. exists (childNodes x).
      by rewrite on_children_same.
  - intros k x Hx. unfold appendChild, detach. rewrite Hn'.
    assert (Hl : (d ++ t) !! (length d + k)%nat = Some x).
    { rewrite lookup_app_r by lia. by replace (length d + k - length d)%nat with k by lia. }
    case_decide as Hk.
    + subst k. rewrite Nat.add_0_r in *. rewrite list_lookup_alter_eq, list_lookup_alter_ne by lia.
      by rewrite Hl.
    + by rewrite !list_lookup_alter_ne by lia.
Qed.

(** The new nodes come last in the order of the tree. *)
Lemma graft_order (d t d' : dom) (root p : nat) (l : list nat) :
  grafted d t p d' -> (p < length d)%nat ->
  order (d ++ t) (length d) (seq (length d) (length t)) ->
  edge d root p -> order d root l -> NoDup l ->
  order d' root (l ++ seq (length d) (length t)).
Proof.
  intros Hg Hp Hc He Ho Hd. pose proof (gr_put _ _ _ _ Hg) as Hput.
  pose proof (proj1 (order_lt d) _ _ Ho) as Hlt. rewrite list.Forall_forall in Hlt.
  apply (order_put_edge (d ++ t) d' root p (length d) (kids d p)); [done| | | |done].
  - eapply (proj1 (order_frame (d ++ t) d' ltac:(rewrite (put_length _ _ _ _ _ _ Hput); lia))); [done|].
    intros m Hm%elem_of_seq. apply (put_other _ _ _ _ _ _ Hput). lia.
  - assert (Hbound : forall a b, edge d a b -> (b < length d)%nat -> edge (d ++ t) a b).
    { induction 1 as [n|n k q Hk He' IH]; intros Hb; [constructor|].
      econstructor; [|by apply IH]. unfold lastChild. rewrite kids_app_l; [done|].
      destruct (lastChild_last _ _ _ Hk) as [ks Hks]. apply (kids_lt d n k). rewrite Hks. set_solver. }
    by apply Hbound.
  - eapply (proj1 (order_frame d (d ++ t) ltac:(rewrite length_app; lia))); [done|].
    intros m Hm. apply kids_app_l. by apply Hlt.
Qed.

Lemma grafted_class (d t d' : dom) (p i : nat) (c : string) :
  grafted d t p d' -> (i < length t)%nat -> hasClass d' (length d + i) c = hasClass t i c.
Proof.
  intros Hg [x Hx]%lookup_lt_is_Some_2. unfold hasClass.
  rewrite (gr_new _ _ _ _ Hg i x Hx), Hx. by destruct (decide (i = 0%nat)).
Qed.

(** *** The invariant *)

(** The items that enclose a list of level [lev], nearest first: the last heading before
    it of a smaller level, the last one before that of a smaller level still, and so on.
    [before] holds the headings already placed, with their items, the last first. *)
Fixpoint enclosing (before : list (Heading * nat)) (lev : nat) : list nat :=
  match before with
  | [] => []
  | (h, li) :: before =>
      if (level (h_tag h) <? lev)%nat then li :: enclosing before (level (h_tag h))
      else enclosing before lev
  end.

(** The links of the item [li] of the heading [h]. *)
Definition item_ok (d : dom) (h : Heading) (li : nat) : Prop :=
  parent d (li + 2) = Some (li + 1)%nat /\ parent d (li + 1) = Some li
  /\ d !! (li + 2)%nat ≫= href = Some ("#" +:+ h_id h) /\ (li + 2 < length d)%nat
  /\ header_item d (li + 2) = false /\ header_item d (li + 1) = false.

Section tree.
Context (d0 : dom).
Abbreviation root := (length d0).

Fixpoint items_ok (d : dom) (before : list (Heading * nat)) : Prop :=
  match before with
  | [] => True
  | (h, li) :: before =>
      item_ok d h li /\ encl d root li (li :: enclosing before (level (h_tag h))) /\ items_ok d before
  end.

(** The open lists: of consecutive levels down to 2, each at the right edge of the next. *)
Fixpoint stack_ok (d : dom) (stack : list (nat * nat)) : Prop :=
  match stack with
  | [] => False
  | (lev, ol) :: rest =>
      match rest with
      | [] => lev = 2%nat /\ ol = root
      | (lev', ol') :: _ => lev = S lev' /\ edge d ol' ol /\ (ol' <= ol)%nat /\ stack_ok d rest
      end
  end.

Record core (before : list (Heading * nat)) (d : dom) (stack : list (nat * nat)) : Prop := {
  c_page : grows d0 d;
  c_page_kids : forall n, (n < root)%nat -> kids d n = kids d0 n;
  c_order : order d root (seq root (length d - root));
  c_mono : forall n k, (root <= n)%nat -> k ∈ kids d n -> (n < k)%nat;
  c_stack : stack_ok d stack;
  c_encl : Forall (fun e => (e.2 < length d)%nat /\ encl d root e.2 (enclosing before e.1)) stack;
  c_items : items_ok d before;
  c_anchors : filter (fun n => hasClass d n "header-in-summary" = true) (seq root (length d - root))
              = map (fun e => e.2 + 2)%nat (reverse before);
  c_none : forall n, (root <= n)%nat -> hasClass d n "current-header" = false;
}.

Lemma mono_edge (d : dom) (a b : nat) :
  (forall n k, (root <= n)%nat -> k ∈ kids d n -> (n < k)%nat) ->
  (root <= a)%nat -> edge d a b -> (a <= b)%nat.
Proof.
  intros Hm Ha He. revert Ha. induction He as [n|n k p Hk He IH]; intros Ha; [lia|].
  destruct (lastChild_last _ _ _ Hk) as [ks Hks].
  specialize (Hm n k Ha ltac:(rewrite Hks; set_solver)). specialize (IH ltac:(lia)). lia.
Qed.

Lemma graft_edge (d t d' : dom) (a b p : nat) :
  (forall n k, (root <= n)%nat -> k ∈ kids d n -> (n < k)%nat) ->
  grafted d t p d' -> (root <= a)%nat -> edge d a b -> (b <= p)%nat -> (p < length d)%nat -> edge d' a b.
Proof.
  intros Hm Hg Ha He Hb Hp. pose proof (gr_put _ _ _ _ Hg) as Hput. revert Ha.
  induction He as [n|n k q Hk He IH]; intros Ha; [constructor|].
  destruct (lastChild_last _ _ _ Hk) as [ks Hks].
  assert (Hnk : (n < k)%nat) by (apply (Hm n k Ha); rewrite Hks; set_solver).
  pose proof (mono_edge d k q Hm ltac:(lia) He) as Hkq.
  econstructor; [|apply IH; lia]. unfold lastChild.
  rewrite (put_other _ _ _ _ _ _ Hput) by lia. rewrite kids_app_l by lia. done.
Qed.

Lemma stack_above (d : dom) (stack : list (nat * nat)) (lev ol : nat) :
  stack_ok d ((lev, ol) :: stack) ->
  Forall (fun e => (2 <= e.1 <= lev /\ root <= e.2 <= ol)%nat) ((lev, ol) :: stack).
Proof.
  revert lev ol. induction stack as [|[lev' ol'] stack IH]; intros lev ol H; cbn in H.
  - destruct H as [-> ->]. repeat constructor; cbn; lia.
  - destruct H as (-> & He & Hle & H). specialize (IH _ _ H). inversion IH as [|? ? H1 H2]; subst.
    cbn in H1. constructor; [cbn; lia|]. constructor; [cbn; lia|].
    eapply list.Forall_impl; [done|]. cbn. intros; lia.
Qed.

Lemma stack_edge (d : dom) (stack : list (nat * nat)) (lev ol : nat) :
  stack_ok d ((lev, ol) :: stack) -> edge d root ol.
Proof.
  revert lev ol. induction stack as [|[lev' ol'] stack IH]; intros lev ol H; cbn in H.
  - destruct H as [_ ->]. constructor.
  - destruct H as (_ & He & _ & H). eapply edge_trans; [|exact He]. by eapply IH.
Qed.

Lemma stack_graft (d t d' : dom) (p : nat) (stack : list (nat * nat)) :
  (forall n k, (root <= n)%nat -> k ∈ kids d n -> (n < k)%nat) ->
  grafted d t p d' -> (p < length d)%nat -> Forall (fun e => (e.2 <= p)%nat) stack ->
  stack_ok d stack -> stack_ok d' stack.
Proof.
  intros Hm Hg Hp. induction stack as [|[lev ol] stack IH]; [done|].
  intros [Hol Hs]%list.Forall_cons H. destruct stack as [|[lev' ol'] stack]; [done|].
  cbn in Hol. cbn in H. destruct H as (-> & He & Hle & H).
  pose proof (stack_above _ _ _ _ H) as Hab. apply list.Forall_cons in Hab as [Hab _]. cbn in Hab.
  split; [done|]. split; [|split; [done|by apply IH]].
  eapply graft_edge; [done|done| |done|done|done]. lia.
Qed.

Lemma item_grows (d d' : dom) (h : Heading) (li : nat) : grows d d' -> item_ok d h li -> item_ok d' h li.
Proof.
  intros Hg (Hp2 & Hp1 & Hh & Hlt & Hi2 & Hi1). pose proof (grows_length _ _ Hg). split_and!.
  - by rewrite (grows_parent d d') by (done || lia).
  - by rewrite (grows_parent d d') by (done || lia).
  - destruct (lookup_lt_is_Some_2 d _ Hlt) as [x Hx]. destruct (Hg _ _ Hx) as [ks Hks].
    rewrite Hx in Hh. by rewrite Hks.
  - lia.
  - by rewrite (grows_item d d') by (done || lia).
  - by rewrite (grows_item d d') by (done || lia).
Qed.

Lemma items_grows (d d' : dom) (before : list (Heading * nat)) :
  grows d d' -> items_ok d before -> items_ok d' before.
Proof.
  intros Hg. induction before as [|[h li] before IH]; [done|]. intros (H1 & H2 & H3).
  split_and!; [by eapply item_grows|by eapply encl_grows|auto].
Qed.

(** What new elements at the right edge preserve. *)
Lemma core_graft (before : list (Heading * nat)) (d t d' : dom) (stack : list (nat * nat)) (p : nat) :
  core before d stack -> grafted d t p d' ->
  (root <= p < length d)%nat -> edge d root p -> Forall (fun e => (e.2 <= p)%nat) stack ->
  order (d ++ t) (length d) (seq (length d) (length t)) ->
  (forall i k, k ∈ kids t i -> (length d + i < k)%nat) ->
  (forall i, hasClass t i "current-header" = false) ->
  grows d0 d' /\ (forall n, (n < root)%nat -> kids d' n = kids d0 n)
  /\ length d' = (length d + length t)%nat
  /\ order d' root (seq root (length d' - root))
  /\ (forall n k, (root <= n)%nat -> k ∈ kids d' n -> (n < k)%nat)
  /\ stack_ok d' stack
  /\ Forall (fun e => (e.2 < length d')%nat /\ encl d' root e.2 (enclosing before e.1)) stack
  /\ items_ok d' before
  /\ filter (fun n => hasClass d' n "header-in-summary" = true) (seq root (length d' - root))
     = map (fun e => e.2 + 2)%nat (reverse before)
       ++ map (fun i => length d + i)%nat
            (filter (fun i => hasClass t i "header-in-summary" = true) (seq 0 (length t)))
  /\ (forall n, (root <= n)%nat -> hasClass d' n "current-header" = false).
Proof.
  intros [Hpg Hpk Ho Hm Hst Hen Hit Han Hno] Hg Hp He Hab Hot Hmt Hcl.
  pose proof (gr_put _ _ _ _ Hg) as Hput. pose proof (gr_grows _ _ _ _ Hg) as Hgr.
  assert (Hlen : length d' = (length d + length t)%nat)
    by (by rewrite (put_length _ _ _ _ _ _ Hput), length_app).
  assert (Hsplit : seq root (length d' - root) = seq root (length d - root) ++ seq (length d) (length t)).
  { rewrite Hlen. replace (length d + length t - root)%nat with ((length d - root) + length t)%nat by lia.
    rewrite seq_app. do 2 f_equal. lia. }
  split_and!.
  - by eapply grows_trans.
  - intros n Hn. rewrite (put_other _ _ _ _ _ _ Hput) by lia. rewrite kids_app_l by lia. by apply Hpk.
  - done.
  - rewrite Hsplit. eapply graft_order; [done|lia|done|done|done|]. apply NoDup_seq.
  - intros n k Hn Hk. destruct (decide (n = p)) as [->|Hne].
    + rewrite (put_kids _ _ _ _ _ _ Hput) in Hk. apply elem_of_app in Hk as [Hk|Hk]; [by apply Hm|].
      apply list_elem_of_singleton in Hk. lia.
    + rewrite (put_other _ _ _ _ _ _ Hput) in Hk by done.
      destruct (decide (n < length d)%nat) as [Hl|Hl].
      * rewrite kids_app_l in Hk by done. by apply Hm.
      * replace n with (length d + (n - length d))%nat in Hk |- * by lia.
        rewrite kids_app_r in Hk. by apply Hmt.
  - eapply stack_graft; try done. lia.
  - eapply list.Forall_impl; [exact Hen|]. intros e [H1 H2]. split; [lia|]. by eapply encl_grows.
  - by eapply items_grows.
  - rewrite Hsplit, list.filter_app. f_equal.
    + rewrite <- Han. apply filter_ext_in. intros m Hm'%elem_of_seq. eapply grows_class; [done|lia].
    + rewrite <- (Nat.add_0_r (length d)) at 1. rewrite <- fmap_add_seq.
      apply filter_map_in. intros i Hi%elem_of_seq. eapply grafted_class; [done|lia].
  - intros n Hn. destruct (decide (n < length d)%nat) as [Hl|Hl].
    + rewrite (grows_class d d') by done. by apply Hno.
    + destruct (decide (n < length d')%nat) as [Hl'|Hl'].
      * replace n with (length d + (n - length d))%nat by lia. erewrite grafted_class; [apply Hcl|done|lia].
      * unfold hasClass. by rewrite lookup_ge_None_2 by lia.
Qed.

(** *** Opening a list *)

Definition section_node : Node := mkNode "OL" ({["section"]} ∪ ∅) None [] None [].

Lemma open_section_eq (p : option nat) (d : dom) :
  open_section p d
  = (match p with Some p => appendChild p (length d) (d ++ [section_node]) | None => d ++ [section_node] end,
     length d).
Proof.
  unfold open_section. rewrite <- (app_nil_r d) at 1. rewrite create_tail. cbn [length app].
  unfold addClass. rewrite alter_app_r, Nat.add_0_r. by destruct p.
Qed.

Lemma order_leaf (d : dom) (x : Node) : childNodes x = [] -> order (d ++ [x]) (length d) [length d].
Proof.
  intros Hx. constructor; [rewrite length_app; cbn; lia|].
  rewrite <- (Nat.add_0_r (length d)), kids_app_r. unfold kids. cbn. rewrite Hx. constructor.
Qed.

(** A list opened in [place], which is the open list or its last item. *)
Lemma core_section (before : list (Heading * nat)) (d : dom) (lev top place : nat) (rest : list (nat * nat)) :
  core before d ((lev, top) :: rest) -> edge d top place -> (place < length d)%nat ->
  encl d root place (enclosing before (S lev)) ->
  let d' := appendChild place (length d) (d ++ [section_node]) in
  core before d' ((S lev, length d) :: (lev, top) :: rest) /\ kids d' (length d) = [].
Proof.
  intros Hc He Hpl Hen d'. pose proof Hc as [Hpg Hpk Ho Hm Hst Hes Hit Han Hno].
  pose proof (stack_above _ _ _ _ Hst) as Hab. pose proof Hab as [[_ Hr] _]%list.Forall_cons. cbn in Hr.
  pose proof (mono_edge _ _ _ Hm (proj1 Hr) He) as Htp.
  assert (Hg : grafted d [section_node] place d') by (apply graft; [done|cbn; lia|done]).
  pose proof (gr_put _ _ _ _ Hg) as Hput.
  assert (Hnew : d' !! length d = Some (set_parent (Some place) section_node)).
  { rewrite <- (Nat.add_0_r (length d)). by apply (gr_new _ _ _ _ Hg 0). }
  destruct (core_graft before d [section_node] d' ((lev, top) :: rest) place)
    as (H1 & H2 & Hlen & H4 & H5 & H6 & H7 & H8 & H9 & H10); try done; cbn in *.
  - lia.
  - eapply edge_trans; [|done]. by eapply stack_edge.
  - eapply list.Forall_impl; [exact Hab|]. cbn. intros e ?. lia.
  - by apply order_leaf.
  - intros [|i] k; cbn; set_solver.
  - by intros [|i].
  - assert (Hedge : edge d' top (length d)).
    { apply (edge_trans _ _ place).
      { apply (graft_edge d [section_node] d' top place place); done || lia. }
      econstructor; [|constructor].
      unfold lastChild. rewrite (put_kids _ _ _ _ _ _ Hput). apply last_snoc. }
    split; [split; try done|].
    + split_and!; [done|done|lia|done].
    + constructor; [|done]. cbn. split; [lia|].
      pose proof (encl_step d' root place (length d) (enclosing before (S lev))) as Hs.
      unfold header_item in Hs. rewrite Hnew in Hs. cbn in Hs. apply Hs.
      * unfold parent. by rewrite Hnew.
      * lia.
      * eapply encl_grows; [apply (gr_grows _ _ _ _ Hg)|done].
    + by rewrite H9, app_nil_r.
    + unfold kids. by rewrite Hnew.
Qed.

Lemma core_first (x : Node) :
  x = section_node -> core [] (d0 ++ [x]) [(2%nat, root)] /\ kids (d0 ++ [x]) root = [].
Proof.
  intros ->. assert (Hg : grows d0 (d0 ++ [section_node])).
  { intros n x Hx. exists (childNodes x). rewrite on_children_same. by apply lookup_app_l_Some. }
  assert (Hk : kids (d0 ++ [section_node]) root = []).
  { rewrite <- (Nat.add_0_r root). by rewrite kids_app_r. }
  assert (Hx : (d0 ++ [section_node]) !! root = Some section_node) by (by apply list_lookup_middle).
  split; [|done]. split; try done.
  - intros n Hn. by apply kids_app_l.
  - rewrite length_app, Nat.add_comm, Nat.add_sub. by apply order_leaf.
  - intros n k Hn Hin. destruct (decide (n = root)) as [->|Hne]; [rewrite Hk in Hin; set_solver|].
    apply kids_lt in Hin. rewrite length_app in Hin. cbn in Hin. lia.
  - constructor; [|done]. cbn. split; [rewrite length_app; cbn; lia|].
    exists []. cbn. split_and!.
    + constructor. unfold parent. by rewrite Hx.
    + constructor; [rewrite length_app; cbn; lia|done].
    + unfold filter. cbn. unfold header_item. by rewrite Hx.
  - rewrite length_app, Nat.add_comm, Nat.add_sub. unfold filter. cbn. unfold hasClass. by rewrite Hx.
  - intros n Hn. unfold hasClass. destruct (decide (n = root)) as [->|Hne]; [by rewrite Hx|].
    by rewrite lookup_ge_None_2 by (rewrite length_app; cbn; lia).
Qed.

Lemma first_sections_core (k i top : nat) (d : dom) (rest : list (nat * nat)) (tg : list nat) :
  core [] d ((S i, top) :: rest) -> kids d top = [] ->
  exists d' top' rest',
    first_sections k (S i) (mkBuild d ((S i, top) :: rest) tg)
    = mkBuild d' ((S i + k, top')%nat :: rest') tg
    /\ core [] d' ((S i + k, top')%nat :: rest') /\ kids d' top' = [].
Proof.
  revert i top d rest. induction k as [|k IH]; intros i top d rest Hc Hk.
  - exists d, top, rest. by rewrite Nat.add_0_r.
  - cbn [first_sections b_stack b_dom b_toggles head fmap option_fmap option_map].
    rewrite open_section_eq. cbv beta iota.
    pose proof (c_encl _ _ _ Hc) as [[Hlt Hen] _]%list.Forall_cons. cbn in Hlt, Hen.
    destruct (core_section [] d (S i) top top rest Hc (edge_here _ _) Hlt Hen) as [Hc' Hk'].
    destruct (IH _ _ _ _ Hc' Hk') as (d' & top' & rest' & E & H). exists d', top', rest'.
    replace (S i + S k)%nat with (S (S i) + k)%nat by lia. by split.
Qed.

(** The lists opened below an item. *)
Lemma nest_core (k lev top place : nat) (before : list (Heading * nat)) (d : dom)
    (rest : list (nat * nat)) (tg : list nat) (L : list nat) :
  core before d ((lev, top) :: rest) -> default top (lastChild d top) = place ->
  edge d top place -> (place < length d)%nat ->
  encl d root place L -> (forall lev', (lev < lev')%nat -> enclosing before lev' = L) ->
  exists d' top' rest',
    nest k (S lev) (mkBuild d ((lev, top) :: rest) tg) = Some (mkBuild d' ((lev + k, top')%nat :: rest') tg)
    /\ core before d' ((lev + k, top')%nat :: rest').
Proof.
  revert lev top place d rest. induction k as [|k IH]; intros lev top place d rest Hc Hp He Hlt Hen HL.
  - exists d, top, rest. by rewrite Nat.add_0_r.
  - cbn [nest b_stack b_dom b_toggles head mbind option_bind]. rewrite Hp, open_section_eq.
    pose proof Hen as Hen0. rewrite <- (HL (S lev)) in Hen0 by lia.
    destruct (core_section before d lev top place rest Hc He Hlt Hen0) as [Hc' Hk'].
    assert (Hl : lastChild (appendChild place (length d) (d ++ [section_node])) (length d) = None)
      by (unfold lastChild; by rewrite Hk').
    pose proof (c_encl _ _ _ Hc') as [[Hlt' Hen'] _]%list.Forall_cons. cbn in Hlt', Hen'.
    rewrite (HL (S lev)) in Hen' by lia.
    destruct (IH (S lev) (length d) (length d) _ _ Hc') as (d' & top' & rest' & E & H).
    + by rewrite Hl.
    + constructor.
    + done.
    + done.
    + intros lev' Hlev. apply HL. lia.
    + exists d', top', rest'. replace (lev + S k)%nat with (S lev + k)%nat by lia. by split.
Qed.

(** The lists closed before a heading. *)
Lemma close_to_core (before : list (Heading * nat)) (d : dom) (stack : list (nat * nat)) (lev cur top : nat) :
  core before d ((cur, top) :: stack) -> (2 <= lev <= cur)%nat ->
  exists top' rest', close_to lev ((cur, top) :: stack) = (lev, top') :: rest'
  /\ core before d ((lev, top') :: rest').
Proof.
  revert cur top. induction stack as [|[lev' ol'] stack IH]; intros cur top Hc Hlev.
  - exists top, []. pose proof (c_stack _ _ _ Hc) as Hs. cbn in Hs. destruct Hs as [-> ->].
    assert (lev = 2%nat) as -> by lia. done.
  - cbn [close_to]. destruct (Nat.ltb_spec lev cur) as [Hl|Hl].
    + destruct Hc as [H1 H2 H3 H4 (-> & He & Hle & Hst) [_ H6]%list.Forall_cons H7 H8 H9].
      apply IH; [by split|lia].
    + assert (lev = cur) as -> by lia. by exists top, ((lev', ol') :: stack).
Qed.

(** *** Adding an item *)

Lemma order_intro (d : dom) (n : nat) (ks l : list nat) :
  (n < length d)%nat -> kids d n = ks -> orders d ks l -> order d n (n :: l).
Proof. intros Hn <- Ho. by constructor. Qed.

Lemma item_order (d : dom) (h : Heading) (tog : bool) :
  let t := item_nodes (length d) h tog in
  order (d ++ t) (length d) (seq (length d) (length t)).
Proof.
  intros t. set (n := length d).
  assert (Hlen : (n + (if tog then 5 else 3) <= length (d ++ t))%nat)
    by (subst t n; rewrite length_app; destruct tog; cbn; lia).
  assert (Hk : forall i, kids (d ++ t) (n + i) = kids t i) by (intros i; apply kids_app_r).
  assert (Hleaf : forall i, (n + i < length (d ++ t))%nat -> kids t i = [] -> order (d ++ t) (n + i) [n + i]%nat).
  { intros i Hi E. apply (order_intro _ _ []); [done|by rewrite Hk, E|constructor]. }
  replace (seq n (length t)) with (n :: map (Nat.add n) (seq 1 (length t - 1))).
  2:{ assert (E : length t = S (length t - 1)) by (subst t; destruct tog; done).
      rewrite E at 2. cbn [seq]. f_equal. change (map (Nat.add n)) with (fmap (Nat.add n) : list nat -> list nat).
      rewrite fmap_add_seq. f_equal. lia. }
  assert (Hn : (n < length (d ++ t))%nat) by (clearbody t; destruct tog; lia).
  apply (order_intro _ _ [n + 1]%nat); [done| |].
  { rewrite <- (Nat.add_0_r n) at 1. by rewrite Hk. }
  apply orders_single. destruct tog.
  - change (length t - 1)%nat with 4%nat. cbn [seq map].
    apply (order_intro _ _ [n + 2; n + 3]%nat); [lia|by rewrite Hk|].
    apply (orders_cons _ _ _ [n + 2]%nat [n + 3; n + 4]%nat); [apply Hleaf; [lia|done]|].
    apply orders_single. apply (order_intro _ _ [n + 4]%nat); [lia|by rewrite Hk|].
    apply orders_single, Hleaf; [lia|done].
  - change (length t - 1)%nat with 2%nat. cbn [seq map].
    apply (order_intro _ _ [n + 2]%nat); [lia|by rewrite Hk|].
    apply orders_single, Hleaf; [lia|done].
Qed.

Lemma item_kids_after (n i k : nat) (h : Heading) (tog : bool) :
  k ∈ kids (item_nodes n h tog) i -> (n + i < k)%nat.
Proof.
  unfold kids, item_nodes. destruct tog; do 5 (destruct i as [|i]; [cbn; set_solver by lia|]); cbn; set_solver.
Qed.

Lemma core_item (before : list (Heading * nat)) (d : dom) (top : nat) (rest : list (nat * nat))
    (h : Heading) (tog : bool) :
  core before d ((level (h_tag h), top) :: rest) ->
  let d' := appendChild top (length d) (d ++ item_nodes (length d) h tog) in
  core ((h, length d) :: before) d' ((level (h_tag h), top) :: rest)
  /\ lastChild d' top = Some (length d).
Proof.
  intros Hc d'. set (t := item_nodes (length d) h tog).
  pose proof Hc as [Hpg Hpk Ho Hm Hst Hes Hit Han Hno].
  pose proof (stack_above _ _ _ _ Hst) as Hab. pose proof Hab as [[_ Hr] _]%list.Forall_cons. cbn in Hr.
  pose proof Hes as [[Htop Hen] _]%list.Forall_cons. cbn in Htop, Hen.
  assert (Hg : grafted d t top d') by (apply graft; [done|destruct tog; cbn; lia|by destruct tog]).
  pose proof (gr_put _ _ _ _ Hg) as Hput.
  destruct (core_graft before d t d' ((level (h_tag h), top) :: rest) top)
    as (H1 & H2 & Hlen & H4 & H5 & H6 & H7 & H8 & H9 & H10); try done.
  - lia.
  - by eapply stack_edge.
  - eapply list.Forall_impl; [exact Hab|]. cbn. intros e ?. lia.
  - apply item_order.
  - intros i k. apply item_kids_after.
  - intros i. subst t. destruct tog; do 5 (destruct i as [|i]; [done|]); done.
  - assert (Hli : d' !! length d = Some (li_node [length d + 1]%nat (Some top))).
    { rewrite <- (Nat.add_0_r (length d)) at 1. by apply (gr_new _ _ _ _ Hg 0 (li_node [length d + 1]%nat None)). }
    assert (Hlt : (length d + 3 <= length d')%nat) by (rewrite Hlen; subst t; destruct tog; cbn; lia).
    assert (Henc : encl d' root (length d) (length d :: enclosing before (level (h_tag h)))).
    { pose proof (encl_step d' root top (length d) (enclosing before (level (h_tag h)))) as Hs.
      unfold header_item in Hs. rewrite Hli in Hs. apply Hs.
      - unfold parent. by rewrite Hli.
      - lia.
      - eapply encl_grows; [apply (gr_grows _ _ _ _ Hg)|done]. }
    split; [split; try done|].
    + apply list.Forall_forall. intros e He. rewrite list.Forall_forall in H7, Hab.
      specialize (H7 e He). specialize (Hab e He). cbn [enclosing].
      destruct (Nat.ltb_spec (level (h_tag h)) e.1); [lia|done].
    + split_and!; [|done|done]. pose proof (gr_new _ _ _ _ Hg) as Hnew.
      specialize (Hnew 2%nat) as Ha. specialize (Hnew 1%nat) as Hs.
      unfold item_ok, header_item, parent. subst t. unfold item_nodes in Ha, Hs. cbn in Ha, Hs.
      erewrite Ha, Hs by reflexivity. cbn. split_and!; done || lia.
    + rewrite H9, reverse_cons, map_app. f_equal. subst t. by destruct tog.
    + unfold lastChild. rewrite (put_kids _ _ _ _ _ _ Hput). apply last_snoc.
Qed.

(** *** The loop over the headings *)

Lemma level_two (t : HTag) : (2 <= level t)%nat.
Proof. destruct t; cbn; lia. Qed.

(** Between two turns: the open list is of the last heading's level and ends with its item. *)
Definition ready (before : list (Heading * nat)) (b : Build) : Prop :=
  exists lev top rest, b_stack b = (lev, top) :: rest /\ core before (b_dom b) (b_stack b)
  /\ match before with
     | [] => True
     | (h, li) :: _ => lev = level (h_tag h) /\ lastChild (b_dom b) top = Some li
     end.

Lemma items_member (d : dom) (before : list (Heading * nat)) (h : Heading) (li : nat) :
  items_ok d ((h, li) :: before) -> forall lev, (level (h_tag h) < lev)%nat ->
  encl d root li (enclosing ((h, li) :: before) lev).
Proof.
  intros (_ & He & _) lev Hl. cbn [enclosing].
  destruct (Nat.ltb_spec (level (h_tag h)) lev); [done|lia].
Qed.

Lemma enclosing_deeper (before : list (Heading * nat)) (h : Heading) (li lev lev' : nat) :
  (level (h_tag h) < lev)%nat -> (level (h_tag h) < lev')%nat ->
  enclosing ((h, li) :: before) lev = enclosing ((h, li) :: before) lev'.
Proof.
  intros H H'. cbn [enclosing]. by rewrite (proj2 (Nat.ltb_lt _ _) H), (proj2 (Nat.ltb_lt _ _) H').
Qed.

(** The stack when the item is added. *)
Lemma at_level (before : list (Heading * nat)) (b : Build) (lev : nat) :
  ready before b -> (2 <= lev)%nat ->
  (before = [] -> exists top rest, b_stack b = (lev, top) :: rest) ->
  exists d' top' rest',
    ('(currentLevel, _) ← head (b_stack b);
     if (currentLevel <? lev)%nat then nest (lev - currentLevel) (S currentLevel) b
     else if (lev <? currentLevel)%nat
     then Some (mkBuild (b_dom b) (close_to lev (b_stack b)) (b_toggles b)) else Some b)
    = Some (mkBuild d' ((lev, top') :: rest') (b_toggles b))
    /\ core before d' ((lev, top') :: rest').
Proof.
  destruct b as [d stack tg]. intros (cur & top & rest & Hs & Hc & Hlast) Hlev Hfirst.
  cbn [b_stack b_dom b_toggles] in *. subst stack. cbn [head mbind option_bind].
  destruct (Nat.ltb_spec cur lev) as [Hlt|Hge].
  - destruct before as [|[h li] before].
    { destruct (Hfirst eq_refl) as (? & ? & E). injection E as -> -> ->. lia. }
    destruct Hlast as [-> Hli]. pose proof (c_items _ _ _ Hc) as Hit. pose proof Hit as [(_ & _ & _ & Hb & _) _].
    destruct (nest_core (lev - level (h_tag h)) (level (h_tag h)) top li ((h, li) :: before) d rest tg
                (enclosing ((h, li) :: before) lev)) as (d' & top' & rest' & E & Hc').
    + done.
    + by rewrite Hli.
    + econstructor; [done|constructor].
    + lia.
    + by apply items_member.
    + intros lev' Hl'. by apply enclosing_deeper.
    + rewrite E. replace (level (h_tag h) + (lev - level (h_tag h)))%nat with lev in * by lia.
      by exists d', top', rest'.
  - destruct (Nat.ltb_spec lev cur) as [Hlt|Hle].
    + destruct (close_to_core _ _ _ lev _ _ Hc ltac:(lia)) as (top' & rest' & E & Hc').
      exists d, top', rest'. by rewrite E.
    + assert (cur = lev) as -> by lia. by exists d, top, rest.
Qed.

Lemma add_header_ok (before : list (Heading * nat)) (b : Build) (h : Heading) (next : option Heading) :
  ready before b -> (before = [] -> exists top rest, b_stack b = (level (h_tag h), top) :: rest) ->
  exists b' li, add_header b h next = Some b' /\ ready ((h, li) :: before) b'
  /\ b_toggles b' = b_toggles b ++ (if wants_toggle h next then [li] else []).
Proof.
  intros Hr Hfirst.
  destruct (at_level before b (level (h_tag h)) Hr (level_two _) Hfirst) as (d & top & rest & E & Hc).
  destruct (core_item before d top rest h (wants_toggle h next) Hc) as [Hc' Hl].
  exists (mkBuild (appendChild top (length d) (d ++ item_nodes (length d) h (wants_toggle h next)))
            ((level (h_tag h), top) :: rest)
            (b_toggles b ++ if wants_toggle h next then [length d] else [])), (length d).
  split; [|split].
  - unfold add_header. destruct (head (b_stack b)) as [[cur ol]|]; [|done].
    cbn [mbind option_bind] in E |- *. rewrite E. cbn [mbind option_bind b_dom].
    rewrite make_item_eq. cbn [head b_stack b_toggles mbind option_bind]. reflexivity.
  - exists (level (h_tag h)), top, rest. by cbn.
  - done.
Qed.

Lemma add_headers_ok (hs : list Heading) :
  forall before b,
  ready before b ->
  (before = [] -> forall h, head hs = Some h -> exists top rest, b_stack b = (level (h_tag h), top) :: rest) ->
  exists b' before', add_headers b hs = Some b' /\ ready before' b'
  /\ map fst before' = reverse hs ++ map fst before.
Proof.
  induction hs as [|h hs IH]; intros before b Hr Hfirst.
  - by exists b, before.
  - destruct (add_header_ok before b h (head hs) Hr ltac:(auto)) as (b1 & li & E & Hr1 & _).
    destruct (IH ((h, li) :: before) b1 Hr1 ltac:(done)) as (b' & before' & E' & Hr' & Hm).
    exists b', before'. cbn [add_headers]. rewrite E. split_and!; [done|done|].
    by rewrite Hm, reverse_cons, <- app_assoc.
Qed.

Lemma build_tree_ok (headers : list Heading) :
  headers <> [] ->
  exists b before, build_tree headers d0 = Some b /\ ready before b
  /\ map fst (reverse before) = headers.
Proof.
  intros Hne. destruct headers as [|h hs]; [done|]. unfold build_tree. cbn [head mbind option_bind].
  pose proof (level_two (h_tag h)) as Hl.
  destruct (core_first section_node eq_refl) as [Hc Hk].
  destruct (first_sections_core (level (h_tag h) - 2) 1 root _ [] [] Hc Hk)
    as (d' & top' & rest' & E & Hc' & Hk').
  replace (level (h_tag h) - 1)%nat with (S (level (h_tag h) - 2)) by lia.
  cbn [first_sections b_stack b_dom b_toggles]. rewrite open_section_eq. cbn [head fmap option_fmap option_map].
  rewrite E. replace (2 + (level (h_tag h) - 2))%nat with (level (h_tag h)) in * by lia.
  destruct (add_headers_ok (h :: hs) [] (mkBuild d' ((level (h_tag h), top') :: rest') []))
    as (b' & before' & E' & Hr' & Hm).
  - exists (level (h_tag h)), top', rest'. done.
  - intros _ h' [= <-]. by exists top', rest'.
  - exists b', before'. rewrite E'. split_and!; [done|done|].
    change (map fst (reverse before')) with (fst <$> reverse before').
    rewrite fmap_reverse. cbn [map] in Hm. rewrite app_nil_r in Hm.
    replace (fst <$> before') with (reverse (h :: hs)) by done. apply reverse_involutive.
Qed.

End tree.

(** ** The finished sidebar *)

(** The page before the script runs: its nodes are numbered in the order of its text, the
    link of the active chapter sits in an element of the sidebar, and nothing carries the
    classes the script is about to give. *)
Record page_ok (d0 : dom) (activeSection : nat) : Prop := {
  pg_order : exists l, order d0 0 l /\ NoDup l
             /\ exists span p, parent d0 activeSection = Some span /\ parent d0 span = Some p
                /\ span ∈ kids d0 p /\ p ∈ l;
  pg_parents : forall n q, parent d0 n = Some q -> (q < n)%nat;
  pg_fresh : forall n, header_item d0 n = false /\ hasClass d0 n "header-in-summary" = false
                       /\ hasClass d0 n "current-header" = false;
}.

(** The sidebar lists [headers] under the items [lis]: the links stand in the order of the
    headings, and the items that enclose a link are its own and those of the headings that
    enclose its heading. *)
Record listed (d : dom) (headers : list Heading) (lis : list nat) : Prop := {
  ls_length : length lis = length headers;
  ls_order : exists l, order d 0 l /\ NoDup l
             /\ filter (fun n => hasClass d n "header-in-summary" = true) l = map (fun li => li + 2)%nat lis;
  ls_items : forall j h li, headers !! j = Some h -> lis !! j = Some li ->
    item_ok d h li /\
    exists up_list, up d (li + 2) up_list /\ Forall (fun m => (m < length d)%nat) up_list
    /\ filter (fun m => header_item d m = true) up_list
       = li :: enclosing (reverse (zip (take j headers) (take j lis))) (level (h_tag h));
}.

Lemma up_extend (d d' : dom) (r : nat) (lr : list nat) :
  (forall m q, parent d m = Some q -> parent d' m = Some q) -> up d' r lr ->
  forall l n, up d n (l ++ [r]) -> up d' n (l ++ lr).
Proof.
  intros Hp Hr. induction l as [|x l IH]; intros n Hu; cbn in *.
  - by inversion Hu; subst.
  - inversion Hu as [|? p ? Hn Hu']; subst; [by destruct l|].
    econstructor; [by apply Hp|by apply IH].
Qed.

(** Going up ends: names decrease. *)
Lemma up_exists (d : dom) :
  (forall n q, parent d n = Some q -> (q < n)%nat) ->
  forall n, (n < length d)%nat -> exists l, up d n l /\ Forall (fun m => (m <= n)%nat) l.
Proof.
  intros Hp n. induction (lt_wf n) as [n _ IH]. intros Hn.
  destruct (parent d n) as [q|] eqn:E.
  - specialize (Hp _ _ E). destruct (IH q Hp ltac:(lia)) as (l & Hu & Hl).
    exists (n :: l). split; [by econstructor|]. constructor; [done|].
    eapply list.Forall_impl; [exact Hl|]. cbn. lia.
  - exists [n]. split; [by constructor|]. by constructor.
Qed.

Lemma up_NoDup (d : dom) (n : nat) (l : list nat) : up d n l -> NoDup l.
Proof.
  assert (Hdet : forall n l l', up d n l -> up d n l' -> l = l').
  { intros m k k' H. revert k'. induction H; intros k' H'; inversion H'; subst; try congruence.
    f_equal. assert (p0 = p) as -> by congruence. auto. }
  assert (Hsuf : forall n l m, up d n l -> m ∈ l -> exists l', up d m l' /\ (length l' <= length l)%nat).
  { intros a k m H. induction H as [b Hb|b p k Hb Hu IH]; intros Hm.
    - apply list_elem_of_singleton in Hm as ->. exists [b]. by split; [constructor|].
    - apply elem_of_cons in Hm as [->|Hm].
      + exists (b :: k). split; [by econstructor|done].
      + destruct (IH Hm) as (l' & H1 & H2). exists l'. split; [done|cbn; lia]. }
  induction 1 as [m Hm|m p k Hm Hu IH]; [by apply NoDup_singleton|].
  apply list.NoDup_cons. split; [|done]. intros Hin.
  destruct (Hsuf _ _ _ Hu Hin) as (l' & H1 & H2).
  assert (l' = m :: k) as -> by (eapply Hdet; [done|by econstructor]). cbn in H2. lia.
Qed.

Lemma bounded_length (n : nat) (l : list nat) :
  NoDup l -> Forall (fun m => (m < n)%nat) l -> (length l <= n)%nat.
Proof.
  intros Hd Hl. rewrite <- (length_seq n 0). apply submseteq_length, NoDup_submseteq; [done|].
  intros m Hm. apply elem_of_seq. rewrite list.Forall_forall in Hl. specialize (Hl m Hm). lia.
Qed.

Lemma climb_all (d : dom) (n : nat) (l : list nat) :
  up d n l -> Forall (fun m => (m < length d)%nat) l -> climb (length d) d n = l.
Proof. intros Hu Hl. apply climb_up; [done|]. apply bounded_length; [by eapply up_NoDup|done]. Qed.

Lemma stack_last (d0 d : dom) (stack : list (nat * nat)) :
  stack_ok d0 d stack -> list.last stack = Some (2%nat, length d0).
Proof.
  induction stack as [|[lev ol] stack IH]; [done|]. destruct stack as [|[lev' ol'] stack].
  - intros [-> ->]. done.
  - intros (_ & _ & _ & H). by apply IH.
Qed.

Definition page_div (p : option nat) (ks : list nat) : Node :=
  mkNode "DIV" ({["on-this-page"]} ∪ ∅) None [] p ks.

(** What a node looks like, its links aside. *)
Definition face (d : dom) (n : nat) : option (string * gset string * option string) :=
  (fun x => (tagName x, classList x, href x)) <$> d !! n.

Lemma face_alter (f : Node -> Node) (m n : nat) (d : dom) :
  (forall x, tagName (f x) = tagName x /\ classList (f x) = classList x /\ href (f x) = href x) ->
  face (alter f m d) n = face d n.
Proof.
  intros Hf. unfold face. destruct (decide (m = n)) as [->|Hne].
  - rewrite list_lookup_alter_eq. destruct (d !! n) as [x|]; [|done]. cbn.
    by destruct (Hf x) as (-> & -> & ->).
  - by rewrite list_lookup_alter_ne.
Qed.

Lemma detach_face (c n : nat) (d : dom) : face (detach c d) n = face d n.
Proof. unfold detach. destruct (parent d c); [|done]. by rewrite !face_alter. Qed.

Lemma appendChild_face (p c n : nat) (d : dom) : face (appendChild p c d) n = face d n.
Proof. unfold appendChild. rewrite !face_alter by done. apply detach_face. Qed.

Lemma after_face (m c n : nat) (d : dom) : face (after m c d) n = face d n.
Proof.
  unfold after. destruct (parent d m); [|done]. rewrite !face_alter by done. apply detach_face.
Qed.

Lemma face_class (d d' : dom) (n : nat) (c : string) :
  face d' n = face d n -> hasClass d' n c = hasClass d n c.
Proof.
  unfold face, hasClass. destruct (d !! n) as [x|], (d' !! n) as [y|]; cbn; intros E; try done.
  injection E as Et Ec Eh. by rewrite Ec.
Qed.

Lemma face_item (d d' : dom) (n : nat) : face d' n = face d n -> header_item d' n = header_item d n.
Proof.
  unfold face, header_item. destruct (d !! n) as [x|], (d' !! n) as [y|]; cbn; intros E; try done.
  injection E as Et Ec Eh. by rewrite Et, Ec.
Qed.

Lemma face_href (d d' : dom) (n : nat) : face d' n = face d n -> d' !! n ≫= href = d !! n ≫= href.
Proof.
  unfold face. destruct (d !! n) as [x|], (d' !! n) as [y|]; cbn; intros E; try done.
  by injection E as Et Ec Eh.
Qed.

Lemma parent_lt (d : dom) (n q : nat) : parent d n = Some q -> (n < length d)%nat.
Proof. unfold parent. destruct (d !! n) eqn:E; [|done]. intros _. by eapply lookup_lt_Some. Qed.

Lemma parent_app_l (d t : dom) (n : nat) : (n < length d)%nat -> parent (d ++ t) n = parent d n.
Proof. intros H. unfold parent. by rewrite lookup_app_l. Qed.

Lemma face_app_l (d t : dom) (n : nat) : (n < length d)%nat -> face (d ++ t) n = face d n.
Proof. intros H. unfold face. by rewrite lookup_app_l. Qed.

(** The root list has no parent until it is placed. *)
Lemma core_root (d0 d : dom) (before : list (Heading * nat)) (lev top : nat) (rest : list (nat * nat)) :
  core d0 before d ((lev, top) :: rest) -> parent d (length d0) = None /\ (length d0 < length d)%nat.
Proof.
  intros Hc. pose proof (c_encl _ _ _ _ Hc) as [[_ (l & Hu & Hl & _)] _]%list.Forall_cons.
  split.
  - clear -Hu. cbn in Hu. revert top Hu. induction l as [|x l IH]; intros n Hu; cbn in Hu.
    + inversion Hu as [|? ? ? ? Hx]; subst; [done|inversion Hx].
    + inversion Hu as [|? p ? Hn Hu']; subst; [by destruct l|]. by eapply IH.
  - apply Forall_app in Hl as [_ [Hl _]%list.Forall_cons]. done.
Qed.

(** The document after the two insertions. *)
Lemma place_tree_puts (d0 : dom) (act span p : nat) (before : list (Heading * nat)) (b : Build) :
  ready d0 before b -> (forall n q, parent d0 n = Some q -> (q < n)%nat) ->
  parent d0 act = Some span -> parent d0 span = Some p -> span ∈ kids d0 p ->
  let d1 := b_dom b ++ [page_div None []] in
  let d2 := appendChild (length (b_dom b)) (length d0) d1 in
  exists d3 k1 k2, place_tree act (b_stack b) (b_dom b) = Some d3
  /\ put d1 d2 (length (b_dom b)) [] (length d0) []
  /\ put d2 d3 p k1 (length (b_dom b)) k2
  /\ (forall n, face d3 n = face d1 n).
Proof.
  intros (lev & top & rest & Hs & Hc & _) Hdec Hact Hspan Hin d1 d2. rewrite Hs in Hc.
  pose proof (core_root _ _ _ _ _ _ Hc) as [Hroot Hlt].
  pose proof (c_page _ _ _ _ Hc) as Hpg. set (n := length (b_dom b)) in *.
  assert (Hlen : length d1 = S n) by (subst d1; rewrite length_app; cbn; subst n; lia).
  assert (Hput : put d1 d2 n [] (length d0) []).
  { assert (Hk : kids d1 n = []).
    { subst d1 n. rewrite <- (Nat.add_0_r (length (b_dom b))). by rewrite kids_app_r. }
    pose proof (appendChild_put d1 n (length d0) ltac:(lia) ltac:(lia)) as Hx. rewrite Hk in Hx.
    apply Hx. subst d1. by rewrite parent_app_l. }
  assert (Hold : forall m, (m < length d0)%nat -> parent d2 m = parent d0 m /\ kids d2 m = kids d0 m).
  { intros m Hm. rewrite (put_parents _ _ _ _ _ _ Hput), (put_other _ _ _ _ _ _ Hput) by (subst n; lia).
    subst d1. rewrite parent_app_l, kids_app_l by (subst n; lia).
    rewrite (c_page_kids _ _ _ _ Hc) by done. split; [|done]. by apply grows_parent. }
  pose proof (parent_lt _ _ _ Hact) as Hact'. pose proof (parent_lt _ _ _ Hspan) as Hspan'.
  pose proof (Hdec _ _ Hspan) as Hp.
  destruct (after_put d2 span n p) as (k1 & k2 & Hput').
  - by rewrite (proj1 (Hold span Hspan')).
  - by rewrite (proj2 (Hold p ltac:(lia))).
  - rewrite (put_length _ _ _ _ _ _ Hput). lia.
  - rewrite (put_length _ _ _ _ _ _ Hput). lia.
  - rewrite (put_parents _ _ _ _ _ _ Hput) by lia. subst d1 n.
    rewrite <- (Nat.add_0_r (length (b_dom b))). by rewrite parent_app_r.
  - exists (after span n d2), k1, k2. split_and!; [|done|done|].
    + unfold place_tree. rewrite (stack_last d0 (b_dom b)) by (rewrite Hs; apply (c_stack _ _ _ _ Hc)).
      cbn [mbind option_bind]. rewrite <- (app_nil_r (b_dom b)) at 1. rewrite create_tail. cbn [length app].
      unfold addClass. rewrite alter_app_r, Nat.add_0_r. fold n.
      change (alter _ 0%nat [new_node "DIV"]) with [page_div None []].
      fold d1 d2. rewrite (proj1 (Hold act Hact')), Hact. done.
    + intros m. subst d2. by rewrite after_face, appendChild_face.
Qed.

Lemma items_suffix (d0 d : dom) (l1 l2 : list (Heading * nat)) :
  items_ok d0 d (l1 ++ l2) -> items_ok d0 d l2.
Proof. induction l1 as [|[h li] l1 IH]; [done|]. intros (_ & _ & H). by apply IH. Qed.

Lemma items_at (d0 d : dom) (before : list (Heading * nat)) (j : nat) (h : Heading) (li : nat) :
  items_ok d0 d before -> reverse before !! j = Some (h, li) ->
  item_ok d h li
  /\ encl d (length d0) li (li :: enclosing (reverse (take j (reverse before))) (level (h_tag h))).
Proof.
  intros Hit Hj. apply take_drop_middle in Hj as Hs.
  apply (f_equal reverse) in Hs. rewrite reverse_involutive, reverse_app, reverse_cons, <- app_assoc in Hs.
  rewrite <- Hs in Hit. cbn [app] in Hit. apply items_suffix in Hit. destruct Hit as (H1 & H2 & _). done.
Qed.

Lemma zip_take_pairs {A B} (l : list (A * B)) (j : nat) :
  zip (take j (map fst l)) (take j (map snd l)) = take j l.
Proof.
  revert j. induction l as [|[a b] l IH]; intros [|j]; cbn; [done..|]. by rewrite IH.
Qed.

Lemma lookup_map {A B} (f : A -> B) (l : list A) (j : nat) : map f l !! j = f <$> l !! j.
Proof. apply list_lookup_fmap. Qed.

Section placing.
Context (d0 dB d3 : dom) (p : nat) (before : list (Heading * nat)) (stack : list (nat * nat)) (k1 k2 : list nat).
Abbreviation root := (length d0).
Abbreviation div := (length dB).
Abbreviation d1 := (dB ++ [page_div None []]).
Abbreviation d2 := (appendChild div root d1).
Context (Hc : core d0 before dB stack) (Hlt : (root < div)%nat) (Hp : (p < root)%nat).
Context (Hput : put d1 d2 div [] root []) (Hput' : put d2 d3 p k1 div k2).
Context (Hface : forall n, face d3 n = face d1 n).

Lemma placed_length : length d3 = S div.
Proof.
  rewrite (put_length _ _ _ _ _ _ Hput'), (put_length _ _ _ _ _ _ Hput), length_app. cbn. lia.
Qed.

Lemma kids_in_d2 (m : nat) : (m < div)%nat -> kids d2 m = kids dB m.
Proof. intros Hm. rewrite (put_other _ _ _ _ _ _ Hput) by lia. by apply kids_app_l. Qed.

Lemma placed_parent (m q : nat) : parent dB m = Some q -> parent d3 m = Some q.
Proof.
  intros Hq. pose proof (parent_lt _ _ _ Hq) as Hm. assert (Hr : m <> root).
  { intros ->. destruct stack as [|[lev top] rest]; [by destruct (c_stack _ _ _ _ Hc)|].
    destruct (core_root _ _ _ _ _ _ Hc). congruence. }
  rewrite (put_parents _ _ _ _ _ _ Hput'), (put_parents _ _ _ _ _ _ Hput) by lia.
  by rewrite parent_app_l.
Qed.

Lemma placed_order (l : list nat) :
  order d0 0 l -> NoDup l -> p ∈ l ->
  exists l1 l2, l = l1 ++ l2 /\ order d3 0 (l1 ++ (div :: seq root (div - root)) ++ l2).
Proof.
  intros Ho Hd Hpl. pose proof placed_length as Hlen.
  pose proof (put_length _ _ _ _ _ _ Hput') as Hl2.
  pose proof (proj1 (order_lt d0) _ _ Ho) as Hl. rewrite list.Forall_forall in Hl.
  apply (proj1 (order_put d2 d3 p div k1 k2 (div :: seq root (div - root)) Hput'
    ltac:(constructor; [lia|]; rewrite (put_other _ _ _ _ _ _ Hput') by lia;
          rewrite (put_kids _ _ _ _ _ _ Hput); apply orders_single;
          eapply (proj1 (order_frame dB d3 ltac:(lia))); [apply (c_order _ _ _ _ Hc)|];
          intros m Hm%elem_of_seq; rewrite (put_other _ _ _ _ _ _ Hput') by lia;
          apply kids_in_d2; lia))); [|done|done].
  eapply (proj1 (order_frame d0 d2 ltac:(lia))); [done|]. intros m Hm. specialize (Hl m Hm). cbn in Hl.
  rewrite kids_in_d2 by lia. by apply (c_page_kids _ _ _ _ Hc).
Qed.

Lemma placed_NoDup (l1 l2 : list nat) :
  NoDup (l1 ++ l2) -> Forall (fun m => (m < root)%nat) (l1 ++ l2) ->
  NoDup (l1 ++ (div :: seq root (div - root)) ++ l2).
Proof.
  intros Hd Hl. rewrite Permutation_app_swap_app. apply list.NoDup_app. split; [|split; [|done]].
  - constructor; [|apply NoDup_seq]. intros H%elem_of_seq. lia.
  - rewrite list.Forall_forall in Hl. intros m Hm Hin. specialize (Hl m Hin). cbn in Hl.
    apply elem_of_cons in Hm as [->|Hm%elem_of_seq]; lia.
Qed.

Lemma placed_face_old (m : nat) : (m < div)%nat -> face d3 m = face dB m.
Proof. intros Hm. rewrite Hface. by apply face_app_l. Qed.

Lemma placed_face_div : face d3 div = Some ("DIV", {["on-this-page"]} ∪ ∅, None).
Proof. rewrite Hface. unfold face. by rewrite list_lookup_middle. Qed.

Lemma placed_face_page (m : nat) : (m < root)%nat -> face d3 m = face d0 m.
Proof.
  intros Hm. rewrite placed_face_old by lia. unfold face.
  destruct (lookup_lt_is_Some_2 _ _ Hm) as [x Hx].
  destruct (c_page _ _ _ _ Hc _ _ Hx) as [ks Hks]. by rewrite Hx, Hks.
Qed.

(** The way up from the sidebar's list. *)
Lemma placed_root_up :
  (forall n q, parent d0 n = Some q -> (q < n)%nat) -> (forall n, header_item d0 n = false) ->
  exists lr, up d3 root (root :: div :: lr) /\ Forall (fun m => (m < root)%nat) lr.
Proof.
  intros Hdec Hno. destruct (up_exists d0 Hdec p Hp) as (lp & Hu & Hl). exists lp.
  assert (Hpd : parent d3 div = Some p) by apply (put_parent _ _ _ _ _ _ Hput').
  assert (Hpr : parent d3 root = Some div).
  { rewrite (put_parents _ _ _ _ _ _ Hput') by lia. apply (put_parent _ _ _ _ _ _ Hput). }
  assert (Hlr : Forall (fun m => (m < root)%nat) lp).
  { eapply list.Forall_impl; [exact Hl|]. cbn. lia. }
  split; [|done]. econstructor; [done|]. econstructor; [done|].
  eapply up_frame; [exact Hu|]. intros m Hm. rewrite list.Forall_forall in Hlr. specialize (Hlr m Hm).
  rewrite (put_parents _ _ _ _ _ _ Hput'), (put_parents _ _ _ _ _ _ Hput) by lia.
  rewrite parent_app_l by lia. apply grows_parent; [apply (c_page _ _ _ _ Hc)|done].
Qed.

(** The way up from a node of the list, and the items on it. *)
Lemma placed_encl (n : nat) (L : list nat) :
  (forall n q, parent d0 n = Some q -> (q < n)%nat) -> (forall n, header_item d0 n = false) ->
  encl dB root n L ->
  exists l, up d3 n l /\ Forall (fun m => (m < length d3)%nat) l
  /\ filter (fun m => header_item d3 m = true) l = L.
Proof.
  intros Hdec Hno (l & Hu & Hl & Hf). destruct (placed_root_up Hdec Hno) as (lr & Hur & Hlr).
  apply Forall_app in Hl as [Hl _]. rewrite list.Forall_forall in Hl, Hlr. pose proof placed_length.
  exists (l ++ root :: div :: lr). split_and!.
  - eapply up_extend; [|done|done]. apply placed_parent.
  - apply list.Forall_forall. intros m Hm. apply elem_of_app in Hm as [Hm|Hm]; [specialize (Hl m Hm); lia|].
    apply elem_of_cons in Hm as [->|Hm]; [lia|]. apply elem_of_cons in Hm as [->|Hm]; [lia|].
    specialize (Hlr m Hm). lia.
  - rewrite <- Hf. rewrite (list.filter_app _ l [root]). rewrite cons_middle, !list.filter_app. f_equal.
    + apply filter_ext_in. intros m Hm. apply face_item, placed_face_old. by apply Hl.
    + transitivity (filter (fun m => header_item d3 m = true) [root]).
      * rewrite <- (app_nil_r (filter _ [root])) at 2. f_equal. apply filter_none. intros m Hm. apply elem_of_cons in Hm as [->|Hm].
        -- pose proof placed_face_div as Hd. unfold face in Hd. unfold header_item.
           destruct (d3 !! div); [|done]. by injection Hd as -> -> _.
        -- by rewrite (face_item d0 d3), Hno by (apply placed_face_page, Hlr; done).
      * apply filter_ext_in. intros m ->%list_elem_of_singleton. by apply face_item, placed_face_old.
Qed.
End placing.

Lemma placed_listed (d0 : dom) (act : nat) (before : list (Heading * nat)) (b : Build) :
  page_ok d0 act -> ready d0 before b ->
  exists d3, place_tree act (b_stack b) (b_dom b) = Some d3
  /\ listed d3 (map fst (reverse before)) (map snd (reverse before))
  /\ (forall n, hasClass d3 n "current-header" = false).
Proof.
  intros [(l & Ho & Hd & span & p & Hact & Hspan & Hin & Hpl) Hdec Hfresh] Hready.
  destruct (place_tree_puts d0 act span p before b Hready Hdec Hact Hspan Hin)
    as (d3 & k1 & k2 & E & Hput & Hput' & Hface).
  destruct Hready as (lev & top & rest & Hs & Hc & _).
  pose proof (core_root d0 (b_dom b) before lev top rest ltac:(by rewrite <- Hs)) as [Hroot Hlt].
  pose proof (Hdec _ _ Hspan) as Hp. pose proof (parent_lt _ _ _ Hspan) as Hspan'.
  assert (Hp' : (p < length d0)%nat) by lia.
  assert (Hlen : length d3 = S (length (b_dom b))) by (eapply placed_length; eassumption).
  assert (Hold : forall m c, (m < length d0)%nat -> hasClass d3 m c = hasClass d0 m c).
  { intros m c Hm. apply face_class. eapply placed_face_page; eassumption. }
  assert (Hnew : forall m c, (m < length (b_dom b))%nat -> hasClass d3 m c = hasClass (b_dom b) m c).
  { intros m c Hm. apply face_class. eapply placed_face_old; eassumption. }
  assert (Hdiv : forall c, c <> "on-this-page" -> hasClass d3 (length (b_dom b)) c = false).
  { intros c Hne. assert (Hf : face d3 (length (b_dom b)) = Some ("DIV", {["on-this-page"]} ∪ ∅, None))
      by (eapply placed_face_div; eassumption). unfold face in Hf. unfold hasClass.
    destruct (d3 !! length (b_dom b)); [|done]. injection Hf as _ -> _.
    apply bool_decide_eq_false. set_solver. }
  exists d3. split; [done|]. split; [split|].
  - by rewrite !length_map.
  - destruct (placed_order d0 (b_dom b) d3 p before (b_stack b) k1 k2 Hc Hlt Hp' Hput Hput' l Ho Hd Hpl)
      as (l1 & l2 & -> & Ho').
    pose proof (proj1 (order_lt d0) _ _ Ho) as Hl.
    eexists. split; [exact Ho'|]. split; [eapply placed_NoDup; eassumption|].
    rewrite !list.filter_app, filter_cons, decide_False by (by rewrite Hdiv).
    rewrite list.Forall_forall in Hl.
    rewrite (filter_none _ l1), (filter_none _ l2), app_nil_r; cbn [app].
    + rewrite map_map. rewrite <- (c_anchors _ _ _ _ Hc).
      apply filter_ext_in. intros m Hm%elem_of_seq. apply Hnew. lia.
    + intros m Hm. rewrite Hold by (apply Hl; set_solver). apply Hfresh.
    + intros m Hm. rewrite Hold by (apply Hl; set_solver). apply Hfresh.
  - intros j h li Hh Hli.
    assert (Hj : reverse before !! j = Some (h, li)).
    { rewrite lookup_map in Hh. rewrite lookup_map in Hli. destruct (reverse before !! j) as [[? ?]|]; cbn in *; congruence. }
    rewrite zip_take_pairs. destruct (items_at _ _ _ _ _ _ (c_items _ _ _ _ Hc) Hj) as [Hi He].
    split.
    + destruct Hi as (H1 & H2 & H3 & H4 & H5 & H6). split_and!.
      * eapply placed_parent; eassumption.
      * eapply placed_parent; eassumption.
      * rewrite <- H3. apply face_href. eapply placed_face_old; eassumption.
      * lia.
      * rewrite <- H5. apply face_item. eapply placed_face_old; eassumption.
      * rewrite <- H6. apply face_item. eapply placed_face_old; [eassumption|lia].
    + assert (Hx : encl (b_dom b) (length d0) (li + 2)
                     (li :: enclosing (reverse (take j (reverse before))) (level (h_tag h)))).
      { destruct Hi as (H1 & H2 & _ & H4 & H5 & H6).
        apply (encl_step _ _ _ (li + 1)) in He; [|done|lia]. rewrite H6 in He.
        apply (encl_step _ _ _ (li + 2)) in He; [|done|lia]. by rewrite H5 in He. }
      eapply placed_encl; try eassumption. intros n. apply Hfresh.
  - intros n. destruct (decide (n < length d0)%nat); [rewrite Hold by done; apply Hfresh|].
    destruct (decide (n < length (b_dom b))%nat).
    + rewrite Hnew by done. apply (c_none _ _ _ _ Hc). lia.
    + destruct (decide (n = length (b_dom b))) as [->|]; [by apply Hdiv|].
      unfold hasClass. by rewrite lookup_ge_None_2 by lia.
Qed.
