(* ===== verification/TocPage.v ===== *)
(** * Following the reader in the table of contents (src/_site/book/toc-2d897c67.js)

    The rest of the script that lists the headings: the handler that builds the list, the
    threshold line that moves with the scrolling, the choice of the current heading, the
    marking of its link and the unfolding of the items around it, and the clicks.

    Pixel coordinates are exact rationals: the rounding of doubles is not modelled.
    The debugging aid ([thresholdDebug], [drawDebugLine]), which is off unless it is called
    from the console, is in [TocDebug]. *)

From Stdlib Require Import QArith_base Qminmax Lqa.
From S2P Require Import Prelude Dom Toc.

(** ** The script's state and handlers *)

(** The variables of the script, with what it has scheduled: the animation frames a click
    waits for (how many, and the link's [href]) and the timers that end the pause. *)
Record Toc : Type := mkToc {
  lastKnownScrollPosition : Q;
  threshold : Q;
  disableScroll : bool;
  headers : list Heading;
  headerToggles : list nat;
  page : dom;
  frames : list (nat * string);
  timers : nat;
}.

(** What the script reads of the window and of the layout: [rect_top i] is the top of the
    [i]-th heading, [bottom_of id] the bottom of the element of that id. *)
Record View : Type := mkView {
  pageYOffset : Q;
  docScrollTop : Q;
  innerHeight : Q;
  scrollHeight : Q;
  rect_top : nat -> Q;
  bottom_of : string -> option Q;
}.

Definition defaultDownThreshold : Q := 150%Q.
Definition defaultUpThreshold : Q := 300%Q.

Definition with_page (st : Toc) (d : dom) : Toc :=
  mkToc (lastKnownScrollPosition st) (threshold st) (disableScroll st) (headers st) (headerToggles st)
    d (frames st) (timers st).
Definition with_threshold (st : Toc) (q : Q) : Toc :=
  mkToc (lastKnownScrollPosition st) q (disableScroll st) (headers st) (headerToggles st)
    (page st) (frames st) (timers st).

Definition Qltb (x y : Q) : bool := negb (Qle_bool y x).

Definition scrollTop_of (v : View) : Q :=
  if Qeq_bool (pageYOffset v) 0%Q then docScrollTop v else pageYOffset v.

Section line.
Local Open Scope Q_scope.

Definition pixelsBelow (v : View) : Q := Qmax 0 (scrollHeight v - (scrollTop_of v + innerHeight v)).
Definition pixelsAbove (v : View) : Q := Qmax 0 (defaultDownThreshold - scrollTop_of v).
Definition bottomAdd (v : View) : Q := Qmax 0 (innerHeight v - pixelsBelow v - defaultDownThreshold).

Definition adjustedBottomAdd (v : View) : Q :=
  if Qltb (scrollHeight v) (innerHeight v * 2) then
    let maxPixelsBelow := scrollHeight v - innerHeight v in
    let t := 1 - pixelsBelow v / Qmax 1 maxPixelsBelow in
    let clamp := Qmax 0 (Qmin 1 t) in
    bottomAdd v * clamp
  else bottomAdd v.

Definition updateThreshold (v : View) (st : Toc) : Toc :=
  let scrollTop := scrollTop_of v in
  let threshold :=
    if negb (Qltb scrollTop (lastKnownScrollPosition st)) then
      let amountScrolledDown := scrollTop - lastKnownScrollPosition st in
      let adjustedDefault := defaultDownThreshold + adjustedBottomAdd v in
      Qmax adjustedDefault (threshold st - amountScrolledDown)
    else
      let amountScrolledUp := lastKnownScrollPosition st - scrollTop in
      let adjustedDefault :=
        defaultUpThreshold - pixelsAbove v + Qmax 0 (adjustedBottomAdd v - defaultDownThreshold) in
      Qmin adjustedDefault (threshold st + amountScrolledUp) in
  let threshold := if Qle_bool (scrollHeight v) (innerHeight v) then 0 else threshold in
  mkToc scrollTop threshold (disableScroll st) (headers st) (headerToggles st) (page st)
    (frames st) (timers st).

End line.

(** [updateHeaderExpanded]: the loop from the link's parent upwards. *)
Fixpoint expand_up (fuel : nat) (current : option nat) (d : dom) : dom :=
  match fuel, current with
  | S fuel, Some n =>
      let d := if header_item d n then addClass n "expanded" d else d in
      expand_up fuel (parent d n) d
  | _, _ => d
  end.

Definition updateHeaderExpanded (currentA : nat) (d : dom) : dom :=
  expand_up (length d) (parent d currentA) d.

(** The loop over the live collection of current headers: removing the class takes the
    element out of the collection, and the loop goes on at the next position. *)
Fixpoint clear_live (fuel i : nat) (d : dom) : dom :=
  match fuel with
  | O => d
  | S fuel =>
      match querySelectorAll d 0 "current-header" !! i with
      | Some el => clear_live fuel (S i) (removeClass el "current-header" d)
      | None => d
      end
  end.

(** The last heading above the line, of the [n] headings from [i]. *)
Fixpoint last_above (line : Q) (top : nat -> Q) (n i : nat) (lastHeader : option nat) : option nat :=
  match n with
  | O => lastHeader
  | S n => if Qle_bool (top i) line then last_above line top n (S i) (Some i) else lastHeader
  end.

Definition chosen (v : View) (st : Toc) : option nat :=
  match last_above (threshold st) (rect_top v) (length (headers st)) 0 None with
  | Some i => Some i
  | None => if Qle_bool (innerHeight v) (rect_top v 0%nat) then None else Some 0%nat
  end.

(** The page after an update: the classes are reset, and the link of the chosen heading,
    when there is one, is marked. *)
Definition current_page (v : View) (st : Toc) : dom :=
  let d := clear_live (length (page st)) 0 (page st) in
  let d := foldl (fun d toggle => removeClass toggle "expanded" d) d (headerToggles st) in
  match chosen v st ≫= (headers st !!.) with
  | None => d
  | Some lastHeader =>
      let href' := "#" +:+ h_id lastHeader in
      match list_find (fun a => d !! a ≫= href = Some href')
              (querySelectorAll d 0 "header-in-summary") with
      | None => d
      | Some (_, a) => updateHeaderExpanded a (addClass a "current-header" d)
      end
  end.

Definition updateCurrentHeader (v : View) (st : Toc) : Toc :=
  match headers st with [] => st | _ => with_page st (current_page v st) end.

Definition reloadCurrentHeader (v : View) (st : Toc) : Toc :=
  if disableScroll st then st else updateCurrentHeader v (updateThreshold v st).

(** [headerThresholdClick] on the link [href']: the pause starts, and the update comes two
    animation frames later. *)
Definition headerThresholdClick (href' : string) (st : Toc) : Toc :=
  mkToc (lastKnownScrollPosition st) (threshold st) true (headers st) (headerToggles st) (page st)
    (frames st ++ [(2%nat, href')]) (S (timers st)).

Definition click_frame (v : View) (href' : string) (st : Toc) : Toc :=
  match bottom_of v (String.substring 1 (String.length href' - 1) href') with
  | Some bottom => updateCurrentHeader v (with_threshold st bottom)
  | None => st
  end.

(** An animation frame: the callbacks that are due run, the others wait for the next. *)
Definition on_frame (v : View) (st : Toc) : Toc :=
  let due := omap (fun f => if (f.1 =? 1)%nat then Some f.2 else None) (frames st) in
  let left := omap (fun f => if (f.1 =? 1)%nat then None else Some (f.1 - 1, f.2)%nat) (frames st) in
  let st := mkToc (lastKnownScrollPosition st) (threshold st) (disableScroll st) (headers st)
              (headerToggles st) (page st) left (timers st) in
  foldl (fun st href' => click_frame v href' st) st due.

Definition on_timer (st : Toc) : Toc :=
  mkToc (lastKnownScrollPosition st) (threshold st) false (headers st) (headerToggles st) (page st)
    (frames st) (timers st - 1).

(** A click on a toggle folds or unfolds its item. *)
Definition on_toggle (li : nat) (st : Toc) : Toc := with_page st (toggleClass li "expanded" (page st)).

(** The handler of DOMContentLoaded. [None]: it throws. *)
Definition load (activeSection : option nat) (headings : list Heading) (st : Toc) : option Toc :=
  match activeSection with
  | None => Some st
  | Some act =>
      let hs := filter (fun h => eligible h = true) headings in
      let st := mkToc (lastKnownScrollPosition st) (threshold st) (disableScroll st) hs
                  (headerToggles st) (page st) (frames st) (timers st) in
      match hs with
      | [] => Some st
      | _ =>
          b ← build_tree hs (page st);
          d ← place_tree act (b_stack b) (b_dom b);
          Some (mkToc (lastKnownScrollPosition st) (threshold st) (disableScroll st) hs
                  (headerToggles st ++ b_toggles b) d (frames st) (timers st))
      end
  end.

Definition initial (d : dom) : Toc := mkToc 0%Q defaultDownThreshold false [] [] d [] 0.

(** The events of the page, and what they do. *)
Inductive event : Type :=
| Scrolled (v : View)
| HeaderClicked (href' : string)
| Framed (v : View)
| TimerFired
| ToggleClicked (li : nat).

Definition on_event (st : Toc) (e : event) : Toc :=
  match e with
  | Scrolled v => reloadCurrentHeader v st
  | HeaderClicked href' => headerThresholdClick href' st
  | Framed v => on_frame v st
  | TimerFired => if (timers st =? 0)%nat then st else on_timer st
  | ToggleClicked li => if bool_decide (li ∈ headerToggles st) then on_toggle li st else st
  end.

(** ** The loaded page *)

Lemma load_listed (d0 : dom) (act : nat) (headings : list Heading) :
  page_ok d0 act -> filter (fun h => eligible h = true) headings <> [] ->
  exists st lis, load (Some act) headings (initial d0) = Some st
  /\ headers st = filter (fun h => eligible h = true) headings
  /\ listed (page st) (headers st) lis
  /\ (forall n, hasClass (page st) n "current-header" = false).
Proof.
  intros Hpage Hne. set (hs := filter _ headings) in *.
  destruct (build_tree_ok d0 hs Hne) as (b & before & Eb & Hr & Hm).
  destruct (placed_listed d0 act before b Hpage Hr) as (d3 & Ed & Hl & Hno).
  exists (mkToc 0%Q defaultDownThreshold false hs (b_toggles b) d3 [] 0), (map snd (reverse before)). unfold load. fold hs. cbn [page initial].
  rewrite Eb. destruct hs as [|h hs']; [done|]. cbn [mbind option_bind]. rewrite Ed.
  split; [reflexivity|]. cbn [headers page]. rewrite Hm in Hl. done.
Qed.

Lemma listed_anchors (d : dom) (hs : list Heading) (lis : list nat) :
  listed d hs lis -> querySelectorAll d 0 "header-in-summary" = map (fun li => li + 2)%nat lis.
Proof.
  intros [_ (l & Ho & Hd & Hf) _]. unfold querySelectorAll. by rewrite (document_order_order d 0 l Ho Hd).
Qed.

Lemma listed_items (d : dom) (hs : list Heading) (lis : list nat) (j : nat) (h : Heading) (li : nat) :
  listed d hs lis -> hs !! j = Some h -> lis !! j = Some li ->
  filter (fun m => header_item d m = true) (climb (length d) d (li + 2))
  = li :: enclosing (reverse (zip (take j hs) (take j lis))) (level (h_tag h)).
Proof.
  intros Hl Hh Hli. destruct (ls_items _ _ _ Hl j h li Hh Hli) as [_ (up_list & Hu & Hlt & Hf)].
  by rewrite (climb_all d (li + 2) up_list).
Qed.

(** The sidebar is the page's outline. On a page with an active chapter and at least
    one eligible heading, the handler of DOMContentLoaded does not throw; the links it
    adds stand in document order in the order of the headings, one for each, and link to
    them; and going up from a heading's link one meets its own list item and then exactly
    the items of the headings that enclose it: the nearest earlier heading of a smaller
    level, the nearest earlier one of a smaller level than that, and so on, also where
    the page skips levels or starts below h2. *)
Theorem toc_outline (d0 : dom) (act : nat) (headings : list Heading) :
  page_ok d0 act -> filter (fun h => eligible h = true) headings <> [] ->
  exists st lis, load (Some act) headings (initial d0) = Some st
  /\ headers st = filter (fun h => eligible h = true) headings
  /\ length lis = length (headers st)
  /\ querySelectorAll (page st) 0 "header-in-summary" = map (fun li => li + 2)%nat lis
  /\ forall j h li, headers st !! j = Some h -> lis !! j = Some li ->
       page st !! (li + 2)%nat ≫= href = Some ("#" +:+ h_id h)
       /\ filter (fun m => header_item (page st) m = true) (climb (length (page st)) (page st) (li + 2))
          = li :: enclosing (reverse (zip (take j (headers st)) (take j lis))) (level (h_tag h)).
Proof.
  intros Hpage Hne. destruct (load_listed d0 act headings Hpage Hne) as (st & lis & E & Hh & Hl & _).
  exists st, lis. split_and!; [done|done|apply Hl|by eapply listed_anchors|].
  intros j h li Hj Hli. split; [|by eapply listed_items].
  by destruct (ls_items _ _ _ Hl j h li Hj Hli) as [(_ & _ & ? & _) _].
Qed.

(** ** Changes of class *)

(** The classes the handlers set and remove. *)
Definition paint (c : string) : Prop := c = "current-header" \/ c = "expanded".

Record recoloured (d d' : dom) : Prop := {
  rc_length : length d' = length d;
  rc_kids : forall n, kids d' n = kids d n;
  rc_parent : forall n, parent d' n = parent d n;
  rc_item : forall n, header_item d' n = header_item d n;
  rc_href : forall n, d' !! n ≫= href = d !! n ≫= href;
  rc_class : forall n c, ~ paint c -> hasClass d' n c = hasClass d n c;
}.

Lemma recoloured_refl (d : dom) : recoloured d d.
Proof. by split. Qed.

Lemma recoloured_trans (d d' d'' : dom) : recoloured d d' -> recoloured d' d'' -> recoloured d d''.
Proof.
  intros H1 H2. split; intros.
  - by rewrite (rc_length _ _ H2), (rc_length _ _ H1).
  - by rewrite (rc_kids _ _ H2), (rc_kids _ _ H1).
  - by rewrite (rc_parent _ _ H2), (rc_parent _ _ H1).
  - by rewrite (rc_item _ _ H2), (rc_item _ _ H1).
  - by rewrite (rc_href _ _ H2), (rc_href _ _ H1).
  - by rewrite (rc_class _ _ H2), (rc_class _ _ H1).
Qed.

#[global] Instance recoloured_preorder : PreOrder recoloured.
Proof. split; [exact recoloured_refl|exact recoloured_trans]. Qed.

Lemma recolour_classes (n : nat) (f : gset string -> gset string) (d : dom) :
  (forall c s, ~ paint c -> c ∈ f s <-> c ∈ s) -> recoloured d (alter (on_classes f) n d).
Proof.
  intros Hf. split.
  - by rewrite length_alter.
  - intros m. by apply kids_alter_same.
  - intros m. by apply parent_alter_same.
  - intros m. unfold header_item. destruct (decide (n = m)) as [->|]; [|by rewrite list_lookup_alter_ne].
    rewrite list_lookup_alter_eq. destruct (d !! m) as [x|]; [|done]. cbn. f_equal.
    apply bool_decide_ext, Hf. by intros [?|?].
  - intros m. destruct (decide (n = m)) as [->|]; [|by rewrite list_lookup_alter_ne].
    rewrite list_lookup_alter_eq. by destruct (d !! m).
  - intros m c Hc. unfold hasClass. destruct (decide (n = m)) as [->|]; [|by rewrite list_lookup_alter_ne].
    rewrite list_lookup_alter_eq. destruct (d !! m) as [x|]; [|done]. cbn. by apply bool_decide_ext, Hf.
Qed.

Lemma recolour_add (n : nat) (c : string) (d : dom) : paint c -> recoloured d (addClass n c d).
Proof. intros Hc. apply recolour_classes. intros c' s Hn. set_solver. Qed.

Lemma recolour_remove (n : nat) (c : string) (d : dom) : paint c -> recoloured d (removeClass n c d).
Proof. intros Hc. apply recolour_classes. intros c' s Hn. set_solver. Qed.

Lemma hasClass_add (d : dom) (n m : nat) (c c' : string) :
  hasClass (addClass n c d) m c'
  = hasClass d m c' || (bool_decide (m = n) && bool_decide (c' = c) && bool_decide (n < length d)%nat).
Proof.
  unfold hasClass, addClass. destruct (decide (n = m)) as [->|Hne].
  - rewrite list_lookup_alter_eq. destruct (d !! m) as [x|] eqn:E.
    + apply lookup_lt_Some in E. cbn. rewrite (bool_decide_true (m = m)), (bool_decide_true (_ < _)%nat) by done.
      rewrite andb_true_r. cbn. rewrite <- bool_decide_or. apply bool_decide_ext. set_solver.
    + apply lookup_ge_None_1 in E. rewrite (bool_decide_false (_ < _)%nat) by lia. by rewrite andb_false_r.
  - rewrite list_lookup_alter_ne by done. rewrite (bool_decide_false (m = n)) by done. by rewrite orb_false_r.
Qed.

Lemma hasClass_remove (d : dom) (n m : nat) (c c' : string) :
  hasClass (removeClass n c d) m c' = hasClass d m c' && negb (bool_decide (m = n) && bool_decide (c' = c)).
Proof.
  unfold hasClass, removeClass. destruct (decide (n = m)) as [->|Hne].
  - rewrite list_lookup_alter_eq. destruct (d !! m) as [x|] eqn:E; [|done].
    cbn. rewrite (bool_decide_true (m = m)) by done. cbn. rewrite <- bool_decide_not, <- bool_decide_and.
    apply bool_decide_ext. set_solver.
  - rewrite list_lookup_alter_ne by done. rewrite (bool_decide_false (m = n)) by done. by rewrite andb_true_r.
Qed.

Lemma recoloured_order (d d' : dom) (n : nat) (l : list nat) :
  recoloured d d' -> order d n l -> order d' n l.
Proof.
  intros H Ho. eapply (proj1 (order_frame d d' ltac:(rewrite (rc_length _ _ H); lia))); [done|].
  intros m _. apply (rc_kids _ _ H).
Qed.

Lemma recoloured_listed (d d' : dom) (hs : list Heading) (lis : list nat) :
  recoloured d d' -> listed d hs lis -> listed d' hs lis.
Proof.
  intros Hr [Hlen (l & Ho & Hd & Hf) Hit]. split.
  - done.
  - exists l. split_and!; [by eapply recoloured_order|done|]. rewrite <- Hf. apply filter_ext_in.
    intros m _. apply (rc_class _ _ Hr). by intros [?|?].
  - intros j h li Hh Hli. destruct (Hit j h li Hh Hli) as [(H1 & H2 & H3 & H4 & H5 & H6) (ul & Hu & Hlt & Hul)].
    split.
    + unfold item_ok. rewrite !(rc_parent _ _ Hr), (rc_href _ _ Hr), (rc_length _ _ Hr), !(rc_item _ _ Hr). done.
    + exists ul. split_and!.
      * eapply up_frame; [done|]. intros m _. apply (rc_parent _ _ Hr).
      * by rewrite (rc_length _ _ Hr).
      * rewrite <- Hul. apply filter_ext_in. intros m _. apply (rc_item _ _ Hr).
Qed.

(** ** The current heading *)

(** The links marked as current. *)
Definition marks (d : dom) : list nat := querySelectorAll d 0 "current-header".

Section update.
Context (l : list nat).

(** The elements with a class, when [l] is the document's order. *)
Lemma select_order (d : dom) (c : string) :
  order d 0 l -> NoDup l -> querySelectorAll d 0 c = filter (fun n => hasClass d n c = true) l.
Proof. intros Ho Hd. unfold querySelectorAll. by rewrite (document_order_order d 0 l Ho Hd). Qed.

Lemma filter_single (P : nat -> bool) (a : nat) :
  NoDup l -> a ∈ l -> (forall n, n ∈ l -> P n = bool_decide (n = a)) -> filter (fun n => P n = true) l = [a].
Proof.
  intros Hd Ha HP. apply list_elem_of_split in Ha as (l1 & l2 & ->).
  apply list.NoDup_app in Hd as (_ & H1 & [H2 _]%list.NoDup_cons).
  rewrite list.filter_app, filter_cons, decide_True.
  - rewrite !filter_none; [done| |]; intros n Hn; rewrite HP by set_solver;
      apply bool_decide_false; set_solver.
  - rewrite HP by set_solver. by apply bool_decide_true.
Qed.

(** With at most one link marked, the live loop clears it. *)
Lemma clear_live_ok (d : dom) (fuel : nat) :
  order d 0 l -> NoDup l -> (length (marks d) <= 1)%nat -> (0 < fuel)%nat ->
  recoloured d (clear_live fuel 0 d)
  /\ (forall n, n ∈ l -> hasClass (clear_live fuel 0 d) n "current-header" = false)
  /\ (forall n, hasClass (clear_live fuel 0 d) n "expanded" = hasClass d n "expanded").
Proof.
  intros Ho Hd Hm Hf. destruct fuel as [|fuel]; [lia|]. cbn [clear_live]. unfold marks in Hm.
  assert (Hsel := select_order d "current-header" Ho Hd).
  destruct (querySelectorAll d 0 "current-header") as [|a [|? ?]] eqn:E; cbn in Hm; [| |lia].
  - split_and!; [done| |done]. intros n Hn. destruct (hasClass d n "current-header") eqn:En; [|done].
    assert (n ∈ @nil nat) as []%not_elem_of_nil by (rewrite Hsel; by apply list_elem_of_filter).
  - cbn [lookup list_lookup].
    set (d' := removeClass a "current-header" d).
    assert (Hr : recoloured d d') by (apply recolour_remove; by left).
    assert (Hnone : forall n, n ∈ l -> hasClass d' n "current-header" = false).
    { intros n Hn. unfold d'. rewrite hasClass_remove. rewrite (bool_decide_true (_ = "current-header")) by done.
      destruct (hasClass d n "current-header") eqn:En; [|done].
      assert (n ∈ [a]) as ->%list_elem_of_singleton by (rewrite Hsel; by apply list_elem_of_filter).
      by rewrite bool_decide_true. }
    assert (Hst : clear_live fuel 1 d' = d').
    { destruct fuel as [|fuel]; [done|]. cbn [clear_live].
      rewrite select_order by (by eapply recoloured_order || done). by rewrite filter_none. }
    rewrite Hst. split_and!; [done|done|]. intros n. unfold d'. rewrite hasClass_remove.
    rewrite (bool_decide_false (_ = "current-header")) by done. by rewrite andb_false_r, andb_true_r.
Qed.

Lemma fold_toggles (ts : list nat) (d : dom) :
  let d' := foldl (fun d t => removeClass t "expanded" d) d ts in
  recoloured d d'
  /\ (forall n, hasClass d' n "current-header" = hasClass d n "current-header")
  /\ (forall n, hasClass d' n "expanded" = hasClass d n "expanded" && negb (bool_decide (n ∈ ts))).
Proof.
  revert d. induction ts as [|t ts IH]; intros d; cbn [foldl].
  - split_and!; [done|done|]. intros n. rewrite bool_decide_false by set_solver. by rewrite andb_true_r.
  - destruct (IH (removeClass t "expanded" d)) as (H1 & H2 & H3). split_and!.
    + etransitivity; [|exact H1]. apply recolour_remove. by right.
    + intros n. rewrite H2, hasClass_remove. rewrite (bool_decide_false (_ = "expanded")) by done.
      by rewrite andb_false_r, andb_true_r.
    + intros n. rewrite H3, hasClass_remove. rewrite (bool_decide_true ("expanded" = _)) by done.
      rewrite andb_true_r, <- andb_assoc, <- negb_orb, <- bool_decide_or. f_equal. f_equal.
      apply bool_decide_ext. set_solver.
Qed.

(** One item unfolded. *)
Lemma expand_one (d : dom) (n : nat) :
  let d' := if header_item d n then addClass n "expanded" d else d in
  recoloured d d'
  /\ (forall m, hasClass d' m "current-header" = hasClass d m "current-header")
  /\ (forall m, hasClass d' m "expanded"
                = hasClass d m "expanded" || (bool_decide (m = n) && header_item d n)).
Proof.
  destruct (header_item d n) eqn:E; cbn.
  - split_and!.
    + apply recolour_add. by right.
    + intros m. rewrite hasClass_add. rewrite (bool_decide_false (_ = "expanded")) by done.
      by rewrite andb_false_r, orb_false_r.
    + intros m. rewrite hasClass_add. rewrite (bool_decide_true ("expanded" = _)) by done.
      rewrite (bool_decide_true (n < _)%nat); [by rewrite !andb_true_r|]. unfold header_item in E.
      destruct (d !! n) eqn:E'; [|done]. by eapply lookup_lt_Some.
  - split_and!; [done|done|]. intros m. by rewrite andb_false_r, orb_false_r.
Qed.

Lemma expand_up_ok (ul : list nat) :
  forall n d fuel, up d n ul -> (length ul <= fuel)%nat ->
  let d' := expand_up fuel (Some n) d in
  recoloured d d'
  /\ (forall m, hasClass d' m "current-header" = hasClass d m "current-header")
  /\ (forall m, hasClass d' m "expanded"
                = hasClass d m "expanded" || bool_decide (m ∈ filter (fun m => header_item d m = true) ul)).
Proof.
  induction ul as [|x ul IH]; intros n d fuel Hu Hf; [by inversion Hu|].
  destruct fuel as [|fuel]; [cbn in Hf; lia|]. cbn [expand_up].
  destruct (expand_one d n) as (H1 & H2 & H3). set (d1 := if header_item d n then _ else d) in *.
  assert (Hhead : forall m L, bool_decide (m = n) && header_item d n || bool_decide (m ∈ L)
    = bool_decide (m ∈ if decide (header_item d n = true) then n :: L else L)).
  { intros m L. case_decide as E; rewrite ?E, ?(not_true_is_false _ E); [|by rewrite andb_false_r].
    rewrite andb_true_r, <- bool_decide_or. apply bool_decide_ext. by rewrite elem_of_cons. }
  inversion Hu as [? Hn|? p ? Hn Hu']; subst; rewrite (rc_parent _ _ H1), Hn.
  - assert (Hend : expand_up fuel None d1 = d1) by (by destruct fuel). rewrite Hend.
    split_and!; [done|done|]. intros m. rewrite H3, filter_cons. rewrite <- Hhead.
    by rewrite (bool_decide_false (m ∈ filter _ [])), orb_false_r by (intros []%not_elem_of_nil).
  - destruct (IH p d1 fuel) as (G1 & G2 & G3).
    + eapply up_frame; [done|]. intros m _. apply (rc_parent _ _ H1).
    + cbn in Hf. lia.
    + split_and!.
      * by etransitivity.
      * intros m. by rewrite G2.
      * intros m. rewrite G3, H3, filter_cons, <- orb_assoc, <- Hhead.
        by rewrite (filter_ext_in (header_item d1) (header_item d)) by (intros k _; apply (rc_item _ _ H1)).
Qed.
End update.

Lemma last_above_spec (line : Q) (top : nat -> Q) (n i : nat) (acc : option nat) :
  match last_above line top n i acc with
  | Some k => (acc = Some k /\ (0 < n -> (line < top i)%Q)%nat) \/
              ((i <= k < i + n)%nat /\ (forall m, (i <= m <= k)%nat -> (top m <= line)%Q)
               /\ ((S k < i + n)%nat -> (line < top (S k))%Q))
  | None => acc = None /\ ((0 < n)%nat -> (line < top i)%Q)
  end.
Proof.
  revert i acc. induction n as [|n IH]; intros i acc; cbn [last_above].
  - destruct acc; [left|]; split; [done|lia|done|lia].
  - destruct (Qle_bool (top i) line) eqn:E.
    + apply Qle_bool_iff in E. specialize (IH (S i) (Some i)).
      destruct (last_above line top n (S i) (Some i)) as [k|]; [|by destruct IH].
      right. destruct IH as [[[= <-] H]|(H1 & H2 & H3)].
      * split_and!; [lia|lia| |]; [intros m Hm; by replace m with i by lia|]. intros Hm. apply H. lia.
      * split_and!; [lia|lia| |]; [|intros; apply H3; lia]. intros m Hm.
        destruct (decide (m = i)) as [->|]; [done|]. apply H2. lia.
    + assert (Hlt : (line < top i)%Q).
      { apply Qnot_le_lt. intros H%Qle_bool_iff. congruence. }
      destruct acc; [left|]; by split.
Qed.

(** Which heading is chosen: the last of the headings from the first on that are above the
    line, or the first when it is below the line but in the window. *)
Lemma chosen_spec (v : View) (st : Toc) :
  headers st <> [] ->
  match chosen v st with
  | Some k => (k < length (headers st))%nat
      /\ (((forall m, (m <= k)%nat -> (rect_top v m <= threshold st)%Q)
           /\ ((S k < length (headers st))%nat -> (threshold st < rect_top v (S k))%Q))
          \/ (k = 0%nat /\ (threshold st < rect_top v 0)%Q /\ (rect_top v 0 < innerHeight v)%Q))
  | None => (threshold st < rect_top v 0)%Q /\ (innerHeight v <= rect_top v 0)%Q
  end.
Proof.
  intros Hne. assert (Hpos : (0 < length (headers st))%nat) by (destruct (headers st); [done|cbn; lia]).
  unfold chosen. pose proof (last_above_spec (threshold st) (rect_top v) (length (headers st)) 0 None) as H.
  destruct (last_above _ _ _ _ _) as [k|].
  - destruct H as [[? _]|(H1 & H2 & H3)]; [done|]. split; [lia|]. left. split.
    + intros m Hm. apply H2. lia.
    + intros Hk. apply H3. lia.
  - destruct H as [_ H]. specialize (H Hpos). destruct (Qle_bool (innerHeight v) (rect_top v 0%nat)) eqn:E.
    + split; [done|]. by apply Qle_bool_iff.
    + split; [done|]. right. split_and!; [done|done|]. apply Qnot_le_lt. intros Hq%Qle_bool_iff. congruence.
Qed.

(** The link found for a heading: that of the first heading of its id. *)
Lemma find_link (d : dom) (hs : list Heading) (lis : list nat) (i : nat) (h : Heading) :
  listed d hs lis -> hs !! i = Some h ->
  exists j hj li, hs !! j = Some hj /\ lis !! j = Some li /\ h_id hj = h_id h
  /\ (forall k hk, (k < j)%nat -> hs !! k = Some hk -> h_id hk <> h_id h)
  /\ list_find (fun a => d !! a ≫= href = Some ("#" +:+ h_id h)) (querySelectorAll d 0 "header-in-summary")
     = Some (j, (li + 2)%nat).
Proof.
  intros Hl Hi. rewrite (listed_anchors _ _ _ Hl).
  assert (Hlink : forall k hk, hs !! k = Some hk -> exists lk, lis !! k = Some lk
    /\ d !! (lk + 2)%nat ≫= href = Some ("#" +:+ h_id hk)).
  { intros k hk Hk. destruct (lookup_lt_is_Some_2 lis k) as [lk Hlk].
    { rewrite (ls_length _ _ _ Hl). by eapply lookup_lt_Some. }
    exists lk. split; [done|]. by destruct (ls_items _ _ _ Hl k hk lk Hk Hlk) as [(_ & _ & ? & _) _]. }
  destruct (Hlink i h Hi) as (li0 & Hli0 & Hh0).
  destruct (list_find_elem_of (fun a => d !! a ≫= href = Some ("#" +:+ h_id h))
              (map (fun li => li + 2)%nat lis) (li0 + 2)%nat) as [[j a] Hf].
  - apply list_elem_of_lookup. exists i. by rewrite lookup_map, Hli0.
  - done.
  - rewrite Hf. apply list_find_Some in Hf as (Hj & Ha & Hmin).
    rewrite lookup_map in Hj. destruct (lis !! j) as [li|] eqn:Hli; [|done]. injection Hj as <-.
    destruct (lookup_lt_is_Some_2 hs j) as [hj Hhj].
    { rewrite <- (ls_length _ _ _ Hl). by eapply lookup_lt_Some. }
    destruct (Hlink j hj Hhj) as (li' & Hli' & Hh). assert (li' = li) as -> by congruence.
    exists j, hj, li. split_and!; try done.
    + rewrite Hh in Ha. by injection Ha.
    + intros k hk Hk Hhk. destruct (Hlink k hk Hhk) as (lk & Hlk & Hhref).
      intros Heq. apply (Hmin k (lk + 2)%nat); [by rewrite lookup_map, Hlk|done|]. by rewrite Hhref, Heq.
Qed.

(** What an update leaves: the marked link, and the items with a toggle that are open. *)
Definition shows (d : dom) (toggles : list nat) (current : option nat) (open : list nat) : Prop :=
  marks d = option_list current
  /\ forall t, t ∈ toggles -> hasClass d t "expanded" = bool_decide (t ∈ open).

Lemma recoloured_select (d d' : dom) (c : string) (l : list nat) :
  recoloured d d' -> order d 0 l -> NoDup l ->
  querySelectorAll d' 0 c = filter (fun n => hasClass d' n c = true) l.
Proof. intros Hr Ho Hd. apply select_order; [|done]. by eapply recoloured_order. Qed.

Lemma updateCurrentHeader_eq (v : View) (st : Toc) :
  headers st <> [] -> updateCurrentHeader v st = with_page st (current_page v st).
Proof. unfold updateCurrentHeader. by destruct (headers st). Qed.

Section current.
Context (v : View) (st : Toc) (lis l : list nat).
Context (Hlisted : listed (page st) (headers st) lis) (Hne : headers st <> []).
Context (Ho : order (page st) 0 l) (Hd : NoDup l).
Context (Hmarks : (length (marks (page st)) <= 1)%nat).

(** The page when the loops that clear the classes are done. *)
Lemma cleared_ok :
  let d := foldl (fun d toggle => removeClass toggle "expanded" d)
             (clear_live (length (page st)) 0 (page st)) (headerToggles st) in
  recoloured (page st) d
  /\ (forall t, t ∈ headerToggles st -> hasClass d t "expanded" = false)
  /\ (forall n, n ∈ l -> hasClass d n "current-header" = false).
Proof.
  assert (Hpos : (0 < length (page st))%nat) by (inversion Ho; lia).
  destruct (clear_live_ok l (page st) (length (page st)) Ho Hd Hmarks Hpos) as (H1 & H2 & H3).
  destruct (fold_toggles (headerToggles st) (clear_live (length (page st)) 0 (page st))) as (G1 & G2 & G3).
  set (d := foldl _ _ _) in *. cbv zeta. split_and!.
  - by etransitivity.
  - intros t Ht. by rewrite G3, (bool_decide_true (t ∈ headerToggles st)), andb_false_r by done.
  - intros n Hn. rewrite G2. by apply H2.
Qed.

(** The page when a link has been marked. *)
Lemma marked_ok (d : dom) (j : nat) (hj : Heading) (li : nat) :
  recoloured (page st) d ->
  (forall t, t ∈ headerToggles st -> hasClass d t "expanded" = false) ->
  (forall n, n ∈ l -> hasClass d n "current-header" = false) ->
  headers st !! j = Some hj -> lis !! j = Some li ->
  let d' := updateHeaderExpanded (li + 2) (addClass (li + 2) "current-header" d) in
  recoloured (page st) d'
  /\ shows d' (headerToggles st) (Some (li + 2)%nat)
       (li :: enclosing (reverse (zip (take j (headers st)) (take j lis))) (level (h_tag hj))).
Proof.
  intros Hr Htog Hnone Hj Hli. cbv zeta. set (a := (li + 2)%nat). set (da := addClass a "current-header" d).
  assert (Hra : recoloured (page st) da) by (etransitivity; [exact Hr|apply recolour_add; by left]).
  pose proof (recoloured_listed _ _ _ _ Hra Hlisted) as Hl.
  destruct (ls_items _ _ _ Hl j hj li Hj Hli) as [(Hpa & _ & _ & Hlt & Hia & _) (ul & Hu & Hult & Hf)].
  fold a in Hpa, Hlt, Hia, Hu. inversion Hu as [? Hx|? p ul' Hx Hu']; subst; [congruence|].
  rewrite filter_cons, decide_False in Hf by congruence.
  destruct (expand_up_ok ul' p da (length da) Hu') as (G1 & G2 & G3).
  { apply bounded_length; [by eapply up_NoDup|]. by apply list.Forall_cons in Hult as [_ ?]. }
  assert (Hltd : (a < length d)%nat) by (unfold da, addClass in Hlt; by rewrite length_alter in Hlt).
  assert (Hal : a ∈ l).
  { pose proof (listed_anchors _ _ _ Hlisted) as Han.
    assert (Hin : a ∈ querySelectorAll (page st) 0 "header-in-summary").
    { rewrite Han. apply list_elem_of_lookup. exists j. by rewrite lookup_map, Hli. }
    rewrite (select_order l) in Hin by done. by apply list_elem_of_filter in Hin as [_ ?]. }
  unfold updateHeaderExpanded. rewrite Hx. split; [by etransitivity|split].
  - unfold marks. rewrite (recoloured_select (page st) _ _ l) by (done || by etransitivity).
    apply filter_single; [done|done|]. intros n Hn. rewrite G2. unfold da. rewrite hasClass_add, Hnone by done.
    rewrite (bool_decide_true ("current-header" = _)), (bool_decide_true (a < _)%nat) by done.
    by rewrite !andb_true_r.
  - intros t Ht. rewrite G3, Hf. unfold da. rewrite hasClass_add, Htog by done.
    rewrite (bool_decide_false ("expanded" = _)) by done. by rewrite andb_false_r.
Qed.

Lemma updateCurrentHeader_ok :
  let st' := updateCurrentHeader v st in
  recoloured (page st) (page st') /\ headers st' = headers st /\ headerToggles st' = headerToggles st
  /\ disableScroll st' = disableScroll st
  /\ match chosen v st with
     | None => shows (page st') (headerToggles st) None []
     | Some i => exists h j hj li, headers st !! i = Some h /\ headers st !! j = Some hj /\ lis !! j = Some li
         /\ h_id hj = h_id h
         /\ (forall k hk, (k < j)%nat -> headers st !! k = Some hk -> h_id hk <> h_id h)
         /\ shows (page st') (headerToggles st) (Some (li + 2)%nat)
              (li :: enclosing (reverse (zip (take j (headers st)) (take j lis))) (level (h_tag hj)))
     end.
Proof.
  destruct cleared_ok as (H1 & H2 & H3). rewrite updateCurrentHeader_eq by done.
  cbn [page with_page headers headerToggles disableScroll]. unfold current_page.
  pose proof (chosen_spec v st Hne) as Hch.
  set (d := foldl _ _ _) in *. destruct (chosen v st) as [i|]; cbn [mbind option_bind].
  - destruct Hch as [Hi _]. destruct (lookup_lt_is_Some_2 _ _ Hi) as [h Hh]. rewrite Hh.
    destruct (find_link d (headers st) lis i h (recoloured_listed _ _ _ _ H1 Hlisted) Hh)
      as (j & hj & li & Hj & Hli & Hid & Hmin & Hfind).
    rewrite Hfind. destruct (marked_ok d j hj li H1 H2 H3 Hj Hli) as [G1 G2].
    split_and!; try done. exists h, j, hj, li. done.
  - split_and!; try done. split.
    + unfold marks. rewrite (recoloured_select (page st) d _ l) by done. by apply filter_none.
    + intros t Ht. rewrite bool_decide_false; [by apply H2|]. by intros ?%not_elem_of_nil.
Qed.
End current.

(** ** Runs *)

(** What every handler keeps. *)
Definition steady (lis : list nat) (st : Toc) : Prop :=
  listed (page st) (headers st) lis /\ headers st <> [] /\ (length (marks (page st)) <= 1)%nat.

Lemma steady_update (lis : list nat) (v : View) (st : Toc) :
  steady lis st -> steady lis (updateCurrentHeader v st).
Proof.
  intros (Hl & Hne & Hm). pose proof Hl as [_ (l & Ho & Hd & _) _].
  destruct (updateCurrentHeader_ok v st lis l Hl Hne Ho Hd Hm) as (Hr & Eh & _ & _ & Hs).
  split_and!; [rewrite Eh; by eapply recoloured_listed|by rewrite Eh|].
  destruct (chosen v st).
  - destruct Hs as (? & ? & ? & ? & _ & _ & _ & _ & _ & -> & _). cbn. lia.
  - destruct Hs as [-> _]. cbn. lia.
Qed.

Lemma steady_page (lis : list nat) (st st' : Toc) :
  steady lis st -> headers st' = headers st -> page st' = page st -> steady lis st'.
Proof. unfold steady. by intros ? -> ->. Qed.

Lemma steady_reload (lis : list nat) (v : View) (st : Toc) :
  steady lis st -> steady lis (reloadCurrentHeader v st).
Proof.
  intros H. unfold reloadCurrentHeader. destruct (disableScroll st); [done|].
  apply steady_update. by eapply steady_page.
Qed.

Lemma steady_frame (lis : list nat) (v : View) (st : Toc) : steady lis st -> steady lis (on_frame v st).
Proof.
  intros H. unfold on_frame. cbv zeta. set (st1 := mkToc _ _ _ _ _ _ _ _).
  assert (H1 : steady lis st1) by (by eapply steady_page). clearbody st1. clear H.
  set (due := omap _ (frames st)). clearbody due.
  revert st1 H1. induction due as [|r due IH]; intros st1 H1; [exact H1|]. cbn [foldl]. apply IH.
  unfold click_frame. destruct (bottom_of v _); [|done]. apply steady_update. by eapply steady_page.
Qed.

Lemma steady_toggle (lis : list nat) (li : nat) (st : Toc) : steady lis st -> steady lis (on_toggle li st).
Proof.
  intros (Hl & Hne & Hm). pose proof Hl as [_ (l & Ho & Hd & _) _].
  assert (Hr : recoloured (page st) (toggleClass li "expanded" (page st))).
  { unfold toggleClass. destruct (hasClass _ _ _); [apply recolour_remove|apply recolour_add]; by right. }
  split_and!; [by eapply recoloured_listed|done|]. cbn [on_toggle with_page page].
  unfold marks in *. rewrite (recoloured_select (page st) _ _ l) by done. rewrite (select_order l) in Hm by done.
  rewrite (filter_ext_in _ (fun n => hasClass (page st) n "current-header")); [done|].
  intros n _. unfold toggleClass. destruct (hasClass (page st) li "expanded").
  - rewrite hasClass_remove, (bool_decide_false (_ = "expanded")) by done. by rewrite andb_false_r, andb_true_r.
  - rewrite hasClass_add, (bool_decide_false (_ = "expanded")) by done. by rewrite andb_false_r, orb_false_r.
Qed.

Lemma steady_event (lis : list nat) (st : Toc) (e : event) : steady lis st -> steady lis (on_event st e).
Proof.
  intros H. destruct e; cbn [on_event].
  - by apply steady_reload.
  - by eapply steady_page.
  - by apply steady_frame.
  - destruct (timers st =? 0)%nat; [done|]. by eapply steady_page.
  - case_bool_decide; [by apply steady_toggle|done].
Qed.

Lemma steady_run (lis : list nat) (es : list event) (st : Toc) : steady lis st -> steady lis (foldl on_event st es).
Proof. revert st. induction es as [|e es IH]; intros st H; [done|]. cbn. by apply IH, steady_event. Qed.

Lemma load_steady (d0 : dom) (act : nat) (headings : list Heading) :
  page_ok d0 act -> filter (fun h => eligible h = true) headings <> [] ->
  exists st lis, load (Some act) headings (initial d0) = Some st /\ steady lis st.
Proof.
  intros Hp Hne. destruct (load_listed d0 act headings Hp Hne) as (st & lis & E & Eh & Hl & Hno).
  exists st, lis. split_and!; [done|split_and!; [done|by rewrite Eh|]].
  destruct Hl as [_ (l & Ho & Hd & _) _]. unfold marks. rewrite (select_order l), filter_none by done. cbn. lia.
Qed.

(** C24. The sidebar follows the reader. From the loaded page, after any sequence of
    scrolling, clicks, animation frames and timers, at most one link is marked as the
    current heading (so the loop over the live collection clears them all); and when a
    scroll is handled, the chosen heading is the last of those from the first on whose top
    is above the threshold line, or the first heading when it is below the line but in the
    window. Then exactly the link of the first heading of its id is marked, and of the
    items that can be folded those that enclose that link are open and the others closed;
    when no heading is chosen no link is marked and they are all closed. *)
Theorem toc_follows_reader (d0 : dom) (act : nat) (headings : list Heading) (es : list event) (v : View) :
  page_ok d0 act -> filter (fun h => eligible h = true) headings <> [] ->
  exists st0 lis, load (Some act) headings (initial d0) = Some st0 /\
  let st := foldl on_event st0 es in
  let st' := reloadCurrentHeader v st in
  (length (marks (page st)) <= 1)%nat
  /\ (disableScroll st = true -> st' = st)
  /\ (disableScroll st = false ->
      let line := updateThreshold v st in
      match chosen v line with
      | None => shows (page st') (headerToggles st) None []
          /\ (threshold line < rect_top v 0)%Q /\ (innerHeight v <= rect_top v 0)%Q
      | Some i => exists h j hj li,
          headers st !! i = Some h /\ headers st !! j = Some hj /\ lis !! j = Some li /\ h_id hj = h_id h
          /\ (forall k hk, (k < j)%nat -> headers st !! k = Some hk -> h_id hk <> h_id h)
          /\ shows (page st') (headerToggles st) (Some (li + 2)%nat)
               (li :: enclosing (reverse (zip (take j (headers st)) (take j lis))) (level (h_tag hj)))
          /\ (((forall m, (m <= i)%nat -> (rect_top v m <= threshold line)%Q)
               /\ ((S i < length (headers st))%nat -> (threshold line < rect_top v (S i))%Q))
              \/ (i = 0%nat /\ (threshold line < rect_top v 0)%Q /\ (rect_top v 0 < innerHeight v)%Q))
      end).
Proof.
  intros Hp Hne. destruct (load_steady d0 act headings Hp Hne) as (st0 & lis & E & H0).
  exists st0, lis. split; [done|]. intros st st'.
  pose proof (steady_run lis es st0 H0) as (Hl & Hn & Hm). fold st in Hl, Hn, Hm.
  pose proof Hl as [_ (l & Ho & Hd & _) _].
  split_and!; [done|by unfold st', reloadCurrentHeader; intros ->|].
  intros Hdis line. unfold st', reloadCurrentHeader. rewrite Hdis. fold line.
  destruct (updateCurrentHeader_ok v line lis l Hl Hn Ho Hd Hm) as (_ & _ & _ & _ & Hs).
  pose proof (chosen_spec v line Hn) as Hch. destruct (chosen v line) as [i|]; [|by split].
  destruct Hs as (h & j & hj & li & H1 & H2 & H3 & H4 & H5 & H6). exists h, j, hj, li.
  by destruct Hch as [_ Hch].
Qed.

(** ** The threshold line at the ends of the page *)

Section ends.
Local Open Scope Q_scope.

Lemma Qmax_right (x y : Q) : x <= y -> Qmax x y == y.
Proof. apply Q.max_r. Qed.

Lemma Qmax_left (x y : Q) : y <= x -> Qmax x y == x.
Proof. apply Q.max_l. Qed.

(** At the bottom of the page the line may go down to the window's lower edge. *)
Lemma bottom_add_full (v : View) :
  150 <= innerHeight v -> scrollHeight v <= scrollTop_of v + innerHeight v ->
  adjustedBottomAdd v == innerHeight v - defaultDownThreshold.
Proof.
  intros Hh Hb. assert (Hpix : pixelsBelow v == 0) by (unfold pixelsBelow; apply Qmax_left; lra).
  assert (Hadd : bottomAdd v == innerHeight v - defaultDownThreshold).
  { unfold bottomAdd, defaultDownThreshold. rewrite Hpix, Qmax_right by lra. lra. }
  unfold adjustedBottomAdd. destruct (Qltb (scrollHeight v) (innerHeight v * 2)); [|done].
  cbv zeta. rewrite Hpix, Hadd. unfold Qdiv. rewrite Qmult_0_l.
  assert (E : Qmax 0 (Qmin 1 (1 - 0)) == 1) by done. rewrite E. lra.
Qed.

(** At the top of a page of two windows or more nothing is added. *)
Lemma bottom_add_none (v : View) :
  innerHeight v * 2 <= scrollHeight v -> scrollTop_of v == 0 -> adjustedBottomAdd v == 0.
Proof.
  intros Hh Ht. unfold adjustedBottomAdd, Qltb. rewrite (proj2 (Qle_bool_iff _ _) Hh). cbn [negb].
  unfold bottomAdd. apply Qmax_left. unfold defaultDownThreshold, pixelsBelow.
  pose proof (Q.le_max_r 0 (scrollHeight v - (scrollTop_of v + innerHeight v))). lra.
Qed.

End ends.

Lemma last_above_all (line : Q) (top : nat -> Q) (n i : nat) (acc : option nat) :
  (forall m, (i <= m < i + n)%nat -> (top m <= line)%Q) ->
  last_above line top n i acc = if (n =? 0)%nat then acc else Some (i + n - 1)%nat.
Proof.
  revert i acc. induction n as [|n IH]; intros i acc H; [done|]. cbn [last_above].
  rewrite (proj2 (Qle_bool_iff _ _) (H i ltac:(lia))), IH by (intros m Hm; apply H; lia).
  cbn. destruct n; cbn; f_equal; lia.
Qed.

(** The line reaches both ends of the page. On a page taller than the window, a scroll
    down that reaches the bottom puts the line at or below the window's lower edge, so
    when every heading is in the window or above it the last one is chosen, however short
    its section is; and a scroll up that reaches the top of a page of two windows or more
    puts it at most 150 pixels below the top. When the page fits the window the line is at
    the top. *)
Theorem threshold_reaches_ends (v : View) (st : Toc) :
  let st' := updateThreshold v st in
  ((innerHeight v < scrollHeight v)%Q -> (150 <= innerHeight v)%Q ->
   (lastKnownScrollPosition st <= scrollTop_of v)%Q ->
   (scrollHeight v <= scrollTop_of v + innerHeight v)%Q ->
   (innerHeight v <= threshold st')%Q
   /\ ((forall i, (i < length (headers st))%nat -> (rect_top v i <= innerHeight v)%Q) ->
       headers st <> [] -> chosen v st' = Some (length (headers st) - 1)%nat))
  /\ ((innerHeight v * 2 <= scrollHeight v)%Q -> (innerHeight v < scrollHeight v)%Q ->
      (scrollTop_of v < lastKnownScrollPosition st)%Q -> (scrollTop_of v == 0)%Q ->
      (threshold st' <= 150)%Q)
  /\ ((scrollHeight v <= innerHeight v)%Q -> threshold st' = 0%Q).
Proof.
  cbv zeta. split_and!.
  - intros Htall Hh Hdown Hbot.
    assert (Hline : (innerHeight v <= threshold (updateThreshold v st))%Q).
    { unfold updateThreshold. cbn [threshold]. unfold Qltb at 1.
      rewrite (proj2 (Qle_bool_iff _ _) Hdown). cbn [negb].
      destruct (Qle_bool (scrollHeight v) (innerHeight v)) eqn:E; [apply Qle_bool_iff in E; lra|].
      eapply Qle_trans; [|apply Q.le_max_l]. rewrite (bottom_add_full v Hh Hbot).
      unfold defaultDownThreshold. lra. }
    split; [done|]. intros Htops Hne. unfold chosen. cbn [headers updateThreshold].
    rewrite last_above_all.
    + destruct (headers st) as [|h hs]; [done|]. done.
    + intros m Hm. eapply Qle_trans; [apply Htops; lia|exact Hline].
  - intros Hh Htall Hup Htop. unfold updateThreshold. cbn [threshold]. unfold Qltb at 1.
    destruct (Qle_bool (lastKnownScrollPosition st) (scrollTop_of v)) eqn:E1; [apply Qle_bool_iff in E1; lra|].
    cbn [negb]. destruct (Qle_bool (scrollHeight v) (innerHeight v)) eqn:E2; [lra|].
    eapply Qle_trans; [apply Q.le_min_l|]. rewrite (bottom_add_none v Hh Htop).
    unfold defaultUpThreshold, defaultDownThreshold, pixelsAbove, defaultDownThreshold.
    rewrite Qmax_right by lra. rewrite Qmax_left by lra. lra.
  - intros Hfit. unfold updateThreshold. cbn [threshold]. by rewrite (proj2 (Qle_bool_iff _ _) Hfit).
Qed.

(** ** Examples *)

(** A page with one chapter in its sidebar, and headings that start below h2 and skip a
    level. *)
Definition demo_page : dom :=
  [ mkNode "HTML" ∅ None [] None [1%nat];
    mkNode "LI" {["chapter-item"]} None [] (Some 0%nat) [2%nat];
    mkNode "SPAN" ∅ None [] (Some 1%nat) [3%nat];
    mkNode "A" {["active"]} (Some "guide.html") [] (Some 2%nat) [] ].

Definition demo_heading (t : HTag) (i : string) : Heading := mkHeading t i [Elem "A" [Text i]].

Definition demo_headings : list Heading :=
  [ demo_heading H3 "wire"; demo_heading H2 "agent"; demo_heading H4 "beat"; demo_heading H3 "panic";
    mkHeading H2 "" [Text "no link"]; demo_heading H4 "hook" ].

Lemma demo_page_ok : page_ok demo_page 3.
Proof.
  split.
  - exists [0; 1; 2; 3]%nat. split; [|split].
    + repeat (apply order_node; [cbn; lia|]; cbn; apply orders_single). apply order_node; [cbn; lia|constructor].
    + repeat (apply list.NoDup_cons; split; [set_solver|]). constructor.
    + exists 2%nat, 1%nat. split_and!; [done|done|cbn; set_solver|set_solver].
  - intros n q H. do 4 (destruct n as [|n]; [vm_compute in H; (discriminate H || (injection H as <-; lia))|]).
    discriminate H.
  - intros n. do 4 (destruct n as [|n]; [by vm_compute|]). done.
Qed.

Definition demo_view : View :=
  mkView 0 0 600 2000 (fun i => inject_Z (Z.of_nat i * 100)) (fun _ => None).

(** The items: "beat" and "panic" under "agent", "hook" under "panic". *)
Lemma demo_outline :
  match load (Some 3%nat) demo_headings (initial demo_page) with
  | Some st => map (fun a => filter (fun m => header_item (page st) m = true)
                               (climb (length (page st)) (page st) a))
                 (querySelectorAll (page st) 0 "header-in-summary")
               = [ [6]; [9]; [14; 9]; [17; 9]; [23; 17; 9] ]%nat
  | None => False
  end.
Proof. vm_compute. reflexivity. Qed.

Lemma toc_outline_witness :
  exists st lis, load (Some 3%nat) demo_headings (initial demo_page) = Some st
  /\ length lis = 5%nat
  /\ querySelectorAll (page st) 0 "header-in-summary" = map (fun li => li + 2)%nat lis.
Proof.
  destruct (toc_outline demo_page 3 demo_headings demo_page_ok) as (st & lis & E & Hh & Hl & Ha & _);
    [vm_compute; discriminate|].
  exists st, lis. split_and!; [done| |done]. rewrite Hl, Hh. vm_compute. reflexivity.
Defined.

Lemma toc_follows_reader_witness :
  exists st0, load (Some 3%nat) demo_headings (initial demo_page) = Some st0
  /\ (length (marks (page (foldl on_event st0 [Scrolled demo_view; ToggleClicked 17; Scrolled demo_view]))) <= 1)%nat.
Proof.
  destruct (toc_follows_reader demo_page 3 demo_headings
              [Scrolled demo_view; ToggleClicked 17; Scrolled demo_view] demo_view demo_page_ok)
    as (st0 & lis & E & H1 & _); [vm_compute; discriminate|].
  exists st0. split; [exact E|exact H1].
Defined.

Definition demo_bottom : View :=
  mkView 1400 1400 600 2000 (fun i => inject_Z (Z.of_nat i * 100)) (fun _ => None).
Definition demo_state : Toc :=
  mkToc 900 150 false (filter (fun h => eligible h = true) demo_headings) [] demo_page [] 0.

Lemma threshold_reaches_ends_witness : chosen demo_bottom (updateThreshold demo_bottom demo_state) = Some 4%nat.
Proof.
  destruct (threshold_reaches_ends demo_bottom demo_state) as [H _].
  destruct H as [_ H]; [vm_compute; congruence..|].
  apply H; [|vm_compute; discriminate].
  intros i Hi. vm_compute in Hi. do 5 (destruct i as [|i]; [vm_compute; congruence|]). lia.
Defined.
