(* ===== verification/Url.v ===== *)
(** * Percent-encoding and the query of a URL

    What the search page uses of the language and the browser to keep its state in the
    address: [encodeURIComponent] and [decodeURIComponent], the encoding the URL parser
    applies to a query, and the [parseURL]/[renderURL] of
    src/_site/book/searcher-c2a407aa.js. Texts are lists of UTF-16 code units. *)

From S2P Require Import Prelude Search.

(** ** UTF-16 and UTF-8 *)

Definition is_high (c : Z) : bool := (0xd800 <=? c) && (c <? 0xdc00).
Definition is_low (c : Z) : bool := (0xdc00 <=? c) && (c <? 0xe000).

(** The code points of a text; [None] for a surrogate without its partner. *)
Fixpoint code_points (s : text) : list (option Z) :=
  match s with
  | [] => []
  | c :: s' =>
      if is_high c then
        match s' with
        | d :: s'' =>
            if is_low d then Some (0x10000 + (c - 0xd800) * 1024 + (d - 0xdc00)) :: code_points s''
            else None :: code_points s'
        | [] => [None]
        end
      else if is_low c then None :: code_points s'
      else Some c :: code_points s'
  end.

Definition utf16 (p : Z) : text :=
  if p <? 0x10000 then [p]
  else [0xd800 + (p - 0x10000) / 1024; 0xdc00 + (p - 0x10000) mod 1024].

Definition utf8 (p : Z) : list Z :=
  if p <? 0x80 then [p]
  else if p <? 0x800 then [0xc0 + p / 64; 0x80 + p mod 64]
  else if p <? 0x10000 then [0xe0 + p / 4096; 0x80 + p / 64 mod 64; 0x80 + p mod 64]
  else [0xf0 + p / 262144; 0x80 + p / 4096 mod 64; 0x80 + p / 64 mod 64; 0x80 + p mod 64].

(** ** Percent-encoding *)

Definition hex_upper (d : Z) : Z := if d <? 10 then 48 + d else 55 + d.
Definition percent (b : Z) : text := [37; hex_upper (b / 16); hex_upper (b mod 16)].

Definition is_digit (c : Z) : bool := (48 <=? c) && (c <=? 57).
Definition is_alpha (c : Z) : bool := (65 <=? c) && (c <=? 90) || (97 <=? c) && (c <=? 122).

(** What [encodeURIComponent] leaves: letters, digits and [-_.!~*'()]. *)
Definition unreserved (c : Z) : bool :=
  is_alpha c || is_digit c || existsb (Z.eqb c) [45; 95; 46; 33; 126; 42; 39; 40; 41].

Definition encode_point (keep : Z -> bool) (p : Z) : text :=
  if keep p then [p] else concat (map percent (utf8 p)).

(** [None]: a URIError, for a lone surrogate. *)
Definition encodeURIComponent (s : text) : option text :=
  ps ← mapM id (code_points s); Some (concat (map (encode_point unreserved) ps)).

(** What the URL parser does to a part of the address: line breaks and tabs are dropped, a
    lone surrogate is replaced, and what is not to be kept is encoded. *)
Definition url_part (keep : Z -> bool) (s : text) : text :=
  let s := filter (fun c => c <> 9 /\ c <> 10 /\ c <> 13) s in
  concat (map (fun p => encode_point keep (default 0xfffd p)) (code_points s)).

(** A query keeps printable ASCII except quotes, [<], [>] and [#]; a fragment except the
    double quote, [<], [>] and the backquote. *)
Definition query_keep (c : Z) : bool :=
  (33 <=? c) && (c <=? 126) && negb (existsb (Z.eqb c) [34; 35; 39; 60; 62]).

Definition fragment_keep (c : Z) : bool :=
  (33 <=? c) && (c <=? 126) && negb (existsb (Z.eqb c) [34; 60; 62; 96]).

Definition url_query (s : text) : text := url_part query_keep s.
Definition url_fragment (s : text) : text := url_part fragment_keep s.

Definition hex_value (c : Z) : option Z :=
  if is_digit c then Some (c - 48)
  else if (65 <=? c) && (c <=? 70) then Some (c - 55)
  else if (97 <=? c) && (c <=? 102) then Some (c - 87)
  else None.

(** The byte of a percent escape at the head of [s], and what follows it. *)
Definition escape_at (s : text) : option (Z * text) :=
  match s with
  | p :: h :: l :: rest =>
      if p =? 37 then
        match hex_value h, hex_value l with Some h, Some l => Some (16 * h + l, rest) | _, _ => None end
      else None
  | _ => None
  end.

(** [k] continuation bytes, gathered into [acc]. *)
Fixpoint continuation (k : nat) (acc : Z) (s : text) : option (Z * text) :=
  match k with
  | O => Some (acc, s)
  | S k =>
      '(b, rest) ← escape_at s;
      if (0x80 <=? b) && (b <? 0xc0) then continuation k (64 * acc + (b - 0x80)) rest else None
  end.

(** The code point whose encoding starts with [b]. *)
Definition decode_point (b : Z) (s : text) : option (Z * text) :=
  if b <? 0x80 then Some (b, s)
  else
    '(k, acc, least) ←
      (if (0xc0 <=? b) && (b <? 0xe0) then Some (1%nat, b - 0xc0, 0x80)
       else if (0xe0 <=? b) && (b <? 0xf0) then Some (2%nat, b - 0xe0, 0x800)
       else if (0xf0 <=? b) && (b <? 0xf8) then Some (3%nat, b - 0xf0, 0x10000)
       else None);
    '(p, rest) ← continuation k acc s;
    if (least <=? p) && (p <=? 0x10ffff) && negb (is_high p || is_low p) then Some (p, rest) else None.

(** [decodeURIComponent], with as much fuel as the text is long. [None]: a URIError. *)
Fixpoint decode_from (fuel : nat) (s : text) : option text :=
  match fuel with
  | O => Some []
  | S fuel =>
      match s with
      | [] => Some []
      | c :: s' =>
          if c =? 37 then
            '(b, rest) ← escape_at s;
            '(p, rest) ← decode_point b rest;
            r ← decode_from fuel rest;
            Some (utf16 p ++ r)
          else r ← decode_from fuel s'; Some (c :: r)
      end
  end.

Definition decodeURIComponent (s : text) : option text := decode_from (length s) s.

Example decode_snowman : decodeURIComponent (txt "a%E2%98%83%20%F0%9F%98%80") = Some [97; 0x2603; 32; 0xd83d; 0xde00].
Proof. vm_compute. reflexivity. Qed.

(** ** [parseURL] and [renderURL] *)

(** The object [params]: its own properties in their order, integer-like names first and
    ascending, then the others as they were added. A property may be [undefined]. *)
Abbreviation params := (list (text * option text)).

Definition digits_value (k : text) : Z := foldl (fun n c => 10 * n + (c - 48)) 0 k.
Definition is_index (k : text) : bool :=
  match k with
  | [] => false
  | c :: k' => forallb is_digit k && (negb (c =? 48) || bool_decide (k' = [])) && (digits_value k <? 2 ^ 32 - 1)
  end.

Fixpoint replace_own (k : text) (v : option text) (ps : params) : params :=
  match ps with
  | [] => []
  | (k', v') :: ps => if decide (k' = k) then (k', v) :: ps else (k', v') :: replace_own k v ps
  end.

Fixpoint insert_index (k : text) (v : option text) (ps : params) : params :=
  match ps with
  | [] => [(k, v)]
  | (k', v') :: ps' =>
      if is_index k' && (digits_value k' <? digits_value k) then (k', v') :: insert_index k v ps'
      else (k, v) :: ps
  end.

(** [obj[k] = v]; assigning a string to [__proto__] does nothing. *)
Definition set_own (k : text) (v : option text) (ps : params) : params :=
  if decide (k = txt "__proto__") then ps
  else if decide (k ∈ map fst ps) then replace_own k v ps
  else if is_index k then insert_index k v ps
  else ps ++ [(k, v)].

Definition delete_own (k : text) (ps : params) : params := filter (fun e => e.1 <> k) ps.
Definition has_own (k : text) (ps : params) : bool := bool_decide (k ∈ map fst ps).
Definition get_own (k : text) (ps : params) : option (option text) :=
  snd <$> List.find (fun e => bool_decide (e.1 = k)) ps.

(** The loop over the parts of the query. *)
Definition parse_part (ps : params) (part : text) : params :=
  if decide (part = []) then ps
  else
    let s := split (txt "=") part in
    set_own (default [] (s !! 0%nat)) (s !! 1%nat) ps.

Definition parse_query (q : text) : params := foldl parse_part [] (split (txt "&") q).

(** The page's address: [l_base] is all up to the path, which [parseURL] takes apart and
    [renderURL] puts together again. *)
Record Location : Type := mkLocation { l_base : text; l_query : text; l_hash : text }.
Record URL : Type := mkURL { u_base : text; u_params : params; u_hash : text }.

Definition parseURL (l : Location) : URL := mkURL (l_base l) (parse_query (l_query l)) (l_hash l).

Definition render_param (e : text * option text) : text :=
  e.1 ++ txt "=" ++ default (txt "undefined") e.2.

Definition render_tail (u : URL) : text :=
  (match u_params u with
   | [] => []
   | e :: ps => txt "?" ++ render_param e ++ concat (map (fun e => txt "&" ++ render_param e) ps)
   end)
  ++ (if decide (u_hash u = []) then [] else txt "#" ++ u_hash u).

Definition renderURL (u : URL) : text := u_base u ++ render_tail u.

Fixpoint take_until (c : Z) (s : text) : text :=
  match s with [] => [] | x :: s => if x =? c then [] else x :: take_until c s end.
Definition drop_until (c : Z) (s : text) : text := drop (S (length (take_until c s))) s.

(** The URL parser first takes control characters and spaces off the end of its input. *)
Fixpoint skip_controls (s : text) : text :=
  match s with [] => [] | c :: s' => if c <=? 32 then skip_controls s' else s end.
Definition strip_end (s : text) : text := reverse (skip_controls (reverse s)).

(** What the browser makes of a rendered address: the first [#] starts the fragment. The base
    is a scheme, host and path the browser reported, and stays. *)
Definition go_to (u : URL) : Location :=
  let tail := strip_end (render_tail u) in
  mkLocation (u_base u) (url_query (drop 1 (take_until 35 tail))) (url_fragment (drop_until 35 tail)).

(** ** Encoding and decoding are inverse *)

(** A text without lone surrogates. *)
Definition well_formed (s : text) : Prop := Forall is_Some (code_points s) /\ Forall (fun c => 0 <= c < 2 ^ 16) s.

Definition valid_point (p : Z) : Prop := 0 <= p <= 0x10ffff /\ is_high p = false /\ is_low p = false.

Lemma is_high_spec c : is_high c = true <-> 0xd800 <= c < 0xdc00.
Proof. unfold is_high. rewrite andb_true_iff, Z.leb_le, Z.ltb_lt. lia. Qed.

Lemma is_low_spec c : is_low c = true <-> 0xdc00 <= c < 0xe000.
Proof. unfold is_low. rewrite andb_true_iff, Z.leb_le, Z.ltb_lt. lia. Qed.

Lemma not_surrogate c : is_high c = false -> is_low c = false -> c < 0xd800 \/ 0xe000 <= c.
Proof.
  intros H1 H2. destruct (decide (0xd800 <= c < 0xdc00)) as [H%is_high_spec|]; [congruence|].
  destruct (decide (0xdc00 <= c < 0xe000)) as [H%is_low_spec|]; [congruence|]. lia.
Qed.

(** Texts by their code points: one unit, or a pair of surrogates. *)
Lemma well_formed_ind (P : text -> list Z -> Prop) :
  P [] [] ->
  (forall c s ps, 0 <= c < 2 ^ 16 -> is_high c = false -> is_low c = false -> P s ps -> P (c :: s) (c :: ps)) ->
  (forall c d s ps, is_high c = true -> is_low d = true -> P s ps ->
     P (c :: d :: s) (0x10000 + (c - 0xd800) * 1024 + (d - 0xdc00) :: ps)) ->
  forall s, well_formed s -> exists ps, code_points s = map Some ps /\ P s ps.
Proof.
  intros Hnil Hone Htwo s. remember (length s) as n eqn:Hn. revert s Hn.
  induction (lt_wf n) as [n _ IH]. intros s -> [Hw Hr].
  destruct s as [|c s]; [by exists []|]. cbn [code_points] in Hw |- *.
  apply list.Forall_cons in Hr as [Hc Hr].
  destruct (is_high c) eqn:Hh.
  - destruct s as [|d s]; [by apply list.Forall_cons in Hw as [[? ?] _]|].
    destruct (is_low d) eqn:Hl; apply list.Forall_cons in Hw as [Hs Hw]; [|by destruct Hs].
    apply list.Forall_cons in Hr as [_ Hr].
    destruct (IH (length s) ltac:(cbn; lia) s eq_refl) as (ps & E & HP); [by split|].
    eexists (_ :: ps). cbn [map]. rewrite E. split; [done|]. by apply Htwo.
  - destruct (is_low c) eqn:Hl; apply list.Forall_cons in Hw as [Hs Hw]; [by destruct Hs|].
    destruct (IH (length s) ltac:(cbn; lia) s eq_refl) as (ps & E & HP); [by split|].
    exists (c :: ps). cbn [map]. rewrite E. split; [done|]. by apply Hone.
Qed.

Lemma code_points_app (s s' : text) : well_formed s -> code_points (s ++ s') = code_points s ++ code_points s'.
Proof.
  intros Hw. pose (P := fun (s : text) (_ : list Z) => code_points (s ++ s') = code_points s ++ code_points s').
  destruct (well_formed_ind P) with (s := s) as (ps & _ & H); [done| | |done|exact H].
  - intros c t ps _ Hh Hl IH. unfold P in *. cbn [app code_points]. by rewrite Hh, Hl, IH.
  - intros c d t ps Hh Hl IH. unfold P in *. cbn [app code_points]. by rewrite Hh, Hl, IH.
Qed.

(** The code points are valid, and their UTF-16 form is the text. *)
Lemma code_points_spec (s : text) :
  well_formed s -> exists ps, code_points s = map Some ps /\ Forall valid_point ps /\ concat (map utf16 ps) = s.
Proof.
  intros Hw. pose (P := fun (s : text) (ps : list Z) => Forall valid_point ps /\ concat (map utf16 ps) = s).
  destruct (well_formed_ind P) with (s := s) as (ps & E & H); [by split| | |done|by exists ps].
  - intros c t ps Hc Hh Hl [H1 H2]. split; [constructor; [split_and!; done || lia|done]|].
    cbn [map concat]. unfold utf16 at 1. rewrite (proj2 (Z.ltb_lt c _)) by lia. cbn. by rewrite H2.
  - intros c d t ps Hh%is_high_spec Hl%is_low_spec [H1 H2]. split.
    + constructor; [|done]. split_and!; [lia|lia| |]; apply not_true_is_false;
        [rewrite is_high_spec|rewrite is_low_spec]; lia.
    + cbn [map concat]. unfold utf16 at 1.
      set (p := 0x10000 + (c - 0xd800) * 1024 + (d - 0xdc00)).
      rewrite (proj2 (Z.ltb_ge p _)) by (unfold p; lia). cbn. rewrite H2.
      f_equal; [unfold p; Z.to_euclidean_division_equations; lia|].
      f_equal. unfold p. Z.to_euclidean_division_equations; lia.
Qed.

Lemma escape_at_percent (b : Z) (s : text) : 0 <= b < 256 -> escape_at (percent b ++ s) = Some (b, s).
Proof.
  intros Hb. unfold percent. cbn [app escape_at]. rewrite Z.eqb_refl.
  assert (Hhex : forall d, 0 <= d < 16 -> hex_value (hex_upper d) = Some d).
  { intros d Hd. unfold hex_upper, hex_value, is_digit.
    repeat case_match; boolify; f_equal; lia. }
  rewrite !Hhex by (Z.to_euclidean_division_equations; lia).
  do 2 f_equal. Z.to_euclidean_division_equations; lia.
Qed.

Lemma continuation_step (k : nat) (acc b : Z) (s : text) :
  0x80 <= b < 0xc0 -> continuation (S k) acc (percent b ++ s) = continuation k (64 * acc + (b - 0x80)) s.
Proof.
  intros Hb. cbn [continuation]. rewrite escape_at_percent by lia. cbn [mbind option_bind].
  by rewrite (proj2 (Z.leb_le _ _)), (proj2 (Z.ltb_lt b _)) by lia.
Qed.

(** The bytes of a code point decode to it. *)
Lemma decode_utf8 (p : Z) (rest : text) :
  valid_point p ->
  exists b bs, utf8 p = b :: bs /\ 0 <= b < 256 /\ decode_point b (concat (map percent bs) ++ rest) = Some (p, rest).
Proof.
  intros (Hp & Hh & Hl). pose proof (not_surrogate p Hh Hl) as Hs. unfold utf8.
  destruct (Z.ltb_spec p 0x80).
  { exists p, []. split_and!; [done|lia|lia|]. unfold decode_point. by rewrite (proj2 (Z.ltb_lt p _)) by lia. }
  assert (Hok : forall least, least <= p -> (least <=? p) && (p <=? 0x10ffff) && negb (is_high p || is_low p) = true).
  { intros least Hle. by rewrite Hh, Hl, (proj2 (Z.leb_le least p)), (proj2 (Z.leb_le p _)) by lia. }
  assert (Hlead : forall b lo hi, lo <= b < hi -> (lo <=? b) && (b <? hi) = true)
    by (intros b lo hi Hb; by rewrite (proj2 (Z.leb_le lo b)), (proj2 (Z.ltb_lt b hi)) by lia).
  assert (Hout : forall b lo hi, hi <= b -> (lo <=? b) && (b <? hi) = false)
    by (intros b lo hi Hb; by rewrite (proj2 (Z.ltb_ge b hi)), andb_false_r by lia).
  destruct (Z.ltb_spec p 0x800); [|destruct (Z.ltb_spec p 0x10000)]; eexists _, _;
    (split; [reflexivity|split; [Z.to_euclidean_division_equations; lia|]]);
    cbn [map concat app]; rewrite <- ?app_assoc; unfold decode_point;
    (rewrite (proj2 (Z.ltb_ge _ 0x80)) by (Z.to_euclidean_division_equations; lia)).
  - rewrite Hlead by (Z.to_euclidean_division_equations; lia). cbn [mbind option_bind].
    rewrite continuation_step by (Z.to_euclidean_division_equations; lia). cbn [continuation mbind option_bind app].
    replace (64 * _ + _) with p by (Z.to_euclidean_division_equations; lia). by rewrite Hok.
  - rewrite (Hout _ 0xc0 0xe0), Hlead by (Z.to_euclidean_division_equations; lia). cbn [mbind option_bind].
    do 2 (rewrite continuation_step by (Z.to_euclidean_division_equations; lia)).
    cbn [continuation mbind option_bind app].
    replace (64 * _ + _) with p by (Z.to_euclidean_division_equations; lia). by rewrite Hok.
  - rewrite (Hout _ 0xc0 0xe0), (Hout _ 0xe0 0xf0), Hlead by (Z.to_euclidean_division_equations; lia).
    cbn [mbind option_bind].
    do 3 (rewrite continuation_step by (Z.to_euclidean_division_equations; lia)).
    cbn [continuation mbind option_bind app].
    replace (64 * _ + _) with p by (Z.to_euclidean_division_equations; lia). by rewrite Hok.
Qed.

Lemma decode_encoded (keep : Z -> bool) (ps : list Z) :
  (forall p, keep p = true -> p < 0x80) ->
  Forall (fun p => valid_point p /\ (keep p = true -> p <> 37)) ps ->
  forall fuel, (length (concat (map (encode_point keep) ps)) <= fuel)%nat ->
  decode_from fuel (concat (map (encode_point keep) ps)) = Some (concat (map utf16 ps)).
Proof.
  intros Hk. induction ps as [|p ps IH]; intros Hps fuel Hf; [by destruct fuel|].
  apply list.Forall_cons in Hps as [[Hv H37] Hps]. cbn [map concat] in Hf |- *.
  rewrite length_app in Hf. unfold encode_point in Hf at 1. unfold encode_point at 1.
  destruct (keep p) eqn:E.
  - destruct fuel as [|fuel]; [cbn in Hf; lia|]. cbn [app decode_from].
    rewrite (proj2 (Z.eqb_neq p 37)) by auto. rewrite IH by (done || (cbn in Hf; lia)). cbn [mbind option_bind].
    unfold utf16 at 2. by rewrite (proj2 (Z.ltb_lt p _)) by (pose proof (Hk p E); lia).
  - destruct (decode_utf8 p (concat (map (encode_point keep) ps)) Hv) as (b & bs & Eu & Hb & Hd).
    rewrite Eu in Hf |- *. cbn [map concat] in Hf |- *. rewrite <- app_assoc.
    destruct fuel as [|fuel]; [cbn in Hf; lia|].
    cbn [decode_from]. unfold percent at 1. cbn [app]. rewrite Z.eqb_refl.
    change (37 :: hex_upper (b / 16) :: hex_upper (b mod 16) :: ?x) with (percent b ++ x).
    rewrite escape_at_percent by done. cbn [mbind option_bind]. rewrite Hd. cbn [mbind option_bind].
    rewrite IH; [done|done|]. unfold percent in Hf. cbn in Hf. lia.
Qed.

(** ** The query *)

Lemma query_keep_range c : query_keep c = true -> 33 <= c <= 126 /\ c <> 35.
Proof.
  unfold query_keep. intros H. boolify. split; [lia|]. intros ->. done.
Qed.

(** Texts a query keeps as they are. *)
Definition kept (s : text) : Prop := Forall (fun c => query_keep c = true) s.

Lemma kept_well_formed (s : text) : kept s -> well_formed s /\ code_points s = map Some s.
Proof.
  induction 1 as [|c s Hc Hs [[IH1 IH2] IH3]]; [by split; [split; constructor|]|].
  apply query_keep_range in Hc as Hr.
  assert (Hp : code_points (c :: s) = Some c :: code_points s).
  { cbn [code_points]. rewrite (not_true_is_false (is_high c)), (not_true_is_false (is_low c)); [done| |];
      [rewrite is_low_spec|rewrite is_high_spec]; lia. }
  split; [split|]; rewrite ?Hp; [by constructor|constructor; [lia|done]|by rewrite IH3].
Qed.

(** A text the parser drops nothing of. *)
Definition unbroken (s : text) : Prop := Forall (fun c => c <> 9 /\ c <> 10 /\ c <> 13) s.

Lemma unbroken_filter (s : text) : unbroken s -> filter (fun c => c <> 9 /\ c <> 10 /\ c <> 13) s = s.
Proof. induction 1; [done|]. rewrite filter_cons, decide_True by done. by f_equal. Qed.

Lemma kept_unbroken (s : text) : kept s -> unbroken s.
Proof. intros H. eapply list.Forall_impl; [exact H|]. cbn. intros c Hc%query_keep_range. lia. Qed.

Lemma url_query_app (s s' : text) :
  well_formed s -> unbroken s -> url_query (s ++ s') = url_query s ++ url_query s'.
Proof.
  intros Hw Hu. unfold url_query, url_part. cbv zeta. rewrite list.filter_app, (unbroken_filter s) by done.
  by rewrite code_points_app, map_app, concat_app.
Qed.

Lemma url_query_kept (s : text) : kept s -> url_query s = s.
Proof.
  intros Hk. unfold url_query, url_part. cbv zeta. rewrite unbroken_filter by (by apply kept_unbroken).
  rewrite (proj2 (kept_well_formed s Hk)), map_map. cbn.
  induction Hk as [|c s Hc Hs IH]; [done|]. cbn [map concat]. unfold encode_point at 1. by rewrite Hc, IH.
Qed.

(** A text whose end the parser leaves. *)
Definition visible_end (s : text) : Prop := forall a c, s = a ++ [c] -> 32 < c.

Lemma strip_end_visible (s : text) : visible_end s -> strip_end s = s.
Proof.
  unfold strip_end. destruct s as [|c s] using rev_ind; intros Hv; [done|].
  rewrite reverse_snoc. cbn [skip_controls]. rewrite (proj2 (Z.leb_gt c 32)) by (by eapply Hv).
  by rewrite reverse_cons, reverse_involutive.
Qed.

Lemma visible_end_app (s s' : text) : visible_end s -> visible_end s' -> visible_end (s ++ s').
Proof.
  intros H H'. destruct s' as [|d s' _] using rev_ind; [by rewrite app_nil_r|].
  intros a c E. rewrite app_assoc in E. apply app_inj_tail in E as [_ <-]. by eapply H'.
Qed.

Lemma visible_end_concat (l : list text) : Forall visible_end l -> visible_end (concat l).
Proof. induction 1; cbn; [by intros [|? ?] ? [=]|by apply visible_end_app]. Qed.

Lemma kept_visible (s : text) : kept s -> visible_end s.
Proof.
  intros Hk a c ->. unfold kept in Hk. apply list.Forall_app in Hk as [_ [Hc%query_keep_range _]%list.Forall_cons]. lia.
Qed.

(** A term that survives the address: no lone surrogate, no line break, none of [&=#%+] and
    no control character at the end. *)
Record address_safe (t : text) : Prop := {
  as_visible : visible_end t;
  as_wf : well_formed t;
  as_unbroken : unbroken t;
  as_plain : Forall (fun c => c <> 38 /\ c <> 61 /\ c <> 35 /\ c <> 37 /\ c <> 43) t;
}.

Lemma utf8_bytes (p : Z) : valid_point p -> Forall (fun b => 0 <= b < 256) (utf8 p).
Proof.
  intros (Hp & _). unfold utf8. repeat case_match; boolify;
    repeat constructor; Z.to_euclidean_division_equations; lia.
Qed.

Lemma percent_units (b c : Z) : 0 <= b < 256 -> c ∈ percent b -> c = 37 \/ 48 <= c <= 57 \/ 65 <= c <= 70.
Proof.
  intros Hb Hc. assert (Hx : forall d, 0 <= d < 16 -> 48 <= hex_upper d <= 57 \/ 65 <= hex_upper d <= 70)
    by (intros d Hd; unfold hex_upper; case_match; boolify; lia).
  unfold percent in Hc. repeat (apply elem_of_cons in Hc as [->|Hc]).
  - by left.
  - right. apply Hx. Z.to_euclidean_division_equations; lia.
  - right. apply Hx. Z.to_euclidean_division_equations; lia.
  - by apply not_elem_of_nil in Hc.
Qed.

(** The units of an encoded term: its own, or those of escapes. *)
Lemma url_query_units (t : text) (c : Z) :
  well_formed t -> unbroken t -> c ∈ url_query t -> query_keep c = true /\ (c ∈ t \/ c = 37 \/ 48 <= c <= 57 \/ 65 <= c <= 70).
Proof.
  intros Hw Hu Hc. destruct (code_points_spec t Hw) as (ps & E & Hv & Ht).
  unfold url_query, url_part in Hc. cbv zeta in Hc. rewrite unbroken_filter, E, map_map in Hc by done. cbn in Hc.
  apply list_elem_of_In, in_concat in Hc as (x & Hx & Hc). apply in_map_iff in Hx as (p & <- & Hp).
  apply list_elem_of_In in Hc, Hp. rewrite list.Forall_forall in Hv. specialize (Hv p Hp). unfold encode_point in Hc.
  destruct (query_keep p) eqn:Ek.
  - apply list_elem_of_singleton in Hc as ->. split; [done|]. left. rewrite <- Ht.
    apply list_elem_of_In, in_concat. exists (utf16 p). split; [by apply in_map, list_elem_of_In|].
    unfold utf16. apply query_keep_range in Ek. rewrite (proj2 (Z.ltb_lt p _)) by lia. by left.
  - apply list_elem_of_In, in_concat in Hc as (y & Hy & Hc). apply in_map_iff in Hy as (b & <- & Hb).
    apply list_elem_of_In in Hc, Hb. pose proof (utf8_bytes p Hv) as Hbs. rewrite list.Forall_forall in Hbs.
    pose proof (percent_units b c (Hbs b Hb) Hc) as Hcase. split; [|by right].
    unfold query_keep. destruct Hcase as [->|Hc']; [done|].
    rewrite (proj2 (Z.leb_le 33 c)), (proj2 (Z.leb_le c 126)) by lia. cbn [andb].
    apply negb_true_iff. cbn. rewrite !(proj2 (Z.eqb_neq c _)) by lia. done.
Qed.

(** Splitting at one unit. *)
Lemma split_unit_step (c : Z) (acc a b : text) :
  c ∉ a -> split_from [c] 0 acc (a ++ c :: b) = (acc ++ a) :: split_from [c] 0 [] b.
Proof.
  revert acc. induction a as [|x a IH]; intros acc Hc; cbn [app split_from].
  - rewrite bool_decide_true by (by eexists). cbn. by rewrite app_nil_r.
  - apply not_elem_of_cons in Hc as [Hx Hc].
    rewrite bool_decide_false by (intros ?%prefix_cons_inv_1; congruence).
    rewrite IH by done. by rewrite <- app_assoc.
Qed.

Lemma split_unit_end (c : Z) (acc a : text) : c ∉ a -> split_from [c] 0 acc a = [acc ++ a].
Proof.
  revert acc. induction a as [|x a IH]; intros acc Hc; cbn [split_from]; [by rewrite app_nil_r|].
  apply not_elem_of_cons in Hc as [Hx Hc].
  rewrite bool_decide_false by (intros ?%prefix_cons_inv_1; congruence).
  rewrite IH by done. by rewrite <- app_assoc.
Qed.

(** The parts of a query are the parts it was put together from. *)
Lemma split_parts (c : Z) (x : text) (l : list text) :
  Forall (fun y => c ∉ y) (x :: l) -> split [c] (x ++ concat (map (cons c) l)) = x :: l.
Proof.
  revert x. induction l as [|y l IH]; intros x [Hx Hl]%list.Forall_cons; unfold split.
  - cbn. rewrite app_nil_r. by rewrite split_unit_end.
  - cbn [map concat app]. rewrite split_unit_step by done. f_equal. by apply IH.
Qed.

Lemma split_pieces (c : Z) (s : text) : Forall (fun y => (c ∉ y) /\ (forall x, x ∈ y -> x ∈ s)) (split [c] s).
Proof.
  unfold split. assert (H : forall acc, c ∉ acc -> Forall (fun y => (c ∉ y) /\ (forall x, x ∈ y -> x ∈ acc ++ s))
                                             (split_from [c] 0 acc s)); [|apply (H []), not_elem_of_nil].
  induction s as [|x s IH]; intros acc Hacc; cbn [split_from].
  - rewrite app_nil_r. by repeat constructor.
  - case_bool_decide as Hp.
    + cbn [length Nat.sub]. constructor; [split; [done|set_solver]|].
      eapply list.Forall_impl; [apply IH; set_solver|]. cbn. intros y [H1 H2]. split; [done|]. set_solver.
    + assert (x <> c) by (intros ->; apply Hp; by eexists).
      eapply list.Forall_impl; [apply (IH (acc ++ [x])); set_solver|]. cbn.
      intros y [H1 H2]. split; [done|]. intros z Hz. specialize (H2 z Hz). set_solver.
Qed.

(** ** Own properties *)

Lemma replace_own_keys k v ps : map fst (replace_own k v ps) = map fst ps.
Proof. induction ps as [|[k' v'] ps IH]; [done|]. cbn. case_decide; cbn; congruence. Qed.

Lemma insert_index_perm k v ps : insert_index k v ps ≡ₚ ((k, v) :: ps).
Proof.
  induction ps as [|[k' v'] ps IH]; [done|]. cbn [insert_index]. case_match; [|done].
  rewrite IH. apply Permutation_swap.
Qed.

Lemma NoDup_map_fst_perm (ps ps' : params) : ps ≡ₚ ps' -> NoDup (map fst ps') -> NoDup (map fst ps).
Proof. intros Hp. by rewrite Hp. Qed.

Lemma set_own_NoDup k v ps : NoDup (map fst ps) -> NoDup (map fst (set_own k v ps)).
Proof.
  intros Hd. unfold set_own. repeat case_decide; [done| |]; [by rewrite replace_own_keys|].
  assert (Hc : NoDup (map fst ((k, v) :: ps))) by (cbn; by constructor).
  case_match; [eapply NoDup_map_fst_perm; [apply insert_index_perm|done]|].
  eapply NoDup_map_fst_perm; [|exact Hc]. by rewrite Permutation_app_comm.
Qed.

(** The property [k] after it is set: its only entry. *)
Lemma set_own_entry k v ps :
  k <> txt "__proto__" -> NoDup (map fst ps) ->
  exists l1 l2, set_own k v ps = l1 ++ (k, v) :: l2 /\ (k ∉ map fst l1) /\ (k ∉ map fst l2)
  /\ (forall e, e ∈ l1 ++ l2 -> e ∈ ps).
Proof.
  intros Hk Hd. unfold set_own. rewrite decide_False by done. case_decide as Hin.
  - apply list_elem_of_In, in_map_iff in Hin as ([k' v'] & Ek & Hin%list_elem_of_In). cbn in Ek. subst k'.
    apply list_elem_of_split in Hin as (l1 & l2 & ->). exists l1, l2.
    rewrite map_app in Hd. cbn in Hd. apply list.NoDup_app in Hd as (_ & H1 & [H2 _]%list.NoDup_cons).
    assert (Hl1 : k ∉ map fst l1) by (intros H; apply (H1 k H); left).
    split_and!; [|done|done|set_solver].
    clear -Hl1. induction l1 as [|[a b] l1 IH]; cbn; [by rewrite decide_True|].
    cbn in Hl1. apply not_elem_of_cons in Hl1 as [? Hl1]. rewrite decide_False by done. by rewrite IH.
  - case_match.
    + clear Hd. assert (H' : exists l1 l2, insert_index k v ps = l1 ++ (k, v) :: l2 /\ ps = l1 ++ l2).
      { clear. induction ps as [|[a b] ps IH]; [by exists [], []|]. cbn [insert_index]. case_match.
        - destruct IH as (l1 & l2 & -> & ->). by exists ((a, b) :: l1), l2.
        - by exists [], ((a, b) :: ps). }
      destruct H' as (l1 & l2 & E & ->). exists l1, l2. rewrite map_app in Hin. split_and!; [done|set_solver..].
    + exists ps, []. rewrite app_nil_r. split_and!; [done|done|set_solver|done].
Qed.

Lemma get_own_app k v l1 l2 : k ∉ map fst l1 -> get_own k (l1 ++ (k, v) :: l2) = Some v.
Proof.
  unfold get_own. induction l1 as [|[a b] l1 IH]; cbn; intros H.
  - by rewrite bool_decide_true.
  - apply not_elem_of_cons in H as [Ha H]. rewrite bool_decide_false by congruence. by apply IH.
Qed.

Lemma get_set_own k v ps : k <> txt "__proto__" -> NoDup (map fst ps) -> get_own k (set_own k v ps) = Some v.
Proof.
  intros Hk Hd. destruct (set_own_entry k v ps Hk Hd) as (l1 & l2 & -> & H1 & _). by apply get_own_app.
Qed.

Lemma get_set_other k k' v ps : k' <> k -> get_own k (set_own k' v ps) = get_own k ps.
Proof.
  intros Hne. unfold set_own, get_own. repeat case_decide; [done| |]; [|case_match].
  - clear -Hne. induction ps as [|[a b] ps IH]; [done|]. cbn. case_decide as Ha; cbn.
    + subst a. by rewrite bool_decide_false.
    + case_bool_decide; [done|]. exact IH.
  - clear -Hne. induction ps as [|[a b] ps IH]; cbn; [by rewrite bool_decide_false|].
    case_match; cbn; [case_bool_decide; [done|exact IH]|by rewrite bool_decide_false].
  - clear -Hne. induction ps as [|[a b] ps IH]; cbn; [by rewrite bool_decide_false|].
    case_bool_decide; [done|exact IH].
Qed.

Lemma parse_query_NoDup (q : text) : NoDup (map fst (parse_query q)).
Proof.
  unfold parse_query. assert (H0 : NoDup (map fst ([] : params))) by constructor. revert H0.
  generalize ([] : params). induction (split (txt "&") q) as [|y l IH]; intros ps Hd; [done|].
  cbn [foldl]. apply IH. unfold parse_part. case_decide; [done|]. by apply set_own_NoDup.
Qed.

Lemma get_delete_same k ps : get_own k (delete_own k ps) = None.
Proof.
  unfold get_own, delete_own. induction ps as [|[a b] ps IH]; [done|]. rewrite filter_cons.
  case_decide as Ha; [|exact IH]. cbn. rewrite bool_decide_false by done. exact IH.
Qed.

Lemma get_delete_other k k' ps : k' <> k -> get_own k (delete_own k' ps) = get_own k ps.
Proof.
  intros Hne. unfold get_own, delete_own. induction ps as [|[a b] ps IH]; [done|]. rewrite filter_cons.
  case_decide as Ha; cbn; [case_bool_decide; [done|exact IH]|].
  destruct (decide (a = k')) as [->|Hn]; [|by destruct Ha]. rewrite bool_decide_false by done. exact IH.
Qed.

(** ** From an address back to its parameters *)

(** Values and names a rendered query can carry. *)
Definition value_ok (v : text) : Prop :=
  well_formed v /\ unbroken v /\ (38 ∉ v) /\ (61 ∉ v) /\ (35 ∉ v) /\ visible_end v.
Definition name_ok (k : text) : Prop := kept k /\ (38 ∉ k) /\ (61 ∉ k).
Definition entry_value (e : text * option text) : text := default (txt "undefined") e.2.
Definition entry_ok (e : text * option text) : Prop := name_ok e.1 /\ value_ok (entry_value e).

Lemma kept_value_ok (v : text) : kept v -> 38 ∉ v -> 61 ∉ v -> value_ok v.
Proof.
  intros Hk H1 H2. split_and!; [by apply kept_well_formed|by apply kept_unbroken|done|done| |by apply kept_visible].
  intros H. unfold kept in Hk. rewrite list.Forall_forall in Hk. by destruct (query_keep_range _ (Hk _ H)).
Qed.

Lemma undefined_ok : value_ok (txt "undefined").
Proof. apply kept_value_ok; [by repeat constructor|by vm_compute; set_solver..]. Qed.

Lemma set_own_Forall (P : text * option text -> Prop) k v ps :
  P (k, v) -> Forall P ps -> Forall P (set_own k v ps).
Proof.
  intros Hp H. unfold set_own. repeat case_decide; [done| |]; [|case_match].
  - induction H as [|[a b] l Ha Hl IH]; cbn; [done|]. case_decide; [subst|]; constructor; try done.
    apply IH. set_solver.
  - rewrite insert_index_perm. by constructor.
  - apply list.Forall_app. by split; [|constructor].
Qed.

Lemma parse_part_ok (ps : params) (part : text) :
  kept part -> 38 ∉ part -> NoDup (map fst ps) -> Forall entry_ok ps ->
  NoDup (map fst (parse_part ps part)) /\ Forall entry_ok (parse_part ps part).
Proof.
  intros Hk Ha Hd He. unfold parse_part. case_decide; [done|]. cbv zeta.
  split; [by apply set_own_NoDup|]. apply set_own_Forall; [|done].
  pose proof (split_pieces 61 part) as Hs. change (txt "=") with [61].
  assert (Hpiece : forall y, y ∈ split [61] part -> kept y /\ (38 ∉ y) /\ (61 ∉ y)).
  { intros y Hy. rewrite list.Forall_forall in Hs. destruct (Hs y Hy) as [H1 H2].
    split_and!; [|by intros ?%H2|done]. apply list.Forall_forall. intros x Hx.
    unfold kept in Hk. rewrite list.Forall_forall in Hk. by apply Hk, H2. }
  split.
  - cbn [fst]. destruct (split [61] part !! 0%nat) as [y|] eqn:E; cbn.
    + apply Hpiece. by eapply list_elem_of_lookup_2.
    + split_and!; [constructor|apply not_elem_of_nil..].
  - unfold entry_value. cbn [snd]. destruct (split [61] part !! 1%nat) as [y|] eqn:E; cbn; [|apply undefined_ok].
    apply list_elem_of_lookup_2, Hpiece in E as (? & ? & ?). by apply kept_value_ok.
Qed.

Lemma parse_query_ok (q : text) :
  kept q -> NoDup (map fst (parse_query q)) /\ Forall entry_ok (parse_query q).
Proof.
  intros Hk. unfold parse_query. change (txt "&") with [38].
  assert (Hparts : Forall (fun y => kept y /\ (38 ∉ y)) (split [38] q)).
  { eapply list.Forall_impl; [apply split_pieces|]. cbn. intros y [H1 H2]. split; [|done].
    apply list.Forall_forall. intros x Hx. unfold kept in Hk. rewrite list.Forall_forall in Hk. by apply Hk, H2. }
  assert (H0 : NoDup (map fst ([] : params)) /\ Forall entry_ok ([] : params)) by (split; constructor).
  revert H0. generalize ([] : params). induction Hparts as [|y l [Hy1 Hy2] Hl IH]; intros ps [H1 H2]; [done|].
  cbn [foldl]. apply IH. by apply parse_part_ok.
Qed.

Lemma value_units (v : text) (c : Z) : value_ok v -> c ∈ url_query v -> c <> 38 /\ c <> 61 /\ c <> 35.
Proof.
  intros (Hw & Hu & H1 & H2 & H3 & _) Hc. destruct (url_query_units v c Hw Hu Hc) as [Hk Hc'].
  destruct Hc' as [Hc'|Hc']; [|lia]. split_and!; intros ->; done.
Qed.

(** A rendered parameter, encoded and parsed. *)
Lemma encode_param (e : text * option text) :
  entry_ok e -> url_query (render_param e) = e.1 ++ 61 :: url_query (entry_value e).
Proof.
  intros [[Hk _] _]. unfold render_param. fold (entry_value e). change (txt "=") with [61].
  assert (H61 : kept [61]) by (by repeat constructor).
  rewrite url_query_app by (apply kept_well_formed || apply kept_unbroken; done).
  rewrite url_query_app by (apply kept_well_formed || apply kept_unbroken; done).
  by rewrite (url_query_kept e.1), (url_query_kept [61]) by done.
Qed.

Lemma parse_param (ps : params) (e : text * option text) :
  entry_ok e -> parse_part ps (e.1 ++ 61 :: url_query (entry_value e))
                = set_own e.1 (Some (url_query (entry_value e))) ps.
Proof.
  intros [(_ & _ & Hk) Hv]. unfold parse_part. rewrite decide_False by (intros [_ [=]]%app_eq_nil).
  change (txt "=") with [61].
  assert (Hn : 61 ∉ url_query (entry_value e)) by (intros Hc; destruct (value_units _ _ Hv Hc); lia).
  assert (Hs : split [61] (e.1 ++ 61 :: url_query (entry_value e)) = [e.1; url_query (entry_value e)]).
  { unfold split. rewrite split_unit_step by done. by rewrite split_unit_end. }
  by rewrite Hs.
Qed.

Definition encoded_param (e : text * option text) : text := e.1 ++ 61 :: url_query (entry_value e).

Lemma take_until_none (c : Z) (s : text) : c ∉ s -> take_until c s = s.
Proof.
  induction s as [|x s IH]; intros Hc; [done|]. apply not_elem_of_cons in Hc as [Hx Hc]. cbn.
  rewrite (proj2 (Z.eqb_neq x c)) by congruence. by rewrite IH.
Qed.

Lemma render_param_units (e : text * option text) : entry_ok e -> 35 ∉ render_param e.
Proof.
  intros [(Hk & _ & _) (_ & _ & _ & _ & H35 & _)]. unfold render_param. fold (entry_value e).
  change (txt "=") with [61]. rewrite !elem_of_app, list_elem_of_singleton. intros [H|[H|H]]; [|done|done].
  unfold kept in Hk. rewrite list.Forall_forall in Hk. by destruct (query_keep_range _ (Hk _ H)).
Qed.

Lemma render_param_wf (e : text * option text) : entry_ok e -> well_formed (render_param e) /\ unbroken (render_param e).
Proof.
  intros [(Hk & _ & _) (Hw & Hu & _)]. unfold render_param. fold (entry_value e). change (txt "=") with [61].
  assert (H61 : kept [61]) by (by repeat constructor).
  pose proof (kept_well_formed _ Hk) as [Hwk _]. pose proof (kept_well_formed _ H61) as [Hw61 _].
  split; [split|].
  - rewrite code_points_app by done. rewrite code_points_app by done.
    repeat apply Forall_app_2; [apply Hwk|apply Hw61|apply Hw].
  - repeat apply Forall_app_2; [apply Hwk|apply Hw61|apply Hw].
  - repeat apply Forall_app_2; [by apply kept_unbroken..|done].
Qed.

Lemma render_param_visible (e : text * option text) : entry_ok e -> visible_end (render_param e).
Proof.
  intros [(Hk & _ & _) (_ & _ & _ & _ & _ & Hv)]. unfold render_param. change (txt "=") with [61].
  repeat apply visible_end_app; [by apply kept_visible|by apply kept_visible; repeat constructor|done].
Qed.

Lemma render_tail_visible (base : text) (ps : params) :
  Forall entry_ok ps -> strip_end (render_tail (mkURL base ps [])) = render_tail (mkURL base ps []).
Proof.
  intros Hps. apply strip_end_visible. unfold render_tail. cbn [u_params u_hash]. rewrite decide_True, app_nil_r by done.
  destruct Hps as [|e ps He Hps]; [by intros [|? ?] ? [=]|]. change (txt "?") with [63]. change (txt "&") with [38].
  apply visible_end_app; [apply kept_visible; by repeat constructor|]. apply visible_end_app; [by apply render_param_visible|].
  apply visible_end_concat, Forall_map. eapply list.Forall_impl; [exact Hps|]. intros e' He'.
  apply visible_end_app; [apply kept_visible; by repeat constructor|by apply render_param_visible].
Qed.

Lemma go_to_query (base : text) (e : text * option text) (ps : params) :
  Forall entry_ok (e :: ps) ->
  l_query (go_to (mkURL base (e :: ps) []))
  = encoded_param e ++ concat (map (cons 38) (map encoded_param ps)).
Proof.
  intros Hall. unfold go_to. cbn [l_query]. rewrite render_tail_visible by done.
  apply list.Forall_cons in Hall as [He Hps]. unfold render_tail. cbn [u_params u_hash].
  rewrite decide_True, app_nil_r by done. change (txt "?") with [63]. change (txt "&") with [38].
  rewrite take_until_none.
  2:{ rewrite !elem_of_app. intros [H|[H|H]]; [by apply list_elem_of_singleton in H|by apply (render_param_units e)|].
      apply list_elem_of_In, in_concat in H as (x & Hx & H). apply in_map_iff in Hx as (e' & <- & He').
      apply list_elem_of_In in H, He'. rewrite list.Forall_forall in Hps.
      apply elem_of_cons in H as [?|H]; [done|]. by apply (render_param_units e' (Hps e' He')). }
  cbn [app drop]. destruct (render_param_wf e He) as [Hw Hu].
  rewrite drop_0.   rewrite url_query_app, encode_param by done. f_equal. clear He Hw Hu.
  induction Hps as [|e' ps He' Hps IH]; [done|]. cbn [map concat app].
  assert (H38 : kept [38]) by (by repeat constructor).
  destruct (render_param_wf e' He') as [Hw Hu].
  change (38 :: render_param e' ++ ?x) with ([38] ++ render_param e' ++ x).
  rewrite url_query_app by (apply kept_well_formed || apply kept_unbroken; done).
  rewrite url_query_app, IH, encode_param by done. by rewrite (url_query_kept [38]).
Qed.

Lemma encoded_param_plain (e : text * option text) : entry_ok e -> 38 ∉ encoded_param e.
Proof.
  intros [(_ & H38 & _) Hv]. unfold encoded_param. rewrite elem_of_app, elem_of_cons.
  intros [H|[H|H]]; [done|done|]. destruct (value_units _ _ Hv H). lia.
Qed.

Lemma go_to_parse (base : text) (ps : params) :
  ps <> [] -> Forall entry_ok ps ->
  parse_query (l_query (go_to (mkURL base ps [])))
  = foldl (fun acc e => set_own e.1 (Some (url_query (entry_value e))) acc) [] ps.
Proof.
  intros Hne Hps. destruct ps as [|e ps]; [done|]. rewrite go_to_query by done.
  unfold parse_query. change (txt "&") with [38]. rewrite split_parts.
  - clear Hne. revert Hps. generalize ([] : params). rewrite <- map_cons.
    induction (e :: ps) as [|e' ps' IH]; intros acc Hps; [done|].
    apply list.Forall_cons in Hps as [He' Hps]. cbn [map foldl]. unfold encoded_param at 1. rewrite parse_param by done. by apply IH.
  - rewrite <- map_cons. apply Forall_map. eapply list.Forall_impl; [exact Hps|]. apply encoded_param_plain.
Qed.

(** The property [k] of the parsed address. *)
Lemma go_to_get (base k : text) (v : option text) (l1 l2 : params) :
  k <> txt "__proto__" -> (k ∉ map fst l2) -> Forall entry_ok (l1 ++ (k, v) :: l2) ->
  get_own k (parse_query (l_query (go_to (mkURL base (l1 ++ (k, v) :: l2) []))))
  = Some (Some (url_query (default (txt "undefined") v))).
Proof.
  intros Hk Hl2 Hok. rewrite go_to_parse by (done || by destruct l1). rewrite foldl_app. cbn [foldl fst].
  assert (Hd : NoDup (map fst (foldl (fun acc e => set_own e.1 (Some (url_query (entry_value e))) acc)
                                ([] : params) l1))).
  { assert (H0 : NoDup (map fst ([] : params))) by constructor. revert H0. generalize ([] : params).
    clear. induction l1 as [|e l1 IH]; intros acc H0; [done|]. cbn. by apply IH, set_own_NoDup. }
  pose proof (get_set_own k (Some (url_query (entry_value (k, v)))) _ Hk Hd) as Hg. revert Hg.
  generalize (set_own k (Some (url_query (entry_value (k, v))))
    (foldl (fun acc e => set_own e.1 (Some (url_query (entry_value e))) acc) ([] : params) l1)).
  clear -Hl2. induction l2 as [|e l2 IH]; intros acc Hg; [done|]. cbn in Hl2 |- *.
  apply not_elem_of_cons in Hl2 as [Hne Hl2]. apply IH; [done|]. by rewrite get_set_other.
Qed.

Definition plus_to_space (s : text) : text :=
  concat (map (fun c => if c =? 43 then txt "%20" else [c]) s).

Lemma plus_to_space_none (s : text) : 43 ∉ s -> plus_to_space s = s.
Proof.
  unfold plus_to_space. induction s as [|c s IH]; intros H; [done|]. apply not_elem_of_cons in H as [Hc H].
  cbn [map concat]. rewrite (proj2 (Z.eqb_neq c 43)) by congruence. cbn [app]. by rewrite IH.
Qed.

Lemma address_safe_value (t : text) : address_safe t -> value_ok t.
Proof.
  intros [Hv0 Hw Hu Hp]. rewrite list.Forall_forall in Hp. split_and!; [done|done|intros H%Hp; lia..|done].
Qed.

(** A safe term comes back from the address. *)
Lemma address_roundtrip (t : text) :
  address_safe t -> decodeURIComponent (plus_to_space (url_query t)) = Some t.
Proof.
  intros [Hv0 Hw Hu Hp]. rewrite list.Forall_forall in Hp.
  rewrite plus_to_space_none.
  2:{ intros H. destruct (url_query_units t 43 Hw Hu H) as [_ [Hc|Hc]]; [|lia]. by destruct (Hp _ Hc) as (? & ? & ? & ? & ?). }
  destruct (code_points_spec t Hw) as (ps & E & Hv & Ht). unfold url_query, url_part. cbv zeta.
  rewrite unbroken_filter, E, map_map by done. cbn.
  assert (Hps : Forall (fun p => valid_point p /\ (query_keep p = true -> p <> 37)) ps).
  { apply list.Forall_forall. intros p Hin. rewrite list.Forall_forall in Hv. split; [by apply Hv|].
    intros Hk ->. assert (H37 : 37 ∈ t); [|by destruct (Hp _ H37) as (? & ? & ? & ? & ?)].
    rewrite <- Ht. apply list_elem_of_In, in_concat. exists [37]. split; [|by left].
    apply in_map_iff. exists 37. split; [done|by apply list_elem_of_In]. }
  unfold decodeURIComponent. rewrite (decode_encoded query_keep ps); [by rewrite Ht| |done|done].
  intros p Hk%query_keep_range. lia.
Qed.
