(* ===== verification/SearchPage.v ===== *)
(** * The search page's interface (src/_site/book/searcher-c2a407aa.js)

    The handlers of the book's search: showing and hiding the bar, running a search when
    a key goes up, keeping the term in the address, the arrow keys over the results, and
    the search or the highlighting restored from an address. A handler is a computation
    on the page's state; a throw keeps what was written before it.

    The index ([elasticlunr]) is a parameter, the function from a term to its results;
    so are the configuration the index script carries, [toLowerCase] and the stemmer,
    and whether the browser's [select] moves the focus. *)

From stdpp Require Import pretty.
From S2P Require Import Prelude Search Url.

(** ** The page *)

(** A list item of the results. *)
Record Item : Type := mkItem { it_html : text; it_focus : bool }.

(** A result of the index. *)
Record Result : Type := mkResult { r_ref : nat; r_body : text; r_breadcrumbs : text }.

Record Page : Type := mkPage {
  hidden : bool;            (** [search_wrap] has the class [hidden] *)
  expanded : bool;          (** [aria-expanded] of the icon *)
  searching : bool;         (** [searchbar_outer] has the class [searching] *)
  active : bool;            (** [searchbar] has the class [active] *)
  outer_hidden : bool;      (** [searchresults_outer] has the class [hidden] *)
  value : text;             (** [searchbar.value] *)
  focus : bool;             (** the bar is [document.activeElement] *)
  header : text;            (** the text of [searchresults_header] *)
  items : list Item;        (** the children of [searchresults] *)
  current_searchterm : text;
  loaded : bool;            (** [searchindex] is not null *)
  script : bool;            (** the index script is in the document *)
  teaser_count : nat;
  location : Location;
  history : list Location;  (** the entries below the current one *)
  marks : option (list text);  (** the words [marker] highlights *)
  opened : option text;     (** the result whose link was assigned to the address *)
}.

Definition set_shown (b : bool) (p : Page) : Page :=
  mkPage (negb b) b (searching p) (active p) (outer_hidden p) (value p) (focus p) (header p) (items p)
    (current_searchterm p) (loaded p) (script p) (teaser_count p) (location p) (history p) (marks p) (opened p).
Definition set_searching (b : bool) (p : Page) : Page :=
  mkPage (hidden p) (expanded p) b (active p) (outer_hidden p) (value p) (focus p) (header p) (items p)
    (current_searchterm p) (loaded p) (script p) (teaser_count p) (location p) (history p) (marks p) (opened p).
Definition set_active (b : bool) (p : Page) : Page :=
  mkPage (hidden p) (expanded p) (searching p) b (outer_hidden p) (value p) (focus p) (header p) (items p)
    (current_searchterm p) (loaded p) (script p) (teaser_count p) (location p) (history p) (marks p) (opened p).
Definition set_outer_hidden (b : bool) (p : Page) : Page :=
  mkPage (hidden p) (expanded p) (searching p) (active p) b (value p) (focus p) (header p) (items p)
    (current_searchterm p) (loaded p) (script p) (teaser_count p) (location p) (history p) (marks p) (opened p).
Definition set_value (t : text) (p : Page) : Page :=
  mkPage (hidden p) (expanded p) (searching p) (active p) (outer_hidden p) t (focus p) (header p) (items p)
    (current_searchterm p) (loaded p) (script p) (teaser_count p) (location p) (history p) (marks p) (opened p).
Definition set_focus (b : bool) (p : Page) : Page :=
  mkPage (hidden p) (expanded p) (searching p) (active p) (outer_hidden p) (value p) b (header p) (items p)
    (current_searchterm p) (loaded p) (script p) (teaser_count p) (location p) (history p) (marks p) (opened p).
Definition set_header (t : text) (p : Page) : Page :=
  mkPage (hidden p) (expanded p) (searching p) (active p) (outer_hidden p) (value p) (focus p) t (items p)
    (current_searchterm p) (loaded p) (script p) (teaser_count p) (location p) (history p) (marks p) (opened p).
Definition set_items (l : list Item) (p : Page) : Page :=
  mkPage (hidden p) (expanded p) (searching p) (active p) (outer_hidden p) (value p) (focus p) (header p) l
    (current_searchterm p) (loaded p) (script p) (teaser_count p) (location p) (history p) (marks p) (opened p).
Definition set_term (t : text) (p : Page) : Page :=
  mkPage (hidden p) (expanded p) (searching p) (active p) (outer_hidden p) (value p) (focus p) (header p) (items p)
    t (loaded p) (script p) (teaser_count p) (location p) (history p) (marks p) (opened p).
Definition set_loaded (p : Page) : Page :=
  mkPage (hidden p) (expanded p) (searching p) (active p) (outer_hidden p) (value p) (focus p) (header p) (items p)
    (current_searchterm p) true (script p) (teaser_count p) (location p) (history p) (marks p) (opened p).
Definition set_script (p : Page) : Page :=
  mkPage (hidden p) (expanded p) (searching p) (active p) (outer_hidden p) (value p) (focus p) (header p) (items p)
    (current_searchterm p) (loaded p) true (teaser_count p) (location p) (history p) (marks p) (opened p).
Definition count_teaser (p : Page) : Page :=
  mkPage (hidden p) (expanded p) (searching p) (active p) (outer_hidden p) (value p) (focus p) (header p) (items p)
    (current_searchterm p) (loaded p) (script p) (S (teaser_count p)) (location p) (history p) (marks p) (opened p).
Definition set_location (l : Location) (h : list Location) (p : Page) : Page :=
  mkPage (hidden p) (expanded p) (searching p) (active p) (outer_hidden p) (value p) (focus p) (header p) (items p)
    (current_searchterm p) (loaded p) (script p) (teaser_count p) l h (marks p) (opened p).
Definition set_marks (m : option (list text)) (p : Page) : Page :=
  mkPage (hidden p) (expanded p) (searching p) (active p) (outer_hidden p) (value p) (focus p) (header p) (items p)
    (current_searchterm p) (loaded p) (script p) (teaser_count p) (location p) (history p) m (opened p).
Definition set_opened (t : text) (p : Page) : Page :=
  mkPage (hidden p) (expanded p) (searching p) (active p) (outer_hidden p) (value p) (focus p) (header p) (items p)
    (current_searchterm p) (loaded p) (script p) (teaser_count p) (location p) (history p) (marks p) (Some t).

(** The page as it is loaded. *)
Definition initial_page (l : Location) : Page :=
  mkPage true false false false true [] false [] [] [] false false 0 l [] None None.

(** [trim]: white space and line terminators. *)
Definition is_space (c : Z) : bool :=
  (9 <=? c) && (c <=? 13) || (0x2000 <=? c) && (c <=? 0x200a)
  || existsb (Z.eqb c) [32; 160; 0x1680; 0x2028; 0x2029; 0x202f; 0x205f; 0x3000; 0xfeff].

Fixpoint trim_start (s : text) : text :=
  match s with [] => [] | c :: s' => if is_space c then trim_start s' else s end.
Definition trim (s : text) : text := reverse (trim_start (reverse (trim_start s))).

Definition type_error (m : string) : exn := Exn "TypeError" m None None None None.
Definition uri_error : exn := Exn "URIError" "URI malformed" None None None None.

Definition number (n : nat) : text := txt (pretty (N.of_nat n)).

Definition formatSearchMetric (count : nat) (searchterm : text) : text :=
  if (count =? 1)%nat then number count ++ txt " search result for '" ++ searchterm ++ txt "':"
  else if (count =? 0)%nat then txt "No search results for '" ++ searchterm ++ txt "'."
  else number count ++ txt " search results for '" ++ searchterm ++ txt "':".

Definition URL_SEARCH_PARAM : text := Eval cbv in txt "search".
Definition URL_MARK_PARAM : text := Eval cbv in txt "highlight".

Inductive action : Type := Push | Replace | PushIfNew.

(** A key event of the document: whether a modifier is down or the target takes text,
    whether the target is a form field, and the key. *)
Record Key : Type := mkKey { k_skip : bool; k_field : bool; k_key : string }.

Section page.
Context (toLowerCase stemmer : text -> text) (select_focuses : bool).
(** The configuration: the index, the addresses of the documents, the limits. *)
Context (index_search : text -> list Result) (doc_urls : list text).
Context (teaser_word_count limit_results : nat) (path_to_root : text).

(** ** Results *)

Definition quote : text := [34].

(** [/'/g] replaced with [%27]. *)
Definition escape_quote (s : text) : text :=
  concat (map (fun c => if c =? 39 then txt "%27" else [c]) s).

(** The markup of a result, with the number of its teaser. *)
Definition result_html (teaser_number : nat) (result : Result) (searchterms : list text) : res text :=
  let teaser := makeTeaser toLowerCase stemmer teaser_word_count (escapeHTML (r_body result)) searchterms in
  match doc_urls !! r_ref result with
  | None => Throw (type_error "Cannot read properties of undefined")
  | Some doc_url =>
      let url := split (txt "#") doc_url in
      let url := if (length url =? 1)%nat then url ++ [[]] else url in
      match encodeURIComponent (join (txt " ") searchterms) with
      | None => Throw uri_error
      | Some encoded =>
          let encoded_search := escape_quote encoded in
          Ret (txt "<a href=" ++ quote ++ path_to_root ++ default [] (url !! 0%nat) ++ txt "?"
               ++ URL_MARK_PARAM ++ txt "=" ++ encoded_search ++ txt "#" ++ default [] (url !! 1%nat)
               ++ quote ++ txt " aria-details=" ++ quote ++ txt "mdbook-teaser_"
               ++ number teaser_number ++ quote ++ txt ">" ++ r_breadcrumbs result ++ txt "</a>"
               ++ txt "<span class=" ++ quote ++ txt "teaser" ++ quote ++ txt " id=" ++ quote
               ++ txt "mdbook-teaser_" ++ number teaser_number ++ quote
               ++ txt " aria-label=" ++ quote ++ txt "Search Result Teaser" ++ quote ++ txt ">"
               ++ teaser ++ txt "</span>")
      end
  end.

Definition formatSearchResult (result : Result) (searchterms : list text) : M Page text :=
  modify count_teaser;;
  p ← get;
  lift_res (result_html (teaser_count p) result searchterms).

(** The loop that inserts the results. *)
Fixpoint insert_results (results : list Result) (searchterms : list text) : M Page unit :=
  match results with
  | [] => mret tt
  | r :: results =>
      html ← formatSearchResult r searchterms;
      modify (fun p => set_items (items p ++ [mkItem html false]) p);;
      insert_results results searchterms
  end.

Definition showResults (yes : bool) : M Page unit := modify (set_outer_hidden (negb yes)).

Definition doSearch (searchterm : text) : M Page unit :=
  p ← get;
  if decide (current_searchterm p = searchterm) then mret tt
  else
    modify (set_searching true);;
    if negb (loaded p) then mret tt
    else
      modify (set_term searchterm);;
      let results := index_search searchterm in
      let resultcount := Nat.min (length results) limit_results in
      modify (set_header (formatSearchMetric resultcount searchterm));;
      let searchterms := split (txt " ") searchterm in
      modify (set_items []);;
      insert_results (take resultcount results) searchterms;;
      showResults true;;
      modify (set_searching false).

(** ** The bar *)

Definition select : M Page unit := modify (fun p => set_focus (focus p || select_focuses) p).
Definition unfocusSearchbar : M Page unit := modify (set_focus false).
Definition unmark_words : M Page unit := modify (set_marks None).

Definition loadSearchScript : M Page unit :=
  p ← get;
  if script p then mret tt else modify (set_searching true);; modify set_script.

Definition showSearch (yes : bool) : M Page unit :=
  if yes then loadSearchScript;; modify (set_shown true)
  else
    modify (set_shown false);;
    modify (fun p => set_items (map (fun i => mkItem (it_html i) false) (items p)) p).

Definition searchIconClickHandler : M Page unit :=
  p ← get;
  if hidden p then showSearch true;; select else showSearch false.

(** [setSearchUrlParameters]. *)
Definition setSearchUrlParameters (searchterm : text) (a : action) : M Page unit :=
  p ← get;
  let url := parseURL (location p) in
  let first_search := negb (has_own URL_SEARCH_PARAM (u_params url)) in
  let url :=
    if bool_decide (searchterm <> []) || match a with PushIfNew => true | _ => false end then
      mkURL (u_base url)
        (delete_own URL_MARK_PARAM (set_own URL_SEARCH_PARAM (Some searchterm) (u_params url))) []
    else
      mkURL (u_base url)
        (delete_own URL_SEARCH_PARAM (delete_own URL_MARK_PARAM (u_params url))) (u_hash url) in
  let push := match a with Push => true | Replace => false | PushIfNew => first_search end in
  modify (set_location (go_to url) (if push then location p :: history p else history p)).

Definition searchbarKeyUpHandler : M Page unit :=
  p ← get;
  let searchterm := trim (value p) in
  (if decide (searchterm <> []) then modify (set_active true);; doSearch searchterm
   else modify (set_active false);; showResults false;; modify (set_items []));;
  setSearchUrlParameters searchterm PushIfNew;;
  unmark_words.

(** [init], when the index script has run. *)
Definition init : M Page unit :=
  modify set_loaded;;
  modify (set_searching false);;
  modify (set_focus true);;
  p ← get;
  let searchterm := trim (value p) in
  if decide (searchterm <> []) then modify (set_active true);; doSearch searchterm else mret tt.

(** A decoded parameter; an [undefined] one is read as that word. *)
Definition decoded (v : text) : M Page text :=
  match decodeURIComponent v with Some t => mret t | None => throw uri_error end.

Definition doSearchOrMarkFromUrl : M Page unit :=
  p ← get;
  let ps := u_params (parseURL (location p)) in
  (match get_own URL_SEARCH_PARAM ps with
   | Some v =>
       if decide (v <> Some []) then
         showSearch true;;
         t ← decoded (plus_to_space (default (txt "undefined") v));
         modify (set_value t);;
         searchbarKeyUpHandler
       else showSearch false
   | None => showSearch false
   end);;
  match get_own URL_MARK_PARAM ps with
  | Some v =>
      t ← decoded (default (txt "undefined") v);
      modify (set_marks (Some (split (txt " ") t)))
  | None => mret tt
  end.

(** ** Keys *)

Definition focus_item (i : nat) (b : bool) (l : list Item) : list Item :=
  alter (fun it => mkItem (it_html it) b) i l.

Definition move_focus (f : list Item -> list Item) : M Page unit := modify (fun p => set_items (f (items p)) p).

Definition globalKeyHandler (e : Key) : M Page unit :=
  p ← get;
  if k_skip e || (negb (focus p) && k_field e) then mret tt
  else if String.eqb (k_key e) "Escape" then
    modify (set_active false);;
    setSearchUrlParameters [] (if decide (trim (value p) <> []) then Push else Replace);;
    (if focus p then unfocusSearchbar else mret tt);;
    showSearch false;;
    unmark_words
  else if negb (focus p) && (String.eqb (k_key e) "s" || String.eqb (k_key e) "/") then
    showSearch true;; select
  else if focus p && (String.eqb (k_key e) "ArrowDown" || String.eqb (k_key e) "Enter") then
    match items p with
    | first :: _ =>
        unfocusSearchbar;;
        move_focus (focus_item 0 true);;
        (if String.eqb (k_key e) "Enter" then modify (set_opened (it_html first)) else mret tt)
    | [] => mret tt
    end
  else if negb (focus p)
          && (String.eqb (k_key e) "ArrowDown" || String.eqb (k_key e) "ArrowUp" || String.eqb (k_key e) "Enter") then
    match list_find (fun it => it_focus it = true) (items p) with
    | None => mret tt
    | Some (i, focused) =>
        if String.eqb (k_key e) "ArrowDown" then
          if decide (S i < length (items p))%nat
          then move_focus (fun l => focus_item (S i) true (focus_item i false l)) else mret tt
        else if String.eqb (k_key e) "ArrowUp" then
          move_focus (focus_item i false);;
          (if decide (0 < i)%nat then move_focus (focus_item (i - 1) true) else select)
        else modify (set_opened (it_html focused))
    end
  else mret tt.

(** ** Events *)

Inductive event : Type :=
| IconClicked
| Typed (t : text)          (** the bar's text changes, and a key goes up in it *)
| BarFocused (b : bool)     (** the reader focuses or leaves the bar *)
| KeyDown (e : Key)
| ScriptLoaded              (** the index script has run *)
| WentBack                  (** the browser's back button *)
| MarksHidden.              (** the timer after a click on a highlighted word *)

Definition on_event (e : event) : M Page unit :=
  p ← get;
  match e with
  | IconClicked => searchIconClickHandler
  | Typed t => modify (set_value t);; searchbarKeyUpHandler
  | BarFocused b => modify (set_focus b)
  | KeyDown k => globalKeyHandler k
  | ScriptLoaded => if script p && negb (loaded p) then init else mret tt
  | WentBack =>
      match history p with
      | [] => mret tt
      | l :: h => modify (set_location l h);; doSearchOrMarkFromUrl
      end
  | MarksHidden => unmark_words
  end.

(** ** What the handlers do *)

Arguments txt : simpl never.
Arguments has_own : simpl never.
Arguments set_own : simpl never.
Arguments delete_own : simpl never.
Arguments go_to : simpl never.
Arguments trim : simpl never.
Arguments split : simpl never.

(** A page with more results. *)
Definition with_results (its : list Item) (n : nat) (p : Page) : Page :=
  mkPage (hidden p) (expanded p) (searching p) (active p) (outer_hidden p) (value p) (focus p) (header p)
    (items p ++ its) (current_searchterm p) (loaded p) (script p) (teaser_count p + n) (location p) (history p)
    (marks p) (opened p).

(** The markups of results numbered from [n + 1]. *)
Fixpoint htmls (n : nat) (rs : list Result) (ts : list text) : option (list text) :=
  match rs with
  | [] => Some []
  | r :: rs =>
      match result_html (S n) r ts with
      | Ret h => hs ← htmls (S n) rs ts; Some (h :: hs)
      | Throw _ => None
      end
  end.

Lemma insert_results_ok (rs : list Result) (ts : list text) (p : Page) (hs : list text) :
  htmls (teaser_count p) rs ts = Some hs ->
  insert_results rs ts p = (Ret tt, with_results (map (fun h => mkItem h false) hs) (length rs) p).
Proof.
  revert p hs. induction rs as [|r rs IH]; intros p hs H; cbn [htmls] in H.
  - injection H as <-. destruct p. unfold with_results. cbn. by rewrite app_nil_r, Nat.add_0_r.
  - cbn [insert_results]. unfold formatSearchResult. unfold_m. cbn [teaser_count count_teaser].
    destruct (result_html (S (teaser_count p)) r ts) as [h|]; [|done].
    destruct (htmls (S (teaser_count p)) rs ts) as [hs'|] eqn:E; [|done]. injection H as <-.
    rewrite (IH (set_items (items (count_teaser p) ++ [mkItem h false]) (count_teaser p)) hs') by exact E.
    f_equal. destruct p. unfold with_results. cbn. f_equal; [by rewrite <- app_assoc|lia].
Qed.

Lemma insert_results_fails (rs : list Result) (ts : list text) (p : Page) :
  htmls (teaser_count p) rs ts = None -> exists e p', insert_results rs ts p = (Throw e, p').
Proof.
  revert p. induction rs as [|r rs IH]; intros p H; cbn [htmls] in H; [done|].
  cbn [insert_results]. unfold formatSearchResult. unfold_m. cbn [teaser_count count_teaser].
  destruct (result_html (S (teaser_count p)) r ts) as [h|e]; [|by eexists _, _].
  destruct (htmls (S (teaser_count p)) rs ts) as [hs'|] eqn:E; [done|].
  by apply IH.
Qed.

(** The results shown for a term. *)
Definition found (t : text) : list Result := take limit_results (index_search t).

Lemma take_min_length {A} (l : list A) (n : nat) : take (Nat.min (length l) n) l = take n l.
Proof.
  destruct (Nat.min_spec (length l) n) as [[H ->]|[H ->]]; [|done].
  by rewrite !take_ge by lia.
Qed.

(** The page a search leaves. *)
Definition searched (t : text) (hs : list text) (p : Page) : Page :=
  mkPage (hidden p) (expanded p) false (active p) false (value p) (focus p)
    (formatSearchMetric (length (found t)) t) (map (fun h => mkItem h false) hs) t (loaded p) (script p)
    (teaser_count p + length (found t)) (location p) (history p) (marks p) (opened p).

Lemma doSearch_new (t : text) (p : Page) (hs : list text) :
  current_searchterm p <> t -> loaded p = true ->
  htmls (teaser_count p) (found t) (split (txt " ") t) = Some hs ->
  doSearch t p = (Ret tt, searched t hs p).
Proof.
  intros Hne Hl Hh. unfold doSearch. unfold_m. rewrite decide_False by done. rewrite Hl. cbn [negb].
  rewrite take_min_length. fold (found t).
  rewrite (insert_results_ok (found t) (split (txt " ") t)) with (hs := hs) by exact Hh.
  unfold showResults. unfold_m. f_equal. unfold searched. destruct p. unfold with_results. cbn.
  f_equal. unfold found. by rewrite length_take, Nat.min_comm.
Qed.

Lemma doSearch_same (t : text) (p : Page) : current_searchterm p = t -> doSearch t p = (Ret tt, p).
Proof. intros H. unfold doSearch. unfold_m. by rewrite decide_True. Qed.

Lemma doSearch_waits (t : text) (p : Page) :
  current_searchterm p <> t -> loaded p = false -> doSearch t p = (Ret tt, set_searching true p).
Proof. intros H Hl. unfold doSearch. unfold_m. by rewrite decide_False, Hl by done. Qed.

Lemma doSearch_throws (t : text) (p : Page) :
  current_searchterm p <> t -> loaded p = true ->
  htmls (teaser_count p) (found t) (split (txt " ") t) = None -> exists e p', doSearch t p = (Throw e, p').
Proof.
  intros Hne Hl Hh. unfold doSearch. unfold_m. rewrite decide_False by done. rewrite Hl. cbn [negb].
  rewrite take_min_length. fold (found t).
  edestruct (insert_results_fails (found t) (split (txt " ") t)) as (e & p' & ->); [exact Hh|]. by exists e, p'.
Qed.

Lemma htmls_length n rs ts hs : htmls n rs ts = Some hs -> length hs = length rs.
Proof.
  revert n hs. induction rs as [|r rs IH]; intros n hs; cbn; [by intros [= <-]|].
  destruct (result_html (S n) r ts); [|done]. destruct (htmls (S n) rs ts) as [hs'|] eqn:E; [|done].
  intros [= <-]. cbn. f_equal. by eapply IH.
Qed.

(** ** The invariant *)

Record page_inv (p : Page) : Prop := {
  pi_expanded : expanded p = negb (hidden p);
  pi_searching : searching p = true -> loaded p = false;
  pi_hidden : outer_hidden p = true -> items p = [];
  pi_limit : (length (items p) <= limit_results)%nat;
  pi_script : loaded p = true -> script p = true;
}.

(** A computation that keeps the invariant when it returns. *)
Definition maintains {A} (m : M Page A) : Prop :=
  forall p, page_inv p -> match m p with (Ret _, p') => page_inv p' | (Throw _, _) => True end.

Lemma maintains_bind {A B} (m : M Page A) (f : A -> M Page B) :
  maintains m -> (forall a, maintains (f a)) -> maintains (m ≫= f).
Proof.
  intros Hm Hf p Hp. specialize (Hm p Hp). unfold mbind, M_bind. destruct (m p) as [[a|e] p']; [|done].
  by apply Hf.
Qed.

Lemma maintains_get {B} (f : Page -> M Page B) :
  (forall p, page_inv p -> match f p p with (Ret _, p') => page_inv p' | (Throw _, _) => True end) ->
  maintains (get ≫= f).
Proof. intros H p Hp. by apply H. Qed.

Lemma maintains_modify (f : Page -> Page) : (forall p, page_inv p -> page_inv (f p)) -> maintains (modify f).
Proof. intros H p Hp. by apply H. Qed.

Lemma maintains_ret {A} (a : A) : maintains (mret a).
Proof. by intros p Hp. Qed.

Lemma maintains_throw {A} e : maintains (throw e : M Page A).
Proof. by intros p Hp. Qed.

Lemma maintains_doSearch (t : text) : maintains (doSearch t).
Proof.
  intros p Hp. destruct (decide (current_searchterm p = t)) as [H|H]; [by rewrite doSearch_same|].
  destruct (loaded p) eqn:Hl.
  - destruct (htmls (teaser_count p) (found t) (split (txt " ") t)) as [hs|] eqn:Hh.
    + rewrite (doSearch_new t p hs) by done. destruct Hp as [H1 H2 H3 H4 H5]. split; cbn; auto; try done.
      rewrite length_map, (htmls_length _ _ _ _ Hh). unfold found. rewrite length_take. lia.
    + destruct (doSearch_throws t p H Hl Hh) as (e & p' & ->). done.
  - rewrite doSearch_waits by done. destruct Hp. by split.
Qed.

Lemma maintains_modify2 {A} (f g : Page -> Page) (m : M Page A) :
  (forall p, page_inv p -> page_inv (g (f p))) -> maintains m -> maintains (modify f;; modify g;; m).
Proof. intros H Hm p Hp. unfold_m. apply Hm. by apply H. Qed.

Ltac keep_inv := let p := fresh "p" in
  intros p [? ? ? ? ?]; split; cbn; rewrite ?length_map, ?length_alter; try done.

Ltac maintain :=
  repeat (cbv zeta; match goal with
  | |- maintains (doSearch _) => apply maintains_doSearch
  | |- maintains (mret _) => apply maintains_ret
  | |- maintains (throw _) => apply maintains_throw
  | |- maintains get => intros ? ?; assumption
  | |- maintains (modify _) => apply maintains_modify; keep_inv
  | |- maintains (mbind _ _) => apply maintains_bind; [|intros ?]
  | |- maintains (if ?b then _ else _) => destruct b
  | |- maintains (match ?x with _ => _ end) => destruct x
  end).

Lemma maintains_showSearch (b : bool) : maintains (showSearch b).
Proof.
  unfold showSearch, loadSearchScript. destruct b.
  - apply maintains_bind; [|intros _; maintain]. intros p [H1 H2 H3 H4 H5]. unfold_m.
    destruct (script p) eqn:E; split; cbn; try done.
    intros _. destruct (loaded p); [by discriminate H5|done].
  - maintain. intros Ho. by rewrite (pi_hidden0 Ho).
Qed.

Lemma maintains_keyUp : maintains searchbarKeyUpHandler.
Proof.
  unfold searchbarKeyUpHandler, setSearchUrlParameters, unmark_words, showResults.
  apply maintains_bind; [maintain|intros q]. cbv zeta. apply maintains_bind; [|intros _; maintain].
  destruct (decide _); [maintain|]. apply maintains_bind; [maintain|intros _].
  intros p [H1 H2 H3 H4 H5]. unfold_m. split; cbn; done || lia.
Qed.

Lemma maintains_fromUrl : maintains doSearchOrMarkFromUrl.
Proof.
  pose proof maintains_keyUp. pose proof (maintains_showSearch true). pose proof (maintains_showSearch false).
  unfold doSearchOrMarkFromUrl, decoded. apply maintains_bind; [maintain|intros q]. cbv zeta.
  apply maintains_bind.
  - destruct (get_own URL_SEARCH_PARAM _); [|done]. destruct (decide _); [|done].
    apply maintains_bind; [done|intros _]. apply maintains_bind; [maintain|intros t].
    apply maintains_bind; [maintain|done].
  - intros _. maintain.
Qed.

Lemma maintains_init (p : Page) :
  page_inv p -> script p = true -> match init p with (Ret _, p') => page_inv p' | (Throw _, _) => True end.
Proof.
  intros [H1 H2 H3 H4 H5] Hs.
  set (p1 := set_focus true (set_searching false (set_loaded p))).
  assert (Hp1 : page_inv p1) by (by split).
  assert (E : init p = (if decide (trim (value p1) <> [])
                        then modify (set_active true);; doSearch (trim (value p1)) else mret tt) p1) by reflexivity.
  rewrite E. clear E.
  destruct (decide _); [|done]. unfold_m.
  apply (maintains_doSearch (trim (value p1)) (set_active true p1)). by split; try apply Hp1.
Qed.

Lemma maintains_key (k : Key) : maintains (globalKeyHandler k).
Proof.
  unfold globalKeyHandler, setSearchUrlParameters, unmark_words, unfocusSearchbar, select, move_focus, focus_item.
  pose proof (maintains_showSearch true). pose proof (maintains_showSearch false).
  apply maintains_bind; [maintain|intros q].
  repeat match goal with |- maintains (if ?b then _ else _) => destruct b end; try done; maintain; try assumption.
  all: intros Ho; by rewrite (pi_hidden0 Ho).
Qed.

Lemma maintains_event (e : event) : maintains (on_event e).
Proof.
  pose proof (maintains_showSearch true). pose proof (maintains_showSearch false).
  pose proof maintains_keyUp. pose proof maintains_fromUrl.
  unfold on_event. destruct e; intros p Hp; unfold_m; fold (@maintains).
  - unfold searchIconClickHandler, select. unfold_m. destruct (hidden p).
    + specialize (H p Hp). destruct (showSearch true p) as [[]]; [|done]. by destruct H; split.
    + apply (H0 p Hp).
  - apply (H1 (set_value t p)). by destruct Hp; split.
  - by destruct Hp; split.
  - by apply maintains_key.
  - destruct (script p) eqn:E; [|done]. destruct (loaded p); [done|]. cbn. by apply maintains_init.
  - destruct (history p); [done|]. apply (H2 (set_location _ _ p)). by destruct Hp; split.
  - by destruct Hp; split.
Qed.

(** Executions in which no handler throws. *)
Inductive page_run : Page -> Prop :=
| run_start l p : doSearchOrMarkFromUrl (initial_page l) = (Ret tt, p) -> page_run p
| run_event p e p' : page_run p -> on_event e p = (Ret tt, p') -> page_run p'.

(** The search page is consistent. In every execution whose handlers return, the
    icon's aria-expanded says whether the bar is shown, the spinner turns only while the
    index has not been loaded, a hidden list of results is empty, at most the configured
    number of results is listed, and the index is loaded only by the script that was
    added to the document. *)
Theorem search_page_consistent (p : Page) : page_run p -> page_inv p.
Proof.
  induction 1 as [l p H|p e p' Hr IH H].
  - pose proof (maintains_fromUrl (initial_page l)) as Hm. rewrite H in Hm. apply Hm. split; cbn; done || lia.
  - pose proof (maintains_event e p IH) as Hm. by rewrite H in Hm.
Qed.

(** ** A search *)

(** What a search needs of the index: documents it knows, and a term that can be
    encoded. *)
Lemma htmls_total n rs ts :
  (forall r, r ∈ rs -> (r_ref r < length doc_urls)%nat) -> encodeURIComponent (join (txt " ") ts) <> None ->
  exists hs, htmls n rs ts = Some hs.
Proof.
  intros Hr He. revert n. induction rs as [|r rs IH]; intros n; cbn; [by exists []|].
  destruct (lookup_lt_is_Some_2 doc_urls (r_ref r)) as [u Hu]; [apply Hr; left|].
  unfold result_html. rewrite Hu. destruct (encodeURIComponent _); [|done].
  destruct (IH ltac:(intros; apply Hr; by right) (S n)) as [hs ->]. by eexists.
Qed.

(** The [i]-th markup is that of the [i]-th result. *)
Lemma htmls_lookup n rs ts hs i r :
  htmls n rs ts = Some hs -> rs !! i = Some r ->
  exists h, hs !! i = Some h /\ result_html (S (n + i)) r ts = Ret h.
Proof.
  revert n hs i. induction rs as [|r' rs IH]; intros n hs i H Hi; [done|]. cbn in H.
  destruct (result_html (S n) r' ts) as [h|] eqn:E; [|done].
  destruct (htmls (S n) rs ts) as [hs'|] eqn:E'; [|done]. injection H as <-.
  destruct i as [|i]; cbn in Hi |- *.
  - injection Hi as <-. exists h. by rewrite Nat.add_0_r.
  - destruct (IH (S n) hs' i E' Hi) as (h' & H1 & H2). exists h'. split; [done|].
    by replace (S (n + S i)) with (S (S n + i)) by lia.
Qed.

(** C27. A search shows its results. When a key goes up in the bar, the term is not empty
    and not the one already searched, the index is loaded, its results are known
    documents and the term has no lone surrogate, the handler returns; the list then
    shows exactly the first results of the index up to the limit, in their order, each
    with its own markup and a teaser number that has not been used before; the header
    counts them; the list is visible, no spinner turns and nothing is highlighted; and
    the term is in the address: the parameters of the new location's URL have the term
    under search and nothing under highlight, the fragment is gone, and the previous
    location is kept in the history exactly when it had no search in it. *)
Theorem search_shows_results (p : Page) (t : text) :
  trim (value p) = t -> t <> [] -> current_searchterm p <> t -> loaded p = true ->
  (forall r, r ∈ found t -> (r_ref r < length doc_urls)%nat) -> encodeURIComponent t <> None ->
  exists p' hs, searchbarKeyUpHandler p = (Ret tt, p')
  /\ items p' = map (fun h => mkItem h false) hs /\ length hs = length (found t)
  /\ (forall i r, found t !! i = Some r ->
       exists h, hs !! i = Some h /\ result_html (teaser_count p + S i) r (split (txt " ") t) = Ret h)
  /\ teaser_count p' = (teaser_count p + length (found t))%nat
  /\ header p' = formatSearchMetric (length (found t)) t
  /\ outer_hidden p' = false /\ searching p' = false /\ current_searchterm p' = t /\ marks p' = None
  /\ exists u, location p' = go_to u /\ u_hash u = []
     /\ get_own URL_SEARCH_PARAM (u_params u) = Some (Some t) /\ get_own URL_MARK_PARAM (u_params u) = None
     /\ history p' = if has_own URL_SEARCH_PARAM (parse_query (l_query (location p)))
                     then history p else location p :: history p.
Proof.
  intros Ht Hne Hcur Hl Hr He.
  destruct (htmls_total (teaser_count p) (found t) (split (txt " ") t) Hr) as [hs Hh];
    [by rewrite join_split by done|].
  unfold searchbarKeyUpHandler, setSearchUrlParameters, unmark_words. unfold_m. rewrite Ht.
  rewrite decide_True by done. rewrite (doSearch_new t (set_active true p) hs) by done.
  rewrite (bool_decide_true (t <> [])) by done. cbn [orb].
  eexists _, hs. split; [reflexivity|]. cbn [items set_marks set_location searched teaser_count header outer_hidden
    searching current_searchterm marks location history set_active parseURL u_params u_base].
  split_and!; try done.
  - by eapply htmls_length.
  - intros i r Hi. destruct (htmls_lookup _ _ _ _ i r Hh Hi) as (h & H1 & H2). exists h.
    by replace (teaser_count p + S i)%nat with (S (teaser_count p + i)) by lia.
  - eexists. split; [reflexivity|]. cbn [u_hash u_params]. split_and!.
    + done.
    + rewrite get_delete_other by done. apply get_set_own; [done|]. apply parse_query_NoDup.
    + apply get_delete_same.
    + by destruct (has_own _ _).
Qed.

(** ** The address *)










(** ** A term typed again *)

(** After the bar has been cleared, the last term searched does not come back: when
    its text is typed again the handler finds it is the current term and returns, so the
    list stays empty and hidden, although the bar is active and the address holds the
    term. *)
Theorem retyped_term_not_searched (p : Page) (t : text) :
  trim (value p) = [] -> current_searchterm p = t -> t <> [] -> trim t = t ->
  exists p1 p2, searchbarKeyUpHandler p = (Ret tt, p1)
  /\ on_event (Typed t) p1 = (Ret tt, p2)
  /\ items p2 = [] /\ outer_hidden p2 = true /\ active p2 = true /\ header p2 = header p
  /\ exists u, location p2 = go_to u /\ get_own URL_SEARCH_PARAM (u_params u) = Some (Some t).
Proof.
  intros Hv Hc Hne Ht.
  unfold on_event, searchbarKeyUpHandler, setSearchUrlParameters, unmark_words, showResults. unfold_m.
  rewrite Hv, decide_False by auto. eexists _, _. split; [reflexivity|].
  cbn [value set_value]. rewrite Ht, (decide_True _ _ Hne). rewrite doSearch_same by exact Hc.
  rewrite (bool_decide_true (t <> [])) by done. cbn [orb]. split; [reflexivity|].
  split_and!; try done. eexists. split; [reflexivity|]. cbn [u_params].
  rewrite get_delete_other by done. apply get_set_own; [done|]. apply parse_query_NoDup.
Qed.

End page.

(** ** Examples *)

Definition demo_index (t : text) : list Result :=
  if decide (t = txt "beat") then
    [mkResult 0 (txt "A beat per tick") (txt "Guide"); mkResult 1 (txt "Beats & frames") (txt "Wire")]
  else [].
Definition demo_urls : list text := [txt "guide.html#beat"; txt "wire.html"].
Definition demo_location : Location := mkLocation (txt "https://varta.dev/book/") (txt "highlight=tick") (txt "top").

Abbreviation demo_event := (on_event (fun s => s) (fun s => s) true demo_index demo_urls 30 30 []).
Abbreviation demo_keyUp := (searchbarKeyUpHandler (fun s => s) (fun s => s) demo_index demo_urls 30 30 []).
Abbreviation demo_fromUrl := (doSearchOrMarkFromUrl (fun s => s) (fun s => s) demo_index demo_urls 30 30 []).
Abbreviation demo_run := (page_run (fun s => s) (fun s => s) true demo_index demo_urls 30 30 []).

(** Playing a list of events, as long as their handlers return. *)
Fixpoint play (p : Page) (es : list event) : option Page :=
  match es with
  | [] => Some p
  | e :: es => match demo_event e p with (Ret _, p') => play p' es | (Throw _, _) => None end
  end.

Lemma play_run (es : list event) (p p' : Page) : demo_run p -> play p es = Some p' -> demo_run p'.
Proof.
  revert p. induction es as [|e es IH]; intros p Hr H; cbn in H; [by injection H as <-|].
  destruct (demo_event e p) as [[[]|] q] eqn:E; [|done]. apply (IH q); [|done]. by eapply run_event.
Qed.

Definition demo_start : Page := Eval vm_compute in (demo_fromUrl (initial_page demo_location)).2.
Definition demo_found : Page := Eval vm_compute in
  default demo_start (play demo_start [IconClicked; ScriptLoaded; Typed (txt "beat"); KeyDown (mkKey false false "ArrowDown")]).

Lemma demo_results : map it_focus (items demo_found) = [true; false] /\ header demo_found = txt "2 search results for 'beat':".
Proof. vm_compute. done. Qed.

(** Two results can carry the focus: the first is focused from the bar while a later one
    still is. *)
Lemma two_results_focused :
  option_map (fun p => map it_focus (items p))
    (play demo_found [KeyDown (mkKey false false "ArrowDown"); BarFocused true; KeyDown (mkKey false false "ArrowDown")])
  = Some [true; true].
Proof. vm_compute. done. Qed.

Lemma search_page_consistent_witness : page_inv 30 demo_found.
Proof.
  apply (search_page_consistent (fun s => s) (fun s => s) true demo_index demo_urls 30 30 []).
  apply (play_run [IconClicked; ScriptLoaded; Typed (txt "beat"); KeyDown (mkKey false false "ArrowDown")] demo_start).
  - apply (run_start _ _ _ _ _ _ _ _ demo_location). vm_compute. reflexivity.
  - vm_compute. reflexivity.
Defined.

Definition demo_typed : Page := Eval vm_compute in set_value (txt " beat ") (set_loaded (set_script demo_start)).

Lemma search_shows_results_witness :
  exists p' hs, demo_keyUp demo_typed = (Ret tt, p') /\ items p' = map (fun h => mkItem h false) hs /\ length hs = 2%nat.
Proof.
  destruct (search_shows_results (fun s => s) (fun s => s) demo_index demo_urls 30 30 [] demo_typed (txt "beat"))
    as (p' & hs & H1 & H2 & H3 & _).
  - vm_compute. reflexivity.
  - discriminate.
  - discriminate.
  - reflexivity.
  - intros r Hr. vm_compute in Hr. vm_compute. repeat (apply elem_of_cons in Hr as [->|Hr]; [cbn; lia|]).
    by apply not_elem_of_nil in Hr.
  - vm_compute. discriminate.
  - exists p', hs. split_and!; [exact H1|exact H2|]. rewrite H3. vm_compute. reflexivity.
Defined.



(** Terms that do not survive the address. *)
Lemma lost_terms :
  map (fun t => value (demo_fromUrl (initial_page (location (demo_keyUp (set_value t demo_typed)).2))).2)
    [txt "c++"; txt "a&b"; txt "c#"; txt "x=y=z"; txt "a" ++ [1]]
  = [txt "c  "; txt "a"; txt "c"; txt "x"; txt "a"].
Proof. vm_compute. reflexivity. Qed.

Lemma retyped_term_not_searched_witness :
  exists p2, option_map items (play demo_found [Typed []; Typed (txt "beat")]) = Some (items p2) /\ items p2 = [].
Proof.
  destruct (retyped_term_not_searched (fun s => s) (fun s => s) true demo_index demo_urls 30 30 []
              (set_value [] demo_found) (txt "beat")) as (p1 & p2 & H1 & H2 & H3 & _);
    [reflexivity|vm_compute; reflexivity|discriminate|vm_compute; reflexivity|].
  exists p2. split; [|exact H3]. rewrite H3. vm_compute. reflexivity.
Defined.
