(* ===== verification/Themes.v ===== *)
(** * The book's themes (src/_site/book/book-a0b12cfe.js, [themes])

    The block that keeps the colour theme: the popup with its buttons and keys, the stored
    choice, the class of the root element and the stylesheets. The book's configuration and
    the permissions of the browser's storage are section variables. The colour of the
    browser's own frame and the editors' themes, which [set_theme] also passes on, are not
    part of the page here. *)

From S2P Require Import Prelude.

(** The page as the block sees it. [buttons] are the ids of the buttons of the popup,
    [selected] the id of the one with the class [theme-selected]; the three stylesheets
    are given by whether they are enabled. [meta_colour] is the content of the tag that colours
    the browser's frame, [meta_timers] the timeouts that will set it, [editors] the themes of
    the editors, when there are any. *)
Inductive Focus : Type := OnButton (id : string) | OnToggle | Elsewhere.

Record Page : Type := mkPage {
  classes : gset string;
  stored : option string;
  previousTheme : string;
  ayuHighlight : bool;
  tomorrowNight : bool;
  highlight : bool;
  selected : option string;
  popup_shown : bool;
  aria_expanded : bool;
  focused : Focus;
  dark : bool;
  meta_colour : string;
  meta_timers : nat;
  editors : option (list string);
}.

Definition set_classes (s : gset string) (t : string) (p : Page) : Page :=
  mkPage s (stored p) t (ayuHighlight p) (tomorrowNight p) (highlight p) (selected p) (popup_shown p)
    (aria_expanded p) (focused p) (dark p) (meta_colour p) (meta_timers p) (editors p).
Definition set_stored (v : option string) (p : Page) : Page :=
  mkPage (classes p) v (previousTheme p) (ayuHighlight p) (tomorrowNight p) (highlight p) (selected p)
    (popup_shown p) (aria_expanded p) (focused p) (dark p) (meta_colour p) (meta_timers p) (editors p).
Definition set_sheets (a t h : bool) (p : Page) : Page :=
  mkPage (classes p) (stored p) (previousTheme p) a t h (selected p) (popup_shown p) (aria_expanded p) (focused p)
    (dark p) (meta_colour p) (meta_timers p) (editors p).
Definition set_selected (v : option string) (p : Page) : Page :=
  mkPage (classes p) (stored p) (previousTheme p) (ayuHighlight p) (tomorrowNight p) (highlight p) v
    (popup_shown p) (aria_expanded p) (focused p) (dark p) (meta_colour p) (meta_timers p) (editors p).
Definition set_popup (b : bool) (p : Page) : Page :=
  mkPage (classes p) (stored p) (previousTheme p) (ayuHighlight p) (tomorrowNight p) (highlight p) (selected p)
    b b (focused p) (dark p) (meta_colour p) (meta_timers p) (editors p).
Definition set_focused (f : Focus) (p : Page) : Page :=
  mkPage (classes p) (stored p) (previousTheme p) (ayuHighlight p) (tomorrowNight p) (highlight p) (selected p)
    (popup_shown p) (aria_expanded p) f (dark p) (meta_colour p) (meta_timers p) (editors p).
Definition set_dark (b : bool) (p : Page) : Page :=
  mkPage (classes p) (stored p) (previousTheme p) (ayuHighlight p) (tomorrowNight p) (highlight p) (selected p)
    (popup_shown p) (aria_expanded p) (focused p) b (meta_colour p) (meta_timers p) (editors p).
Definition set_meta (c : string) (n : nat) (p : Page) : Page :=
  mkPage (classes p) (stored p) (previousTheme p) (ayuHighlight p) (tomorrowNight p) (highlight p) (selected p)
    (popup_shown p) (aria_expanded p) (focused p) (dark p) c n (editors p).
Definition set_editors (v : option (list string)) (p : Page) : Page :=
  mkPage (classes p) (stored p) (previousTheme p) (ayuHighlight p) (tomorrowNight p) (highlight p) (selected p)
    (popup_shown p) (aria_expanded p) (focused p) (dark p) (meta_colour p) (meta_timers p) v.

Definition type_error : exn := Exn "TypeError" "Cannot read properties of null" None None None None.
Definition security_error : exn := Exn "SecurityError" "The operation is insecure." None None None None.

Section themes.
(** The page's configuration, and whether the browser lets it read and write its storage. *)
Context (themeIds : list string) (default_theme : string) (default_dark_light : option (string * string)).
Context (can_read can_write : bool).
(** The background the stylesheets give the root element for its classes. *)
Context (background : gset string -> string).

Definition prefix : string := "mdbook-theme-".

(** [themePopup.querySelector('button#mdbook-theme-' + theme)]. A theme's name, stored or
    configured, is made of letters, digits, hyphens and underscores, so that the selector
    names one id. *)
Definition button (theme : string) : option string :=
  if bool_decide (prefix +:+ theme ∈ themeIds) then Some (prefix +:+ theme) else None.

Definition get_saved_theme (p : Page) : option string := if can_read then stored p else None.

Definition get_theme (p : Page) : string :=
  match get_saved_theme p with
  | Some theme =>
      if bool_decide (prefix +:+ theme ∈ themeIds) then theme
      else match default_dark_light with
           | None => default_theme
           | Some (d, l) => if dark p then d else l
           end
  | None =>
      match default_dark_light with
      | None => default_theme
      | Some (d, l) => if dark p then d else l
      end
  end.

Definition delete_saved_theme : M Page unit :=
  if can_read then modify (set_stored None) else throw security_error.

Definition updateThemeSelected : M Page unit :=
  modify (set_selected None);;
  p ← get;
  let selected := default "default_theme"%string (get_saved_theme p) in
  match (match button selected with Some e => Some e | None => button (get_theme p) end) with
  | Some e => modify (set_selected (Some e))
  | None => throw type_error
  end.

Definition ace_theme (theme : string) : string :=
  if String.eqb theme "coal" || String.eqb theme "navy" || String.eqb theme "ayu" then "ace/theme/tomorrow_night"
  else "ace/theme/dawn".

(** The timeout that [set_theme] starts. *)
Definition on_meta_timer (p : Page) : Page :=
  match meta_timers p with O => p | S n => set_meta (background (classes p)) n p end.

Definition set_theme (theme : string) (store : bool) : M Page unit :=
  (if String.eqb theme "coal" || String.eqb theme "navy" then modify (set_sheets false true false)
   else if String.eqb theme "ayu" then modify (set_sheets true false false)
   else modify (set_sheets false false true));;
  modify (fun p => set_meta (meta_colour p) (S (meta_timers p)) p);;
  modify (fun p => set_editors (map (fun _ => ace_theme theme) <$> editors p) p);;
  (if store then (if can_write then modify (set_stored (Some theme)) else mret tt) else mret tt);;
  modify (fun p => set_classes ({[theme]} ∪ (classes p ∖ {[previousTheme p]})) theme p);;
  updateThemeSelected.

Definition showThemes : M Page unit :=
  modify (set_popup true);;
  p ← get;
  match button (get_theme p) with
  | Some e => modify (set_focused (OnButton e))
  | None => throw type_error
  end.

Definition hideThemes : M Page unit := modify (set_popup false);; modify (set_focused OnToggle).

(** The block's own statements: previousTheme starts as default_theme, and the theme is
    set without storing it. *)
Definition start : M Page unit :=
  modify (fun p => set_classes (classes p) default_theme p);;
  p ← get;
  set_theme (get_theme p) false.

(** A click in the popup, on the button [id] or on a child of it. The button's class
    name is exactly [theme] unless it is the selected one. *)
Definition popup_click (id : string) : M Page unit :=
  p ← get;
  if bool_decide (selected p = Some id) then mret tt
  else
    let theme := if String.prefix prefix id
                 then String.substring (String.length prefix) (String.length id - String.length prefix) id else id in
    if String.eqb theme "default_theme" then
      delete_saved_theme;; p ← get; set_theme (get_theme p) false
    else set_theme theme true.

Inductive event : Type :=
| SchemeChanged (d : bool)       (** the system's colour scheme *)
| ToggleClicked
| PopupClicked (id : string)
| FocusLeft (related : bool)     (** [focusout]: whether the focus goes to an element outside *)
| OutsideClicked
| KeyPressed (key : string)      (** in the popup, without a modifier *)
| MetaTimer.

Fixpoint position (id : string) (l : list string) : option nat :=
  match l with [] => None | x :: l => if String.eqb x id then Some 0%nat else S <$> position id l end.

(** The button [n] places further in the popup. *)
Definition neighbour (n : Z) (p : Page) : option string :=
  match focused p with
  | OnButton id => i ← position id themeIds; if Z.of_nat i + n <? 0 then None else themeIds !! Z.to_nat (Z.of_nat i + n)
  | _ => None
  end.

Definition focus_on (o : option string) : M Page unit :=
  match o with Some id => modify (set_focused (OnButton id)) | None => mret tt end.

Definition on_key (key : string) : M Page unit :=
  p ← get;
  if String.eqb key "Escape" then hideThemes
  else if String.eqb key "ArrowUp" then focus_on (neighbour (-1) p)
  else if String.eqb key "ArrowDown" then focus_on (neighbour 1 p)
  else if String.eqb key "Home" then focus_on (head themeIds)
  else if String.eqb key "End" then focus_on (list.last themeIds)
  else mret tt.

Definition on_event (e : event) : M Page unit :=
  p ← get;
  match e with
  | SchemeChanged d => modify (set_dark d);; p ← get; set_theme (get_theme p) false
  | ToggleClicked => if popup_shown p then hideThemes else showThemes
  | PopupClicked id => if bool_decide (id ∈ themeIds) then popup_click id else mret tt
  | FocusLeft related => if related then hideThemes else mret tt
  | OutsideClicked => if popup_shown p then hideThemes else mret tt
  | KeyPressed key => on_key key
  | MetaTimer => modify on_meta_timer
  end.

(** *** What the handlers keep *)

Definition theme_name (t : string) : Prop :=
  prefix +:+ t ∈ themeIds \/ t = default_theme \/ match default_dark_light with Some (d, l) => t = d \/ t = l | None => False end.

(** Which stylesheets belong to a theme. *)
Definition sheets_of (t : string) : bool * bool * bool :=
  if String.eqb t "coal" || String.eqb t "navy" then (false, true, false)
  else if String.eqb t "ayu" then (true, false, false) else (false, false, true).

Lemma get_theme_name (p : Page) : theme_name (get_theme p).
Proof.
  unfold get_theme, theme_name. destruct (get_saved_theme p) as [t|].
  - case_bool_decide; [by left|]. destruct default_dark_light as [[d l]|]; [|by right; left].
    right; right. destruct (dark p); [by left|by right].
  - destruct default_dark_light as [[d l]|]; [|by right; left]. right; right. destruct (dark p); [by left|by right].
Qed.

Section kept.
Context (others : gset string).
Context (Hothers : forall t, theme_name t -> t ∉ others).
Context (Hids : forall id, id ∈ themeIds -> exists t, id = prefix +:+ t).
Context (Hbuttons : forall t, theme_name t -> prefix +:+ t ∈ themeIds).

Record shown (p : Page) : Prop := {
  sh_classes : classes p = {[previousTheme p]} ∪ others;
  sh_theme : theme_name (previousTheme p);
  sh_sheets : (ayuHighlight p, tomorrowNight p, highlight p) = sheets_of (previousTheme p);
  sh_selected : exists e, selected p = Some e /\ e ∈ themeIds;
  sh_popup : aria_expanded p = popup_shown p;
  sh_meta : meta_timers p = 0%nat -> meta_colour p = background (classes p);
  sh_editors : forall l, editors p = Some l -> Forall (fun t => t = ace_theme (previousTheme p)) l;
  sh_saved : can_read = true -> can_write = true -> previousTheme p = get_theme p;
}.

Lemma button_in t e : button t = Some e -> e ∈ themeIds.
Proof. unfold button. case_bool_decide; [|done]. by intros [= <-]. Qed.

Lemma get_theme_eq (p q : Page) : stored p = stored q -> dark p = dark q -> get_theme p = get_theme q.
Proof. intros E1 E2. unfold get_theme, get_saved_theme. by rewrite E1, E2. Qed.

(** The page [set_theme] makes, before a button is marked as the selected one. *)
Definition themed (t : string) (store : bool) (p : Page) : Page :=
  let '(a, n, h) := sheets_of t in
  mkPage ({[t]} ∪ (classes p ∖ {[previousTheme p]})) (if store && can_write then Some t else stored p) t a n h None
    (popup_shown p) (aria_expanded p) (focused p) (dark p) (meta_colour p) (S (meta_timers p))
    (map (fun _ => ace_theme t) <$> editors p).

Definition button_to_mark (p : Page) : option string :=
  match button (default "default_theme"%string (get_saved_theme p)) with
  | Some e => Some e
  | None => button (get_theme p)
  end.

Lemma updateThemeSelected_eq (p : Page) :
  updateThemeSelected p
  = match button_to_mark (set_selected None p) with
    | Some e => (Ret tt, set_selected (Some e) p)
    | None => (Throw type_error, set_selected None p)
    end.
Proof.
  unfold updateThemeSelected, button_to_mark. unfold_m. cbn -[button get_saved_theme get_theme set_selected].
  destruct (button (default _ _)); [done|]. by destruct (button _).
Qed.

Lemma then_modify (f : Page -> Page) (m : M Page unit) (p : Page) : (modify f;; m) p = m (f p).
Proof. done. Qed.

Lemma then_skip (m : M Page unit) (p : Page) : (mret tt;; m) p = m p.
Proof. done. Qed.

Lemma set_theme_eq (t : string) (store : bool) (p : Page) :
  set_theme t store p
  = match button_to_mark (themed t store p) with
    | Some e => (Ret tt, set_selected (Some e) (themed t store p))
    | None => (Throw type_error, themed t store p)
    end.
Proof.
  unfold set_theme, themed, sheets_of.
  destruct (String.eqb t "coal" || String.eqb t "navy"); [|destruct (String.eqb t "ayu")]; rewrite !then_modify;
    (destruct store, can_write; cbn [andb]; rewrite ?then_modify, ?then_skip);
    rewrite ?then_modify, updateThemeSelected_eq; by destruct p.
Qed.

Lemma button_to_mark_some (p : Page) : exists e, button_to_mark p = Some e /\ e ∈ themeIds.
Proof.
  unfold button_to_mark. destruct (button (default _ _)) as [e|] eqn:E; [exists e; eauto using button_in|].
  pose proof (Hbuttons _ (get_theme_name p)) as H. exists (prefix +:+ get_theme p). unfold button.
  by rewrite bool_decide_true.
Qed.

(** What [set_theme] leaves. *)
Lemma set_theme_shown (t : string) (store : bool) (p : Page) :
  theme_name t ->
  aria_expanded p = popup_shown p ->
  (exists x, classes p = {[x]} ∪ others /\ theme_name x /\ (x = previousTheme p \/ x = t)) ->
  theme_name (previousTheme p) ->
  (can_read = true -> can_write = true -> store = false -> t = get_theme p) ->
  shown (snd (set_theme t store p)) /\ previousTheme (snd (set_theme t store p)) = t
  /\ stored (snd (set_theme t store p)) = (if store && can_write then Some t else stored p).
Proof.
  intros Ht Hpop (x & Hcl & Hx & Hxt) Hprev Hsave. rewrite set_theme_eq.
  destruct (button_to_mark_some (themed t store p)) as (e & -> & He). cbn [snd].
  assert (Hcl' : {[t]} ∪ (classes p ∖ {[previousTheme p]}) = {[t]} ∪ others).
  { rewrite Hcl. pose proof (Hothers _ Hx). pose proof (Hothers _ Hprev). destruct Hxt as [->| ->]; set_solver. }
  unfold themed. destruct (sheets_of t) as [[a n] h] eqn:Es. split; [|done]. split; cbn; try done.
  - by exists e.
  - intros l. destruct (editors p); [|done]. intros [= <-]. apply list.Forall_fmap, list.Forall_true. done.
  - intros Hr Hw. specialize (Hsave Hr Hw). rewrite Hw, andb_true_r. destruct store.
    + unfold get_theme, get_saved_theme. cbn. rewrite Hr. by rewrite bool_decide_true by auto.
    + rewrite Hsave at 1 by done. by apply get_theme_eq.
Qed.

Lemma shown_other (p q : Page) :
  classes q = classes p -> previousTheme q = previousTheme p ->
  (ayuHighlight q, tomorrowNight q, highlight q) = (ayuHighlight p, tomorrowNight p, highlight p) ->
  selected q = selected p -> stored q = stored p -> dark q = dark p -> aria_expanded q = popup_shown q ->
  (meta_timers q = 0%nat -> meta_timers p = 0%nat /\ meta_colour q = meta_colour p \/ meta_colour q = background (classes q)) ->
  editors q = editors p -> shown p -> shown q.
Proof.
  intros E1 E2 E3 E4 E5 E6 E7 E8 E9 [H1 H2 H3 H4 H5 Hm He H6]. split; rewrite ?E1, ?E2, ?E3, ?E4, ?E9; try done.
  - intros H0. rewrite E1 in E8. destruct (E8 H0) as [[Hz ->]|?]; [by apply Hm|done].
  - intros Hr Hw. rewrite (get_theme_eq q p) by done. by apply H6.
Qed.

Lemma substring_all (t : string) : String.substring 0 (String.length t) t = t.
Proof. induction t as [|c t IH]; [done|]. cbn. by rewrite IH. Qed.

Lemma strip_prefix (a t : string) :
  String.prefix a (a +:+ t) = true
  /\ String.substring (String.length a) (String.length (a +:+ t) - String.length a) (a +:+ t) = t.
Proof.
  induction a as [|c a [IH1 IH2]].
  - split; [by destruct t|]. change (String.length "") with 0%nat. rewrite Nat.sub_0_r. apply substring_all.
  - split; [|exact IH2]. change ((if Ascii.ascii_dec c c then String.prefix a (a +:+ t) else false) = true).
    by destruct (Ascii.ascii_dec c c).
Qed.

Lemma shown_event (e : event) (p : Page) : shown p -> shown (snd (on_event e p)).
Proof.
  intros Hp. assert (Hfocus : forall f, shown (set_focused f p)) by (intros f; apply (shown_other p); try done; [apply Hp|by left]).
  assert (Hset : forall t store p0, theme_name t ->
    classes p0 = classes p -> previousTheme p0 = previousTheme p -> aria_expanded p0 = popup_shown p0 ->
    (can_read = true -> can_write = true -> store = false -> t = get_theme p0) -> shown (snd (set_theme t store p0))).
  { intros t store p0 Ht E1 E2 E3 Hs. eapply set_theme_shown; [done|done| | |done].
    - exists (previousTheme p). rewrite E1, E2. split_and!; [apply Hp|apply Hp|by left].
    - rewrite E2. apply Hp. }
  destruct e as [d| |id|r| |key|]; unfold on_event; unfold_m.
  - apply Hset; [apply get_theme_name|done|done|apply Hp|done].
  - unfold hideThemes, showThemes. unfold_m. destruct (popup_shown p); [by apply (shown_other p); auto|].
    destruct (button _); by apply (shown_other p); auto.
  - case_bool_decide as Hid; [|done]. destruct (Hids id Hid) as [t ->].
    unfold popup_click, delete_saved_theme. unfold_m. case_bool_decide; [done|].
    destruct (strip_prefix prefix t) as [-> ->]. destruct (String.eqb t "default_theme").
    + destruct can_read eqn:Hr; [|done]. apply Hset; [apply get_theme_name|done|done|apply Hp|done].
    + apply Hset; [by left|done|done|apply Hp|done].
  - destruct r; unfold hideThemes; unfold_m; [by apply (shown_other p); auto|done].
  - destruct (popup_shown p); unfold hideThemes; unfold_m; [by apply (shown_other p); auto|done].
  - unfold on_key, hideThemes, focus_on. unfold_m.
    repeat case_match; try done; try (by apply (shown_other p); auto); by apply Hfocus.
  - unfold on_meta_timer. cbn [snd]. destruct (meta_timers p) as [|n]; [done|].
    apply (shown_other p); try done; [apply Hp|by right].
Qed.
End kept.

Definition run (es : list event) (p : Page) : Page := foldl (fun p e => snd (on_event e p)) p es.

Lemma start_shown (others : gset string) (x : string) (p : Page) :
  (forall t, theme_name t -> t ∉ others) -> (forall id, id ∈ themeIds -> exists t, id = prefix +:+ t) ->
  (forall t, theme_name t -> prefix +:+ t ∈ themeIds) ->
  classes p = {[x]} ∪ others -> x = default_theme \/ x = get_theme p -> aria_expanded p = popup_shown p ->
  shown others (snd (start p)) /\ previousTheme (snd (start p)) = get_theme p.
Proof.
  intros Ho Hi Hb Hcl Hx Hpop. unfold start. unfold_m.
  set (p0 := set_classes (classes p) default_theme p).
  assert (Hg : get_theme p0 = get_theme p) by (by apply get_theme_eq).
  assert (Hd : theme_name default_theme) by (right; by left).
  destruct (set_theme_shown others Ho Hi Hb (get_theme p0) false p0) as (H1 & H2 & _);
    [apply get_theme_name|done| |done|done|by rewrite H2].
  exists x. split; [done|]. destruct Hx as [->| ->]; [by split; [|left]|].
  split; [apply get_theme_name|right; by symmetry].
Qed.

(** C31. The page always wears exactly one theme. Whatever the reader does with the popup, and
    whichever way the system's colour scheme changes, the root element carries the class of
    one theme and every class that is not a theme's; the stylesheet that is enabled is the one
    of that theme, and so are the themes of the editors; once no timeout is left the browser's
    frame has the colour of the page; one button of the popup is marked; [aria-expanded] tells whether the popup
    is open. Where the browser lets the page use its storage the theme also survives: a page
    loaded with what is stored now, under the same colour scheme, shows the same theme,
    whether its root has the default theme's class or already the saved theme's, which the
    page's inline script puts there. *)
Theorem themes_consistent (others : gset string) (x : string) (p : Page) (es : list event) :
  (forall t, theme_name t -> t ∉ others) ->
  (forall id, id ∈ themeIds -> exists t, id = prefix +:+ t) ->
  (forall t, theme_name t -> prefix +:+ t ∈ themeIds) ->
  classes p = {[x]} ∪ others -> x = default_theme \/ x = get_theme p -> aria_expanded p = popup_shown p ->
  let q := run es (snd (start p)) in
  shown others q
  /\ (can_read = true -> can_write = true ->
      forall r y, stored r = stored q -> dark r = dark q -> classes r = {[y]} ∪ others ->
      y = default_theme \/ y = get_theme r -> aria_expanded r = popup_shown r ->
      shown others (snd (start r)) /\ previousTheme (snd (start r)) = previousTheme q).
Proof.
  intros Ho Hi Hb Hcl Hx Hpop q.
  assert (Hq : shown others q).
  { unfold q. pose proof (proj1 (start_shown others x p Ho Hi Hb Hcl Hx Hpop)) as H. revert H.
    generalize (snd (start p)). unfold run. induction es as [|e es IH]; intros p0 Hp0; [done|].
    cbn [foldl]. apply IH, shown_event; done. }
  split; [done|]. intros Hr Hw r y Es Ed Hclr Hy Hpopr.
  destruct (start_shown others y r Ho Hi Hb Hclr Hy Hpopr) as [H1 H2].
  split; [done|]. rewrite H2, (get_theme_eq r q Es Ed). symmetry. by apply Hq.
Qed.
End themes.

(** The popup of this book, and a page as the browser first paints it. *)
Definition book_ids : list string :=
  ["mdbook-theme-default_theme"; "mdbook-theme-light"; "mdbook-theme-rust"; "mdbook-theme-coal"; "mdbook-theme-navy";
   "mdbook-theme-ayu"]%string.
Definition fresh (saved : option string) (d : bool) : Page :=
  mkPage {["light"; "js"]} saved "" false false true None false false Elsewhere d "" 0 (Some ["ace/theme/chrome"]).
Definition paper (classes : gset string) : string := if bool_decide ("light" ∈ classes) then "white" else "black".

(** With the switches: no saved theme, a dark system; the reader picks Ayu, then Default. *)
Example pick_and_reset :
  let go es := run book_ids "light" (Some ("navy", "light")%string) true true paper es
                 (snd (start book_ids "light" (Some ("navy", "light")%string) true true (fresh None true))) in
  previousTheme (go []) = "navy"%string
  /\ previousTheme (go [ToggleClicked; PopupClicked "mdbook-theme-ayu"]) = "ayu"%string
  /\ stored (go [PopupClicked "mdbook-theme-ayu"]) = Some "ayu"%string
  /\ previousTheme (go [PopupClicked "mdbook-theme-ayu"; PopupClicked "mdbook-theme-default_theme"; SchemeChanged false])
     = "light"%string
  /\ (meta_timers (go [MetaTimer]), meta_colour (go [MetaTimer])) = (0%nat, "black"%string)
  /\ editors (go []) = Some ["ace/theme/tomorrow_night"%string].
Proof. vm_compute. split_and!; reflexivity. Qed.

Lemma themes_consistent_witness :
  let p := fresh None true in
  let q := run book_ids "light" (Some ("navy", "light")%string) true true paper [PopupClicked "mdbook-theme-ayu"]
             (snd (start book_ids "light" (Some ("navy", "light")%string) true true p)) in
  shown book_ids "light" (Some ("navy", "light")%string) true true paper {["js"]} q.
Proof.
  intros p q.
  assert (Hn : forall t, theme_name book_ids "light" (Some ("navy", "light")%string) t ->
    prefix +:+ t ∈ book_ids).
  { intros t [H|[->|[->| ->]]]; [done|repeat constructor..]. }
  refine (proj1 (themes_consistent book_ids "light" (Some ("navy", "light")%string) true true paper {["js"]} "light" p
    [PopupClicked "mdbook-theme-ayu"] _ _ Hn eq_refl (or_introl eq_refl) eq_refl)).
  - intros t Ht Hj. apply Hn in Ht. rewrite elem_of_singleton in Hj. subst t.
    repeat (apply elem_of_cons in Ht as [Ht|Ht]; [discriminate Ht|]). by apply elem_of_nil in Ht.
  - intros id Hid. repeat (apply elem_of_cons in Hid as [->|Hid]; [by eexists|]). by apply elem_of_nil in Hid.
Defined.
