(* ===== verification/Sidebar.v ===== *)
(** * The book's sidebar (src/_site/book/book-a0b12cfe.js, [sidebar])

    The block that shows and hides the sidebar: the toggle (a label and its checkbox), the
    end of the transition, the drag handle and swipes. Mouse coordinates are whole pixels,
    touches are rational. *)

From Stdlib Require Import QArith_base Qminmax Qabs Lqa.
From S2P Require Import Prelude.

(** [visible] and [resizing] are the classes [sidebar-visible] and [sidebar-resizing] of the
    root element, [tabs] the tab indices of the sidebar's links, [display_none] its inline
    style, [width] the number of pixels of the property [--sidebar-target-width] when it is
    set, [listening] whether [resize] and [stopResize] are registered on the window. *)
Record Page : Type := mkPage {
  visible : bool;
  tabs : list Z;
  aria_expanded : bool;
  aria_hidden : bool;
  stored : option string;
  display_none : bool;
  checked : bool;
  width : option Z;
  resizing : bool;
  listening : bool;
  firstContact : option (Q * Z);
}.

Section sidebar.
Context (can_write : bool).

Definition remember (v : string) (o : option string) : option string := if can_write then Some v else o.

Definition showSidebar (p : Page) : Page :=
  mkPage true (map (fun _ => 0) (tabs p)) true false (remember "visible" (stored p)) (display_none p) (checked p)
    (width p) (resizing p) (listening p) (firstContact p).

Definition hideSidebar (p : Page) : Page :=
  mkPage false (map (fun _ => -1) (tabs p)) false true (remember "hidden" (stored p)) (display_none p) (checked p)
    (width p) (resizing p) (listening p) (firstContact p).

Definition set_display (b : bool) (p : Page) : Page :=
  mkPage (visible p) (tabs p) (aria_expanded p) (aria_hidden p) (stored p) b (checked p) (width p) (resizing p)
    (listening p) (firstContact p).
Definition set_checked (b : bool) (p : Page) : Page :=
  mkPage (visible p) (tabs p) (aria_expanded p) (aria_hidden p) (stored p) (display_none p) b (width p) (resizing p)
    (listening p) (firstContact p).
Definition set_width (w : Z) (p : Page) : Page :=
  mkPage (visible p) (tabs p) (aria_expanded p) (aria_hidden p) (stored p) (display_none p) (checked p) (Some w)
    (resizing p) (listening p) (firstContact p).
Definition set_resizing (b : bool) (p : Page) : Page :=
  mkPage (visible p) (tabs p) (aria_expanded p) (aria_hidden p) (stored p) (display_none p) (checked p) (width p) b b
    (firstContact p).
Definition set_contact (c : option (Q * Z)) (p : Page) : Page :=
  mkPage (visible p) (tabs p) (aria_expanded p) (aria_hidden p) (stored p) (display_none p) (checked p) (width p)
    (resizing p) (listening p) c.

Definition start (p : Page) : Page := if negb (visible p) then set_display true p else p.

Definition on_transitionend (p : Page) : Page := if negb (checked p) then set_display true p else p.

Definition on_toggle_click (p : Page) : Page := if negb (checked p) then set_display false p else p.

(** The listener of the checkbox's [change]. An unset width reads as NaN, which is not
    smaller than 150. *)
Definition sidebarToggle (p : Page) : Page :=
  if checked p then
    let p := match width p with
             | Some current_width => if current_width <? 150 then set_width 150 p else p
             | None => p
             end in
    showSidebar p
  else hideSidebar p.

Definition initResize (p : Page) : Page := set_resizing true p.
Definition stopResize (p : Page) : Page := set_resizing false p.

Definition resize (clientX offsetLeft innerWidth : Z) (p : Page) : Page :=
  let pos := clientX - offsetLeft in
  if pos <? 20 then hideSidebar p
  else
    let p := if negb (visible p) then showSidebar p else p in
    set_width (Z.min pos (innerWidth - 100)) p.

Definition on_touchstart (x : Q) (now : Z) (p : Page) : Page := set_contact (Some (x, now)) p.

Definition on_touchmove (curX : Q) (now : Z) (clientWidth : Z) (p : Page) : Page :=
  match firstContact p with
  | None => p
  | Some (x, time) =>
      let xDiff := (curX - x)%Q in
      let tDiff := now - time in
      if (tDiff <? 250) && Qle_bool 150 (Qabs xDiff) then
        set_contact None
          (if Qle_bool 0 xDiff && negb (Qle_bool (Qmin (inject_Z clientWidth * (1 # 4)) 300) x) then showSidebar p
           else if negb (Qle_bool 0 xDiff) && negb (Qle_bool 300 curX) then hideSidebar p
           else p)
      else p
  end.

(** The toggle is the label of the checkbox: after its own listener the browser flips the
    checkbox and reports the change. *)
Inductive event : Type :=
| ToggleClicked
| TransitionEnded
| HandlePressed
| MouseMoved (clientX offsetLeft innerWidth : Z)
| MouseReleased
| TouchStarted (x : Q) (now : Z)
| TouchMoved (curX : Q) (now clientWidth : Z).

Definition on_event (e : event) (p : Page) : Page :=
  match e with
  | ToggleClicked => let p := on_toggle_click p in sidebarToggle (set_checked (negb (checked p)) p)
  | TransitionEnded => on_transitionend p
  | HandlePressed => initResize p
  | MouseMoved x l w => if listening p then resize x l w p else p
  | MouseReleased => if listening p then stopResize p else p
  | TouchStarted x now => on_touchstart x now p
  | TouchMoved x now w => on_touchmove x now w p
  end.

Definition run (es : list event) (p : Page) : Page := foldl (fun p e => on_event e p) p es.

(** *** What the handlers keep *)

(** What is told to assistive technology and to the keyboard agrees with the class. *)
Record agrees (p : Page) : Prop := {
  ag_expanded : aria_expanded p = visible p;
  ag_hidden : aria_hidden p = negb (visible p);
  ag_tabs : Forall (fun t => t = if visible p then 0 else -1) (tabs p);
  ag_resizing : listening p = resizing p;
}.

(** Storage holds the last choice, or there has been none since [p0]. *)
Definition kept_from (p0 p : Page) : Prop :=
  (visible p = visible p0 /\ stored p = stored p0)
  \/ (can_write = true -> stored p = Some (if visible p then "visible" else "hidden")%string).

(** The checkbox, the class and the inline style tell the same. *)
Record in_step (p : Page) : Prop := {
  is_checked : checked p = visible p;
  is_displayed : visible p = true -> display_none p = false;
}.

Definition by_toggle (e : event) : bool :=
  match e with ToggleClicked | TransitionEnded => true | _ => false end.

Lemma Forall_const {A} (x : Z) (l : list A) : Forall (fun t => t = x) (map (fun _ => x) l).
Proof. induction l; by constructor. Qed.

Lemma agrees_show p : listening p = resizing p -> agrees (showSidebar p).
Proof. intros H. split; try done. apply Forall_const. Qed.
Lemma agrees_hide p : listening p = resizing p -> agrees (hideSidebar p).
Proof. intros H. split; try done. apply Forall_const. Qed.

Lemma kept_show p0 p : kept_from p0 (showSidebar p).
Proof. right. intros Hw. unfold showSidebar, remember. cbn. by rewrite Hw. Qed.
Lemma kept_hide p0 p : kept_from p0 (hideSidebar p).
Proof. right. intros Hw. unfold hideSidebar, remember. cbn. by rewrite Hw. Qed.

Lemma kept_same p0 p q : visible q = visible p -> stored q = stored p -> kept_from p0 p -> kept_from p0 q.
Proof. unfold kept_from. by intros -> ->. Qed.

Lemma agrees_same p q :
  visible q = visible p -> tabs q = tabs p -> aria_expanded q = aria_expanded p -> aria_hidden q = aria_hidden p ->
  listening q = resizing q -> agrees p -> agrees q.
Proof. intros E1 E2 E3 E4 E5 [H1 H2 H3 H4]. split; by rewrite ?E1, ?E2, ?E3, ?E4. Qed.

(** Each handler either shows the sidebar, hides it, or leaves what [agrees] and
    [kept_from] look at as it was. *)
Lemma event_keeps p0 e p : agrees p -> kept_from p0 p -> agrees (on_event e p) /\ kept_from p0 (on_event e p).
Proof.
  intros Ha Hk. pose proof (ag_resizing p Ha) as Hl.
  destruct e as [| | |x l w| |x now|x now w]; cbn [on_event];
    unfold on_toggle_click, sidebarToggle, on_transitionend, initResize, resize, stopResize, on_touchstart, on_touchmove;
    repeat case_match; split;
    first [ done | apply agrees_show; cbn; congruence | apply agrees_hide; cbn; congruence
          | apply kept_show | apply kept_hide | apply (agrees_same p); cbn; congruence | by apply (kept_same p0 p)
          | apply (agrees_same (showSidebar p)); [done..|cbn; congruence|apply agrees_show; congruence]
          | apply (agrees_same (hideSidebar p)); [done..|cbn; congruence|apply agrees_hide; congruence]
          | eapply kept_same; [..|apply kept_show]; done | eapply kept_same; [..|apply kept_hide]; done].
Qed.

Lemma toggle_in_step e p : by_toggle e = true -> in_step p -> in_step (on_event e p).
Proof.
  intros He [H1 H2]. destruct e; try done; cbn [on_event].
  - unfold on_toggle_click, sidebarToggle. destruct (checked p) eqn:Hc; cbn; rewrite ?Hc; cbn; [done|].
    destruct (width p) as [w|]; [destruct (w <? 150)|]; done.
  - unfold on_transitionend. destruct (checked p) eqn:Hc; cbn; [split; [congruence|done]|].
    split; cbn; [congruence|]. intros Hv. congruence.
Qed.

(** C32. The sidebar's page stays consistent. After any sequence of toggles, drags of the
    handle, swipes and ends of transitions, what assistive technology and the keyboard are
    told ([aria-expanded], [aria-hidden], the links' tab index) agrees with the class
    [sidebar-visible]; the drag's listeners are registered exactly while the page is marked
    as resizing; and a choice made since the page was loaded is the one in storage, where the
    browser lets the page write it. With the toggle alone the checkbox agrees with the class
    too, and a visible sidebar is displayed. *)
Theorem sidebar_consistent (p : Page) (es : list event) :
  agrees p ->
  let q := run es (start p) in
  agrees q /\ kept_from p q
  /\ (checked p = visible p -> display_none p = false -> forallb by_toggle es = true -> in_step q).
Proof.
  intros Ha q.
  assert (Hk : agrees q /\ kept_from p q).
  { unfold q, run, start. assert (H : agrees (if negb (visible p) then set_display true p else p)
      /\ kept_from p (if negb (visible p) then set_display true p else p)).
    { destruct (negb (visible p)); (split; [by apply (agrees_same p); try done; apply Ha|by left]). }
    revert H. generalize (if negb (visible p) then set_display true p else p).
    induction es as [|e es IH]; intros p0 [H1 H2]; [done|]. cbn [foldl]. by apply IH, event_keeps. }
  split_and!; [apply Hk|apply Hk|]. intros Hc Hd. unfold q, run, start.
  assert (H : in_step (if negb (visible p) then set_display true p else p)).
  { destruct (visible p) eqn:Hv; cbn; split; cbn; congruence. }
  revert H. generalize (if negb (visible p) then set_display true p else p).
  clear q Hk. induction es as [|e es IH]; intros p0 H; [done|]. cbn [forallb foldl]. intros [He Hes]%andb_true_iff.
  apply IH; [by apply toggle_in_step|done].
Qed.

(** A swipe cannot open the sidebar. On a page whose sidebar is collapsed (not checked, so
    the inline style hides it) a swipe from the left edge marks the sidebar as visible, to
    assistive technology and in storage too, and leaves the style that hides it; the next
    click on the toggle is the first thing to display it. *)
Theorem swipe_opens_nothing (p : Page) (x curX : Q) (t now clientWidth : Z) :
  checked p = false -> display_none p = true ->
  now - t < 250 -> (150 <= curX - x)%Q -> (x < Qmin (inject_Z clientWidth * (1 # 4)) 300)%Q ->
  let q := run [TouchStarted x t; TouchMoved curX now clientWidth] p in
  visible q = true /\ aria_hidden q = false /\ display_none q = true
  /\ display_none (on_event TransitionEnded q) = true /\ display_none (on_event ToggleClicked q) = false.
Proof.
  intros Hc Hd Ht Hx Hl. unfold run. cbn [foldl on_event]. unfold on_touchstart, on_touchmove.
  cbn [firstContact set_contact].
  assert (H0 : Qle_bool 0 (curX - x) = true) by (apply Qle_bool_iff; lra).
  assert (H1 : Qle_bool 150 (Qabs (curX - x)) = true).
  { apply Qle_bool_iff. rewrite Qabs_pos by lra. done. }
  assert (H2 : Qle_bool (Qmin (inject_Z clientWidth * (1 # 4)) 300) x = false).
  { destruct (Qle_bool _ x) eqn:E; [|done]. apply Qle_bool_iff in E. lra. }
  rewrite H0, H1, H2, (proj2 (Z.ltb_lt _ _)) by lia. cbn.
  unfold on_transitionend, on_toggle_click, sidebarToggle. cbn. rewrite Hc, Hd. cbn.
  split_and!; try done. rewrite Hc. by destruct (width p) as [w|]; [destruct (w <? 150)|].
Qed.
End sidebar.

(** A page as its own markup leaves it, wide or narrow. *)
Definition fresh (v : bool) : Page :=
  mkPage v [if v then 0 else -1; if v then 0 else -1] v (negb v) None false v None false false None.

Lemma sidebar_consistent_witness :
  let q := run true [ToggleClicked; TransitionEnded; ToggleClicked; HandlePressed; MouseMoved 260 0 1200; MouseReleased]
             (start (fresh true)) in
  agrees q /\ width q = Some 260.
Proof.
  intros q. split; [|reflexivity].
  refine (proj1 (sidebar_consistent true (fresh true)
    [ToggleClicked; TransitionEnded; ToggleClicked; HandlePressed; MouseMoved 260 0 1200; MouseReleased] _)).
  split; try reflexivity. repeat constructor.
Defined.

Lemma swipe_opens_nothing_witness :
  let q := run true [TouchStarted 10 0; TouchMoved 200 100 800] (start (fresh false)) in
  visible q = true /\ display_none q = true.
Proof.
  destruct (swipe_opens_nothing true (start (fresh false)) 10 200 0 100 800) as (H1 & _ & H2 & _);
    [reflexivity|reflexivity|lia|discriminate|reflexivity|by split].
Defined.
