(* ===== verification/Menu.v ===== *)
(** * The book's menu bar (src/_site/book/book-a0b12cfe.js, [controllMenu])

    The bar that leaves with the page while the reader scrolls down and comes back on the way
    up, with the border it gets away from the top of the page. Positions are rational; the
    number a style holds is the number written to it. *)

From Stdlib Require Import QArith_base Qminmax Lqa.
From S2P Require Import Prelude Number.

(** [sticky] and [bordered] are the classes of the menu bar, [style_top] its inline style in
    pixels; [topCache] and [stickyCache] are the script's copies of them. *)
Record Bar : Type := mkBar {
  scrollTop : Q;
  prevScrollTop : Q;
  style_top : Q;
  topCache : Q;
  sticky : bool;
  stickyCache : bool;
  bordered : bool;
}.

Section menu.
Context (clientHeight : Z).
Definition minMenuY : Q := inject_Z (- clientHeight - 50).

Definition updateBorder (offsetTop : Z) (b : Bar) : Bar :=
  mkBar (scrollTop b) (prevScrollTop b) (style_top b) (topCache b) (sticky b) (stickyCache b) (negb (offsetTop =? 0)).

Definition start (y : Q) (offsetTop : Z) (b : Bar) : Bar :=
  updateBorder offsetTop (mkBar y y y y false false (bordered b)).

(** The second half of the listener: what [nextSticky] and [nextTop] ask for. *)
Definition apply_next (nextSticky : option bool) (nextTop : option Q) (b : Bar) : Bar :=
  let '(s, c) := match nextSticky with
                 | Some true => if negb (stickyCache b) then (true, true) else (sticky b, stickyCache b)
                 | Some false => if stickyCache b then (false, false) else (sticky b, stickyCache b)
                 | None => (sticky b, stickyCache b)
                 end in
  let '(st, tc) := match nextTop with Some t => (t, t) | None => (style_top b, topCache b) end in
  mkBar (scrollTop b) (scrollTop b) st tc s c (bordered b).

Definition on_scroll (y : Q) (b : Bar) : Bar :=
  let b := mkBar (Qmax y 0) (prevScrollTop b) (style_top b) (topCache b) (sticky b) (stickyCache b) (bordered b) in
  let scrollDown := Qltb (prevScrollTop b) (scrollTop b) in
  let menuPosAbsoluteY := (topCache b - scrollTop b)%Q in
  if scrollDown then
    apply_next (Some false) (if Qltb 0 menuPosAbsoluteY then Some (prevScrollTop b) else None) b
  else if Qltb 0 menuPosAbsoluteY then apply_next (Some true) None b
  else apply_next None (if Qltb menuPosAbsoluteY minMenuY then Some (prevScrollTop b + minMenuY)%Q else None) b.

(** Both listeners run on a [scroll]; the layout gives [offsetTop]. *)
Definition on_event (e : Q * Z) (b : Bar) : Bar := updateBorder e.2 (on_scroll e.1 b).
Definition run (es : list (Q * Z)) (b : Bar) : Bar := foldl (fun b e => on_event e b) b es.

(** *** Where the bar is *)

Record coherent (b : Bar) : Prop := {
  co_sticky : stickyCache b = sticky b;
  co_top : topCache b = style_top b;
  co_prev : prevScrollTop b = scrollTop b;
  co_above : sticky b = true -> (scrollTop b < style_top b)%Q;
}.

Ltac scroll_cases :=
  repeat match goal with
         | |- context [Qltb ?a ?b] => let E := fresh "E" in destruct (Qltb a b) eqn:E; [apply Qltb_true in E|apply Qltb_false in E]
         end.

(** A scroll down: the bar is part of the page and its top edge is not below the top of the
    window. *)
Lemma scroll_down (y : Q) (b : Bar) :
  coherent b -> (scrollTop b < Qmax y 0)%Q ->
  sticky (on_scroll y b) = false /\ (style_top (on_scroll y b) <= scrollTop (on_scroll y b))%Q.
Proof.
  intros [H1 H2 H3 H4] Hy. unfold on_scroll. cbn [prevScrollTop scrollTop topCache]. rewrite H1, H2, H3.
  generalize dependent (Qmax y 0). intros m Hm.
  scroll_cases; cbn; destruct (sticky b); cbn; split; try done; lra.
Qed.

(** A scroll up, or a scroll event without a move: the bar is fixed, or at most [minMenuY]
    above the window. *)
Lemma scroll_up (y : Q) (b : Bar) :
  coherent b -> (Qmax y 0 <= scrollTop b)%Q ->
  sticky (on_scroll y b) = true
  \/ (minMenuY <= style_top (on_scroll y b) - scrollTop (on_scroll y b))%Q.
Proof.
  intros [H1 H2 H3 H4] Hy. unfold on_scroll. cbn [prevScrollTop scrollTop topCache]. rewrite H1, H2, H3.
  generalize dependent (Qmax y 0). intros m Hm.
  scroll_cases; cbn; destruct (sticky b); cbn; try (by left); right; lra.
Qed.

Lemma coherent_scroll (y : Q) (b : Bar) : coherent b -> coherent (on_scroll y b).
Proof.
  intros [H1 H2 H3 H4]. unfold on_scroll. cbn [prevScrollTop scrollTop topCache]. rewrite H1, H2, H3.
  generalize (Qmax y 0). intros m.
  scroll_cases; cbn; destruct (sticky b) eqn:Hs; cbn; split; cbn; rewrite ?Hs; try done; intros; try specialize (H4 eq_refl); lra.
Qed.

Lemma coherent_event (e : Q * Z) (b : Bar) : coherent b -> coherent (on_event e b).
Proof. intros H. destruct (coherent_scroll e.1 b H) as [H1 H2 H3 H4]. by split. Qed.

Lemma coherent_run (es : list (Q * Z)) (b : Bar) : coherent b -> coherent (run es b).
Proof. revert b. induction es as [|e es IH]; intros b H; [done|]. cbn. by apply IH, coherent_event. Qed.

Lemma scrollTop_event (e : Q * Z) (b : Bar) : scrollTop (on_event e b) = Qmax e.1 0.
Proof. unfold on_event, on_scroll, apply_next. cbn. by repeat case_match. Qed.

Lemma sticky_border (o : Z) (b : Bar) : sticky (updateBorder o b) = sticky b.
Proof. done. Qed.

(** The menu bar follows the reader. After any history of scrolls the script's caches hold
    the bar's class and style, and a fixed bar belongs to a page whose own place for the bar
    is below the top of the window. A scroll down then releases the bar at or above the top
    of the window, so that it leaves with the page; a scroll up fixes it, or leaves it at
    most its height and fifty pixels above the window, ready to come back; and the border
    shows exactly when the bar is not at the top of the page. *)
Theorem menu_follows_reader (y0 : Q) (o0 : Z) (b0 : Bar) (es : list (Q * Z)) (e : Q * Z) :
  let b := run es (start y0 o0 b0) in
  let b' := on_event e b in
  coherent b'
  /\ ((scrollTop b < scrollTop b')%Q -> sticky b' = false /\ (style_top b' <= scrollTop b')%Q)
  /\ ((scrollTop b' <= scrollTop b)%Q ->
      sticky b' = true \/ (minMenuY <= style_top b' - scrollTop b')%Q)
  /\ bordered b' = negb (e.2 =? 0).
Proof.
  intros b b'. assert (Hb : coherent b) by (by apply coherent_run).
  unfold b'. rewrite scrollTop_event. split_and!.
  - by apply coherent_event.
  - intros Hd. destruct (scroll_down e.1 b Hb Hd) as [H1 H2]. split; [done|].
    change (style_top (on_event e b)) with (style_top (on_scroll e.1 b)).
    rewrite <- (scrollTop_event e b). exact H2.
  - intros Hu. rewrite <- (scrollTop_event e b). exact (scroll_up e.1 b Hb Hu).
  - done.
Qed.

(** Upward scrolls from a place where the bar is fixed or within reach. *)
Definition within_reach (low : Q) (b : Bar) : Prop := sticky b = true \/ (low <= style_top b)%Q.

Fixpoint upward (y : Q) (es : list (Q * Z)) : Prop :=
  match es with [] => True | e :: es => (0 <= e.1)%Q /\ (e.1 <= y)%Q /\ upward e.1 es end.

Lemma reach_step (low : Q) (e : Q * Z) (b : Bar) :
  coherent b -> (0 <= e.1)%Q -> (e.1 <= scrollTop b)%Q -> (scrollTop b + minMenuY <= low)%Q ->
  within_reach low b ->
  within_reach low (on_event e b) /\ ((e.1 < low)%Q -> sticky (on_event e b) = true).
Proof.
  intros [H1 H2 H3 H4] H0 Hu Hlow Hw. unfold within_reach, on_event. rewrite sticky_border.
  change (style_top (updateBorder e.2 (on_scroll e.1 b))) with (style_top (on_scroll e.1 b)).
  unfold on_scroll. cbn [prevScrollTop scrollTop topCache]. rewrite H1, H2, H3.
  pose proof (Q.max_l e.1 0 H0) as Hm. generalize dependent (Qmax e.1 0). intros m Hm.
  unfold within_reach in Hw.
  destruct (sticky b) eqn:Hs; [specialize (H4 eq_refl)|destruct Hw as [Hw|Hw]; [done|]];
    scroll_cases; cbn; rewrite ?Hs; try (exfalso; lra); (split; [try (by left); right; lra|]); intros; try done; lra.
Qed.

Lemma upward_le (y z : Q) (es : list (Q * Z)) : (y <= z)%Q -> upward y es -> upward z es.
Proof. destruct es as [|e es]; [done|]. cbn. intros H (H1 & H2 & H3). split_and!; [done|lra|done]. Qed.

Lemma reach_run (low : Q) (es : list (Q * Z)) (e : Q * Z) (b : Bar) :
  0 <= clientHeight -> coherent b -> upward (scrollTop b) (es ++ [e]) -> (scrollTop b + minMenuY <= low)%Q -> within_reach low b ->
  (e.1 < low)%Q -> sticky (run (es ++ [e]) b) = true.
Proof.
  intros Hh. revert b. induction es as [|e' es IH]; intros b Hb; cbn [app upward]; intros (H0 & Hu & Hups) Hlow Hw He.
  - by apply (reach_step low e b).
  - destruct (reach_step low e' b) as [Hw' _]; try done.
    assert (Hst : (scrollTop (on_event e' b) == e'.1)%Q) by (rewrite scrollTop_event; by apply Q.max_l).
    apply IH; [by apply coherent_event| |lra|done|done].
    apply (upward_le e'.1); [lra|done].
Qed.

(** Scrolling back up brings the menu bar back: from wherever the reader is, one upward
    scroll to [y1] and further upward scrolls that pass the bar's height and fifty pixels
    above it leave the bar fixed at the top of the window, whatever happened before and
    however the way is cut into scroll events. *)
Theorem menu_comes_back (y0 : Q) (o0 : Z) (b0 : Bar) (before : list (Q * Z)) (e1 : Q * Z) (up : list (Q * Z)) (e : Q * Z) :
  0 <= clientHeight ->
  upward (scrollTop (run before (start y0 o0 b0))) (e1 :: up ++ [e]) ->
  (e.1 < e1.1 - inject_Z (clientHeight + 50))%Q ->
  sticky (run (before ++ e1 :: up ++ [e]) (start y0 o0 b0)) = true.
Proof.
  intros Hh. unfold run. rewrite foldl_app. fold (run before (start y0 o0 b0)).
  assert (Hb : coherent (run before (start y0 o0 b0))) by (by apply coherent_run).
  generalize dependent (run before (start y0 o0 b0)). intros b Hb [H0 [Hu Hups]] He.
  cbn [foldl]. fold (run (up ++ [e]) (on_event e1 b)).
  assert (Hst : (scrollTop (on_event e1 b) == e1.1)%Q) by (rewrite scrollTop_event; by apply Q.max_l).
  assert (Hmin : (minMenuY == - inject_Z (clientHeight + 50))%Q).
  { unfold minMenuY. rewrite <- inject_Z_opp. apply inject_Z_injective. lia. }
  apply (reach_run (scrollTop (on_event e1 b) + minMenuY)); [done|by apply coherent_event| |lra| |lra].
  - apply (upward_le e1.1); [lra|done].
  - assert (Hu' : (Qmax e1.1 0 <= scrollTop b)%Q) by (rewrite Q.max_l; done).
    destruct (scroll_up e1.1 b Hb Hu') as [H|H]; [by left|right].
    change (minMenuY <= style_top (on_event e1 b) - scrollTop (on_event e1 b))%Q in H. lra.
Qed.
End menu.

Definition unscrolled : Bar := mkBar 0 0 0 0 false false false.

Lemma menu_comes_back_witness :
  sticky (run 50 [(300%Q, 0); (260%Q, 0); (200%Q, 0); (150%Q, 7)] (start 0 0 unscrolled)) = true
  /\ sticky (run 50 [(300%Q, 0); (260%Q, 0); (200%Q, 0)] (start 0 0 unscrolled)) = false.
Proof.
  split; [|reflexivity].
  apply (menu_comes_back 50 0 0 unscrolled [(300%Q, 0)] (260%Q, 0) [(200%Q, 0)] (150%Q, 7)); [lia| |reflexivity].
  cbn. repeat split; discriminate.
Defined.
