(* ===== verification/Chapters.v ===== *)
(** * The book's keys (src/_site/book/book-a0b12cfe.js, [chapterNavigation])

    The keys that turn to the next and the previous chapter, and the help window with the
    listeners it leaves on the page. *)

From S2P Require Import Prelude.

(** [help_shown] is the style of the help's container; [mouse] and [escape] count the listeners
    that [showHelp] has left on the container and on the document. *)
Record Page : Type := mkPage {
  location : string;
  help_shown : bool;
  mouse : nat;
  escape : nat;
}.

Record Key : Type := mkKey {
  key : string;
  altKey : bool;
  ctrlKey : bool;
  metaKey : bool;
  shiftKey : bool;
  in_search : bool;  (** the search bar has the focus *)
}.

Section chapters.
(** The targets of the page's two chapter links, where it has them, and its direction. *)
Context (nextButton previousButton : option string) (rtl : bool).

Definition set_location (href : string) (p : Page) : Page := mkPage href (help_shown p) (mouse p) (escape p).
Definition next (p : Page) : Page := match nextButton with Some href => set_location href p | None => p end.
Definition prev (p : Page) : Page := match previousButton with Some href => set_location href p | None => p end.

Definition showHelp (p : Page) : Page := mkPage (location p) true (S (mouse p)) (S (escape p)).
Definition hideHelp (p : Page) : Page := mkPage (location p) false (mouse p) (escape p).

(** The script's listener. *)
Definition chapterNavigation (e : Key) (p : Page) : Page :=
  if altKey e || ctrlKey e || metaKey e then p
  else if in_search e then p
  else
    let p := if String.eqb (key e) "?" then showHelp p else p in
    if shiftKey e then p
    else if String.eqb (key e) "ArrowRight" then (if rtl then prev p else next p)
    else if String.eqb (key e) "ArrowLeft" then (if rtl then next p else prev p)
    else p.

(** One listener of [showHelp] for keys: it takes itself off the document. *)
Definition escapeKeyHandler (p : Page) : Page := hideHelp (mkPage (location p) (help_shown p) (mouse p) (pred (escape p))).

(** A key, with whether other listeners of the page get to see it. The listeners of
    [showHelp] are in the capture phase, so all of them come first. *)
Definition on_keydown (e : Key) (p : Page) : Page * bool :=
  if String.eqb (key e) "Escape" && (0 <? Z.of_nat (escape p)) then (Nat.iter (escape p) escapeKeyHandler p, false)
  else (chapterNavigation e p, true).

(** One listener of [showHelp] for the mouse: it is on the container and takes itself off the
    document, which leaves it where it is. *)
Definition mouseHandler (in_overlay : bool) (button : Z) (p : Page) : Page :=
  if in_overlay then p else if negb (button =? 0) then p else hideHelp p.

Definition on_mousedown (in_overlay : bool) (button : Z) (p : Page) : Page :=
  Nat.iter (mouse p) (mouseHandler in_overlay button) p.

Inductive event : Type := KeyDown (e : Key) | MouseDown (in_overlay : bool) (button : Z).

Definition on_event (e : event) (p : Page) : Page :=
  match e with KeyDown k => fst (on_keydown k p) | MouseDown o b => on_mousedown o b p end.

Definition run (es : list event) (p : Page) : Page := foldl (fun p e => on_event e p) p es.

Lemma escape_all (n m : nat) (l : string) (h : bool) (k : nat) :
  Nat.iter n escapeKeyHandler (mkPage l h m (n + k)) = mkPage l (if n is 0%nat then h else false) m k.
Proof.
  revert h k. induction n as [|n IH]; intros h k; [done|].
  rewrite Nat.iter_succ_r. change (escapeKeyHandler (mkPage l h m (S n + k))) with (mkPage l false m (n + k)).
  rewrite IH. by destruct n.
Qed.

Lemma mouse_all (n : nat) (p : Page) :
  Nat.iter n (mouseHandler false 0) p = if n is 0%nat then p else hideHelp p.
Proof. induction n as [|n IH]; [done|]. rewrite Nat.iter_succ, IH. by destruct n. Qed.

Lemma mouse_none (n : nat) (o : bool) (b : Z) (p : Page) :
  o = true \/ b <> 0 -> Nat.iter n (mouseHandler o b) p = p.
Proof.
  intros H. induction n as [|n IH]; [done|]. rewrite Nat.iter_succ, IH. unfold mouseHandler.
  destruct o; [done|]. destruct H as [H|H]; [done|]. by rewrite (proj2 (Z.eqb_neq _ _) H).
Qed.

(** A help window that is shown has its listeners. *)
Definition dismissible (p : Page) : Prop := help_shown p = true -> (0 < escape p)%nat /\ (0 < mouse p)%nat.

Lemma dismissible_event (e : event) (p : Page) : dismissible p -> dismissible (on_event e p).
Proof.
  intros H. destruct e as [k|o b]; cbn [on_event].
  - unfold on_keydown. destruct (_ && _) eqn:E.
    + apply andb_true_iff in E as [_ E%Z.ltb_lt]. destruct p as [l h m n]. cbn [escape fst] in *.
      pose proof (escape_all n m l h 0) as He. rewrite Nat.add_0_r in He. rewrite He. destruct n; [lia|]. done.
    + cbn. unfold chapterNavigation, showHelp, next, prev, set_location.
      repeat case_match; try done; intros _; cbn; lia.
  - unfold on_mousedown. destruct (decide (o = true \/ b <> 0)) as [Hn|Hn]; [by rewrite mouse_none|].
    assert (o = false /\ b = 0) as [-> ->].
    { destruct o; [naive_solver|]. split; [done|]. destruct (decide (b = 0)); [done|naive_solver]. }
    rewrite mouse_all. by destruct (mouse p).
Qed.

(** The help window can always be left. After any keys and clicks, a window that is shown
    is closed by Escape and by a click beside it, and Escape then reaches no other listener
    of the page. *)
Theorem help_can_be_left (l : string) (es : list event) (k : Key) :
  let p := run es (mkPage l false 0 0) in
  key k = "Escape"%string -> help_shown p = true ->
  on_keydown k p = (mkPage (location p) false (mouse p) 0, false) /\ on_mousedown false 0 p = hideHelp p.
Proof.
  intros p Hk Hs.
  assert (Hp : dismissible p).
  { unfold p, run. assert (H : dismissible (mkPage l false 0 0)) by done. revert H.
    generalize (mkPage l false 0 0). clear. induction es as [|e es IH]; intros p H; [done|]. cbn.
    by apply IH, dismissible_event. }
  destruct (Hp Hs) as [He Hm]. split.
  - unfold on_keydown. rewrite Hk. rewrite (proj2 (Z.ltb_lt 0 _)) by lia. cbn [andb String.eqb].
    destruct p as [l' h m n]. cbn [escape mouse location help_shown] in *. pose proof (escape_all n m l' h 0) as E. rewrite Nat.add_0_r in E.
    rewrite E. by destruct n; [lia|].
  - unfold on_mousedown. rewrite mouse_all. by destruct (mouse p); [lia|].
Qed.

(** The chapter keys. Without a modifier, and outside the search bar, the right arrow leads
    to the next chapter and the left arrow to the previous one, the other way round in a
    book that reads from right to left; at either end of the book the key changes nothing;
    with any modifier, or in the search bar, no key leaves the page. *)
Theorem chapter_keys (k : Key) (p : Page) :
  let q := fst (on_keydown k p) in
  let plain := negb (altKey k || ctrlKey k || metaKey k || shiftKey k || in_search k) in
  let right := String.eqb (key k) "ArrowRight" in
  let left := String.eqb (key k) "ArrowLeft" in
  location q = if plain && (right || left)
               then default (location p) (if Bool.eqb right rtl then previousButton else nextButton)
               else location p.
Proof.
  cbn [fst]. unfold on_keydown. destruct (_ && _) eqn:E.
  - apply andb_true_iff in E as [E%String.eqb_eq _]. rewrite E. cbn [fst String.eqb Ascii.eqb Bool.eqb andb orb].
    rewrite andb_false_r. destruct p as [l h m n]. pose proof (escape_all n m l h 0) as He. rewrite Nat.add_0_r in He.
    cbn [escape]. by rewrite He.
  - cbn [fst]. unfold chapterNavigation. destruct (altKey k), (ctrlKey k), (metaKey k), (in_search k), (shiftKey k); try done; cbn;
      [by destruct (String.eqb (key k) "?")|].
    destruct (String.eqb_spec (key k) "ArrowRight") as [Er|Er]; [rewrite Er; cbn|];
      [|destruct (String.eqb_spec (key k) "ArrowLeft") as [El|El]; [rewrite El; cbn|]];
      destruct rtl; cbn; unfold next, prev; try (destruct (String.eqb (key k) "?"); done);
      by destruct nextButton, previousButton.
Qed.

(** Closing the help window with the mouse leaves its key listener behind: the window is
    closed, and yet the next Escape is taken by it and kept from the rest of the page. *)
Theorem closed_help_takes_escape (l : string) (k : Key) :
  key k = "Escape"%string ->
  let p := run [KeyDown (mkKey "?" false false false true false); MouseDown false 0] (mkPage l false 0 0) in
  help_shown p = false /\ snd (on_keydown k p) = false.
Proof. intros Hk. cbn. unfold on_keydown. by rewrite Hk. Qed.
End chapters.

Definition plain_key (s : string) : Key := mkKey s false false false false false.

Lemma help_can_be_left_witness :
  let p := run None None false [KeyDown (plain_key "?"); KeyDown (plain_key "?")] (mkPage "ch1" false 0 0) in
  on_keydown None None false (plain_key "Escape") p = (mkPage "ch1" false 2 0, false).
Proof.
  apply (help_can_be_left None None false "ch1" [KeyDown (plain_key "?"); KeyDown (plain_key "?")] (plain_key "Escape"));
    reflexivity.
Defined.

Lemma closed_help_takes_escape_witness :
  snd (on_keydown None None false (plain_key "Escape")
         (run None None false [KeyDown (mkKey "?" false false false true false); MouseDown false 0] (mkPage "ch1" false 0 0)))
  = false.
Proof. apply (closed_help_takes_escape None None false "ch1" (plain_key "Escape")). reflexivity. Defined.
