(* ===== verification/Counters.v ===== *)
(** * The counters of the landing page (src/script.js, "Counter animation")

    Each counter carries its value in attributes. Off screen it is set to zero, and when it
    comes into view an animation counts it up over 1200 milliseconds, one callback of
    [requestAnimationFrame] after another. The browser's side, the entries of the
    intersection observer and the frames with their timestamps, are steps; [Math.pow], which
    the language leaves to the implementation, is a parameter. *)

From Stdlib Require Import QArith Qround Qminmax Lqa.
From S2P Require Import Prelude Number.

(** An element of [counters]: its attributes, where it has them, and its text. *)
Record Counter : Type := mkCounter {
  data_target : option chars;
  data_suffix : option chars;
  data_decimals : option chars;
  textContent : chars;
}.

(** One closure [step]: the element and the variables it captured. *)
Record Animation : Type := mkAnimation {
  an_el : nat;
  an_target : jsnum;
  an_suffix : chars;
  an_decimals : jsnum;
  startTime : option Q;
}.

(** The page: the counters, the callbacks asked for the next frame, the elements the
    observer still watches. *)
Record Page : Type := mkPage {
  counters : list Counter;
  frames : list Animation;
  observed : list nat;
}.

(** [parseFloat(null)] reads the text null. *)
Definition target_of (c : Counter) : jsnum := parseFloat (default (latin1 "null") (data_target c)).
Definition suffix_of (c : Counter) : chars := default [] (data_suffix c).
Definition decimals_of (c : Counter) : jsnum :=
  parseInt (match data_decimals c with Some (x :: s) => x :: s | _ => latin1 "0" end).

Definition range_error : exn :=
  Exn "RangeError" "toFixed() digits argument must be between 0 and 100" None None None None.

(** [x.toFixed(decimals)] *)
Definition fixed (x decimals : jsnum) : res chars :=
  match decimals with
  | JFin q => if (0 <=? q_trunc q) && (q_trunc q <=? 100) then Ret (toFixed (Z.to_nat (q_trunc q)) x) else Throw range_error
  | JInf _ => Throw range_error
  | JNaN => Ret (toFixed 0 x)
  end.

Definition positive (x : jsnum) : bool :=
  match x with JFin q => Qltb 0 q | JInf n => negb n | JNaN => false end.

Definition set_text (i : nat) (t : chars) (p : Page) : Page :=
  mkPage (alter (fun c => mkCounter (data_target c) (data_suffix c) (data_decimals c) t) i (counters p)) (frames p) (observed p).
Definition add_frame (a : Animation) (p : Page) : Page := mkPage (counters p) (frames p ++ [a]) (observed p).
Definition set_frames (l : list Animation) (p : Page) : Page := mkPage (counters p) l (observed p).
Definition set_observed (l : list nat) (p : Page) : Page := mkPage (counters p) (frames p) l.

Section counters.
Context (pow : jsnum -> jsnum -> jsnum).

(** The text of [setCounterValue]. *)
Definition final_text (c : Counter) : res chars :=
  if positive (decimals_of c)
  then match fixed (target_of c) (decimals_of c) with Ret s => Ret (s ++ suffix_of c) | Throw e => Throw e end
  else Ret (number_string (target_of c) ++ suffix_of c).

(** Runs [f] on the element [i]; a handler is only called with elements of the page. *)
Definition with_counter {A} (i : nat) (d : A) (f : Counter -> M Page A) : M Page A :=
  p ← get; match counters p !! i with Some c => f c | None => mret d end.

Definition setCounterValue (i : nat) : M Page unit :=
  with_counter i tt (fun c => t ← lift_res (final_text c); modify (set_text i t)).

(** What [step] writes for the value [current]. *)
Definition current_text (suffix : chars) (decimals current : jsnum) : res chars :=
  if positive decimals
  then match fixed current decimals with Ret s => Ret (s ++ suffix) | Throw e => Throw e end
  else Ret (number_string (jround current) ++ suffix).

Definition duration : Q := 1200.

Definition begun (a : Animation) (timestamp : Q) : Q :=
  match startTime a with Some s => if is_zero s then timestamp else s | None => timestamp end.

Definition progress_at (start timestamp : Q) : jsnum := jmin (jdiv (jsub (JFin timestamp) (JFin start)) duration) 1.
Definition ease (progress : jsnum) : jsnum := jsub (JFin 1) (pow (jsub (JFin 1) progress) (JFin 3)).

Definition step (timestamp : Q) (a : Animation) : M Page unit :=
  let start := begun a timestamp in
  let progress := progress_at start timestamp in
  let current := jmul (an_target a) (ease progress) in
  t ← lift_res (current_text (an_suffix a) (an_decimals a) current);
  modify (set_text (an_el a) t);;
  if jlt progress 1
  then modify (add_frame (mkAnimation (an_el a) (an_target a) (an_suffix a) (an_decimals a) (Some start)))
  else setCounterValue (an_el a).

Definition animateCounter (reduced : bool) (i : nat) : M Page unit :=
  if reduced then setCounterValue i
  else with_counter i tt (fun c =>
    modify (add_frame (mkAnimation i (target_of c) (suffix_of c) (decimals_of c) None))).

Definition zero_text (c : Counter) : res chars :=
  if positive (decimals_of c)
  then match fixed (JFin 0) (decimals_of c) with Ret s => Ret (s ++ suffix_of c) | Throw e => Throw e end
  else Ret (latin1 "0" ++ suffix_of c).

Definition zeroCounter (i : nat) : M Page unit :=
  with_counter i tt (fun c => t ← lift_res (zero_text c); modify (set_text i t)).

Fixpoint for_each {A} (f : A -> M Page unit) (l : list A) : M Page unit :=
  match l with [] => mret tt | x :: l => f x;; for_each f l end.

(** The block as it runs when the script loads. *)
Definition load (has_observer reduced : bool) : M Page unit :=
  if has_observer && negb reduced then
    p ← get;
    for_each zeroCounter (seq 0 (length (counters p)));;
    modify (set_observed (seq 0 (length (counters p))))
  else mret tt.

(** The observer's callback, with its entries: the element and [isIntersecting]. *)
Definition on_entry (e : nat * bool) : M Page unit :=
  if e.2 then
    animateCounter false e.1;;
    modify (fun p => set_observed (filter (fun j => j <> e.1) (observed p)) p)
  else mret tt.

Definition on_intersection (entries : list (nat * bool)) : M Page unit := for_each on_entry entries.

(** A frame: the callbacks asked for so far run with its timestamp, each on its own. *)
Definition on_frame (timestamp : Q) (p : Page) : Page :=
  foldl (fun p a => snd (step timestamp a p)) (set_frames [] p) (frames p).

(** ** Values *)

Lemma rnd_0 : (rnd 0 == 0)%Q.
Proof. apply (rnd_int 0). lia. Qed.

Lemma num_nonneg (q : Q) : (0 <= q)%Q -> num q = JInf false \/ num q = JFin (rnd q) /\ (0 <= rnd q)%Q.
Proof.
  intros Hq. pose proof (rnd_mono _ _ Hq) as H. rewrite rnd_0 in H. unfold num.
  destruct (Qle_bool _ (rnd q)); [by left|right]. destruct (Qle_bool (rnd q) _) eqn:E; [|done].
  apply Qle_bool_iff in E. pose proof (pow2_pos 1024). lra.
Qed.

Lemma num_between (q b : Q) : (0 <= q)%Q -> (q <= b)%Q -> (rnd b == b)%Q -> (b < pow2 1024)%Q ->
  num q = JFin (rnd q) /\ (0 <= rnd q <= b)%Q.
Proof.
  intros Hq Hb Eb Hlt. pose proof (rnd_mono _ _ Hb) as H. rewrite Eb in H.
  destruct (num_nonneg q Hq) as [E|[E H0]]; [|by split_and!].
  unfold num in E. destruct (Qle_bool (pow2 1024) (rnd q)) eqn:E1; [apply Qle_bool_iff in E1; lra|].
  by destruct (Qle_bool (rnd q) _).
Qed.

Lemma pow2_1024 : (1200 < pow2 1024)%Q.
Proof. reflexivity. Qed.

(** Progress is a number between 0 and 1, and 1 once the duration has passed. *)
Lemma progress_range (start ts : Q) : (start <= ts)%Q ->
  exists r, progress_at start ts = JFin r /\ (0 <= r <= 1)%Q.
Proof.
  intros H. unfold progress_at, jsub.
  destruct (num_nonneg (ts - start) ltac:(lra)) as [->|[-> H0]]; cbn [jdiv].
  { exists 1%Q. by split. }
  assert (0 <= rnd (ts - start) / duration)%Q as Hd by (apply Qle_shift_div_l; [reflexivity|]; lra).
  destruct (num_nonneg _ Hd) as [->|[-> H1]]; cbn [jmin]; [by exists 1%Q|].
  eexists. split; [done|]. destruct (Qle_bool _ 1) eqn:E; [apply Qle_bool_iff in E|]; lra.
Qed.

Lemma progress_done (start ts : Q) : (start + 1200 <= ts)%Q -> jlt (progress_at start ts) 1 = false.
Proof.
  intros H. unfold progress_at, jsub.
  assert (1200 <= rnd (ts - start))%Q as Hr.
  { rewrite <- (rnd_int 1200) by lia. apply rnd_mono. change (inject_Z 1200) with 1200%Q. lra. }
  destruct (num_nonneg (ts - start) ltac:(lra)) as [->|[-> _]]; cbn [jdiv]; [done|].
  assert (1 <= rnd (ts - start) / duration)%Q as Hd by (apply Qle_shift_div_l; [reflexivity|]; unfold duration; lra).
  assert (1 <= rnd (rnd (ts - start) / duration))%Q as H1.
  { rewrite <- (rnd_int 1) by lia. by apply rnd_mono. }
  destruct (num_nonneg (rnd (ts - start) / duration)) as [->|[-> _]]; [lra| |]; cbn [jmin jlt]; [done|].
  destruct (Qle_bool _ 1) eqn:E; apply Qltb_false; [done|lra].
Qed.

(** What is assumed of [Math.pow]: the cube of a number between 0 and 1 is one. *)
Definition cubes : Prop :=
  forall x, (0 <= x <= 1)%Q -> exists r, pow (JFin x) (JFin 3) = JFin r /\ (0 <= r <= 1)%Q.

Lemma one_minus (r : Q) : (0 <= r <= 1)%Q -> exists s, jsub (JFin 1) (JFin r) = JFin s /\ (0 <= s <= 1)%Q.
Proof.
  intros Hr. unfold jsub. destruct (num_between (1 - r) 1) as [-> H]; [lra|lra|apply (rnd_int 1); lia|reflexivity|].
  by eexists.
Qed.

(** The value shown is never negative and never above the target. *)
Lemma current_range (start ts q : Q) : cubes -> (start <= ts)%Q -> (0 <= q)%Q -> (rnd q == q)%Q -> (q < pow2 1024)%Q ->
  exists v, jmul (JFin q) (ease (progress_at start ts)) = JFin v /\ (0 <= v <= q)%Q.
Proof.
  intros Hc H Hq Eq Hlt. destruct (progress_range start ts H) as (r & -> & Hr). unfold ease.
  destruct (one_minus r Hr) as (s & -> & Hs). destruct (Hc s Hs) as (c & -> & Hcr).
  destruct (one_minus c Hcr) as (e & -> & He). cbn [jmul].
  assert (0 <= q * e)%Q as H0 by (apply Qmult_le_0_compat; lra).
  assert (q * e <= q)%Q as H1.
  { setoid_rewrite <- (Qmult_1_r q) at 2. rewrite !(Qmult_comm q). apply Qmult_le_compat_r; lra. }
  destruct (num_between (q * e) q H0 H1 Eq Hlt) as [-> Hv]. by eexists.
Qed.

(** ** The page's invariant *)

Definition strip (c : Counter) : Counter := mkCounter (data_target c) (data_suffix c) (data_decimals c) [].

(** A counter counts up to a number that is not negative, with at most 100 decimals. *)
Definition countable (c : Counter) : Prop :=
  (exists q, target_of c = JFin q /\ (0 <= q)%Q)
  /\ (positive (decimals_of c) = true -> exists q, decimals_of c = JFin q /\ q_trunc q <= 100).

(** What a counter may show: zero, its value, or a number on the way. *)
Definition text_ok (c : Counter) : Prop :=
  zero_text c = Ret (textContent c) \/ final_text c = Ret (textContent c)
  \/ exists q v, target_of c = JFin q /\ (0 <= v <= q)%Q
       /\ current_text (suffix_of c) (decimals_of c) (JFin v) = Ret (textContent c).

Lemma num_double x q : num x = JFin q -> (rnd q == q)%Q /\ (q < pow2 1024)%Q.
Proof.
  unfold num. destruct (Qle_bool (pow2 1024) (rnd x)) eqn:E1; [done|].
  destruct (Qle_bool (rnd x) _); [done|]. intros [= <-]. split; [apply rnd_idem|].
  apply Qltb_true. unfold Qltb. by rewrite E1.
Qed.

Lemma target_double c q : target_of c = JFin q -> (rnd q == q)%Q /\ (q < pow2 1024)%Q.
Proof.
  unfold target_of, parseFloat. destruct (read_sign _) as [neg s]. case_bool_decide; [done|].
  destruct (span_digits s) as [whole s1].
  match goal with |- context [let '(_, _) := ?x in _] => destruct x as [part s2] end.
  destruct (whole ++ part); [done|]. apply num_double.
Qed.

Lemma fixed_ret (c : Counter) (x : jsnum) : countable c -> positive (decimals_of c) = true ->
  exists t, fixed x (decimals_of c) = Ret t.
Proof.
  intros [_ H] Hp. destruct (H Hp) as (q & E & Hq). rewrite E in *. cbn in Hp. apply Qltb_true in Hp.
  assert (0 <= q_trunc q) as H0.
  { unfold q_trunc. destruct q as [n d]. unfold Qlt in Hp. cbn in *. apply Z.quot_pos; lia. }
  unfold fixed. rewrite (proj2 (Z.leb_le _ _) H0), (proj2 (Z.leb_le _ _) Hq). by eexists.
Qed.

Lemma final_ret c : countable c -> exists t, final_text c = Ret t.
Proof.
  intros H. unfold final_text. destruct (positive _) eqn:E; [|by eexists].
  destruct (fixed_ret c (target_of c) H E) as [t ->]. by eexists.
Qed.

Lemma zero_ret c : countable c -> exists t, zero_text c = Ret t.
Proof.
  intros H. unfold zero_text. destruct (positive _) eqn:E; [|by eexists].
  destruct (fixed_ret c (JFin 0) H E) as [t ->]. by eexists.
Qed.

Lemma current_ret c x : countable c -> exists t, current_text (suffix_of c) (decimals_of c) x = Ret t.
Proof.
  intros H. unfold current_text. destruct (positive _) eqn:E; [|by eexists].
  destruct (fixed_ret c x H E) as [t ->]. by eexists.
Qed.

Section page.
Context (Hcubes : cubes) (cs : list Counter) (Hcs : Forall countable cs).

Definition anim_ok (now : Q) (a : Animation) : Prop :=
  exists c, cs !! an_el a = Some c /\ an_target a = target_of c /\ an_suffix a = suffix_of c
  /\ an_decimals a = decimals_of c /\ forall s, startTime a = Some s -> (s <= now)%Q.

Record ok (now : Q) (p : Page) : Prop := {
  ok_attrs : map strip (counters p) = map strip cs;
  ok_texts : Forall text_ok (counters p);
  ok_frames : Forall (anim_ok now) (frames p);
}.

(** The counter with the same attributes in the page as it was. *)
Lemma attrs_lookup (p : Page) (i : nat) (c : Counter) :
  map strip (counters p) = map strip cs -> cs !! i = Some c ->
  exists c', counters p !! i = Some c' /\ strip c' = strip c.
Proof.
  intros E Hc. assert (map strip (counters p) !! i = Some (strip c)) as H.
  { rewrite E. by rewrite list_lookup_fmap, Hc. }
  rewrite list_lookup_fmap in H. destruct (counters p !! i) as [c'|]; cbn in H; [|done].
  exists c'. split; [done|congruence].
Qed.

Lemma strip_facts c c' : strip c' = strip c ->
  target_of c' = target_of c /\ suffix_of c' = suffix_of c /\ decimals_of c' = decimals_of c
  /\ final_text c' = final_text c /\ zero_text c' = zero_text c.
Proof.
  intros E. change (target_of c') with (target_of (strip c')). change (suffix_of c') with (suffix_of (strip c')).
  change (decimals_of c') with (decimals_of (strip c')). change (final_text c') with (final_text (strip c')).
  change (zero_text c') with (zero_text (strip c')). by rewrite E.
Qed.

Definition with_text (t : chars) (c : Counter) : Counter := mkCounter (data_target c) (data_suffix c) (data_decimals c) t.

Lemma ok_set_text now p i t :
  ok now p -> (forall c, cs !! i = Some c -> text_ok (with_text t c)) -> ok now (set_text i t p).
Proof.
  intros [H1 H2 H3] Ht. split; cbn; [|apply list.Forall_lookup; intros j c Hj|done].
  - rewrite <- H1. apply list_eq. intros j. rewrite !list_lookup_fmap.
    destruct (decide (i = j)) as [->|Hne]; [|by rewrite list_lookup_alter_ne].
    rewrite list_lookup_alter_eq. by destruct (counters p !! j).
  - destruct (decide (i = j)) as [->|Hne].
    + rewrite list_lookup_alter_eq in Hj. destruct (counters p !! j) as [c'|] eqn:E; [|done]. injection Hj as <-.
      assert (map strip cs !! j = Some (strip c')) as Hs by (by rewrite <- H1, list_lookup_fmap, E).
      rewrite list_lookup_fmap in Hs. destruct (cs !! j) as [c0|] eqn:E0; [|done].
      specialize (Ht c0 eq_refl). change (text_ok (with_text t (strip c'))).
      change (text_ok (with_text t (strip c0))) in Ht. cbn in Hs. congruence.
    + rewrite list_lookup_alter_ne in Hj by done. by eapply list.Forall_lookup_1.
Qed.

(** The animation that a step leaves for the next frame. *)
Definition next_anim (ts : Q) (a : Animation) : Animation :=
  mkAnimation (an_el a) (an_target a) (an_suffix a) (an_decimals a) (Some (begun a ts)).
Definition unfinished (ts : Q) (a : Animation) : bool := jlt (progress_at (begun a ts) ts) 1.

Lemma begun_le now ts a : anim_ok now a -> (now <= ts)%Q -> (begun a ts <= ts)%Q.
Proof.
  intros (c & _ & _ & _ & _ & Hs) H. unfold begun. destruct (startTime a) as [s|]; [|lra].
  specialize (Hs s eq_refl). destruct (is_zero s); lra.
Qed.

Lemma step_run ts a p c :
  ok ts p -> anim_ok ts a -> cs !! an_el a = Some c ->
  exists t, text_ok (with_text t c)
  /\ (unfinished ts a = true -> step ts a p = (Ret tt, add_frame (next_anim ts a) (set_text (an_el a) t p)))
  /\ (unfinished ts a = false -> exists t', final_text c = Ret t'
       /\ step ts a p = (Ret tt, set_text (an_el a) t' (set_text (an_el a) t p))).
Proof.
  intros Hp Ha Hc. pose proof Ha as (c0 & Hc0 & Et & Es & Ed & _). rewrite Hc in Hc0. injection Hc0 as <-.
  assert (countable c) as Hcc by (by eapply list.Forall_lookup_1).
  destruct (proj1 Hcc) as (q & Eq & Hq). destruct (target_double c q Eq) as [Hd Hlt].
  destruct (current_range (begun a ts) ts q Hcubes (begun_le ts ts a Ha (Qle_refl ts)) Hq Hd Hlt) as (v & Ev & Hv).
  destruct (current_ret c (JFin v) Hcc) as [t Ht]. exists t.
  assert (current_text (an_suffix a) (an_decimals a) (jmul (an_target a) (ease (progress_at (begun a ts) ts))) = Ret t)
    as Hcur by (by rewrite Et, Es, Ed, Eq, Ev).
  split; [|split].
  - right; right. exists q, v. split; [exact Eq|split; [exact Hv|exact Ht]].
  - intros Hu. unfold step. rewrite Hcur. unfold unfinished in Hu. unfold_m. cbn [lift_res]. rewrite Hu. done.
  - intros Hu. destruct (final_ret c Hcc) as [t' Hf]. exists t'. split; [done|].
    unfold step. rewrite Hcur. unfold unfinished in Hu. unfold_m. cbn [lift_res]. rewrite Hu.
    unfold setCounterValue, with_counter. unfold_m.
    destruct (attrs_lookup p (an_el a) c (ok_attrs _ _ Hp) Hc) as (c' & Hc' & Hstrip).
    destruct (strip_facts c c' Hstrip) as (_ & _ & _ & Hfin & _). cbn [set_text counters].
    rewrite list_lookup_alter_eq, Hc'. cbn.
    change (final_text (mkCounter (data_target c') (data_suffix c') (data_decimals c') t)) with (final_text c').
    by rewrite Hfin, Hf.
Qed.

Lemma final_text_ok c t : final_text c = Ret t -> text_ok (with_text t c).
Proof. intros H. right; left. exact H. Qed.

Lemma step_ok ts a p :
  ok ts p -> anim_ok ts a ->
  fst (step ts a p) = Ret tt /\ ok ts (snd (step ts a p))
  /\ frames (snd (step ts a p)) = frames p ++ (if unfinished ts a then [next_anim ts a] else []).
Proof.
  intros Hp Ha. pose proof Ha as (c & Hc & Et & Es & Ed & Hs). destruct (step_run ts a p c Hp Ha Hc) as (t & Ht & H1 & H2).
  assert (ok ts (set_text (an_el a) t p)) as Hok.
  { apply ok_set_text; [done|]. intros c1 Hc1. congruence. }
  destruct (unfinished ts a) eqn:Hu.
  - rewrite (H1 eq_refl). split_and!; [done| |done]. destruct Hok as [K1 K2 K3]. split; [done|done|].
    apply list.Forall_app. split; [done|]. constructor; [|constructor]. exists c. split_and!; try done.
    intros s [= <-]. apply (begun_le ts); [done|apply Qle_refl].
  - destruct (H2 eq_refl) as (t' & Hf & ->). split_and!; [done| |by rewrite app_nil_r].
    apply ok_set_text; [done|]. intros c1 Hc1. replace c1 with c by congruence. by apply final_text_ok.
Qed.

Lemma anim_ok_later now ts a : anim_ok now a -> (now <= ts)%Q -> anim_ok ts a.
Proof.
  intros (c & H1 & H2 & H3 & H4 & H5) H. exists c. split_and!; try done. intros s Hs. specialize (H5 s Hs). lra.
Qed.

Definition play (ts : Q) (l : list Animation) (p : Page) : Page := foldl (fun p a => snd (step ts a p)) p l.

(** The callbacks of one frame: what they leave, and which of them ask for another. *)
Lemma play_ok ts l p :
  ok ts p -> Forall (anim_ok ts) l ->
  ok ts (play ts l p)
  /\ frames (play ts l p) = frames p ++ map (next_anim ts) (filter (fun a => unfinished ts a = true) l).
Proof.
  unfold play. revert p. induction l as [|a l IH]; intros p Hp Hl; cbn [foldl]; [by rewrite app_nil_r|].
  apply list.Forall_cons in Hl as [Ha Hl]. destruct (step_ok ts a p Hp Ha) as (_ & Hok & Hf).
  destruct (IH _ Hok Hl) as [H1 H2]. split; [done|]. rewrite H2, Hf, filter_cons.
  destruct (unfinished ts a); cbn; by rewrite <- app_assoc.
Qed.

Lemma on_frame_play ts p : on_frame ts p = play ts (frames p) (set_frames [] p).
Proof. done. Qed.

Lemma on_frame_ok now ts p : ok now p -> (now <= ts)%Q ->
  ok ts (on_frame ts p) /\ frames (on_frame ts p) = map (next_anim ts) (filter (fun a => unfinished ts a = true) (frames p)).
Proof.
  intros [H1 H2 H3] H. rewrite on_frame_play. apply play_ok; [by split; [..|constructor]|].
  eapply list.Forall_impl; [exact H3|]. intros a Ha. by eapply anim_ok_later.
Qed.

(** ** Animations end *)

Definition final_at (p : Page) (i : nat) : Prop :=
  exists c, counters p !! i = Some c /\ final_text c = Ret (textContent c).

(** Each of these counters shows its value or is being animated. *)
Definition under_way (els : list nat) (l : list Animation) (p : Page) : Prop :=
  forall i, i ∈ els -> final_at p i \/ i ∈ map an_el (frames p) \/ i ∈ map an_el l.

Lemma set_text_lookup i j t p : i <> j -> counters (set_text i t p) !! j = counters p !! j.
Proof. intros H. cbn. by rewrite list_lookup_alter_ne. Qed.

Lemma step_under_way els ts a l p :
  ok ts p -> anim_ok ts a -> under_way els (a :: l) p -> under_way els l (snd (step ts a p)).
Proof.
  intros Hp Ha Hw i Hi. pose proof Ha as (c & Hc & _). destruct (step_run ts a p c Hp Ha Hc) as (t & _ & H1 & H2).
  destruct (unfinished ts a) eqn:Hu; [rewrite (H1 eq_refl)|destruct (H2 eq_refl) as (t' & Hf & ->)]; cbn [snd].
  - destruct (decide (an_el a = i)) as [<-|Hne].
    + right; left. cbn. rewrite map_app. apply elem_of_app. right. by left.
    + destruct (Hw i Hi) as [(c1 & Hc1 & Hf1)|[Hin|Hin]].
      * left. exists c1. split; [|done]. cbn. by rewrite list_lookup_alter_ne.
      * right; left. cbn. rewrite map_app. apply elem_of_app. by left.
      * apply elem_of_cons in Hin as [->|Hin]; [done|]. by right; right.
  - destruct (decide (an_el a = i)) as [<-|Hne].
    + left. destruct (attrs_lookup p (an_el a) c (ok_attrs _ _ Hp) Hc) as (c' & Hc' & Hstrip).
      eexists. split; [cbn; rewrite !list_lookup_alter_eq, Hc'; reflexivity|]. cbn.
      destruct (strip_facts c c' Hstrip) as (_ & _ & _ & Hfin & _). rewrite <- Hf, <- Hfin. done.
    + destruct (Hw i Hi) as [(c1 & Hc1 & Hf1)|[Hin|Hin]].
      * left. exists c1. split; [|done]. by rewrite !set_text_lookup.
      * right; left. done.
      * apply elem_of_cons in Hin as [->|Hin]; [done|]. by right; right.
Qed.

Lemma play_under_way els ts l p :
  ok ts p -> Forall (anim_ok ts) l -> under_way els l p -> under_way els [] (play ts l p).
Proof.
  unfold play. revert p. induction l as [|a l IH]; intros p Hp Hl Hw; [done|]. cbn [foldl].
  apply list.Forall_cons in Hl as [Ha Hl]. apply IH; [by apply step_ok|done|by apply step_under_way].
Qed.

Lemma frame_under_way els now ts p :
  ok now p -> (now <= ts)%Q -> under_way els [] p -> under_way els [] (on_frame ts p).
Proof.
  intros [H1 H2 H3] H Hw. rewrite on_frame_play. apply play_under_way.
  - by split; [..|constructor].
  - eapply list.Forall_impl; [exact H3|]. intros a Ha. by eapply anim_ok_later.
  - intros i Hi. destruct (Hw i Hi) as [?|[?|H0]]; [by left|by right; right|by apply elem_of_nil in H0].
Qed.

(** An animation whose start is known, at [first] or before. *)
Definition started (first : Q) (a : Animation) : Prop :=
  exists s, startTime a = Some s /\ is_zero s = false /\ (s <= first)%Q.

Lemma started_first now first p :
  ok now p -> (now <= first)%Q -> (0 < first)%Q -> Forall (started first) (frames (on_frame first p)).
Proof.
  intros Hp H H0. destruct (on_frame_ok now first p Hp H) as [_ ->]. apply list.Forall_forall.
  intros b Hb. apply list_elem_of_fmap in Hb as (a & -> & Ha). apply list_elem_of_filter in Ha as [_ Ha].
  pose proof (proj1 (list.Forall_forall _ _) (ok_frames _ _ Hp) a Ha) as (c & _ & _ & _ & _ & Hs).
  exists (begun a first). split; [done|]. assert (is_zero first = false) as Hz.
  { unfold is_zero. apply not_true_iff_false. rewrite Qeq_bool_iff. lra. }
  unfold begun. destruct (startTime a) as [s|]; [|split; [done|lra]]. specialize (Hs s eq_refl).
  destruct (is_zero s) eqn:E; (split; [done|lra]).
Qed.

Lemma started_later first now ts p :
  ok now p -> (now <= ts)%Q -> Forall (started first) (frames p) -> Forall (started first) (frames (on_frame ts p)).
Proof.
  intros Hp H Hs. destruct (on_frame_ok now ts p Hp H) as [_ ->]. apply list.Forall_forall.
  intros b Hb. apply list_elem_of_fmap in Hb as (a & -> & Ha). apply list_elem_of_filter in Ha as [_ Ha].
  destruct (proj1 (list.Forall_forall _ _) Hs a Ha) as (s & E & Hz & Hle). exists s.
  cbn. unfold begun. by rewrite E, Hz.
Qed.

Lemma all_done first now ts p :
  ok now p -> (now <= ts)%Q -> (first + 1200 <= ts)%Q -> Forall (started first) (frames p) -> frames (on_frame ts p) = [].
Proof.
  intros Hp H Hd Hs. destruct (on_frame_ok now ts p Hp H) as [_ ->].
  induction (frames p) as [|a l IH]; [done|]. apply list.Forall_cons in Hs as [(s & E & Hz & Hle) Hs].
  rewrite filter_cons. assert (unfinished ts a = false) as ->; [|by apply IH].
  unfold unfinished, begun. rewrite E, Hz. apply progress_done. lra.
Qed.

(** ** Executions *)

Lemma zero_all l p :
  map strip (counters p) = map strip cs ->
  (forall i c, counters p !! i = Some c -> i ∉ l -> text_ok c) ->
  exists p', for_each zeroCounter l p = (Ret tt, p') /\ map strip (counters p') = map strip cs
  /\ Forall text_ok (counters p') /\ frames p' = frames p.
Proof.
  revert p. induction l as [|i l IH]; intros p Ha Ht.
  - exists p. split_and!; try done. apply list.Forall_lookup. intros j c Hj. eapply Ht; [done|apply not_elem_of_nil].
  - cbn [for_each]. unfold mbind, M_bind. destruct (counters p !! i) as [c|] eqn:E.
    + assert (exists c0, cs !! i = Some c0 /\ strip c = strip c0) as (c0 & Hc0 & Hs).
      { assert (map strip cs !! i = Some (strip c)) as H by (by rewrite <- Ha, list_lookup_fmap, E).
        rewrite list_lookup_fmap in H. destruct (cs !! i) as [c0|]; cbn in H; [|done]. exists c0. by split; [|congruence]. }
      destruct (zero_ret c0) as [t Hz]; [by eapply list.Forall_lookup_1|].
      destruct (strip_facts _ _ Hs) as (_ & _ & _ & _ & Hzero). assert (zeroCounter i p = (Ret tt, set_text i t p)) as ->
        by (unfold zeroCounter, with_counter; unfold_m; by rewrite E, Hzero, Hz).
      apply (IH (set_text i t p)).
      * rewrite <- Ha. apply list_eq. intros j. rewrite !list_lookup_fmap. cbn.
        destruct (decide (i = j)) as [->|Hne]; [|by rewrite list_lookup_alter_ne].
        rewrite list_lookup_alter_eq. by destruct (counters p !! j).
      * intros j c1 Hj Hn. destruct (decide (i = j)) as [->|Hne].
        -- cbn in Hj. rewrite list_lookup_alter_eq, E in Hj. injection Hj as <-. left.
           change (zero_text c = Ret t). by rewrite Hzero.
        -- rewrite set_text_lookup in Hj by done. eapply Ht; [done|]. set_solver.
    + assert (zeroCounter i p = (Ret tt, p)) as -> by (unfold zeroCounter, with_counter; unfold_m; by rewrite E).
      apply IH; [done|]. intros j c1 Hj Hn. eapply Ht; [done|]. intros [->|]%elem_of_cons; [|done]. congruence.
Qed.

Lemma load_ok : exists p, load true false (mkPage cs [] []) = (Ret tt, p) /\ ok 0 p.
Proof.
  unfold load. cbn [andb negb]. unfold_m.
  destruct (zero_all (seq 0 (length cs)) (mkPage cs [] [])) as (p & E & H1 & H2 & H3); [done| |].
  { intros i c Hi Hn. exfalso. apply Hn, elem_of_seq. apply lookup_lt_Some in Hi. cbn in Hi. lia. }
  cbn [counters]. rewrite E. eexists. split; [done|]. split; [done|done|]. cbn. rewrite H3. constructor.
Qed.

Lemma entry_ok now e p : ok now p -> fst (on_entry e p) = Ret tt /\ ok now (snd (on_entry e p)).
Proof.
  intros [H1 H2 H3]. unfold on_entry. destruct e as [i [|]]; [|by split]. cbn [fst snd].
  unfold animateCounter, with_counter. unfold_m. destruct (counters p !! i) as [c|] eqn:E; [|by split].
  split; [done|]. split; [done|done|]. cbn. apply list.Forall_app. split; [done|]. constructor; [|constructor].
  assert (map strip cs !! i = Some (strip c)) as H by (by rewrite <- H1, list_lookup_fmap, E).
  rewrite list_lookup_fmap in H. destruct (cs !! i) as [c0|] eqn:E0; cbn in H; [|done].
  destruct (strip_facts c0 c) as (T1 & T2 & T3 & _); [congruence|]. exists c0. by split_and!.
Qed.

Lemma intersection_ok now es p :
  ok now p -> fst (on_intersection es p) = Ret tt /\ ok now (snd (on_intersection es p)).
Proof.
  unfold on_intersection. revert p. induction es as [|e es IH]; intros p Hp; [by split|]. cbn [for_each]. unfold_m.
  destruct (entry_ok now e p Hp) as [E Hok]. destruct (on_entry e p) as [r p1]. cbn in E, Hok. subst r. by apply IH.
Qed.

(** Executions: the script loads, then entries of the observer and frames with timestamps
    that do not go back. The rational is the time of the last frame. *)
Inductive counter_run : Q -> Page -> Prop :=
| run_load p : load true false (mkPage cs [] []) = (Ret tt, p) -> counter_run 0 p
| run_entries now p es : counter_run now p -> counter_run now (snd (on_intersection es p))
| run_frame now p ts : counter_run now p -> (now <= ts)%Q -> counter_run ts (on_frame ts p).

Lemma run_ok now p : counter_run now p -> ok now p.
Proof.
  induction 1 as [p H|now p es _ IH|now p ts _ IH H].
  - destruct load_ok as (p' & E & Hok). congruence.
  - by apply intersection_ok.
  - by eapply on_frame_ok.
Qed.

Fixpoint ascending (now : Q) (tss : list Q) : Prop :=
  match tss with [] => True | ts :: tss => (now <= ts)%Q /\ ascending ts tss end.

Lemma settle_tail first last els now tss p :
  ok now p -> Forall (started first) (frames p) -> under_way els [] p -> ascending now (tss ++ [last]) ->
  (first + 1200 <= last)%Q ->
  let q := foldl (fun p ts => on_frame ts p) p (tss ++ [last]) in
  frames q = [] /\ under_way els [] q.
Proof.
  revert now p. induction tss as [|ts tss IH]; intros now p Hp Hs Hw Hasc Hd; cbn [app foldl].
  - destruct Hasc as [H _]. split; [by eapply all_done|by eapply frame_under_way].
  - destruct Hasc as [H Hasc]. apply (IH ts); [by eapply on_frame_ok|by eapply started_later|by eapply frame_under_way|done|done].
Qed.
End page.

(** C34. A counter never overshoots. In every execution, each counter with a target that is
    not negative and at most 100 decimals shows its zero text, its value, or the text of a
    number between zero and its target, although the steps are rounded at every operation;
    and no handler throws. *)
Theorem counters_in_range (cs : list Counter) (now : Q) (p : Page) :
  cubes -> Forall countable cs -> counter_run cs now p ->
  (forall i c, counters p !! i = Some c ->
     zero_text c = Ret (textContent c) \/ final_text c = Ret (textContent c)
     \/ exists q v, target_of c = JFin q /\ (0 <= v <= q)%Q
          /\ current_text (suffix_of c) (decimals_of c) (JFin v) = Ret (textContent c))
  /\ (forall es, fst (on_intersection es p) = Ret tt)
  /\ (forall ts a, (now <= ts)%Q -> a ∈ frames p -> fst (step ts a p) = Ret tt).
Proof.
  intros Hc Hcs Hr. pose proof (run_ok Hc cs Hcs now p Hr) as Hok. split_and!.
  - intros i c Hi. exact (list.Forall_lookup_1 _ _ _ _ (ok_texts _ _ _ Hok) Hi).
  - intros es. by eapply intersection_ok.
  - intros ts a H Ha. destruct Hok as [H1 H2 H3]. pose proof (proj1 (list.Forall_forall _ _) H3 a Ha) as Haa.
    eapply (step_ok Hc cs Hcs ts a p); [|by eapply anim_ok_later]. split; [done|done|].
    eapply list.Forall_impl; [exact H3|]. intros b Hb. by eapply anim_ok_later.
Qed.

(** C33. Every animation ends, at its value. From any point of any execution, however many
    animations run and however the frames are spaced, once a frame comes 1200 milliseconds
    or more after a first one (whose timestamp is not zero, which would not count as a
    start) no callback is left, and every counter that was being animated shows its value. *)
Theorem counters_settle (cs : list Counter) (now first last : Q) (p : Page) (tss : list Q) :
  cubes -> Forall countable cs -> counter_run cs now p ->
  ascending now (first :: tss ++ [last]) -> (0 < first)%Q -> (first + 1200 <= last)%Q ->
  let q := foldl (fun p ts => on_frame ts p) p (first :: tss ++ [last]) in
  frames q = []
  /\ forall a, a ∈ frames p -> exists c, counters q !! an_el a = Some c /\ final_text c = Ret (textContent c).
Proof.
  intros Hc Hcs Hr [Hf Hasc] H0 Hd q. pose proof (run_ok Hc cs Hcs now p Hr) as Hok.
  destruct (settle_tail Hc cs Hcs first last (map an_el (frames p)) first tss (on_frame first p)) as [H1 H2]; [..|done|done|].
  - by eapply on_frame_ok.
  - by eapply started_first.
  - eapply frame_under_way; [done|done|exact Hok|done|]. intros i Hi. right; by left.
  - fold q in H1, H2. change (foldl _ (on_frame first p) (tss ++ [last])) with q in H1, H2. split; [done|].
    intros a Ha. destruct (H2 (an_el a)) as [H|[H|H]].
    + by apply list_elem_of_fmap_2.
    + exact H.
    + rewrite H1 in H. by apply elem_of_nil in H.
    + by apply elem_of_nil in H.
Qed.
End counters.

(** ** The page's counters *)

(** A [Math.pow] that rounds the cube once. *)
Definition cube (x y : jsnum) : jsnum := match x with JFin q => num (q * q * q) | _ => x end.

Lemma cube_cubes : cubes cube.
Proof.
  intros x [H0 H1]. unfold cube.
  assert (0 <= x * x <= 1)%Q as [H2 H3].
  { split; [by apply Qmult_le_0_compat|]. apply Qle_trans with (1 * x)%Q; [by apply Qmult_le_compat_r|lra]. }
  assert (0 <= x * x * x <= 1)%Q as [H4 H5].
  { split; [by apply Qmult_le_0_compat|]. apply Qle_trans with (1 * x)%Q; [by apply Qmult_le_compat_r|lra]. }
  destruct (num_between (x * x * x) 1) as [-> H]; [done|done|apply (rnd_int 1); lia|reflexivity|]. by eexists.
Qed.

Definition page_counters : list Counter :=
  [mkCounter (Some (latin1 "1166")) (Some (160 :: latin1 "ns")) None (latin1 "1166" ++ 160 :: latin1 "ns");
   mkCounter (Some (latin1 "0.0535")) (Some (latin1 "%")) (Some (latin1 "4")) (latin1 "0.0535%");
   mkCounter (Some (latin1 "4.1")) (Some (160 :: latin1 "KB")) (Some (latin1 "1")) (latin1 "4.1" ++ 160 :: latin1 "KB")].

Lemma page_countable : Forall countable page_counters.
Proof.
  repeat constructor; try (eexists; split; [vm_compute; reflexivity|discriminate]);
    intros H; vm_compute in H; try discriminate H; (eexists; split; [vm_compute; reflexivity|cbn; lia]).
Qed.

Definition page_loaded : Page := Eval vm_compute in snd (load true false (mkPage page_counters [] [])).
Definition page_in_view : Page :=
  Eval vm_compute in snd (on_intersection [(0%nat, true); (1%nat, true); (2%nat, true)] page_loaded).

Lemma in_view_run : counter_run cube page_counters 0 page_in_view.
Proof.
  change page_in_view with (snd (on_intersection [(0%nat, true); (1%nat, true); (2%nat, true)] page_loaded)).
  apply run_entries, run_load. vm_compute. reflexivity.
Qed.

(** Half way the three counters show 1020 ns, 0.0468% and 3.6 KB. *)
Lemma counters_in_range_witness :
  let p := on_frame cube 700 (on_frame cube 100 page_in_view) in
  map textContent (counters p)
  = [latin1 "1020" ++ 160 :: latin1 "ns"; latin1 "0.0468%"; latin1 "3.6" ++ 160 :: latin1 "KB"]
  /\ forall es, fst (on_intersection es p) = Ret tt.
Proof.
  intros p. split; [vm_compute; reflexivity|].
  apply (counters_in_range cube page_counters 700 p cube_cubes page_countable).
  apply (run_frame _ _ 100); [|discriminate]. apply (run_frame _ _ 0); [apply in_view_run|discriminate].
Defined.

Lemma counters_settle_witness :
  let q := foldl (fun p ts => on_frame cube ts p) page_in_view [16; 800; 1216]%Q in
  frames q = [] /\ map textContent (counters q) = map textContent page_counters.
Proof.
  intros q. split; [|vm_compute; reflexivity].
  refine (proj1 (counters_settle cube page_counters 0 16 1216 page_in_view [800%Q] cube_cubes page_countable
    in_view_run _ _ _)); [cbn; repeat split; discriminate|reflexivity|discriminate].
Defined.
