(* ===== verification/BeatLoops.v ===== *)
(** * The example programs (src/clients/node/examples)

    The five programs as clients of the library: what they do with their arguments, the
    interval that beats, the signal listeners that shut down. [basic_udp], [basic_uds] and
    [secure_udp] beat [Ok] and report what was not sent, [with_payload] packs its metrics
    into the payload, [with_panic_handler] installs the panic emitter, beats once and
    throws. The theorems are proved against the transport's contract and the agent's
    lemmas, for every transport the programs use. *)

From stdpp Require Import pretty.
From S2P Require Import Prelude NodeBuffer Vlp Errno Outcome VlpSecure Runtime Transport.
From S2P Require Uds Udp SecureUdp.
From S2P Require Import Client Panic System Session Number Examples.

(** What the interval callback of a program does. *)
Inductive Job : Type := ReportBeats | PackMetrics.

(** The process: the agent, the module's variables, the interval, the exit code once
    [process.exit] was called, and the lines on the console. *)
Record Process (T : Type) : Type := mkProcess {
  agent : Varta T;
  metrics : Metrics;
  timer : bool;
  exit_code : option Z;
  console : list string;
}.
Arguments mkProcess {T} _ _ _ _ _.
Arguments agent {T} _.
Arguments metrics {T} _.
Arguments timer {T} _.
Arguments exit_code {T} _.
Arguments console {T} _.

Section loop.
Context {T : Type} `{BeatTransport T, Platform}.

Definition set_agent (v : Varta T) (q : Process T) : Process T := mkProcess v (metrics q) (timer q) (exit_code q) (console q).
Definition set_metrics (m : Metrics) (q : Process T) : Process T := mkProcess (agent q) m (timer q) (exit_code q) (console q).
Definition log (line : string) (q : Process T) : Process T :=
  mkProcess (agent q) (metrics q) (timer q) (exit_code q) (console q ++ [line]).
Definition clearInterval (q : Process T) : Process T := mkProcess (agent q) (metrics q) false (exit_code q) (console q).
Definition exit (code : Z) (q : Process T) : Process T := mkProcess (agent q) (metrics q) (timer q) (Some code) (console q).

(** A call of a method of the agent. *)
Definition on_agent {A} (m : method (Varta T) A) : method (Process T) A := fun qw =>
  let '(r, (v, w)) := m (agent qw.1, qw.2) in (r, (set_agent v qw.1, w)).

(** The line a program prints for an outcome, if any. *)
Definition report_line (o : BeatOutcome) : option string :=
  match o with
  | sent => None
  | dropped reason => Some ("[varta] dropped: " +:+ drop_label reason)%string
  | failed error => Some ("[varta] failed: " +:+ be_kind error)%string
  end.

Definition report_tick : method (Process T) BeatOutcome :=
  o ← on_agent (beat (sl_status Ok) (jint 0));
  match report_line o with Some l => assign (log l) | None => mret tt end;;
  mret o.

Definition payload_tick : method (Process T) BeatOutcome :=
  m ← self metrics;
  let '(m', (status, payload)) := tick m in
  assign (set_metrics m');;
  on_agent (beat (sl_status status) (jint payload)).

Definition on_interval (job : Job) : method (Process T) BeatOutcome :=
  match job with ReportBeats => report_tick | PackMetrics => payload_tick end.

(** The listener of SIGINT and SIGTERM. *)
Definition shutdown : method (Process T) unit :=
  assign clearInterval;; on_agent close;; assign (exit 0).

(** *** What a run of a program keeps *)

Context `{!BeatTransportLaws T}.

(** The frames a program may send. *)
Definition program_frame (job : Job) (f : Frame) : Prop :=
  match job with
  | ReportBeats => fr_status f = Ok /\ fr_payload f = 0
  | PackMetrics => exists d e, 0 <= d < 2 ^ 16 /\ 0 <= e <= 1 /\ fr_payload f = d + 2 ^ 16 * e
      /\ fr_status f = if decide (e = 0) then Ok else Degraded
  end.

(** Executions: the program has connected; the interval fires while it is set; a signal
    arrives; the event loop moves the transport. [os] are the outcomes of the beats, [fs]
    the frames the peer opens. A process that has exited does nothing. *)
Inductive program_run (job : Job) (banner : list string) :
    Process T -> World -> list BeatOutcome -> list bytes -> Prop :=
| pr_start v w :
    agent_ok v w -> nonce v = 0 -> closed v = false -> w_pid w = connectPid v ->
    program_run job banner (mkProcess v (mkMetrics 0 0) true None banner) w [] []
| pr_sent q w os fs q' w' frame :
    program_run job banner q w os fs -> exit_code q = None -> timer q = true ->
    on_interval job (q, w) = (Ret sent, (q', w')) ->
    delivers (transport (agent q)) w (transport (agent q')) w' frame ->
    program_run job banner q' w' (os ++ [sent]) (fs ++ [frame])
| pr_unsent q w os fs o q' w' :
    program_run job banner q w os fs -> exit_code q = None -> timer q = true ->
    on_interval job (q, w) = (Ret o, (q', w')) -> o <> sent ->
    program_run job banner q' w' (os ++ [o]) fs
| pr_signal q w os fs r q' w' :
    program_run job banner q w os fs -> exit_code q = None -> shutdown (q, w) = (r, (q', w')) ->
    program_run job banner q' w' os fs
| pr_env q w os fs t' w' :
    program_run job banner q w os fs -> carrier_ok t' (buf (agent q)) w' -> w_pid w' = w_pid w ->
    program_run job banner (set_agent (set_transport t' (agent q)) q) w' os fs.

(** A beat in the process the agent connected under. *)
Lemma beat_here (v : Varta T) (w : World) (s : Status) (payload : jsnum) :
  agent_ok v w -> closed v = false -> s <> Stall -> w_pid w = connectPid v ->
  exists o v' w', beat (sl_status s) payload (v, w) = (Ret o, (v', w')) /\ agent_ok v' w'
  /\ connectPid v' = connectPid v /\ w_pid w' = w_pid w /\ closed v' = false
  /\ match o with
     | sent => exists f, delivers (transport v) w (transport v') w' (wire_of f)
         /\ fr_status f = s /\ fr_payload f = to_uint32 payload
         /\ fr_nonce f = (nonce v + 1) mod NONCE_TERMINAL /\ 0 <= fr_timestamp f
         /\ lastTimestamp v <= fr_timestamp f /\ nonce v' = fr_nonce f /\ lastTimestamp v' = fr_timestamp f
     | _ => nonce v' = nonce v /\ lastTimestamp v' = lastTimestamp v
     end.
Proof.
  intros Hok Hcl Hs Hpid. rewrite (beat_unfold (sl_status s) s) by (done || by destruct s).
  destruct (recoverFork_run v w (w_pid w) (ao_carrier _ _ Hok)) as [[_ ->]|[[Hne _]|[Hne _]]]; [|done..].
  destruct (attempt_run v w s (w_pid w) payload Hok) as (o & t' & d & w' & -> & Hc & Hst & _ & _ & Ho & _).
  pose proof (elapsed_range (startNs v) (w_clock w (w_ticks w))) as Hel.
  eexists o, _, w'. split; [done|]. split; [by eapply attempted_ok|]. split_and!; [done|apply Hst|done|].
  destruct o; [|done..]. eexists. split; [exact Ho|]. cbn. split_and!; try done; lia.
Qed.

(** Closing an open agent. *)
Lemma close_keeps (v : Varta T) (w : World) :
  agent_ok v w ->
  exists v' w', close (v, w) = (Ret tt, (v', w')) /\ agent_ok v' w' /\ connectPid v' = connectPid v
  /\ w_pid w' = w_pid w /\ closed v' = true /\ nonce v' = nonce v /\ lastTimestamp v' = lastTimestamp v.
Proof.
  intros Hok. destruct (close (v, w)) as [r [v' w']] eqn:E.
  destruct (close_session v w r v' w' Hok E) as (Hok' & Hc & Hw & Hn & Ht & _).
  assert (r = Ret tt /\ closed v' = true) as [-> Hcl].
  { unfold close, self, assign, on_transport in E. unfold_m. cbn in E. destruct (closed v) eqn:Hcl; cbn in E.
    - injection E as <- <- <-. done.
    - destruct (close_spec (transport v) w) as (w1 & Hrun & _). rewrite Hrun in E. by injection E as <- <- <-. }
  exists v', w'. done.
Qed.

Record program_ok (job : Job) (banner : list string) (q : Process T) (w : World) (os : list BeatOutcome)
    (fs : list bytes) : Prop := {
  po_agent : agent_ok (agent q) w;
  po_pid : w_pid w = connectPid (agent q);
  po_console : console q = banner ++ match job with ReportBeats => omap report_line os | PackMetrics => [] end;
  po_frames : numbered_by (program_frame job) fs (nonce (agent q)) (lastTimestamp (agent q));
  po_sent : length fs = length (filter (fun o => isSent o = true) os);
  po_open : closed (agent q) = bool_decide (exit_code q <> None);
  po_exit : exit_code q = (if timer q then None else Some 0);
}.

(** The arguments of the beat of one interval callback. *)
Definition arguments (job : Job) (m : Metrics) : Status * Z :=
  match job with ReportBeats => (Ok, 0) | PackMetrics => snd (tick m) end.

Lemma arguments_ok (job : Job) (m : Metrics) (f : Frame) :
  (arguments job m).1 <> Stall
  /\ (fr_status f = (arguments job m).1 -> fr_payload f = to_uint32 (jint (arguments job m).2) -> program_frame job f).
Proof.
  destruct job; cbn [arguments fst snd]; [by split|].
  pose proof (tick_consistent m) as Ht. unfold tick in *. cbn [snd fst] in *.
  destruct (Z.rem _ 4 =? 0); cbn [Z.eqb negb] in *.
  - split; [done|]. intros Es Ep. unfold program_frame. rewrite Es, Ep. destruct Ht as (Hd & Hp & _). cbn [depth lastError] in *.
    eexists _, 1. split; [exact Hd|]. split; [lia|]. split; [|done]. rewrite Hp. apply to_uint32_jint. unfold is_u32. lia.
  - split; [done|]. intros Es Ep. unfold program_frame. rewrite Es, Ep. destruct Ht as (Hd & Hp & _). cbn [depth lastError] in *.
    eexists _, 0. split; [exact Hd|]. split; [lia|]. split; [|done]. rewrite Hp. apply to_uint32_jint. unfold is_u32. lia.
Qed.

(** One callback is one beat with these arguments, and the lines of its outcome. *)
Lemma interval_eq (job : Job) (q : Process T) (w : World) o v' w' :
  beat (sl_status (arguments job (metrics q)).1) (jint (arguments job (metrics q)).2) (agent q, w) = (Ret o, (v', w')) ->
  exists m', on_interval job (q, w)
    = (Ret o, (mkProcess v' m' (timer q) (exit_code q)
        (console q ++ match job with ReportBeats => omap report_line [o] | PackMetrics => [] end), w')).
Proof.
  intros Hb. destruct job; cbn [on_interval arguments fst snd] in *.
  - exists (metrics q). unfold report_tick, on_agent, assign. unfold_m. cbn [fst snd]. rewrite Hb. cbn.
    destruct o; cbn; by rewrite ?app_nil_r.
  - exists (fst (tick (metrics q))). unfold payload_tick, self, assign, on_agent. unfold_m. cbn [fst snd].
    destruct (tick (metrics q)) as [m' [st pl]]. cbn [fst snd set_metrics agent] in *. rewrite Hb. cbn. by rewrite app_nil_r.
Qed.

Lemma interval_ok job banner q w os fs :
  program_ok job banner q w os fs -> exit_code q = None ->
  exists o q' w', on_interval job (q, w) = (Ret o, (q', w'))
  /\ match o with
     | sent => exists frame, delivers (transport (agent q)) w (transport (agent q')) w' frame
         /\ program_ok job banner q' w' (os ++ [sent]) (fs ++ [frame])
     | _ => program_ok job banner q' w' (os ++ [o]) fs
     end.
Proof.
  intros [Hok Hpid Hcon Hfr Hsent Hop Hex] He.
  assert (closed (agent q) = false) as Hcl by (rewrite Hop, He; done).
  destruct (arguments_ok job (metrics q) (mkFrame Ok 0 0 0 0)) as [Hns _].
  destruct (beat_here (agent q) w _ (jint (arguments job (metrics q)).2) Hok Hcl Hns Hpid)
    as (o & v' & w' & Hb & Hok' & Hpid' & Hw' & Hcl' & Ho).
  destruct (interval_eq job q w o v' w' Hb) as [m' E]. eexists o, _, w'. split; [exact E|].
  assert (forall x, (match job with ReportBeats => omap report_line (os ++ [x]) | PackMetrics => [] end)
    = (match job with ReportBeats => omap report_line os | PackMetrics => [] end)
      ++ match job with ReportBeats => omap report_line [x] | PackMetrics => [] end) as Hlines.
  { intros x. destruct job; [by rewrite omap_app|done]. }
  assert (forall fs', numbered_by (program_frame job) fs' (nonce v') (lastTimestamp v') ->
    length fs' = length (filter (fun o => isSent o = true) (os ++ [o])) ->
    program_ok job banner (mkProcess v' m' (timer q) (exit_code q)
      (console q ++ match job with ReportBeats => omap report_line [o] | PackMetrics => [] end)) w' (os ++ [o]) fs') as Hall.
  { intros fs' Hn Hl. split; cbn; try done.
    - congruence.
    - rewrite Hcon, <- app_assoc. f_equal. symmetry. apply Hlines.
    - rewrite Hcl', He. done. }
  rewrite list.filter_app, length_app in Hall. destruct o.
  - destruct Ho as (f & Hd & Hst & Hpl & Hno & Ht0 & Htl & Hn' & Ht'). exists (wire_of f). split; [exact Hd|].
    apply Hall; [|rewrite length_app, Hsent; done]. rewrite Hn', Ht'. eapply numbered_snoc; [exact Hfr|done|lia|done|].
    by apply (arguments_ok job (metrics q)).
  - destruct Ho as [E1 E2]. apply Hall; [by rewrite E1, E2|]. rewrite Hsent. symmetry. apply Nat.add_0_r.
  - destruct Ho as [E1 E2]. apply Hall; [by rewrite E1, E2|]. rewrite Hsent. symmetry. apply Nat.add_0_r.
Qed.

Lemma shutdown_ok job banner q w os fs :
  program_ok job banner q w os fs -> exit_code q = None ->
  exists q' w', shutdown (q, w) = (Ret tt, (q', w')) /\ program_ok job banner q' w' os fs /\ exit_code q' = Some 0.
Proof.
  intros [Hok Hpid Hcon Hfr Hsent Hop Hex] He.
  assert (closed (agent q) = false) as Hcl by (rewrite Hop, He; done).
  destruct (close_keeps (agent q) w Hok) as (v' & w' & Hc & Hok' & Hp & Hw & Hcl' & Hn & Ht).
  unfold shutdown, on_agent, assign. unfold_m. cbn [fst snd clearInterval agent]. rewrite Hc. cbn.
  eexists _, w'. split; [done|]. split; [|done]. split; cbn; try done; [congruence|by rewrite Hn, Ht].
Qed.

Lemma program_inv job banner q w os fs : program_run job banner q w os fs -> program_ok job banner q w os fs.
Proof.
  induction 1 as [v w Hok Hn Hcl Hp|q w os fs q' w' frame _ IH He Ht Hi Hd|q w os fs o q' w' _ IH He Ht Hi Ho
    |q w os fs r q' w' _ IH He Hs|q w os fs t' w' _ IH Hc Hp].
  - split; cbn; try done; [by destruct job; rewrite app_nil_r|by apply numbered_nil].
  - destruct (interval_ok _ _ _ _ _ _ IH He) as (o & q1 & w1 & E & Hm). rewrite Hi in E. injection E as <- <- <-.
    destruct Hm as (g & Hg & Hok). by rewrite (delivers_unique _ _ _ _ _ _ Hd Hg).
  - destruct (interval_ok _ _ _ _ _ _ IH He) as (o1 & q1 & w1 & E & Hm). rewrite Hi in E. injection E as <- <- <-.
    by destruct o.
  - destruct (shutdown_ok _ _ _ _ _ _ IH He) as (q1 & w1 & E & Hok & _). rewrite Hs in E. by injection E as -> <- <-.
  - destruct IH as [Hok Hpid Hcon Hfr Hsent Hop Hex]. split; cbn; try done; [|congruence].
    destruct Hok. by constructor.
Qed.

(** C35. The example programs. In every execution of a beat loop, over any transport that keeps
    the contract and with callbacks of the event loop in between, each interval callback
    returns; the console has the banner and exactly one line for each beat that was dropped
    or failed, in order ([with_payload] prints none); the frames the peer opens are as many
    as the beats reported as sent, are numbered 1, 2, 3, ..., and carry what the program
    means them to: [Ok] and no payload, or the queue depth and error code in their bits under
    a status that agrees with the error code. The agent stays open until a signal arrives;
    the signal's listener returns, and then the agent is closed, the interval cleared and
    the exit code 0. *)
Theorem example_programs (job : Job) (banner : list string) (q : Process T) (w : World) (os : list BeatOutcome)
    (fs : list bytes) :
  program_run job banner q w os fs ->
  console q = banner ++ match job with ReportBeats => omap report_line os | PackMetrics => [] end
  /\ length fs = length (filter (fun o => isSent o = true) os)
  /\ (exists frames, fs = map wire_of frames
       /\ forall i f, frames !! i = Some f -> fr_nonce f = Z.of_nat (S i) mod NONCE_TERMINAL /\ program_frame job f)
  /\ match exit_code q with
     | None => timer q = true /\ closed (agent q) = false
         /\ (exists o qw, on_interval job (q, w) = (Ret o, qw))
         /\ exists q' w', shutdown (q, w) = (Ret tt, (q', w')) /\ exit_code q' = Some 0
     | Some c => c = 0 /\ timer q = false /\ closed (agent q) = true
     end.
Proof.
  intros Hr. pose proof (program_inv _ _ _ _ _ _ Hr) as Hok. pose proof Hok as [_ _ Hcon Hfr Hsent Hop Hex].
  split_and!; [done|done| |].
  - destruct Hfr as (frames & -> & Hn & _). exists frames. split; [done|]. intros i f Hi.
    destruct (Hn i f Hi) as (? & _ & ?). done.
  - destruct (exit_code q) as [c|] eqn:He.
    + destruct (timer q); [done|]. injection Hex as ->. by rewrite Hop.
    + destruct (timer q); [|done]. split_and!; [done|by rewrite Hop| |].
      * destruct (interval_ok _ _ _ _ _ _ Hok He) as (o & q' & w' & E & _). by eexists _, _.
      * destruct (shutdown_ok _ _ _ _ _ _ Hok He) as (q' & w' & E & _ & Hx). by eexists _, _.
Qed.
End loop.

(** ** The programs' own statements *)

(** [secure_udp] ends early, with a line and a code, or runs. *)
Inductive Started (T : Type) : Type :=
| Exited (code : Z) (line : string)
| Running (q : Process T).
Arguments Exited {T} _ _.
Arguments Running {T} _.

Section programs.
Context `{NodeCrypto} `{Platform}.

(** [parseInt(s, 10)], as it is passed on: what is not a number is refused by the socket. *)
Definition port_of (s : string) : jsnum := parseInt (latin1 s).

(** [process.argv[2 + i] ?? d]. *)
Definition arg (args : list string) (i : nat) (d : string) : string := default d (args !! i).

Definition running {T} (banner : list string) (v : Varta T) : Process T := mkProcess v (mkMetrics 0 0) true None banner.

Definition udp_banner (host : string) (port : jsnum) : string :=
  ("[varta] beating Ok every 500ms to udp://" +:+ host +:+ ":" +:+ latin1_string (number_string port))%string.
Definition uds_banner (path : string) : string := ("[varta] beating Ok every 500ms to uds://" +:+ path)%string.
Definition secure_banner (host : string) (port : jsnum) : string :=
  ("[varta] secure beat loop (ChaCha20-Poly1305) to udp://" +:+ host +:+ ":" +:+ latin1_string (number_string port))%string.

Definition basic_udp (args : list string) : M World (Process Udp.UdpTransport) :=
  let host := arg args 0 "127.0.0.1" in
  let port := port_of (arg args 1 "5876") in
  v ← connectUdp host port;
  mret (running [udp_banner host port] v).

Definition basic_uds (args : list string) : M World (Process Uds.UdsTransport) :=
  let path := arg args 0 "/var/run/varta.sock" in
  v ← connectUds path;
  mret (running [uds_banner path] v).

Definition with_payload (args : list string) : M World (Process Udp.UdpTransport) :=
  let host := arg args 0 "127.0.0.1" in
  let port := port_of (arg args 1 "5876") in
  v ← connectUdp host port;
  mret (running [] v).

Definition usage : string := "usage: secure_udp.ts <host> <port> <key-file>".
Definition key_line (n : nat) : string := ("key must be exactly 32 bytes; got " +:+ pretty n)%string.

(** [readFile] is the file system. *)
Definition secure_udp (readFile : string -> res bytes) (args : list string) : M World (Started SecureUdp.SecureUdpTransport) :=
  let host := arg args 0 "" in
  let portStr := arg args 1 "" in
  let keyPath := arg args 2 "" in
  if String.eqb host "" || String.eqb portStr "" || String.eqb keyPath "" then mret (Exited 64 usage)
  else
    key ← lift_res (readFile keyPath);
    if negb (Nat.eqb (length key) 32) then mret (Exited 64 (key_line (length key)))
    else
      let port := port_of portStr in
      v ← connectSecureUdp host port key;
      mret (Running (running [secure_banner host port] v)).

(** A beat on an agent that only this statement knows. *)
Definition beat_once {T} `{BeatTransport T} (v : Varta T) : M World (Varta T) := fun w =>
  let '(r, (v', w')) := beat (sl_status Ok) (jint 0) (v, w) in
  (match r with Ret _ => Ret v' | Throw e => Throw e end, w').

Definition intentional : exn := Exn "Error" "intentional panic to demonstrate the hook" None None None None.

Definition with_panic_handler (args : list string) : method Panic (Varta Udp.UdpTransport) :=
  let host := arg args 0 "127.0.0.1" in
  let port := port_of (arg args 1 "5876") in
  installSignalHandlerUdp host port;;
  v ← sys (connectUdp host port);
  sys (beat_once v).

(** After two seconds the timer throws, which the process reports to its listeners. *)
Definition panic_timer : method Panic unit := handle (TUncaught intentional).

Lemma started_run {T} `{BeatTransportLaws T} (m : M World T) (job : Job) (banner : list string) w v w' :
  starts m -> world_ok w -> allocated w (map dg_buffer (w_inflight w)) ->
  (t ← m; newVarta t) w = (Ret v, w') -> program_run job banner (running banner v) w' [] [].
Proof.
  intros Hm Hw Ha Hrun. destruct (connect_run m w v w' Hm Hw Ha Hrun) as (_ & Hok & Hn & Hp & Hcl).
  apply pr_start; try done. rewrite Hp. unfold mbind, M_bind in Hrun.
  destruct (m w) as [[t|e] w1] eqn:E; [|done]. destruct (starts_ok m w t w1 Hm Hw Ha E) as [_ Hpid].
  unfold newVarta, monotonicNs, hrtime in Hrun. unfold_m.
  destruct (new_buffer_run (buf_alloc FRAME_BYTES) w1) as (w2 & E2 & Hev & _).
  rewrite E2 in Hrun. injection Hrun as <- <-. cbn. rewrite (ev_pid _ _ Hev). done.
Qed.

(** Each program that gets past its own checks is at the start of an execution. *)
Lemma basic_udp_starts args w q w' :
  world_ok w -> allocated w (map dg_buffer (w_inflight w)) -> basic_udp args w = (Ret q, w') ->
  exists banner, program_run ReportBeats banner q w' [] [].
Proof.
  intros Hw Ha. unfold basic_udp, connectUdp. unfold mbind, M_bind, mret, M_ret.
  intros E. eexists.
  destruct (Udp.newUdpTransport _ _ w) as [[t|e] w1] eqn:E1; [|done].
  destruct (newVarta t w1) as [[v|e] w2] eqn:E2; [|done]. injection E as <- <-.
  eapply started_run; [apply udp_starts|exact Hw|exact Ha|].
  unfold mbind, M_bind. rewrite E1. exact E2.
Qed.

Context `{!CryptoLaws}.

(** A port that is none is refused only by the socket, after the salt is drawn and the socket
    created; the socket is closed again and nothing is sent. *)
Lemma connectSecureUdp_bad_port host port key w :
  length key = 32%nat -> valid_port port = false ->
  exists e w', connectSecureUdp host port key w = (Throw e, w') /\ quiet w w'
  /\ (world_ok w -> (forall i, w_fault w i = None) ->
      e = bad_port port /\ w_draws w' = S (w_draws w)
      /\ w_log w' = w_log w ++ [SCreate (w_sockets w) (Udp.family_of host); SClose (w_sockets w)]).
Proof.
  intros Hk Hp. unfold connectSecureUdp, SecureUdp.shared. rewrite bool_decide_true by done. cbn [negb].
  unfold SecureUdp.newSecureUdpTransport, SecureUdp.openSocket, lift_res. unfold_m.
  destruct (randomBytes_run SESSION_SALT_BYTES w) as (r & w1 & E1 & Hq1 & Hr). rewrite E1.
  destruct r as [salt|e]; [|eexists _, _; split_and!; [done|done|]; intros _ Hf; unfold randomBytes, may_throw in E1; unfold_m; by rewrite Hf in E1].
  destruct Hr as [-> Hd]. destruct (deriveIvPrefix _ _) as [pre|e] eqn:E2.
  - destruct (Udp.udp_openSocket_bad_port host port w1 Hp) as (e & w2 & E3 & Hf2).
    pose proof (Udp.quiet_udp_openSocket host port w1) as Hq2. rewrite E3 in Hq2 |- *.
    eexists _, _. split_and!; [done|by etrans|]. intros Hw Hf.
    destruct Hf2 as (-> & Hd2 & Hl); [intros i; by rewrite (ev_fault _ _ (qu_evolves _ _ Hq1))|].
    split_and!; [done|congruence|]. rewrite Hl. unfold randomBytes, may_throw, draw in E1. unfold_m. rewrite Hf in E1. by injection E1 as <-.
  - eexists _, _. split_and!; [done|done|]. intros [_ He] _. rewrite SecureUdp.iv_prefix_eq in E2; [done|apply He|split; lia].
Qed.

(** C36. The secure example checks its arguments. With an argument missing or empty it ends
    with code 64 and its usage before it reads the key file; with a key file of another length
    than 32 it ends with code 64 and says the length; a key file that cannot be read ends it
    with that error. In these cases no socket is opened, nothing is drawn and nothing sent: the
    world is as it was. Otherwise it is what [connectSecureUdp] makes of the arguments: the
    error that throws, or the start of an execution of the beat loop. The port is not checked
    by the program: one that is not a number, or not from 1 to 65535, always ends it with an
    error and nothing sent, but only after the session's salt has been drawn and a socket
    created, which is closed again. *)
Theorem secure_example_checks (readFile : string -> res bytes) (args : list string) (w : World) :
  let host := arg args 0 "" in let portStr := arg args 1 "" in let keyPath := arg args 2 "" in
  let port := port_of portStr in
  (host = "" \/ portStr = "" \/ keyPath = "" -> secure_udp readFile args w = (Ret (Exited 64 usage), w))
  /\ (host <> "" -> portStr <> "" -> keyPath <> "" ->
      match readFile keyPath with
      | Throw e => secure_udp readFile args w = (Throw e, w)
      | Ret key =>
          if decide (length key = 32%nat) then
            match connectSecureUdp host port key w with
            | (Ret v, w') =>
                let q := running [secure_banner host port] v in
                secure_udp readFile args w = (Ret (Running q), w') /\ valid_port port = true
                /\ (world_ok w -> allocated w (map dg_buffer (w_inflight w)) ->
                    program_run ReportBeats [secure_banner host port] q w' [] [])
            | (Throw e, w') => secure_udp readFile args w = (Throw e, w')
            end
            /\ (valid_port port = false ->
                exists e w', secure_udp readFile args w = (Throw e, w') /\ quiet w w'
                /\ (world_ok w -> (forall i, w_fault w i = None) ->
                    e = bad_port port /\ w_draws w' = S (w_draws w)
                    /\ w_log w' = w_log w ++ [SCreate (w_sockets w) (Udp.family_of host); SClose (w_sockets w)]))
          else secure_udp readFile args w = (Ret (Exited 64 (key_line (length key))), w)
      end).
Proof.
  intros host portStr keyPath port. unfold secure_udp. fold host portStr keyPath port. split.
  - intros Hm. assert (String.eqb host "" || String.eqb portStr "" || String.eqb keyPath "" = true) as ->; [|done].
    rewrite !orb_true_iff, !String.eqb_eq. tauto.
  - intros Hh Hpo Hkp.
    assert (String.eqb host "" || String.eqb portStr "" || String.eqb keyPath "" = false) as ->
      by (rewrite !orb_false_iff, !String.eqb_neq; tauto).
    unfold lift_res, mbind, M_bind, mret, M_ret. destruct (readFile keyPath) as [key|e]; [|done].
    destruct (decide (length key = 32%nat)) as [Hk|Hk]; [|by rewrite (proj2 (Nat.eqb_neq _ _) Hk)].
    rewrite (proj2 (Nat.eqb_eq _ _) Hk). cbn [negb].
    pose proof (connectSecureUdp_bad_port host port key w Hk) as Hbad.
    destruct (connectSecureUdp host port key w) as [[v|e] w'] eqn:E.
    + assert (valid_port port = true) as Hv
        by (apply not_false_iff_true; intros Hv; destruct (Hbad Hv) as (? & ? & ? & _); done).
      split; [|by rewrite Hv]. split_and!; [done|done|].
      intros Hw Ha. eapply started_run; [apply shared_starts|exact Hw|exact Ha|exact E].
    + split; [done|]. intros Hv. destruct (Hbad Hv) as (? & ? & [= <- <-] & Hq). by eexists _, _.
Qed.

Lemma handle_returns (p : Panic) (w : World) :
  panic_ok p -> exists pw, onUncaughtException intentional (p, w) = (Ret tt, pw).
Proof.
  intros Hp. destruct (triggerActive_run p w Hp) as (p1 & w1 & E & _).
  unfold onUncaughtException, removeListener, setImmediate, assign. unfold_m. rewrite E. cbn. by eexists.
Qed.

(** The panic example, end to end: once it has installed the emitter, connected and beaten,
    its timer's exception hands over at most one more datagram, the critical frame of that
    moment on the emitter's own socket, and disarms the trigger. *)
Theorem panic_example_reports (args : list string) (p : Panic) (w : World) v p1 w1 :
  panic_ok p -> with_panic_handler args (p, w) = (Ret v, (p1, w1)) ->
  exists s p' w', panic_timer (p1, w1) = (Ret tt, (p', w')) /\ emitted (EmitUdp s) p1 w1 p' w' /\ armed p' = None
  /\ app_listeners p' = app_listeners p.
Proof.
  intros Hp. unfold with_panic_handler, installSignalHandlerUdp. unfold mbind, M_bind, mret, M_ret.
  rewrite or_install_error_run.
  destruct (createConnectedSocket _ _ w) as [[s|e] w2]; [|done].
  destruct (installEmitter_run (EmitUdp s) p w2) as (p2 & -> & Ha & _ & _ & _ & Hls & Hok). specialize (Hok Hp I).
  assert (app_listeners p2 = app_listeners p) as Happ.
  { unfold app_listeners. rewrite Hls, list.filter_app. destruct (handlersInstalled p); by rewrite app_nil_r. }
  intros E. assert (p1 = p2) as ->.
  { unfold sys, on_snd in E. cbn in E. destruct (connectUdp _ _ w2) as [[v2|e] w3]; [|done]. cbn in E.
    destruct (beat_once v2 w3) as [r w4]. cbn in E. by injection E. }
  destruct (handle_run (TUncaught intentional) p2 w1 Hok) as (p' & w' & E2 & _ & _ & Hd & Hap & _ & _ & Hem).
  exists s, p', w'. split_and!; [|by apply Hem|done|congruence].
  destruct (handle_returns p2 w1 Hok) as [pw Hr]. unfold panic_timer. cbn [handle] in *. rewrite Hr in *. cbn in E2.
  by rewrite E2.
Qed.
End programs.

(** ** Examples, with the toy cryptography *)

#[local] Existing Instance linux_platform.
#[local] Existing Instance toy_crypto.
#[local] Existing Instance toy_laws.

Definition demo_banner : list string := ["[varta] beating Ok every 500ms to udp://localhost:5876"%string].

(** What [connectUdp] runs. *)
Lemma demo_connects :
  exists v w, (t ← Udp.newUdpTransport "localhost" (jint 5876); newVarta t) (demo_world []) = (Ret v, w).
Proof.
  destruct ((t ← Udp.newUdpTransport "localhost" (jint 5876); newVarta t) (demo_world [])) as [[v|e] w] eqn:E; [by eexists _, _|].
  apply (f_equal (fun x => match x.1 with Ret _ => true | Throw _ => false end)) in E. vm_compute in E. discriminate E.
Qed.

Lemma demo_starts : exists v w, program_run ReportBeats demo_banner (@running Udp.UdpTransport demo_banner v) w [] [].
Proof.
  destruct demo_connects as (v & w & E). exists v, w.
  eapply started_run; [apply (udp_starts "localhost" (jint 5876))|apply demo_world_ok|constructor|exact E].
Qed.

Lemma interval_exit {T} `{BeatTransport T, Platform} job (q : Process T) w o q' w' :
  on_interval job (q, w) = (Ret o, (q', w')) -> exit_code q' = exit_code q /\ timer q' = timer q.
Proof.
  destruct job; cbn [on_interval]; unfold report_tick, payload_tick, on_agent, self, assign; unfold_m; cbn [fst snd].
  - destruct (beat _ _ (agent q, w)) as [[o1|e] [v w1]]; [|done]. destruct (report_line o1); cbn; by intros [= <- <- <-].
  - destruct (tick (metrics q)) as [m [st pl]]. cbn. destruct (beat _ _ _) as [[o1|e] [v w1]]; cbn; by intros [= <- <- <-].
Qed.

(** An interval callback extends an execution. *)
Lemma program_ticks {T} `{BeatTransportLaws T, Platform} job banner (q : Process T) w os fs :
  program_run job banner q w os fs -> exit_code q = None ->
  exists o q' w' fs', program_run job banner q' w' (os ++ [o]) fs' /\ exit_code q' = None.
Proof.
  intros Hr He. pose proof (program_inv _ _ _ _ _ _ Hr) as Hok.
  assert (timer q = true) as Ht by (pose proof (po_exit _ _ _ _ _ _ Hok) as Hx; rewrite He in Hx; by destruct (timer q)).
  destruct (interval_ok _ _ _ _ _ _ Hok He) as (o & q' & w' & E & Hm).
  assert (exists fs', program_run job banner q' w' (os ++ [o]) fs') as [fs' Hr'].
  { destruct o.
    - destruct Hm as (frame & Hd & _). eexists. by eapply pr_sent.
    - eexists. by eapply pr_unsent.
    - eexists. by eapply pr_unsent. }
  exists o, q', w', fs'. split; [done|].
  destruct (interval_exit job q w o q' w' E) as [-> _]. done.
Qed.

(** The program connects, the interval fires once, and a signal arrives. *)
Lemma example_programs_witness :
  exists (q : Process Udp.UdpTransport) w os fs, program_run ReportBeats demo_banner q w os fs
  /\ length os = 1%nat /\ exit_code q = Some 0 /\ closed (agent q) = true
  /\ length fs = length (filter (fun o => isSent o = true) os).
Proof.
  destruct demo_starts as (v & w & H0).
  destruct (program_ticks _ _ _ _ _ _ H0 eq_refl) as (o & q1 & w1 & fs & H1 & Hx).
  destruct (shutdown_ok _ _ _ _ _ _ (program_inv _ _ _ _ _ _ H1) Hx) as (q2 & w2 & Es & _ & Hx2).
  pose proof (pr_signal ReportBeats demo_banner q1 w1 _ fs _ q2 w2 H1 Hx Es) as H2.
  destruct (example_programs ReportBeats demo_banner q2 w2 _ fs H2) as (_ & Hlen & _ & Hend).
  rewrite Hx2 in Hend. destruct Hend as (_ & _ & Hcl). exists q2, w2, ([] ++ [o]), fs. auto.
Defined.

Lemma demo_http : port_of "http" = JNaN.
Proof. by vm_compute. Qed.

Lemma demo_key_length : length (replicate 32 7) = 32%nat.
Proof. apply length_replicate. Qed.

(** A missing argument; and a port that is not a number. *)
Lemma secure_example_checks_witness :
  secure_udp (fun _ => Ret (replicate 31 7)) ["h"; "1"]%string (demo_world []) = (Ret (Exited 64 usage), demo_world [])
  /\ exists e w', secure_udp (fun _ => Ret (replicate 32 7)) ["h"; "http"; "k"]%string (demo_world []) = (Throw e, w')
     /\ e = bad_port (port_of "http") /\ w_draws w' = 1%nat.
Proof.
  split.
  - refine (proj1 (secure_example_checks (fun _ => Ret (replicate 31 7)) ["h"; "1"]%string (demo_world [])) _).
    right; right. reflexivity.
  - generalize (demo_world_ok []), (fun i => eq_refl : w_fault (demo_world []) i = None), (eq_refl : w_draws (demo_world []) = 0%nat).
    generalize (demo_world []). intros w Hok Hf Hd.
    pose proof demo_key_length as Hk. revert Hk. generalize (replicate 32 7). intros key Hk.
    pose proof (proj2 (secure_example_checks (fun _ => Ret key) ["h"; "http"; "k"]%string w)
      ltac:(discriminate) ltac:(discriminate) ltac:(discriminate)) as H. cbn beta iota in H.
    rewrite (decide_True _ _ Hk) in H.
    destruct (proj2 H (f_equal valid_port demo_http)) as (e & w' & E & _ & H').
    destruct (H' Hok Hf) as (He & Hd' & _). exists e, w'. rewrite Hd in Hd'. exact (conj E (conj He Hd')).
Defined.
