(* ===== verification/Snippets.v ===== *)
(** * Code blocks of the book (src/_site/book/book-a0b12cfe.js, [codeSnippets] and [clipboard])

    The play, copy, undo and show-hidden-lines buttons of code blocks: which crates a snippet
    names and whether the play button is offered, the requests to the playground with their
    timeout, the buttons the script adds when it loads, and the tooltip of the copy buttons.
    The playground, the editor (Ace), the highlighter and the clipboard library are the
    environment: their answers and events are arguments and steps. *)

From S2P Require Import Prelude Number Search.

(** ** The crates of a snippet *)

(** [strip p s]: what follows [p] in [s]. *)
Fixpoint strip (p s : text) : option text :=
  match p, s with
  | [], _ => Some s
  | x :: p, y :: s => if x =? y then strip p s else None
  | _ :: _, [] => None
  end.

Fixpoint span (f : Z -> bool) (s : text) : text * text :=
  match s with
  | c :: s' => if f c then let '(a, b) := span f s' in (c :: a, b) else ([], s)
  | [] => ([], [])
  end.

(** [[a-zA-Z_0-9]] *)
Definition word_char (c : Z) : bool :=
  (97 <=? c) && (c <=? 122) || (65 <=? c) && (c <=? 90) || (c =? 95) || (48 <=? c) && (c <=? 57).

(** One or more characters of a class. *)
Definition some_of (f : Z -> bool) (s : text) : option (text * text) :=
  match span f s with ([], _) => None | r => Some r end.

(** The expression at the beginning of [s]: the crate it captures, and what follows. No class
    of it meets the next one, so the longest run of each is the only one to try. *)
Definition match_at (s : text) : option (text * text) :=
  s ← strip (txt "extern") s;
  '(_, s) ← some_of white s;
  s ← strip (txt "crate") s;
  '(_, s) ← some_of white s;
  '(c, s) ← some_of word_char s;
  let '(_, s) := span white s in
  s ← strip (txt ";") s;
  Some (c, s).

(** [re.exec(txt)] from [lastIndex] on: the first place where it matches. *)
Fixpoint exec (s : text) : option (text * text) :=
  match match_at s with
  | Some r => Some r
  | None => match s with [] => None | _ :: s' => exec s' end
  end.

(** The loop. *)
Fixpoint exec_loop (fuel : nat) (s : text) : option (list text) :=
  match fuel with
  | O => None
  | S k => match exec s with None => Some [] | Some (c, rest) => cons c <$> exec_loop k rest end
  end.

Definition snippet_crates (s : text) : list text := default [] (exec_loop (S (length s)) s).

(** *** What the expression means *)

(** [s] starts with [extern], space, [crate], space, the name [c], perhaps space, and a
    semicolon. *)
Definition declares (c s rest : text) : Prop :=
  exists w1 w2 w3, s = txt "extern" ++ w1 ++ txt "crate" ++ w2 ++ c ++ w3 ++ 59 :: rest
  /\ w1 <> [] /\ w2 <> [] /\ c <> []
  /\ Forall (fun x => white x = true) w1 /\ Forall (fun x => white x = true) w2 /\ Forall (fun x => white x = true) w3
  /\ Forall (fun x => word_char x = true) c.

Lemma strip_some p s r : strip p s = Some r <-> s = p ++ r.
Proof.
  revert s. induction p as [|x p IH]; intros s; cbn; [split; congruence|].
  destruct s as [|y s]; [by split|]. destruct (Z.eqb_spec x y) as [->|Hne].
  - rewrite IH. split; congruence.
  - split; [done|]. congruence.
Qed.

Lemma span_spec f s : let '(a, b) := span f s in
  s = a ++ b /\ Forall (fun x => f x = true) a /\ match b with [] => True | c :: _ => f c = false end.
Proof.
  induction s as [|c s IH]; cbn; [done|]. destruct (f c) eqn:E; [|done].
  destruct (span f s) as [a b]. destruct IH as (-> & H1 & H2). split_and!; [done|by constructor|done].
Qed.

Lemma span_app f a b :
  Forall (fun x => f x = true) a -> match b with [] => True | c :: _ => f c = false end -> span f (a ++ b) = (a, b).
Proof.
  intros Ha Hb. induction Ha as [|c a Hc _ IH]; cbn; [|by rewrite Hc, IH].
  destruct b as [|c b]; [done|]. cbn. by rewrite Hb.
Qed.

Lemma some_of_app f a b :
  a <> [] -> Forall (fun x => f x = true) a -> match b with [] => True | c :: _ => f c = false end ->
  some_of f (a ++ b) = Some (a, b).
Proof. intros Hne Ha Hb. unfold some_of. rewrite span_app by done. by destruct a. Qed.

Lemma some_of_some f s a b : some_of f s = Some (a, b) -> s = a ++ b /\ a <> [] /\ Forall (fun x => f x = true) a.
Proof.
  unfold some_of. pose proof (span_spec f s) as H. destruct (span f s) as [[|x a'] b']; [done|].
  intros [= <- <-]. naive_solver.
Qed.

(** White space, word characters, [c] and the semicolon keep apart. *)
Lemma white_word x : white x = true -> word_char x = false.
Proof. unfold white, word_char. intros H. boolify; lia. Qed.

Lemma head_white w b : Forall (fun x => white x = true) w ->
  match b with [] => True | c :: _ => word_char c = false end ->
  match w ++ b with [] => True | c :: _ => word_char c = false end.
Proof. intros H Hb. destruct H as [|x w Hx _]; [done|]. cbn. by apply white_word. Qed.

Lemma head_word c b : c <> [] -> Forall (fun x => word_char x = true) c ->
  match c ++ b with [] => True | x :: _ => white x = false end.
Proof.
  intros Hne H. destruct H as [|x c Hx _]; [done|]. cbn. destruct (white x) eqn:E; [|done].
  apply white_word in E. congruence.
Qed.

(** The matcher finds exactly the declarations. *)
Lemma match_at_spec s c rest : match_at s = Some (c, rest) <-> declares c s rest.
Proof.
  split.
  - unfold match_at, mbind, option_bind. destruct (strip (txt "extern") s) as [s1|] eqn:E1; [|done].
    apply strip_some in E1. destruct (some_of white s1) as [[w1 s2]|] eqn:E2; [|done].
    apply some_of_some in E2 as (-> & Hw1 & Fw1). destruct (strip (txt "crate") s2) as [s3|] eqn:E3; [|done].
    apply strip_some in E3. destruct (some_of white s3) as [[w2 s4]|] eqn:E4; [|done].
    apply some_of_some in E4 as (-> & Hw2 & Fw2). destruct (some_of word_char s4) as [[c' s5]|] eqn:E5; [|done].
    apply some_of_some in E5 as (-> & Hc & Fc). pose proof (span_spec white s5) as Hs.
    destruct (span white s5) as [w3 s6]. destruct Hs as (-> & Fw3 & _).
    destruct (strip (txt ";") s6) as [s7|] eqn:E7; [|done]. apply strip_some in E7. intros [= <- <-].
    exists w1, w2, w3. subst. by split_and!.
  - intros (w1 & w2 & w3 & -> & Hw1 & Hw2 & Hc & Fw1 & Fw2 & Fw3 & Fc). unfold match_at, mbind, option_bind.
    rewrite (proj2 (strip_some _ _ _) eq_refl), some_of_app by done.
    rewrite (proj2 (strip_some _ _ _) eq_refl), some_of_app by (done || by apply head_word).
    rewrite some_of_app by (done || by apply head_white).
    rewrite span_app by done. by rewrite (proj2 (strip_some (txt ";") (59 :: rest) rest) eq_refl).
Qed.

(** A match does not start at another letter, nor at the end of a name. *)
Lemma match_at_head x s : x <> 101 -> match_at (x :: s) = None.
Proof.
  intros H. unfold match_at. change (txt "extern") with (101 :: txt "xtern"). cbn [strip].
  by rewrite (proj2 (Z.eqb_neq 101 x)) by done.
Qed.

Lemma strip_within p u t :
  Forall (fun x => word_char x = true) p -> match t with [] => True | c :: _ => word_char c = false end ->
  strip p (u ++ t) = None \/ exists u', u = p ++ u' /\ strip p (u ++ t) = Some (u' ++ t).
Proof.
  intros Hp Ht. revert u. induction Hp as [|x p Hx _ IH]; intros u; [right; by exists u|].
  destruct u as [|y u]; cbn.
  - destruct t as [|c t]; [by left|]. cbn. destruct (Z.eqb_spec x c) as [->|]; [congruence|by left].
  - destruct (Z.eqb_spec x y) as [->|]; [|by left]. destruct (IH u) as [->|(u' & -> & E)]; [by left|].
    right. by exists u'.
Qed.

Lemma no_match_in_name u w3 rest :
  Forall (fun x => word_char x = true) u -> Forall (fun x => white x = true) w3 -> match_at (u ++ w3 ++ 59 :: rest) = None.
Proof.
  intros Hu Hw. unfold match_at, mbind, option_bind.
  assert (match w3 ++ 59 :: rest with [] => True | c :: _ => word_char c = false end) as Ht by (by apply head_white).
  destruct (strip_within (txt "extern") u _ ltac:(by repeat constructor) Ht) as [->|(u' & -> & ->)]; [done|].
  apply list.Forall_app in Hu as [_ Hu]. destruct u' as [|x u'].
  - cbn [app]. destruct w3 as [|y w3]; [done|]. rewrite some_of_app by done. done.
  - apply list.Forall_cons in Hu as [Hx _]. unfold some_of. cbn. destruct (white x) eqn:E; [|done].
    apply white_word in E. congruence.
Qed.

(** [skips p t]: no match of [p ++ t] starts within [p]. *)
Definition skips (p t : text) : Prop :=
  forall pre occ, p ++ t = pre ++ occ -> match_at occ <> None -> exists m, t = m ++ occ.

Lemma skips_nil t : skips [] t.
Proof. intros pre occ H _. by exists pre. Qed.

Lemma skips_cons x p t : match_at (x :: p ++ t) = None -> skips p t -> skips (x :: p) t.
Proof.
  intros Hx Hp [|y pre] occ; cbn; [intros <-; done|]. intros [= _ H]. by apply (Hp pre).
Qed.

Lemma skips_app p q t : skips p (q ++ t) -> skips q t -> skips (p ++ q) t.
Proof.
  intros Hp Hq pre occ H Hm. rewrite <- app_assoc in H. destruct (Hp _ _ H Hm) as [m E]. by apply (Hq m).
Qed.

Lemma skips_other p t : Forall (fun x => x <> 101) p -> skips p t.
Proof.
  induction 1 as [|x p Hx _ IH]; [apply skips_nil|]. apply skips_cons; [by apply match_at_head|done].
Qed.

Lemma skips_white w t : Forall (fun x => white x = true) w -> skips w t.
Proof. intros H. apply skips_other. eapply list.Forall_impl; [exact H|]. intros x Hx ->. by vm_compute in Hx. Qed.

Lemma skips_name c w3 rest :
  Forall (fun x => word_char x = true) c -> Forall (fun x => white x = true) w3 -> skips c (w3 ++ 59 :: rest).
Proof.
  intros Hc Hw. induction Hc as [|x c Hx Hc IH]; [apply skips_nil|].
  apply skips_cons; [|done]. apply (no_match_in_name (x :: c)); [by constructor|done].
Qed.

(** No match starts inside another one. *)
Lemma match_apart s c rest pre occ :
  match_at s = Some (c, rest) -> s = pre ++ occ -> pre <> [] -> match_at occ <> None -> exists m, rest = m ++ occ.
Proof.
  intros Hs Hp Hne Hm. apply match_at_spec in Hs as (w1 & w2 & w3 & -> & Hw1 & Hw2 & _ & Fw1 & Fw2 & Fw3 & Fc).
  destruct pre as [|y pre]; [done|].
  assert (skips ((txt "xt" ++ 101 :: txt "rn") ++ w1 ++ (txt "crat" ++ [101]) ++ w2 ++ c ++ w3 ++ [59]) rest) as K.
  { apply skips_app; [apply skips_app; [by apply skips_other; repeat constructor|apply skips_cons;
      [done|by apply skips_other; repeat constructor]]|].
    apply skips_app; [by apply skips_white|]. apply skips_app; [apply skips_app; [by apply skips_other; repeat constructor|]|].
    { destruct Fw2 as [|z w2 Hz Fw2]; [done|]. apply skips_cons; [|apply skips_nil].
      unfold match_at. change (txt "extern") with (101 :: 120 :: txt "tern"). cbn [strip app]. rewrite Z.eqb_refl.
      destruct (Z.eqb_spec 120 z) as [<-|]; [by vm_compute in Hz|done]. }
    apply skips_app; [by apply skips_white|]. apply skips_app; [rewrite <- app_assoc; by apply skips_name|].
    apply skips_app; [by apply skips_white|by apply skips_other; repeat constructor]. }
  apply (K pre occ); [|done]. injection Hp as _ Hp. rewrite <- Hp. by rewrite <- ?app_assoc.
Qed.

(** [exec] finds the first match. *)
Lemma exec_some s c rest : exec s = Some (c, rest) ->
  exists pre occ, s = pre ++ occ /\ match_at occ = Some (c, rest)
  /\ forall pre' occ', s = pre' ++ occ' -> match_at occ' <> None -> exists m, occ = m ++ occ'.
Proof.
  induction s as [|x s IH]; cbn [exec]; [done|]. destruct (match_at (x :: s)) as [[c' r]|] eqn:E.
  - intros [= <- <-]. exists [], (x :: s). split_and!; [done|done|]. intros pre' occ' -> _. by exists pre'.
  - intros H. destruct (IH H) as (pre & occ & -> & Hm & Hf). exists (x :: pre), occ. split_and!; [done|done|].
    intros [|y pre'] occ' H' Hne; cbn in H'; [congruence|]. injection H' as _ H'. by apply (Hf pre').
Qed.

Lemma exec_none s pre occ : exec s = None -> s = pre ++ occ -> match_at occ = None.
Proof.
  revert pre. induction s as [|x s IH]; intros pre H Hs.
  - symmetry in Hs. apply app_eq_nil in Hs as [_ ->]. done.
  - cbn [exec] in H. destruct (match_at (x :: s)) eqn:E; [done|]. destruct pre as [|y pre]; cbn in Hs; [by subst|].
    injection Hs as _ Hs. by apply (IH pre).
Qed.

Lemma declares_length c s rest : declares c s rest -> (length rest < length s)%nat.
Proof. intros (w1 & w2 & w3 & -> & _). rewrite !length_app. cbn. lia. Qed.

(** The loop ends, with the crates of all declarations of the text. *)
Lemma exec_loop_spec fuel s : (length s < fuel)%nat ->
  exists l, exec_loop fuel s = Some l
  /\ forall c, In c l <-> exists pre occ rest, s = pre ++ occ /\ declares c occ rest.
Proof.
  revert s. induction fuel as [|fuel IH]; intros s Hl; [lia|]. cbn [exec_loop].
  destruct (exec s) as [[c0 rest]|] eqn:E.
  - destruct (exec_some _ _ _ E) as (pre0 & occ0 & -> & Hm & Hf).
    pose proof (declares_length _ _ _ (proj1 (match_at_spec _ _ _) Hm)) as Hr. rewrite length_app in Hl.
    destruct (IH rest) as (l & -> & Hin); [lia|]. exists (c0 :: l). split; [done|]. intros c. cbn [In]. rewrite Hin. split.
    + intros [->|(pre & occ & r & -> & Hd)].
      * exists pre0, occ0, rest. by rewrite <- match_at_spec.
      * apply match_at_spec in Hm as (w1 & w2 & w3 & -> & _).
        exists (pre0 ++ txt "extern" ++ w1 ++ txt "crate" ++ w2 ++ c0 ++ w3 ++ 59 :: pre), occ, r.
        split; [|done]. by rewrite <- ?app_assoc.
    + intros (pre & occ & r & Hs & Hd). pose proof (proj2 (match_at_spec _ _ _) Hd) as Hd'.
      destruct (Hf _ _ Hs) as [m ->]; [congruence|]. destruct m as [|y m].
      * left. cbn [app] in Hm. congruence.
      * right. destruct (match_apart _ _ _ (y :: m) occ Hm eq_refl) as [m' ->]; [done|congruence|]. by exists m', occ, r.
  - exists []. split; [done|]. intros c. split; [done|]. intros (pre & occ & r & Hs & Hd).
    apply match_at_spec in Hd. pose proof (exec_none _ _ _ E Hs). congruence.
Qed.

Definition declared (s c : text) : Prop := exists pre occ rest, s = pre ++ occ /\ declares c occ rest.

Lemma snippet_crates_in s c : In c (snippet_crates s) <-> declared s c.
Proof. unfold snippet_crates. destruct (exec_loop_spec (S (length s)) s) as (l & -> & Hl); [lia|apply Hl]. Qed.

(** C40. The search for crates in a snippet always ends, and the crates it finds are exactly the
    names [c] for which the text holds, anywhere, [extern], white space, [crate], white space,
    [c] (letters, digits and underscores), perhaps white space, and a semicolon: a scan that
    goes on after each match misses none, because no declaration starts inside another. *)
Theorem snippet_crates_exact s c :
  is_Some (exec_loop (S (length s)) s)
  /\ (In c (snippet_crates s) <-> exists pre occ rest, s = pre ++ occ /\ declares c occ rest).
Proof.
  destruct (exec_loop_spec (S (length s)) s) as (l & -> & _); [lia|]. split; [done|apply snippet_crates_in].
Qed.

Example crates_of_a_snippet :
  snippet_crates (txt "extern crate rand; extern  crate my_2 ; extern crate a-b; externcrate c; xextern crate d;")
  = [txt "rand"; txt "my_2"; txt "d"].
Proof. by vm_compute. Qed.
