(* ===== verification/CodeBlocks.v ===== *)
(** * The buttons of the book's code blocks (src/_site/book/book-a0b12cfe.js, [codeSnippets],
    [clipboard] and [playground_text])

    The show-hidden-lines, copy, play and undo buttons: how the script adds them when it loads,
    what each of them does, the request for the playground's crates, the requests that run a
    snippet, with their timeout, and the tooltip of the copy buttons.

    A code block is a [code] element with its parent; the events of the reader, of the network
    and of the editor are steps. The playground, the editor (Ace), the highlighter and the
    clipboard library are the environment: what they answer is carried by the events, and what
    the highlighter makes of a block's lines is a parameter. [innerText] leaves out the lines
    that the style sheet hides ([.hide-boring .boring] of css/general). *)

From S2P Require Import Prelude Number Search Snippets.

(** ** State *)

(** The buttons, by the class the script gives them; the show-hidden-lines button has none. *)
Inductive Button : Type :=
  | Eye (title label icon : text)
  | Clip (tooltip : text) (tooltipped : bool)
  | Play (hidden hidden_class : bool)
  | Reset.

(** What is sent to [evaluate.json]. *)
Record Params : Type := mkParams { version : text; optimize : text; code : text; edition : text }.

(** What a request comes to: the [result] of its answer, or the message of the error. *)
Inductive Outcome : Type := Output (result : text) | Failure (message : text).

(** [Racing]: the fetch against the timeout. [Reading]: the fetch has won, the body is read. *)
Inductive Stage : Type := Racing | Reading | Settled (o : Outcome).

Record Request : Type := mkRequest { sent : Params; stage : Stage }.

(** A code block: the classes of the parent and of the element, the lines (boring or not), the
    editor's text and the text its undo goes back to, the buttons (when there is a [div] for
    them), whether the listeners of [handle_crate_list_update] are installed, the result block
    (its text, and whether it has the class [result-no-output]) and the requests so far. *)
Record Block : Type := mkBlock {
  parent : list text;
  in_pre : bool;
  classes : list text;
  lines : list (bool * text);
  value : text;
  originalCode : text;
  buttons : option (list Button);
  listening : bool;
  result : option (text * bool);
  requests : list Request;
}.

(** The request for the crates; once it is answered, the crates. *)
Inductive Crates : Type := NotSent | CratesRacing | CratesReading | CratesLost | Available (ids : list text).

Record Page : Type := mkPage { crates : Crates; blocks : list Block; clipboard : option text }.

(** ** Updates *)

Definition set_classes (v : list text) (b : Block) : Block :=
  mkBlock (parent b) (in_pre b) v (lines b) (value b) (originalCode b) (buttons b) (listening b) (result b) (requests b).
Definition set_lines (v : list (bool * text)) (b : Block) : Block :=
  mkBlock (parent b) (in_pre b) (classes b) v (value b) (originalCode b) (buttons b) (listening b) (result b) (requests b).
Definition set_value (v : text) (b : Block) : Block :=
  mkBlock (parent b) (in_pre b) (classes b) (lines b) v (originalCode b) (buttons b) (listening b) (result b) (requests b).
Definition set_buttons (v : option (list Button)) (b : Block) : Block :=
  mkBlock (parent b) (in_pre b) (classes b) (lines b) (value b) (originalCode b) v (listening b) (result b) (requests b).
Definition set_listening (v : bool) (b : Block) : Block :=
  mkBlock (parent b) (in_pre b) (classes b) (lines b) (value b) (originalCode b) (buttons b) v (result b) (requests b).
Definition set_result (v : option (text * bool)) (b : Block) : Block :=
  mkBlock (parent b) (in_pre b) (classes b) (lines b) (value b) (originalCode b) (buttons b) (listening b) v (requests b).
Definition set_requests (v : list Request) (b : Block) : Block :=
  mkBlock (parent b) (in_pre b) (classes b) (lines b) (value b) (originalCode b) (buttons b) (listening b) (result b) v.

(** [classList]: [contains], [add], [remove]. *)
Definition contains (c : string) (l : list text) : bool := bool_decide (txt c ∈ l).
Definition add (c : string) (l : list text) : list text := if contains c l then l else l ++ [txt c].
Definition remove (c : string) (l : list text) : list text := filter (fun x => x <> txt c) l.

Definition on_buttons (f : Button -> Button) (b : Block) : Block := set_buttons (map f <$> buttons b) b.

(** [buttons.insertBefore(x, buttons.firstChild)], the [div] made when there is none. *)
Definition insert_button (x : Button) (b : Block) : Block := set_buttons (Some (x :: default [] (buttons b))) b.

Definition textContent (b : Block) : text := concat (map snd (lines b)).
Definition innerText (b : Block) : text :=
  concat (map snd (filter (fun l => negb (contains "hide-boring" (classes b) && fst l)) (lines b))).

Definition playground (b : Block) : bool := contains "playground" (parent b).

(** [s.indexOf(p) !== -1] *)
Fixpoint includes_text (p s : text) : bool :=
  match strip p s with
  | Some _ => true
  | None => match s with [] => false | _ :: s' => includes_text p s' end
  end.

Definition trim (s : text) : text := rev (skip_white (rev (skip_white s))).

Definition is_empty (s : text) : bool := match s with [] => true | _ => false end.

(** The edition the last class that starts with [edition] names. *)
Definition edition_of (l : list text) : text :=
  foldl (fun e c => match strip (txt "edition") c with Some v => v | None => e end) (txt "2015") l.

Section codeSnippets.
(** [window.ace], [window.playground_copyable], and the highlighter on a block's lines. *)
Context (ace copyable : bool) (highlightBlock : list (bool * text) -> list (bool * text)).

Definition editable (b : Block) : bool := ace && contains "editable" (classes b).

Definition playground_text (hidden : bool) (b : Block) : text :=
  if editable b then value b else if hidden then textContent b else innerText b.

(** ** Loading *)

Definition highlight (b : Block) : Block :=
  if contains "header" (parent b) then b
  else
    let b := if editable b then set_classes (remove "language-rust" (classes b)) b
             else set_lines (highlightBlock (lines b)) b in
    set_classes (add "hljs" (classes b)) b.

Definition show_title : text := txt "Show hidden lines".
Definition hide_title : text := txt "Hide lines".

Definition hide_boring (b : Block) : Block :=
  if contains "hljs" (classes b) && existsb fst (lines b) then
    set_buttons (Some [Eye show_title show_title (txt "fa-eye")]) (set_classes (add "hide-boring" (classes b)) b)
  else b.

Definition copy_button (b : Block) : Block :=
  if copyable && in_pre b && negb (playground b) then insert_button (Clip [] false) b else b.

Definition playground_buttons (b : Block) : Block :=
  if playground b then
    let b := insert_button (Play true false) b in
    let b := if copyable then insert_button (Clip [] false) b else b in
    if editable b then insert_button Reset b else b
  else b.

Definition load_block (b : Block) : Block := playground_buttons (copy_button (hide_boring (highlight b))).

Definition load (bs : list Block) : Page :=
  mkPage (if existsb playground bs then CratesRacing else NotSent) (map load_block bs) None.

(** ** The play button *)

Definition update_play_button (ids : list text) (b : Block) : Block :=
  let hide x := match x with Play h _ => Play h true | _ => x end in
  if contains "no_run" (classes b) then on_buttons hide b
  else
    let all_available := forallb (fun c => bool_decide (c ∈ ids)) (snippet_crates (playground_text true b)) in
    if all_available then on_buttons (fun x => match x with Play _ _ => Play false false | _ => x end) b
    else on_buttons hide b.

Definition handle_crate_list_update (ids : list text) (b : Block) : Block :=
  let b := update_play_button ids b in
  if editable b then set_listening true b else b.

(** ** Running a snippet *)

Definition params (b : Block) : Params :=
  let text := playground_text true b in
  mkParams (if includes_text (txt "#![feature") text then txt "nightly" else txt "stable") (txt "0") text
           (edition_of (classes b)).

Definition running : text := txt "Running...".

Definition run_rust_code (b : Block) : Block :=
  let no_output := match result b with Some (_, c) => c | None => false end in
  set_result (Some (running, no_output)) (set_requests (requests b ++ [mkRequest (params b) Racing]) b).

(** The last handlers of the chain. *)
Definition show_outcome (o : Outcome) (r : text * bool) : text * bool :=
  match o with
  | Output s => if is_empty (trim s) then (txt "No output", true) else (s, false)
  | Failure m => (txt "Playground Communication: " ++ m, snd r)
  end.

(** The answer, the end of the timeout, or the body of the [r]-th request. *)
Inductive reply : Type := Answered | Refused (message : text) | TimedOut | Body (o : Outcome).

Definition advance (s : Stage) (e : reply) : Stage :=
  match s, e with
  | Racing, Answered => Reading
  | Racing, Refused m => Settled (Failure m)
  | Racing, TimedOut => Settled (Failure (txt "timeout"))
  | Reading, Body o => Settled o
  | _, _ => s
  end.

Definition on_reply (r : nat) (e : reply) (b : Block) : Block :=
  match requests b !! r with
  | None => b
  | Some q =>
      let s := advance (stage q) e in
      let b' := set_requests (<[r := mkRequest (sent q) s]> (requests b)) b in
      match stage q, s with
      | Settled _, _ => b
      | _, Settled o => set_result (show_outcome o <$> result b) b'
      | _, _ => b'
      end
  end.

(** ** The other buttons *)

(** [inner]: the click hit the icon in the button, and this is how its [title] prints. *)
Definition on_eye (inner : option text) (x : Button) : Button :=
  match x with
  | Eye title label icon =>
      if bool_decide (title = show_title) then Eye hide_title (default hide_title inner) (txt "fa-eye-slash")
      else if bool_decide (title = hide_title) then Eye show_title (default show_title inner) (txt "fa-eye")
      else x
  | _ => x
  end.

Definition eye_title (b : Block) : option text :=
  head (omap (fun x => match x with Eye t _ _ => Some t | _ => None end) (default [] (buttons b))).

Definition eye_click (inner : option text) (b : Block) : Block :=
  let b' := on_buttons (on_eye inner) b in
  match eye_title b with
  | Some t =>
      if bool_decide (t = show_title) then set_classes (remove "hide-boring" (classes b)) b'
      else if bool_decide (t = hide_title) then set_classes (add "hide-boring" (classes b)) b'
      else b'
  | None => b'
  end.

(** The editor's text becomes [v]; its change listener, when it is installed. *)
Definition edit (ids : Crates) (v : text) (b : Block) : Block :=
  if editable b then
    let b := set_value v b in
    match ids with
    | Available l => if listening b then update_play_button l b else b
    | _ => b
    end
  else b.

Definition tooltip (msg : text) (on : bool) (x : Button) : Button :=
  match x with Clip _ _ => Clip msg on | _ => x end.
Definition hideTooltip : Block -> Block := on_buttons (tooltip [] false).
Definition showTooltip (msg : text) : Block -> Block := on_buttons (tooltip msg true).

Definition has_clip (b : Block) : bool :=
  existsb (fun x => match x with Clip _ _ => true | _ => false end) (default [] (buttons b)).

(** The play button can be seen. *)
Definition play_visible (b : Block) : bool :=
  existsb (fun x => match x with Play h c => negb h && negb c | _ => false end) (default [] (buttons b)).

(** ** Events *)

Inductive event : Type :=
  | CratesAnswered | CratesFailed | CratesTimedOut | CratesBody (ids : option (list text))
  | EyeClick (i : nat) (inner : option text)
  | Copy (i : nat) (ok : bool)
  | MouseOut (i : nat)
  | PlayClick (i : nat)
  | CtrlEnter (i : nat)
  | Edit (i : nat) (v : text)
  | Undo (i : nat)
  | Reply (i r : nat) (e : reply).

Definition on_block (f : Block -> Block) (i : nat) (p : Page) : Page :=
  mkPage (crates p) (alter f i (blocks p)) (clipboard p).

Definition set_crates (c : Crates) (p : Page) : Page := mkPage c (blocks p) (clipboard p).

(** The request for the crates; an answer without a list, like an error, goes to no handler. *)
Definition on_crates (e : event) (p : Page) : Page :=
  match crates p, e with
  | CratesRacing, CratesAnswered => set_crates CratesReading p
  | CratesRacing, (CratesFailed | CratesTimedOut) => set_crates CratesLost p
  | CratesReading, CratesBody None => set_crates CratesLost p
  | CratesReading, CratesBody (Some ids) =>
      mkPage (Available ids)
             (map (fun b => if playground b then handle_crate_list_update ids b else b) (blocks p)) (clipboard p)
  | _, _ => p
  end.

(** A copy button is used: its tooltip goes away, the text is taken, and the library reports. *)
Definition on_copy (i : nat) (ok : bool) (p : Page) : Page :=
  match blocks p !! i with
  | Some b =>
      if has_clip b then
        let b' := hideTooltip b in
        mkPage (crates p)
               (<[i := showTooltip (if ok then txt "Copied!" else txt "Clipboard error!") b']> (blocks p))
               (if ok then Some (playground_text false b') else clipboard p)
      else p
  | None => p
  end.

Definition step (e : event) (p : Page) : Page :=
  match e with
  | CratesAnswered | CratesFailed | CratesTimedOut | CratesBody _ => on_crates e p
  | EyeClick i inner => on_block (eye_click inner) i p
  | Copy i ok => on_copy i ok p
  | MouseOut i => on_block hideTooltip i p
  | PlayClick i => on_block (fun b => if play_visible b then run_rust_code b else b) i p
  | CtrlEnter i => on_block (fun b => if listening b then run_rust_code b else b) i p
  | Edit i v => on_block (edit (crates p) v) i p
  | Undo i => on_block (fun b => if playground b then edit (crates p) (originalCode b) b else b) i p
  | Reply i r e => on_block (on_reply r e) i p
  end.

Definition run (es : list event) (p : Page) : Page := foldl (fun p e => step e p) p es.

(** ** What a block keeps to *)

Inductive Kind : Type := AnEye | AClip | APlay | AReset.
Definition kind (x : Button) : Kind :=
  match x with Eye _ _ _ => AnEye | Clip _ _ => AClip | Play _ _ => APlay | Reset => AReset end.

Definition when {A} (c : bool) (x : A) : list A := if c then [x] else [].

(** The buttons of a block, from left to right. *)
Definition layout (b : Block) : list Kind :=
  when (playground b && editable b) AReset
  ++ when (copyable && (playground b || in_pre b)) AClip
  ++ when (playground b) APlay
  ++ when (contains "hljs" (classes b) && existsb fst (lines b)) AnEye.

Definition btns (b : Block) : list Button := default [] (buttons b).

Definition eye_agrees (boring_hidden : bool) (x : Button) : Prop :=
  match x with
  | Eye title _ icon =>
      if boring_hidden then title = show_title /\ icon = txt "fa-eye" else title = hide_title /\ icon = txt "fa-eye-slash"
  | _ => True
  end.

Definition tip_agrees (x : Button) : Prop :=
  match x with Clip msg on => on = negb (is_empty msg) | _ => True end.

(** The snippet may be run at the playground. *)
Definition offered (ids : option (list text)) (b : Block) : Prop :=
  match ids with
  | Some l => contains "no_run" (classes b) = false /\ forall c, declared (playground_text true b) c -> c ∈ l
  | None => False
  end.

Definition pending (q : Request) : Prop := match stage q with Settled _ => False | _ => True end.

Definition outcome_text (o : Outcome) : text := fst (show_outcome o ([], false)).

(** The result block: [Running...] while the last request is on its way, else what one of the
    requests came to. *)
Definition reports (b : Block) : Prop :=
  match result b with
  | None => requests b = []
  | Some (t, _) =>
      (t = running /\ exists q, list.last (requests b) = Some q /\ pending q)
      \/ exists r q o, requests b !! r = Some q /\ stage q = Settled o /\ t = outcome_text o
  end.

Definition ids_of (c : Crates) : option (list text) := match c with Available l => Some l | _ => None end.

Record sound (ids : option (list text)) (b : Block) : Prop := {
  so_layout : map kind (btns b) = layout b;
  so_eye : Forall (eye_agrees (contains "hide-boring" (classes b))) (btns b);
  so_tip : Forall tip_agrees (btns b);
  so_play : play_visible b = true <-> playground b = true /\ offered ids b;
  so_listening : listening b = playground b && editable b && match ids with Some _ => true | None => false end;
  so_reports : reports b;
}.

(** *** Class lists *)

Lemma contains_add c c' l : contains c (add c' l) = contains c l || bool_decide (txt c = txt c').
Proof.
  unfold add. destruct (contains c' l) eqn:E.
  - destruct (bool_decide_reflect (txt c = txt c')) as [H|]; [|by rewrite orb_false_r].
    unfold contains in *. rewrite H, E. done.
  - unfold contains. apply eq_true_iff_eq. rewrite orb_true_iff, !bool_decide_eq_true. set_solver.
Qed.

Lemma contains_remove c c' l : contains c (remove c' l) = contains c l && negb (bool_decide (txt c = txt c')).
Proof.
  unfold remove, contains. apply eq_true_iff_eq. rewrite andb_true_iff, negb_true_iff, bool_decide_eq_false, !bool_decide_eq_true.
  rewrite list_elem_of_filter. tauto.
Qed.

(** A change of the class list that keeps the class [c]. *)
Ltac other_class := rewrite ?contains_add, ?contains_remove, ?bool_decide_eq_false_2 by done; rewrite ?orb_false_r, ?andb_true_r.

(** *** Loading *)

Lemma map_when {A B} (f : A -> B) c x : map f (when c x) = when c (f x).
Proof. by destruct c. Qed.
Lemma Forall_when {A} (P : A -> Prop) c x : P x -> Forall P (when c x).
Proof. destruct c; by repeat constructor. Qed.
Lemma existsb_when {A} (f : A -> bool) c x : f x = false -> existsb f (when c x) = false.
Proof. destruct c; cbn; [by intros ->|done]. Qed.

Definition plain (b : Block) : Prop :=
  buttons b = None /\ listening b = false /\ result b = None /\ requests b = [].

Lemma highlight_plain b : plain b -> plain (highlight b).
Proof. unfold plain, highlight. by repeat case_match. Qed.

Lemma add_buttons b : exists v, playground_buttons (copy_button b) = set_buttons v b
  /\ default [] v = when (playground b && editable b) Reset ++ when (copyable && (playground b || in_pre b)) (Clip [] false)
                    ++ when (playground b) (Play true false) ++ btns b.
Proof.
  destruct b as [pa pre cl li v o bu ls r q]. unfold copy_button, playground_buttons, playground, editable, btns.
  destruct (contains "playground" pa) eqn:E1, pre, copyable, (ace && contains "editable" cl) eqn:E2; cbn;
    repeat (rewrite ?E1, ?E2; cbn); by eexists.
Qed.

Lemma editable_classes c b : contains "editable" c = contains "editable" (classes b) -> editable (set_classes c b) = editable b.
Proof. unfold editable. cbn. by intros ->. Qed.

Lemma add_eye b : plain b -> exists c, hide_boring b = set_buttons (buttons (hide_boring b)) (set_classes c b)
  /\ contains "editable" c = contains "editable" (classes b) /\ contains "hljs" c = contains "hljs" (classes b)
  /\ btns (hide_boring b)
     = when (contains "hljs" (classes b) && existsb fst (lines b)) (Eye show_title show_title (txt "fa-eye"))
  /\ Forall (eye_agrees (contains "hide-boring" c)) (btns (hide_boring b)).
Proof.
  destruct b as [pa pre cl li v o bu ls r q]. intros (Hb & _). cbn in Hb. subst bu. unfold hide_boring. cbn [classes lines].
  destruct (contains "hljs" cl && existsb fst li); cbn.
  - exists (add "hide-boring" cl). split_and!; [done|by other_class|by other_class|done|].
    unfold btns. cbn. rewrite contains_add, bool_decide_true, orb_true_r by done. by repeat constructor.
  - exists cl. by split_and!.
Qed.

Lemma load_sound b : plain b -> sound None (load_block b).
Proof.
  intros H. unfold load_block. apply highlight_plain in H. revert H. generalize (highlight b). clear b. intros b H.
  destruct (add_buttons (hide_boring b)) as (v & -> & Hv). destruct (add_eye b H) as (c & Eb & Hed & Hhl & Hb & He).
  rewrite Hb in Hv, He. revert Hv. rewrite Eb. cbn [set_buttons set_classes playground parent in_pre].
  unfold playground, editable. cbn [parent classes set_buttons set_classes in_pre]. rewrite Hed. intros Hv.
  destruct H as (_ & H1 & H2 & H3).
  split; unfold layout, btns, play_visible, offered, reports, playground, editable; cbn [set_buttons set_classes buttons
    parent classes in_pre lines listening result requests]; rewrite ?Hv, ?Hed, ?Hhl, ?H1, ?H2, ?H3.
  - by rewrite !map_app, !map_when.
  - rewrite !list.Forall_app. split_and!; [by apply Forall_when..|done].
  - rewrite !list.Forall_app. split_and!; by apply Forall_when.
  - rewrite !existsb_app, !existsb_when by done. split; [done|by intros []].
  - by rewrite andb_false_r.
  - done.
Qed.

(** *** The operations *)

Definition play_seen (x : Button) : bool := match x with Play h c => negb h && negb c | _ => false end.

Definition gentle (f : Button -> Button) : Prop :=
  forall x, kind (f x) = kind x /\ (forall h, eye_agrees h x -> eye_agrees h (f x)) /\ (tip_agrees x -> tip_agrees (f x)).

Lemma btns_on f b : btns (on_buttons f b) = map f (btns b).
Proof. unfold btns, on_buttons. cbn. by destruct (buttons b). Qed.

Lemma play_visible_on f b : play_visible (on_buttons f b) = existsb (fun x => play_seen (f x)) (btns b).
Proof.
  unfold play_visible. fold (btns (on_buttons f b)). rewrite btns_on. induction (btns b) as [|x l IH]; [done|].
  cbn. by rewrite IH.
Qed.

(** What does not depend on the crates. *)
Definition kept (b : Block) : Prop :=
  map kind (btns b) = layout b /\ Forall (eye_agrees (contains "hide-boring" (classes b))) (btns b)
  /\ Forall tip_agrees (btns b) /\ reports b.

Lemma sound_kept ids b : sound ids b -> kept b.
Proof. intros []. by split_and!. Qed.

(** A gentle change of the buttons leaves what is not the play button's visibility. *)
Lemma gentle_sound f ids' b :
  kept b -> gentle f ->
  (play_visible (on_buttons f b) = true <-> playground b = true /\ offered ids' b) ->
  listening b = playground b && editable b && match ids' with Some _ => true | None => false end ->
  sound ids' (on_buttons f b).
Proof.
  intros (H1 & H2 & H3 & H6) Hf Hp Hl. split; [| | |done|done|done].
  - rewrite btns_on, map_map, <- H1 at 1. apply map_ext. intros x. apply Hf.
  - rewrite btns_on. apply list.Forall_fmap. eapply list.Forall_impl; [exact H2|]. intros x. apply Hf.
  - rewrite btns_on. apply list.Forall_fmap. eapply list.Forall_impl; [exact H3|]. intros x. apply Hf.
Qed.

Lemma tooltip_gentle msg on : on = negb (is_empty msg) -> gentle (tooltip msg on).
Proof. by intros -> []. Qed.

Lemma tooltip_sound msg on ids b : on = negb (is_empty msg) -> sound ids b -> sound ids (on_buttons (tooltip msg on) b).
Proof.
  intros Hon H. apply gentle_sound; [by eapply sound_kept|by apply tooltip_gentle| |apply H].
  rewrite play_visible_on, <- (so_play _ _ H). unfold play_visible. fold (btns b).
  enough (existsb (fun x => play_seen (tooltip msg on x)) (btns b) = existsb play_seen (btns b)) as -> by done.
  induction (btns b) as [|[] l IH]; cbn; by rewrite ?IH.
Qed.

Lemma update_shape l b : exists f, update_play_button l b = on_buttons f b /\ gentle f
  /\ (existsb (fun x => match x with Play _ _ => true | _ => false end) (btns b) = true ->
      play_visible (update_play_button l b) = true <-> offered (Some l) b).
Proof.
  set (hide := fun x => match x with Play h _ => Play h true | _ => x end).
  assert (forall bs, existsb (fun x => play_seen (hide x)) bs = false) as Hh.
  { induction bs as [|[|?|[] []|] bs IH]; cbn; by rewrite ?IH. }
  unfold update_play_button. fold hide. unfold offered.
  destruct (contains "no_run" (classes b)); [|destruct (forallb _ _) eqn:E].
  - exists hide. split_and!; [done|by intros []|]. intros _. rewrite play_visible_on, Hh. naive_solver.
  - eexists. split_and!; [done|by intros []|]. rewrite play_visible_on. intros Hx. split.
    + intros _. split; [done|]. intros c Hc. apply snippet_crates_in in Hc. rewrite forallb_forall in E.
      by apply E, bool_decide_eq_true in Hc.
    + intros _. rewrite existsb_exists in Hx |- *. destruct Hx as ([] & Hx & Hy); try done. by eexists.
  - exists hide. split_and!; [done|by intros []|]. intros _. rewrite play_visible_on, Hh. split; [done|].
    intros [_ H]. apply not_true_iff_false in E. destruct E. apply forallb_forall. intros c Hc.
    by apply bool_decide_eq_true, H, snippet_crates_in.
Qed.

Lemma has_play b : map kind (btns b) = layout b -> playground b = true ->
  existsb (fun x => match x with Play _ _ => true | _ => false end) (btns b) = true.
Proof.
  intros H Hp. assert (In APlay (map kind (btns b))) as Hin.
  { rewrite H. unfold layout. rewrite !in_app_iff, Hp. right. right. left. by left. }
  apply in_map_iff in Hin as (x & Hk & Hx). apply existsb_exists. exists x. by destruct x.
Qed.

Lemma update_sound l b :
  kept b -> playground b = true -> listening b = editable b -> sound (Some l) (update_play_button l b).
Proof.
  intros H Hp Hl. destruct (update_shape l b) as (f & E & Hf & Hv). rewrite E in Hv |- *.
  apply gentle_sound; [done|done| |by rewrite Hl, Hp, andb_true_r].
  rewrite Hv by (apply has_play; [apply H|done]). naive_solver.
Qed.

Lemma handle_sound l b : sound None b -> playground b = true -> sound (Some l) (handle_crate_list_update l b).
Proof.
  intros H Hp. pose proof (sound_kept _ _ H) as Hk. pose proof (so_listening _ _ H) as Hl. rewrite andb_false_r in Hl.
  unfold handle_crate_list_update. destruct (update_shape l b) as (f & E & _).
  assert (editable (update_play_button l b) = editable b) as -> by (by rewrite E).
  destruct (editable b) eqn:Ee; [|by apply update_sound; rewrite ?Hl, ?Ee].
  enough (set_listening true (update_play_button l b) = update_play_button l (set_listening true b)) as ->.
  { apply update_sound; [exact Hk|done|]. symmetry. exact Ee. }
  unfold update_play_button. change (playground_text true (set_listening true b)) with (playground_text true b).
  cbn [classes set_listening]. by repeat case_match.
Qed.

Lemma edit_sound c v b : sound (ids_of c) b -> sound (ids_of c) (edit c v b).
Proof.
  intros H. unfold edit. destruct (editable b) eqn:Ee; [|done]. pose proof (sound_kept _ _ H) as Hk.
  pose proof (so_listening _ _ H) as Hl. rewrite Ee, andb_true_r in Hl. cbn [listening set_value].
  destruct H as [H1 H2 H3 H4 H5 H6]. destruct c as [| | | |l]; cbn [ids_of] in *;
    try (split; [exact H1|exact H2|exact H3|exact H4|exact H5|exact H6]).
  rewrite andb_true_r in Hl. rewrite Hl. destruct (playground b) eqn:Hp.
  - apply update_sound; [exact Hk|exact Hp|]. cbn. rewrite Hl. symmetry. exact Ee.
  - split; [exact H1|exact H2|exact H3| | |exact H6].
    + change (play_visible b = true <-> playground b = true /\ offered (Some l) (set_value v b)). rewrite H4, Hp. naive_solver.
    + change (listening b = playground b && editable b && true). by rewrite Hp, Hl.
Qed.

(** The show-hidden-lines button. *)
Lemma eye_title_spec h b t : Forall (eye_agrees h) (btns b) -> eye_title b = Some t -> t = if h then show_title else hide_title.
Proof.
  unfold eye_title. fold (btns b). induction 1 as [|x l Hx _ IH]; [done|]. destruct x as [t' lb ic| | |]; cbn in *; try done.
  intros [= ->]. destruct h; naive_solver.
Qed.

Lemma eye_title_none b x : eye_title b = None -> In x (btns b) -> match x with Eye _ _ _ => False | _ => True end.
Proof. unfold eye_title. fold (btns b). induction (btns b) as [|[] l IH]; cbn; naive_solver. Qed.

Lemma on_eye_agrees inner h x : eye_agrees h x -> eye_agrees (negb h) (on_eye inner x).
Proof.
  destruct x as [t l ic| | |]; cbn; try done. destruct h; intros [-> ->]; [by rewrite bool_decide_true|].
  by rewrite bool_decide_false, bool_decide_true.
Qed.

Lemma play_visible_eye inner b : play_visible (on_buttons (on_eye inner) b) = play_visible b.
Proof.
  rewrite play_visible_on. unfold play_visible. fold (btns b).
  induction (btns b) as [|[t l ic| | |] bs IH]; cbn; [done|..]; try by rewrite IH.
  rewrite IH. by repeat case_match.
Qed.

Lemma classes_sound ids f c h b :
  sound ids b -> (forall x, In x (btns b) -> eye_agrees h (f x)) -> contains "hide-boring" c = h ->
  (forall x, kind (f x) = kind x) -> (forall x, tip_agrees x -> tip_agrees (f x)) ->
  play_visible (on_buttons f b) = play_visible b ->
  contains "editable" c = contains "editable" (classes b) -> contains "hljs" c = contains "hljs" (classes b) ->
  contains "no_run" c = contains "no_run" (classes b) ->
  sound ids (set_classes c (on_buttons f b)).
Proof.
  intros [H1 H2 H3 H4 H5 H6] He Hc Hk Ht Hp C1 C2 C3.
  assert (editable (set_classes c (on_buttons f b)) = editable b) as Ed by (unfold editable; cbn; by rewrite C1).
  assert (btns (set_classes c (on_buttons f b)) = map f (btns b)) as Eb by apply btns_on.
  split; rewrite ?Ed, ?Eb.
  - rewrite map_map, (map_ext _ _ Hk), H1. unfold layout. rewrite Ed. cbn. by rewrite C2.
  - apply list.Forall_fmap, list.Forall_forall. intros x Hx. cbn [classes set_classes compose]. rewrite Hc.
    by apply He, list_elem_of_In.
  - apply list.Forall_fmap. eapply list.Forall_impl; [exact H3|]. intros x. apply Ht.
  - change (play_visible (set_classes c (on_buttons f b))) with (play_visible (on_buttons f b)). rewrite Hp, H4.
    unfold offered, playground_text. rewrite Ed. destruct ids; [|done]. cbn. by rewrite C3.
  - exact H5.
  - exact H6.
Qed.

Lemma eye_sound ids inner b : sound ids b -> sound ids (eye_click inner b).
Proof.
  intros H. unfold eye_click. pose proof (so_eye _ _ H) as He. rewrite list.Forall_forall in He.
  assert (forall x, tip_agrees x -> tip_agrees (on_eye inner x)) as Ht.
  { intros []; cbn; [|done..]. by repeat case_match. }
  assert (forall x, kind (on_eye inner x) = kind x) as Hk.
  { intros []; cbn; [|done..]. by repeat case_match. }
  destruct (eye_title b) as [t|] eqn:E.
  - apply (eye_title_spec (contains "hide-boring" (classes b))) in E as ->; [|apply H].
    destruct (contains "hide-boring" (classes b)) eqn:Eh.
    + rewrite bool_decide_true by done. apply (classes_sound _ _ _ false); try (by other_class); try done.
      * intros x Hx. apply (on_eye_agrees _ true), He. by apply list_elem_of_In.
      * by rewrite contains_remove, bool_decide_true, andb_false_r.
      * apply play_visible_eye.
    + rewrite bool_decide_false, bool_decide_true by done. apply (classes_sound _ _ _ true); try (by other_class); try done.
      * intros x Hx. apply (on_eye_agrees _ false), He. by apply list_elem_of_In.
      * by rewrite contains_add, bool_decide_true, orb_true_r.
      * apply play_visible_eye.
  - change (on_buttons (on_eye inner) b) with (set_classes (classes b) (on_buttons (on_eye inner) b)).
    apply (classes_sound _ _ _ (contains "hide-boring" (classes b))); try done; [|apply play_visible_eye].
    intros x Hx. pose proof (eye_title_none _ _ E Hx). by destruct x.
Qed.

(** Requests. *)
Lemma result_sound ids r q b : sound ids b -> reports (set_result r (set_requests q b)) ->
  sound ids (set_result r (set_requests q b)).
Proof.
  intros [H1 H2 H3 H4 H5 H6] Hr. split; [exact H1|exact H2|exact H3|exact H4|exact H5|exact Hr].
Qed.

Lemma run_sound ids b : sound ids b -> sound ids (run_rust_code b).
Proof.
  intros H. apply result_sound; [done|]. left. split; [done|]. cbn. rewrite last_snoc. by eexists.
Qed.

Lemma reply_sound ids r e b : sound ids b -> sound ids (on_reply r e b).
Proof.
  intros H. unfold on_reply. destruct (requests b !! r) as [q|] eqn:Eq; [|done].
  pose proof (so_reports _ _ H) as Hr. unfold reports in Hr.
  destruct (result b) as [[t k]|] eqn:Er; [|by rewrite Hr in Eq].
  assert (forall s, pending q -> pending (mkRequest (sent q) s) ->
    sound ids (set_requests (<[r:=mkRequest (sent q) s]> (requests b)) b)) as Hwait.
  { intros s Hq Hs. change (set_requests ?l b) with (set_result (result b) (set_requests l b)). apply result_sound; [done|].
    unfold reports. cbn [result set_result set_requests requests]. rewrite Er.
    destruct Hr as [[-> (q' & Hl & Hq')]|(r' & q' & o & Hl & Hs' & ->)].
    - left. split; [done|]. rewrite last_lookup, length_insert in *.
      destruct (decide (r = Nat.pred (length (requests b)))) as [->|Hne].
      + eexists. rewrite list_lookup_insert_eq by (by eapply lookup_lt_Some). done.
      + exists q'. by rewrite list_lookup_insert_ne.
    - right. exists r', q', o. rewrite list_lookup_insert_ne; [done|]. intros ->. unfold pending in Hq.
      replace q' with q in Hs' by congruence. by rewrite Hs' in Hq. }
  assert (forall o, pending q ->
    sound ids (set_result (show_outcome o <$> Some (t, k)) (set_requests (<[r:=mkRequest (sent q) (Settled o)]> (requests b)) b)))
    as Hdone.
  { intros o Hq. apply result_sound; [done|]. unfold reports. cbn [result set_result set_requests requests fmap option_fmap option_map].
    destruct (show_outcome o (t, k)) as [t' k'] eqn:Eo. right. exists r, (mkRequest (sent q) (Settled o)), o.
    rewrite list_lookup_insert_eq by (by eapply lookup_lt_Some). split_and!; [done|done|].
    unfold outcome_text. destruct o as [x|m]; cbn in *; [destruct (is_empty (trim x))|]; naive_solver. }
  destruct (stage q) as [| |o] eqn:Es; [..|done]; destruct e; cbn [advance]; first [apply Hwait|apply Hdone];
    unfold pending; cbn; by rewrite ?Es.
Qed.

(** *** The page *)

Definition all_sound (p : Page) : Prop := Forall (sound (ids_of (crates p))) (blocks p).

Lemma on_block_sound f i p :
  (forall b, sound (ids_of (crates p)) b -> sound (ids_of (crates p)) (f b)) -> all_sound p -> all_sound (on_block f i p).
Proof. intros Hf H. apply list.Forall_alter; [done|]. intros b _. apply Hf. Qed.

Lemma crates_sound e p : all_sound p -> all_sound (on_crates e p).
Proof.
  intros H. unfold on_crates. destruct (crates p) eqn:Ec, e; try done;
    try (unfold all_sound in *; cbn; rewrite Ec in H; exact H).
  destruct ids as [ids|]; unfold all_sound in *; rewrite Ec in H; cbn in *; [|exact H].
  apply list.Forall_fmap. eapply list.Forall_impl; [exact H|]. intros b Hb. cbn.
  destruct (playground b) eqn:Ep; [by apply handle_sound|]. destruct Hb as [H1 H2 H3 H4 H5 H6].
  split; [done|done|done| |by rewrite Ep in H5 |- *|done]. rewrite H4, Ep. naive_solver.
Qed.

Lemma copy_sound i ok p : all_sound p -> all_sound (on_copy i ok p).
Proof.
  intros H. unfold on_copy. destruct (blocks p !! i) as [b|] eqn:Eb; [|done]. destruct (has_clip b); [|done].
  unfold all_sound. cbn. apply list.Forall_insert; [done|]. pose proof (list.Forall_lookup_1 _ _ _ _ H Eb) as Hb.
  apply tooltip_sound; [by destruct ok|]. by apply tooltip_sound.
Qed.

Lemma step_sound e p : all_sound p -> all_sound (step e p).
Proof.
  destruct e; cbn [step]; try apply crates_sound; try apply copy_sound; apply on_block_sound; intros b Hb.
  - by apply eye_sound.
  - by apply tooltip_sound.
  - destruct (play_visible b); [by apply run_sound|done].
  - destruct (listening b); [by apply run_sound|done].
  - by apply edit_sound.
  - destruct (playground b); [by apply edit_sound|done].
  - by apply reply_sound.
Qed.

Lemma run_all_sound es p : all_sound p -> all_sound (run es p).
Proof. revert p. induction es as [|e es IH]; intros p H; [done|]. cbn. by apply IH, step_sound. Qed.

Lemma load_all_sound bs : Forall plain bs -> all_sound (load bs).
Proof.
  intros H. unfold all_sound, load. cbn. replace (ids_of _) with (@None (list text)) by (by case_match).
  apply list.Forall_fmap. eapply list.Forall_impl; [exact H|]. apply load_sound.
Qed.

(** A settled request stays as it is. *)
Lemma reply_settled r r' e q o b :
  requests b !! r = Some q -> stage q = Settled o -> requests (on_reply r' e b) !! r = Some q.
Proof.
  intros Hq Hs. unfold on_reply. destruct (requests b !! r') as [q'|] eqn:E; [|done].
  destruct (decide (r' = r)) as [->|Hne].
  - replace q' with q by congruence. by rewrite Hs.
  - repeat case_match; cbn; by rewrite ?list_lookup_insert_ne.
Qed.

Lemma edit_requests c v b : requests (edit c v b) = requests b.
Proof. unfold edit, update_play_button. by repeat case_match. Qed.

Lemma eye_requests inner b : requests (eye_click inner b) = requests b.
Proof. unfold eye_click. by repeat case_match. Qed.

Lemma handle_requests l b : requests (handle_crate_list_update l b) = requests b.
Proof. unfold handle_crate_list_update, update_play_button. by repeat case_match. Qed.

Lemma run_requests r q b : requests b !! r = Some q -> requests (run_rust_code b) !! r = Some q.
Proof. intros H. cbn. by apply lookup_app_l_Some. Qed.

Lemma on_block_lookup f i j p b :
  blocks p !! i = Some b -> exists b', blocks (on_block f j p) !! i = Some b' /\ (b' = b \/ i = j /\ b' = f b).
Proof.
  intros H. cbn. destruct (decide (i = j)) as [->|Hne].
  - rewrite list_lookup_alter_eq, H. eauto.
  - rewrite list_lookup_alter_ne by done. eauto.
Qed.

Lemma step_settled e p i b r q o :
  blocks p !! i = Some b -> requests b !! r = Some q -> stage q = Settled o ->
  exists b', blocks (step e p) !! i = Some b' /\ requests b' !! r = Some q.
Proof.
  intros Hb Hq Hs.
  assert (forall f j, requests (f b) !! r = Some q ->
    exists b', blocks (on_block f j p) !! i = Some b' /\ requests b' !! r = Some q) as Hon.
  { intros f j Hf.
    destruct (on_block_lookup f i j p b Hb) as (b' & Hb' & [->|[_ ->]]); eauto. }
  assert (exists b', blocks (on_crates e p) !! i = Some b' /\ requests b' !! r = Some q) as Hcr.
  { unfold on_crates. repeat case_match; eauto. eexists. cbn. rewrite list_lookup_fmap, Hb. split; [done|].
    cbn. case_match; by rewrite ?handle_requests. }
  destruct e; cbn [step]; try exact Hcr; try (apply Hon; rewrite ?eye_requests, ?edit_requests; done).
  - unfold on_copy. destruct (blocks p !! i0) as [b0|] eqn:E0; [|eauto]. destruct (has_clip b0); [|eauto]. cbn [blocks].
    destruct (decide (i0 = i)) as [->|Hne]; [|rewrite list_lookup_insert_ne by done; eauto].
    rewrite list_lookup_insert_eq by (by eapply lookup_lt_Some). replace b0 with b by congruence. eauto.
  - apply Hon. case_match; [by apply run_requests|done].
  - apply Hon. case_match; [by apply run_requests|done].
  - apply Hon. case_match; [by rewrite edit_requests|done].
  - apply Hon. by eapply reply_settled.
Qed.

Lemma run_settled es p i b r q o :
  blocks p !! i = Some b -> requests b !! r = Some q -> stage q = Settled o ->
  exists b', blocks (run es p) !! i = Some b' /\ requests b' !! r = Some q.
Proof.
  revert p b. induction es as [|e es IH]; intros p b Hb Hq Hs; [eauto|].
  destruct (step_settled e p i b r q o Hb Hq Hs) as (b' & Hb' & Hq'). cbn. by eapply IH.
Qed.

(** ** The properties *)

(** C37. Whatever the reader, the network and the editor do after the script has loaded, every
    code block of the page keeps to its specification: its buttons are the undo, copy, play and
    show-hidden-lines buttons its classes call for, in this order; the last one's title and icon
    tell whether the boring lines are hidden; a copy button's tooltip class is set exactly while
    it has a message; the play button can be seen exactly when the playground's crates are
    known, the snippet is not [no_run] and every crate its present text declares is among them;
    and the result block reads [Running...] only while the latest request is on its way, and
    else what one of the requests came to. *)
Theorem code_blocks_sound bs es i b :
  Forall plain bs -> blocks (run es (load bs)) !! i = Some b -> sound (ids_of (crates (run es (load bs)))) b.
Proof. intros H Hb. exact (list.Forall_lookup_1 _ _ _ _ (run_all_sound es _ (load_all_sound bs H)) Hb). Qed.

(** C39. The play button never sends a snippet the playground cannot build: a click on it leaves
    the block alone unless the crates are known, the snippet is not [no_run] and every crate
    that the code sent declares is available; then one request is added, with the whole text,
    hidden lines included, and the result block says [Running...]. *)
Theorem play_sends_available bs es i b b' :
  Forall plain bs -> blocks (run es (load bs)) !! i = Some b ->
  blocks (step (PlayClick i) (run es (load bs))) !! i = Some b' ->
  b' = b
  \/ exists ids, crates (run es (load bs)) = Available ids /\ contains "no_run" (classes b) = false
     /\ requests b' = requests b ++ [mkRequest (params b) Racing] /\ fst <$> result b' = Some running
     /\ code (params b) = (if editable b then value b else concat (map snd (lines b)))
     /\ forall c, declared (code (params b)) c -> c ∈ ids.
Proof.
  intros Hp Hb. pose proof (list.Forall_lookup_1 _ _ _ _ (run_all_sound es _ (load_all_sound bs Hp)) Hb) as Hs.
  cbn [step on_block blocks]. rewrite list_lookup_alter_eq, Hb. intros [= <-].
  destruct (play_visible b) eqn:E; [right|by left]. apply (so_play _ _ Hs) in E as [_ E].
  destruct (crates (run es (load bs))) as [| | | |ids]; cbn in E; try done. exists ids. destruct E as [E1 E2].
  by split_and!.
Qed.

(** C38. A request to the playground ends at most once and with a report: its outcome never
    changes afterwards; a request that has had no answer when its six seconds are over is
    settled with [timeout]; and when all requests of a block are settled, its result block
    shows the outcome of one of them, not [Running...]. *)
Theorem requests_end bs es i b :
  Forall plain bs -> blocks (run es (load bs)) !! i = Some b ->
  (forall r q o es', requests b !! r = Some q -> stage q = Settled o ->
     exists b', blocks (run es' (run es (load bs))) !! i = Some b' /\ requests b' !! r = Some q)
  /\ (forall r q, requests b !! r = Some q ->
      requests (on_reply r TimedOut b) !! r
      = Some (match stage q with Racing => mkRequest (sent q) (Settled (Failure (txt "timeout"))) | _ => q end))
  /\ (requests b <> [] -> Forall (fun q => ~ pending q) (requests b) ->
      exists r q o, requests b !! r = Some q /\ stage q = Settled o /\ fst <$> result b = Some (outcome_text o)).
Proof.
  intros Hp Hb. pose proof (list.Forall_lookup_1 _ _ _ _ (run_all_sound es _ (load_all_sound bs Hp)) Hb) as Hs.
  split_and!.
  - intros r q o es' Hq Ho. by eapply run_settled.
  - intros r [se st] Hq. unfold on_reply. rewrite Hq. pose proof (lookup_lt_Some _ _ _ Hq).
    destruct st; cbn; by rewrite ?list_lookup_insert_eq.
  - intros Hne Hall. pose proof (so_reports _ _ Hs) as Hr. unfold reports in Hr. destruct (result b) as [[t k]|]; [|done].
    destruct Hr as [[_ (q & Hl & Hq)]|(r & q & o & H1 & H2 & ->)]; [|by exists r, q, o].
    rewrite last_lookup in Hl. by destruct (list.Forall_lookup_1 _ _ _ _ Hall Hl).
Qed.

(** What a copy button copies: the editor's text, or the lines that can be seen. *)
Lemma copy_takes_shown bs es i b :
  Forall plain bs -> blocks (run es (load bs)) !! i = Some b -> has_clip b = true ->
  clipboard (step (Copy i true) (run es (load bs)))
  = Some (if editable b then value b
          else concat (map snd (filter (fun l => eye_title b = Some show_title -> fst l = false) (lines b))))
  \/ eye_title b = None.
Proof.
  intros Hp Hb Hc. pose proof (list.Forall_lookup_1 _ _ _ _ (run_all_sound es _ (load_all_sound bs Hp)) Hb) as Hs.
  destruct (eye_title b) as [t|] eqn:Et; [left|by right]. pose proof (so_eye _ _ Hs) as He.
  apply (eye_title_spec _ _ _ He) in Et. cbn [step]. unfold on_copy. rewrite Hb, Hc. cbn [clipboard].
  f_equal. unfold playground_text. change (editable (hideTooltip b)) with (editable b).
  change (innerText (hideTooltip b)) with (innerText b). destruct (editable b); [done|]. unfold innerText. f_equal.
  f_equal. apply list_filter_iff. intros l. subst t. destruct (contains "hide-boring" (classes b)); cbn.
  - destruct (fst l); naive_solver.
  - split; [|done]. by intros _ [=].
Qed.

End codeSnippets.

(** ** A page *)

(** A playground of two lines, the first one boring, and a plain block. *)
Definition snippet : Block :=
  mkBlock [txt "playground"] true [txt "language-rust"; txt "edition2021"]
          [(true, txt "extern crate rand; "); (false, txt "fn main() {}")] [] [] None false None [].
Definition listing : Block := mkBlock [] true [txt "language-sh"] [(false, txt "cargo run")] [] [] None false None [].

(** The crates arrive, the snippet is run twice; the first run answers after the second. *)
Definition session : list event :=
  [CratesAnswered; CratesBody (Some [txt "rand"]); EyeClick 0 None; PlayClick 0; PlayClick 0;
   Reply 0 1 Answered; Reply 0 1 (Body (Output (txt "two"))); Reply 0 0 Answered; Reply 0 0 TimedOut;
   Reply 0 0 (Body (Output (txt "one")))].

Definition page_after (es : list event) : Page := run false es (load false true (fun l => l) [snippet; listing]).

Example a_session :
  (fst <$> (blocks (page_after session) !! 0%nat ≫= result)) = Some (txt "one")
  /\ (buttons <$> blocks (page_after session) !! 1%nat) = Some (Some [Clip [] false])
  /\ (edition ∘ sent <$> (blocks (page_after session) !! 0%nat ≫= fun b => requests b !! 0%nat)) = Some (txt "2021").
Proof. by vm_compute. Qed.

Definition final_snippet : Block := default snippet (blocks (page_after session) !! 0%nat).

Lemma page_plain : Forall plain [snippet; listing].
Proof. by repeat constructor. Qed.

Lemma code_blocks_sound_witness : sound false true (Some [txt "rand"]) final_snippet.
Proof.
  apply (code_blocks_sound false true (fun l => l) [snippet; listing] session 0 final_snippet); [exact page_plain|].
  vm_compute. reflexivity.
Defined.

Lemma play_sends_available_witness :
  exists b', blocks (page_after (session ++ [PlayClick 0])) !! 0%nat = Some b' /\ length (requests b') = 3%nat
  /\ (b' = final_snippet \/ exists ids, crates (page_after session) = Available ids
      /\ contains "no_run" (classes final_snippet) = false
      /\ requests b' = requests final_snippet ++ [mkRequest (params false final_snippet) Racing]
      /\ fst <$> result b' = Some running
      /\ code (params false final_snippet) = concat (map snd (lines final_snippet))
      /\ forall c, declared (code (params false final_snippet)) c -> c ∈ ids).
Proof.
  exists (run_rust_code false final_snippet). split_and!; [by vm_compute|by vm_compute|].
  apply (play_sends_available false true (fun l => l) [snippet; listing] session 0 final_snippet
           (run_rust_code false final_snippet)); [exact page_plain|by vm_compute|by vm_compute].
Defined.

Lemma requests_end_witness :
  exists r q o, requests final_snippet !! r = Some q /\ stage q = Settled o
  /\ fst <$> result final_snippet = Some (outcome_text o).
Proof.
  apply (requests_end false true (fun l => l) [snippet; listing] session 0 final_snippet);
    [exact page_plain|by vm_compute|by vm_compute|]. vm_compute. repeat constructor; tauto.
Defined.
