(* ===== verification/NumberText.v ===== *)
(** * Numbers through text

    [String] followed by [parseFloat] gives back every finite number: seventeen decimal digits
    determine a binary64 number, and the text [number_string] writes is read as the decimal
    it stands for. A script that keeps a number in the session's storage gets it back. *)

From Stdlib Require Import QArith Qround Qpower Qabs Lqa.
From S2P Require Import Prelude Number.

#[local] Open Scope Q_scope.

(** ** Close decimals round back *)

Lemma inject_Z_succ m : inject_Z (m + 1) == inject_Z m + 1.
Proof. rewrite inject_Z_plus. reflexivity. Qed.
Lemma inject_Z_pred m : inject_Z (m - 1) == inject_Z m - 1.
Proof. unfold Z.sub. rewrite inject_Z_plus. reflexivity. Qed.

Lemma rne_near (t : Q) (m : Z) : inject_Z m - (1 # 2) < t -> t < inject_Z m + (1 # 2) -> rne t = m.
Proof.
  intros H1 H2. unfold rne. pose proof (Qfloor_le t) as F1. pose proof (Qlt_floor t) as F2.
  rewrite inject_Z_succ in F2.
  assert (Qfloor t = m \/ Qfloor t = m - 1)%Z as [E|E].
  { assert (inject_Z (Qfloor t) < inject_Z (m + 1)) as G1 by (rewrite inject_Z_succ; lra).
    assert (inject_Z (m - 1) < inject_Z (Qfloor t + 1)) as G2 by (rewrite inject_Z_succ, inject_Z_pred; lra).
    rewrite <- Zlt_Qlt in G1, G2. lia. }
  - rewrite E. by rewrite (proj2 (Qltb_true _ _)) by lra.
  - rewrite E in *. rewrite (proj2 (Qltb_false _ _)) by (rewrite inject_Z_pred; lra).
    rewrite (proj2 (Qltb_true _ _)) by (rewrite inject_Z_pred; lra). lia.
Qed.

Lemma rnd_pos_near (y : Q) (m : Z) (u : Z) :
  ulp_exp y = u -> inject_Z m * pow2 u - (1 # 2) * pow2 u < y -> y < inject_Z m * pow2 u + (1 # 2) * pow2 u ->
  rnd_pos y == inject_Z m * pow2 u.
Proof.
  intros Hu H1 H2. unfold rnd_pos. rewrite Hu. pose proof (pow2_pos u) as Hp.
  assert (y * pow2 (- u) * pow2 u == y) as E by apply pow2_cancel.
  rewrite (rne_near (y * pow2 (- u)) m); [done|nra|nra].
Qed.

Lemma ilog2_unique (y : Q) (e : Z) : pow2 e <= y -> y < pow2 (e + 1) -> ilog2 y = e.
Proof.
  intros H1 H2. pose proof (pow2_pos e). destruct (ilog2_spec y ltac:(lra)) as [G1 G2].
  assert (pow2 e < pow2 (ilog2 y + 1)) as K1 by lra. assert (pow2 (ilog2 y) < pow2 (e + 1)) as K2 by lra.
  apply pow2_lt_inv in K1, K2. lia.
Qed.

Lemma pow2_S e : pow2 (e + 1) == 2 * pow2 e.
Proof. rewrite pow2_add. change (pow2 1) with 2. ring. Qed.

(** A double and its last place. *)
Lemma double_form (x : Q) : 0 < x -> rnd x == x ->
  exists m, x == inject_Z m * pow2 (ulp_exp x) /\ (0 < m)%Z /\ (ulp_exp x <= ilog2 x <= ulp_exp x + 52)%Z.
Proof.
  intros Hx E. destruct (rnd_cases x) as [[_ E1]|[[H _]|[H _]]]; [|lra..]. exists (rne (x * pow2 (- ulp_exp x))).
  assert (x == inject_Z (rne (x * pow2 (- ulp_exp x))) * pow2 (ulp_exp x)) as Ex by (rewrite <- E at 1; rewrite E1; reflexivity).
  split; [done|]. pose proof (pow2_pos (ulp_exp x)) as Hp.
  assert (0 < rne (x * pow2 (- ulp_exp x)))%Z as Hm.
  { rewrite Zlt_Qlt. change (inject_Z 0) with 0. nra. }
  split; [done|]. split; [|unfold ulp_exp; lia].
  destruct (ilog2_spec x Hx) as [_ H2].
  assert (pow2 (ulp_exp x) < pow2 (ilog2 x + 1)) as H.
  { assert (1 <= inject_Z (rne (x * pow2 (- ulp_exp x)))) by (change 1 with (inject_Z 1); rewrite <- Zle_Qle; lia). nra. }
  apply pow2_lt_inv in H. lia.
Qed.

Lemma multiple_gap (m k : Z) (p : Q) : 0 < p -> inject_Z m * p < inject_Z k * p -> inject_Z m * p + p <= inject_Z k * p.
Proof.
  intros Hp H. assert (m < k)%Z as Hm by (rewrite Zlt_Qlt; nra).
  assert (inject_Z (m + 1) <= inject_Z k) as G by (rewrite <- Zle_Qle; lia). rewrite inject_Z_succ in G. nra.
Qed.

(** A power of two that is not below the last place is a multiple of it. *)
Lemma pow2_multiple (e u : Z) : (u <= e)%Z -> exists k, pow2 e == inject_Z k * pow2 u /\ (0 < k)%Z.
Proof.
  intros H. exists (2 ^ (e - u))%Z. split; [|by apply Z.pow_pos_nonneg; lia].
  rewrite (pow2_split e u), pow2_int by lia. reflexivity.
Qed.

(** A number less than half of the last place away from [x], and less than a quarter of it
    when [x] is a power of two, rounds to [x]. *)
Lemma rnd_near (x y h : Q) :
  0 < x -> rnd x == x -> x - h <= y -> y <= x + h -> h < (1 # 2) * pow2 (ulp_exp x) ->
  (x == pow2 (ilog2 x) -> h < (1 # 4) * pow2 (ulp_exp x)) ->
  rnd y == x.
Proof.
  intros Hx Ex H1 H2 Hh Hq. destruct (double_form x Hx Ex) as (m & Em & Hm & Hu). pose proof (pow2_pos (ulp_exp x)) as Hp.
  destruct (ilog2_spec x Hx) as [L1 L2]. set (u := ulp_exp x) in *. set (e := ilog2 x) in *.
  assert (inject_Z 1 <= inject_Z m) as Hm1 by (rewrite <- Zle_Qle; lia). change (inject_Z 1) with 1 in Hm1.
  assert (0 < y) as Hy by nra.
  destruct (rnd_cases y) as [[_ ->]|[[? _]|[? _]]]; [|lra..].
  destruct (pow2_multiple (e + 1) u) as (k & Ek & _); [lia|].
  assert (y < pow2 (e + 1)) as Ytop.
  { rewrite Em, Ek in L2. apply (multiple_gap m k (pow2 u)) in L2; [|done]. rewrite Ek. lra. }
  rewrite Em. destruct (Qlt_le_dec y (pow2 e)) as [Ylow|Yin].
  - destruct (pow2_multiple e u) as (k' & Ek' & _); [lia|].
    assert (x == pow2 e) as Ee.
    { apply Qle_antisym; [|done]. apply Qnot_lt_le. intros Hc. rewrite Em, Ek' in Hc.
      apply (multiple_gap k' m (pow2 u)) in Hc; [|done]. rewrite Ek' in Ylow. lra. }
    specialize (Hq Ee). assert (pow2 (e - 1 + 1) == pow2 e) as E1 by (by rewrite Z.sub_add).
    assert (ilog2 y = e - 1)%Z as Ey.
    { apply ilog2_unique; [|by rewrite E1]. rewrite pow2_S in E1.
      assert (pow2 u <= pow2 e) by (apply pow2_mono; lia). lra. }
    destruct (decide (u = e - 52)%Z) as [Eu|Eu].
    + destruct (decide (u = -1074)%Z) as [Ez|Ez].
      * apply rnd_pos_near; [unfold ulp_exp; rewrite Ey; lia|lra|lra].
      * assert (pow2 u == 2 * pow2 (u - 1)) as E2 by (rewrite <- pow2_S; by rewrite Z.sub_add).
        rewrite (rnd_pos_near y (2 * m) (u - 1)).
        -- rewrite inject_Z_mult, E2. change (inject_Z 2) with 2. ring.
        -- unfold ulp_exp. rewrite Ey. unfold u, ulp_exp in Eu, Ez |- *. fold e in Eu, Ez |- *. lia.
        -- rewrite inject_Z_mult. change (inject_Z 2) with 2. nra.
        -- rewrite inject_Z_mult. change (inject_Z 2) with 2. nra.
    + apply rnd_pos_near; [unfold ulp_exp; rewrite Ey; unfold u, ulp_exp in Eu |- *; fold e in Eu |- *; lia|lra|lra].
  - apply rnd_pos_near; [|lra|lra]. unfold ulp_exp. by rewrite (ilog2_unique y e).
Qed.

(** Seventeen digits determine a double. *)
Lemma pow10_pos k : 0 < pow10 k.
Proof. apply Qpower_0_lt. reflexivity. Qed.
Lemma pow10_add a b : pow10 (a + b) == pow10 a * pow10 b.
Proof. apply Qpower_plus. discriminate. Qed.

Lemma seventeen_digits (x y : Q) (n : Z) :
  0 < x -> rnd x == x -> pow10 (n - 1) <= x ->
  x - (1 # 2) * pow10 (n - 17) <= y -> y <= x + (1 # 2) * pow10 (n - 17) -> rnd y == x.
Proof.
  intros Hx Ex Hn H1 H2. destruct (double_form x Hx Ex) as (m & Em & Hm & Hu). destruct (ilog2_spec x Hx) as [L1 L2].
  assert (pow10 (n - 1) == pow10 (n - 17) * 10000000000000000) as E10.
  { replace (n - 1)%Z with (n - 17 + 16)%Z by lia. rewrite pow10_add. reflexivity. }
  assert (pow2 (ilog2 x) <= pow2 (ulp_exp x) * 4503599627370496) as Lu.
  { apply (Qle_trans _ (pow2 (ulp_exp x + 52))); [apply pow2_mono; lia|]. rewrite pow2_add. apply Qle_refl. }
  rewrite pow2_S in L2. pose proof (pow2_pos (ulp_exp x)).
  eapply rnd_near; [done|done|exact H1|exact H2|lra|]. intros E. lra.
Qed.

(** ** Decimal digits *)

#[local] Open Scope Z_scope.

Lemma digits_number_snoc a c : digits_number (a ++ [c]) = 10 * digits_number a + (c - 48).
Proof. unfold digits_number. by rewrite foldl_app. Qed.

Lemma digits_number_app a b : digits_number (a ++ b) = digits_number a * 10 ^ Z.of_nat (length b) + digits_number b.
Proof.
  induction b as [|c b IH] using rev_ind; [rewrite app_nil_r; cbn; lia|].
  rewrite app_assoc, !digits_number_snoc, IH, length_app. cbn [length].
  rewrite Nat2Z.inj_add, Z.pow_add_r by lia. lia.
Qed.

Lemma digits_number_zeros k : digits_number (replicate k 48) = 0.
Proof. induction k as [|k IH]; [done|]. rewrite replicate_S_end, digits_number_snoc, IH. done. Qed.

Lemma digits_of_spec fuel n : 0 <= n < 2 ^ Z.of_nat (S fuel) ->
  let ds := digits_of (S fuel) n in
  digits_number ds = n /\ Forall (fun c => is_digit c = true) ds /\ (0 < length ds)%nat
  /\ n < 10 ^ Z.of_nat (length ds) /\ (0 < n -> 10 ^ (Z.of_nat (length ds) - 1) <= n).
Proof.
  revert n. induction fuel as [|fuel IH]; intros n Hn; cbn zeta.
  - cbn [digits_of]. assert (n < 10) by (cbn in Hn; lia). rewrite (proj2 (Z.ltb_lt _ _)) by lia.
    split_and!; [cbn; lia|repeat constructor; unfold is_digit; boolify; lia|cbn; lia|cbn; lia|cbn; lia].
  - cbn [digits_of]. destruct (Z.ltb_spec n 10) as [H|H].
    + split_and!; [cbn; lia|repeat constructor; unfold is_digit; boolify; lia|cbn; lia|cbn; lia|cbn; lia].
    + fold (digits_of (S fuel) (n / 10)).
      assert (0 <= n / 10 < 2 ^ Z.of_nat (S fuel)) as Hd.
      { split; [apply Z.div_pos; lia|]. apply Z.div_lt_upper_bound; [lia|].
        rewrite (Nat2Z.inj_succ (S fuel)), Z.pow_succ_r in Hn by lia. lia. }
      destruct (IH _ Hd) as (I1 & I2 & I3 & I4 & I5). change (if n / 10 <? 10 then _ else _) with (digits_of (S fuel) (n / 10)).
      pose proof (Z.div_mod n 10 ltac:(lia)) as Hdm. pose proof (Z.mod_pos_bound n 10 ltac:(lia)) as Hm.
      set (ds := digits_of (S fuel) (n / 10)) in *. rewrite length_app, digits_number_snoc. cbn [length].
      assert (10 ^ Z.of_nat (length ds + 1) = 10 * 10 ^ Z.of_nat (length ds)) as E.
      { rewrite Nat2Z.inj_add, Z.pow_add_r by lia. lia. }
      split_and!; [lia| |lia|lia|].
      * apply list.Forall_app. split; [done|]. repeat constructor. unfold is_digit. boolify; lia.
      * intros _. assert (0 < n / 10) as Hp by (apply Z.div_str_pos; lia). specialize (I5 Hp).
        replace (Z.of_nat (length ds + 1) - 1) with (Z.succ (Z.of_nat (length ds) - 1)) by lia.
        rewrite Z.pow_succ_r by lia. lia.
Qed.

Lemma decimal_spec n : 0 <= n ->
  digits_number (decimal n) = n /\ Forall (fun c => is_digit c = true) (decimal n) /\ (0 < length (decimal n))%nat
  /\ n < 10 ^ Z.of_nat (length (decimal n)) /\ (0 < n -> 10 ^ (Z.of_nat (length (decimal n)) - 1) <= n).
Proof.
  intros H. apply digits_of_spec. split; [done|]. destruct (decide (n = 0)) as [->|Hn]; [done|].
  rewrite Nat2Z.inj_succ, Z2Nat.id by apply Z.log2_nonneg. apply Z.log2_spec. lia.
Qed.

Lemma decimal_length n k : 10 ^ (k - 1) <= n < 10 ^ k -> 0 < k -> Z.of_nat (length (decimal n)) = k.
Proof.
  intros Hn Hk. assert (0 < n) as H0. { assert (0 < 10 ^ (k - 1)) by (apply Z.pow_pos_nonneg; lia). lia. }
  destruct (decimal_spec n ltac:(lia)) as (_ & _ & Hl & H1 & H2). specialize (H2 H0).
  set (j := Z.of_nat (length (decimal n))) in *. assert (0 < j) by lia.
  assert (k - 1 < j) by (apply (Z.pow_lt_mono_r_iff 10); lia).
  assert (j - 1 < k) by (apply (Z.pow_lt_mono_r_iff 10); lia). lia.
Qed.

(** ** The place of the point *)

Lemma pow10_Z k : 0 <= k -> (pow10 k == inject_Z (10 ^ k))%Q.
Proof. intros H. unfold pow10. change 10%Q with (inject_Z 10). by rewrite Zpower_Qpower. Qed.

Lemma pow10_S k : (pow10 (k + 1) == pow10 k * 10)%Q.
Proof. rewrite pow10_add. reflexivity. Qed.

Lemma places_spec fuel x : (0 < x)%Q -> (1 <= x * pow10 (Z.of_nat fuel))%Q ->
  (pow10 (places (S fuel) x - 1) <= x /\ x < pow10 (places (S fuel) x))%Q.
Proof.
  revert x. induction fuel as [|fuel IH]; intros x Hx Hf; cbn [places]; destruct (Qle_bool 1 x) eqn:E.
  1, 3: apply Qle_bool_iff in E; pose proof (Qfloor_le x) as F1; pose proof (Qlt_floor x) as F2;
    assert (1 <= Qfloor x) as Hz by (apply (Qfloor_resp_le 1); done);
    destruct (decimal_spec (Qfloor x) ltac:(lia)) as (_ & _ & Hl & H1 & H2);
    rewrite (pow10_Z (_ - 1)), pow10_Z by lia;
    split; [eapply Qle_trans; [|exact F1]; rewrite <- Zle_Qle; apply H2; lia
           |eapply Qlt_le_trans; [exact F2|]; rewrite <- Zle_Qle; lia].
  - change (pow10 (Z.of_nat 0)) with 1%Q in Hf. assert (1 <= x)%Q as H by lra. apply Qle_bool_iff in H. congruence.
  - fold (places (S fuel) (x * 10)). change (if Qle_bool 1 (x * 10) then _ else _) with (places (S fuel) (x * 10)).
    rewrite Nat2Z.inj_succ in Hf. unfold Z.succ in Hf. rewrite pow10_S in Hf.
    destruct (IH (x * 10)%Q) as [I1 I2]; [lra|lra|]. set (p := places (S fuel) (x * 10)) in *.
    replace p with (p - 1 + 1) in I2 by lia. replace (p - 1) with (p - 1 - 1 + 1) in I1 by lia.
    rewrite pow10_S in I1, I2. lra.
Qed.

(** ** The digits chosen *)

(** The neighbours of [x] with [k] digits. *)
Lemma neighbours x n k : (pow10 (n - 1) <= x)%Q -> (x < pow10 n)%Q -> 1 <= k ->
  let t := (x * pow10 (k - n))%Q in
  10 ^ (k - 1) <= Qfloor t < 10 ^ k /\ (t * pow10 (n - k) == x)%Q.
Proof.
  intros H1 H2 Hk t. pose proof (pow10_pos (k - n)) as Hp.
  assert (pow10 (k - 1) == pow10 (n - 1) * pow10 (k - n))%Q as E1 by (rewrite <- pow10_add; apply Qeq_refl || (f_equiv; lia)).
  assert (pow10 k == pow10 n * pow10 (k - n))%Q as E2 by (rewrite <- pow10_add; replace (n + (k - n)) with k by lia; reflexivity).
  assert (pow10 (k - 1) <= t)%Q as T1 by (rewrite E1; unfold t; nra).
  assert (t < pow10 k)%Q as T2 by (rewrite E2; unfold t; nra).
  rewrite pow10_Z in T1, T2 by lia. split.
  - split; [|rewrite Zlt_Qlt; eapply Qle_lt_trans; [apply Qfloor_le|exact T2]].
    rewrite <- (Qfloor_Z (10 ^ (k - 1))). by apply Qfloor_resp_le.
  - unfold t. rewrite <- Qmult_assoc, <- pow10_add. replace (k - n + (n - k)) with 0 by lia. change (pow10 0) with 1%Q. ring.
Qed.

Lemma shortest_spec fuel k n x :
  (0 < x)%Q -> (rnd x == x)%Q -> (pow10 (n - 1) <= x)%Q -> (x < pow10 n)%Q -> 1 <= k -> k + Z.of_nat fuel = 17 ->
  exists s k', shortest fuel k n x = (s, k', n) /\ 1 <= k' /\ 10 ^ (k' - 1) <= s <= 10 ^ k'
  /\ (rnd (inject_Z s * pow10 (n - k')) == x)%Q.
Proof.
  intros Hx Ex H1 H2. revert k. induction fuel as [|fuel IH]; intros k Hk Hf;
    destruct (neighbours x n k H1 H2 Hk) as [Ht Et]; cbn [shortest]; set (t := (x * pow10 (k - n))%Q) in *;
    pose proof (Qfloor_le t) as F1; pose proof (Qlt_floor t) as F2; rewrite inject_Z_succ in F2.
  - assert (k = 17) as -> by lia. eexists _, 17. split; [done|]. split; [lia|]. split; [case_match; lia|].
    pose proof (pow10_pos (n - 17)). eapply seventeen_digits; [done|done|exact H1|rewrite <- Et|rewrite <- Et];
      (destruct (Qle_bool (t - inject_Z (Qfloor t)) (1 # 2)) eqn:E;
       [apply Qle_bool_iff in E; nra|]);
      (assert (~ (t - inject_Z (Qfloor t) <= 1 # 2)%Q) as G by (rewrite <- Qle_bool_iff; congruence);
       apply Qnot_le_lt in G; rewrite inject_Z_succ; nra).
  - set (a := if Qle_bool (t - inject_Z (Qfloor t)) (1 # 2) then Qfloor t else _).
    set (b := if Qle_bool (t - inject_Z (Qfloor t)) (1 # 2) then Qfloor t + 1 else _).
    assert (10 ^ (k - 1) <= a <= 10 ^ k) as Ha by (unfold a; case_match; lia).
    assert (10 ^ (k - 1) <= b <= 10 ^ k) as Hb by (unfold b; case_match; lia).
    destruct (rounds_to x a k n) eqn:Ea; [|destruct (rounds_to x b k n) eqn:Eb].
    + exists a, k. apply Qeq_bool_iff in Ea. done.
    + exists b, k. apply Qeq_bool_iff in Eb. done.
    + apply IH; lia.
Qed.

(** ** Reading back *)

Lemma rnd_canonical x y : (rnd x == rnd y)%Q -> rnd x = rnd y.
Proof. unfold rnd. intros H. rewrite !Qred_correct in H. by apply Qred_complete. Qed.

Lemma rnd_eq x y : (x == y)%Q -> rnd x = rnd y.
Proof. intros E. apply rnd_canonical, Qle_antisym; apply rnd_mono; rewrite E; apply Qle_refl. Qed.

Lemma num_eq x y : (x == y)%Q -> num x = num y.
Proof. intros E. unfold num. by rewrite (rnd_eq x y E). Qed.

Definition digits (s : chars) : Prop := Forall (fun c => is_digit c = true) s.

Definition no_digit (s : chars) : Prop := match s with [] => True | c :: _ => is_digit c = false end.

Lemma span_digits_app ds r : digits ds -> no_digit r -> span_digits (ds ++ r) = (ds, r).
Proof.
  intros Hd Hr. induction Hd as [|c ds Hc _ IH]; cbn; [|by rewrite Hc, IH].
  destruct r as [|c r]; [done|]. cbn in *. by rewrite Hr.
Qed.

Lemma digit_cases c : is_digit c = true ->
  c = 48 \/ c = 49 \/ c = 50 \/ c = 51 \/ c = 52 \/ c = 53 \/ c = 54 \/ c = 55 \/ c = 56 \/ c = 57.
Proof. unfold is_digit. rewrite andb_true_iff, !Z.leb_le. lia. Qed.

(** What follows the sign, when it starts with a digit. *)
Definition parse_unsigned (neg : bool) (s : chars) : jsnum :=
  let '(whole, s) := span_digits s in
  let '(part, s) := match s with 46 :: s' => span_digits s' | _ => ([], s) end in
  match whole ++ part with
  | [] => JNaN
  | ds => num (inject_Z (signed neg (digits_number ds)) * pow10 (read_exponent s - Z.of_nat (length part)))
  end.

Lemma parseFloat_signed (neg : bool) c s :
  is_digit c = true -> parseFloat ((if neg then [45] else []) ++ c :: s) = parse_unsigned neg (c :: s).
Proof.
  intros Hc. unfold parseFloat.
  assert (read_sign (skip_white ((if neg then [45] else []) ++ c :: s)) = (neg, c :: s)) as ->.
  { destruct neg; [done|]. by destruct (digit_cases c Hc) as [->|[->|[->|[->|[->|[->|[->|[->|[->| ->]]]]]]]]]. }
  rewrite bool_decide_false; [done|]. intros [r Hr]. injection Hr as -> _. done.
Qed.

(** The texts [whole tail] and [whole.part tail]. *)
Lemma parse_whole neg whole tail :
  digits whole -> whole <> [] -> no_digit tail -> match tail with 46 :: _ => False | _ => True end ->
  parse_unsigned neg (whole ++ tail) = num (inject_Z (signed neg (digits_number whole)) * pow10 (read_exponent tail)).
Proof.
  intros Hd Hne Hn Ht. unfold parse_unsigned. rewrite span_digits_app by done.
  replace (match tail with 46 :: s' => span_digits s' | _ => ([], tail) end) with (@nil Z, tail).
  - rewrite app_nil_r. cbn [length Z.of_nat]. rewrite Z.sub_0_r. by destruct whole.
  - destruct tail as [|c tail]; [done|]. destruct (decide (c = 46)) as [->|Hc]; [done|].
    destruct c as [|c|c]; try done. repeat (destruct c as [c|c|]; try done).
Qed.

Lemma parse_point neg whole part tail :
  digits whole -> whole <> [] -> digits part -> no_digit tail ->
  parse_unsigned neg (whole ++ 46 :: part ++ tail)
  = num (inject_Z (signed neg (digits_number (whole ++ part))) * pow10 (read_exponent tail - Z.of_nat (length part))).
Proof.
  intros Hd Hne Hp Hn. unfold parse_unsigned. rewrite span_digits_app by done. rewrite span_digits_app by done.
  by destruct whole.
Qed.

Lemma read_exponent_decimal e :
  read_exponent (101 :: (if e <? 0 then 45 else 43) :: decimal (Z.abs e)) = e.
Proof.
  destruct (decimal_spec (Z.abs e) ltac:(lia)) as (Ev & Hd & _).
  pose proof (span_digits_app (decimal (Z.abs e)) [] Hd I) as Hs. rewrite app_nil_r in Hs.
  unfold read_exponent. cbn [Z.eqb Pos.eqb orb]. destruct (Z.ltb_spec e 0); cbn [read_sign]; rewrite Hs; unfold signed; lia.
Qed.

(** The text of the decimal [s * 10^(n - k)], [s] of [k] digits, is read as that decimal. *)
Lemma parse_digits neg s k n : 1 <= k -> 10 ^ (k - 1) <= s < 10 ^ k ->
  (exists c r, render_number s k n = c :: r /\ is_digit c = true)
  /\ parse_unsigned neg (render_number s k n) = num (inject_Z (signed neg s) * pow10 (n - k)).
Proof.
  intros Hk Hs. assert (0 < s) as Hs0 by (assert (0 < 10 ^ (k - 1)) by (apply Z.pow_pos_nonneg; lia); lia).
  destruct (decimal_spec s ltac:(lia)) as (Ev & Hd & Hl & _). pose proof (decimal_length s k Hs ltac:(lia)) as El.
  unfold render_number. rewrite (proj2 (Z.eqb_neq _ _)) by lia. set (ds := decimal s) in *.
  assert (ds <> []) as Hne by (by destruct ds; cbn in Hl; [lia|]).
  assert (exists c r, ds = c :: r /\ is_digit c = true) as (c0 & r0 & Eds & Hc0).
  { destruct Hd as [|c r Hc Hr]; [done|]. by exists c, r. }
  destruct (_ && (n <=? 21)) eqn:C1; [|destruct ((0 <? n) && _) eqn:C2; [|destruct ((-6 <? n) && _) eqn:C3]].
  - boolify. split; [rewrite Eds; cbn [app]; by eexists _, _|].
    rewrite <- (app_nil_r (ds ++ _)), parse_whole; [|apply list.Forall_app; split; [done|by apply list.Forall_replicate]|by destruct ds|done|done].
    rewrite digits_number_app, digits_number_zeros, Ev, length_replicate, Z2Nat.id by lia. apply num_eq. cbn [read_exponent].
    change (pow10 0) with 1%Q. rewrite pow10_Z by lia.
    replace (signed neg (s * 10 ^ (n - k) + 0)) with (signed neg s * 10 ^ (n - k)) by (unfold signed; destruct neg; lia).
    rewrite inject_Z_mult. ring.
  - boolify. assert (n < k) by lia. split; [rewrite Eds; destruct (Z.to_nat n) eqn:En; [lia|]; cbn [take app]; by eexists _, _|].
    rewrite <- (app_nil_r (drop _ ds)), parse_point; [|by apply list.Forall_take| |by apply list.Forall_drop|done].
    + rewrite take_drop, Ev, length_drop. cbn [read_exponent]. replace (0 - Z.of_nat (length ds - Z.to_nat n)) with (n - k) by lia.
      done.
    + rewrite Eds. destruct (Z.to_nat n) eqn:En; [lia|done].
  - boolify. split; [by eexists _, _|]. change (48 :: 46 :: ?r) with ([48] ++ 46 :: r).
    rewrite <- (app_nil_r (replicate _ _ ++ ds)), parse_point;
      [|by repeat constructor|done|apply list.Forall_app; split; [by apply list.Forall_replicate|done]|done].
    assert (digits_number ([48] ++ replicate (Z.to_nat (- n)) 48 ++ ds) = s) as ->.
    { rewrite !digits_number_app, digits_number_zeros, Ev. change (digits_number [48]) with 0. lia. }
    rewrite length_app, length_replicate. cbn [read_exponent].
    by replace (0 - Z.of_nat (Z.to_nat (- n) + length ds)) with (n - k) by lia.
  - set (tail := 101 :: _ :: _). assert (read_exponent tail = n - 1) as Et by apply read_exponent_decimal.
    destruct (Z.eqb_spec k 1) as [->|Hk1].
    + split; [rewrite Eds; by eexists _, _|]. rewrite parse_whole, Et, Ev by done. done.
    + split; [rewrite Eds; by eexists _, _|]. rewrite parse_point, Et, take_drop, Ev, length_drop;
        [|by apply list.Forall_take|by rewrite Eds|by apply list.Forall_drop|done].
      by replace (n - 1 - Z.of_nat (length ds - 1)) with (n - k) by lia.
Qed.

Lemma parse_rendered neg s k n : 1 <= k -> 10 ^ (k - 1) <= s <= 10 ^ k ->
  (exists c r, render_number s k n = c :: r /\ is_digit c = true)
  /\ parse_unsigned neg (render_number s k n) = num (inject_Z (signed neg s) * pow10 (n - k)).
Proof.
  intros Hk Hs. destruct (decide (s = 10 ^ k)) as [->|Hne]; [|apply parse_digits; lia].
  assert (render_number (10 ^ k) k n = render_number 1 1 (n + 1)) as ->.
  { unfold render_number. by rewrite Z.eqb_refl. }
  destruct (parse_digits neg 1 1 (n + 1)) as [H1 H2]; [lia|done|]. split; [done|]. rewrite H2. apply num_eq.
  replace (signed neg (10 ^ k)) with (signed neg 1 * 10 ^ k) by (unfold signed; destruct neg; lia).
  rewrite inject_Z_mult, <- pow10_Z by lia. rewrite <- Qmult_assoc, <- pow10_add. replace (k + (n - k)) with (n + 1 - 1) by lia.
  reflexivity.
Qed.

(** ** The round trip *)

Lemma rnd_neg x : (rnd (- x) == - rnd x)%Q.
Proof.
  destruct (rnd_cases x) as [[H E]|[[H E]|[H E]]], (rnd_cases (- x)) as [[H' E']|[[H' E']|[H' E']]]; try lra.
  rewrite E, E'. rewrite (rnd_pos_proper_pos (- - x) x); [reflexivity|lra|ring].
Qed.

Lemma smallest_double x : (0 < x)%Q -> (rnd x == x)%Q -> (1 <= x * pow10 (Z.of_nat 329))%Q.
Proof.
  intros Hx Ex. destruct (double_form x Hx Ex) as (m & Em & Hm & Hu).
  assert (pow2 (-1074) <= x)%Q as H.
  { assert (pow2 (-1074) <= pow2 (ulp_exp x))%Q by (apply pow2_mono; unfold ulp_exp; lia).
    assert (1 <= inject_Z m)%Q by (change 1%Q with (inject_Z 1); rewrite <- Zle_Qle; lia).
    pose proof (pow2_pos (ulp_exp x)). rewrite Em. nra. }
  apply (Qle_trans _ (pow2 (-1074) * pow10 (Z.of_nat 329))).
  - apply Qle_bool_iff. by vm_compute.
  - apply Qmult_le_compat_r; [done|]. apply Qlt_le_weak, pow10_pos.
Qed.

Lemma parse_pos (neg : bool) x : (0 < x)%Q -> (rnd x == x)%Q -> (x < pow2 1024)%Q ->
  parseFloat ((if neg then [45] else []) ++ pos_string x) = JFin (rnd (if neg then - x else x)%Q).
Proof.
  intros Hx Ex Hb. destruct (places_spec 329 x Hx (smallest_double x Hx Ex)) as [P1 P2].
  unfold pos_string. change 330%nat with (S 329). set (n := places (S 329) x) in *.
  destruct (shortest_spec 16 1 n x Hx Ex P1 P2) as (s & k & -> & Hk & Hs & Er); [lia|lia|].
  destruct (parse_rendered neg s k n Hk Hs) as [(c & r & Ec & Hc) Hp]. rewrite Ec in Hp |- *.
  rewrite parseFloat_signed, Hp by done.
  assert (rnd (inject_Z (signed neg s) * pow10 (n - k)) = rnd (if neg then - x else x)%Q) as E.
  { apply rnd_canonical. destruct neg; unfold signed; [|rewrite Er, Ex; reflexivity].
    rewrite (rnd_eq _ (- (inject_Z s * pow10 (n - k)))%Q); [rewrite !rnd_neg, Er, Ex; reflexivity|]. rewrite inject_Z_opp. ring. }
  assert (rnd (if neg then - x else x) == if neg then - x else x)%Q as E'.
  { destruct neg; [|done]. rewrite rnd_neg, Ex; reflexivity. }
  unfold num. rewrite E. destruct (Qle_bool (pow2 1024) _) eqn:B1; [|destruct (Qle_bool _ (- pow2 1024)) eqn:B2; [|done]].
  - apply Qle_bool_iff in B1. rewrite E' in B1. pose proof (pow2_pos 1024). destruct neg; lra.
  - apply Qle_bool_iff in B2. rewrite E' in B2. pose proof (pow2_pos 1024). destruct neg; lra.
Qed.

(** [parseFloat(String(x))] is [x], for every finite number. *)
Lemma parse_number_string x : rnd x = x -> (- pow2 1024 < x < pow2 1024)%Q -> parseFloat (number_string (JFin x)) = JFin x.
Proof.
  intros Ex Hb. assert (rnd x == x)%Q as Eq by (by rewrite Ex). cbn [number_string]. unfold is_zero, is_neg.
  destruct (Qeq_bool x 0) eqn:E0.
  - apply Qeq_bool_iff in E0. rewrite (rnd_eq _ _ E0) in Ex. rewrite <- Ex. by vm_compute.
  - assert (~ (x == 0)%Q) as Hne by (rewrite <- Qeq_bool_iff; congruence). destruct (Qltb x 0) eqn:E1.
    + apply Qltb_true in E1. change (45 :: pos_string (- x)) with ((if true then [45] else []) ++ pos_string (- x)).
      rewrite parse_pos; [|lra|by rewrite rnd_neg, Eq|lra]. f_equal. etransitivity; [|exact Ex]. apply rnd_eq. ring.
    + apply Qltb_false in E1. change (pos_string x) with ((if false then [45] else []) ++ pos_string x).
      rewrite parse_pos; [|lra|done|lra]. by rewrite Ex.
Qed.
