(* ===== verification/ChapterList.v ===== *)
(** * The list of chapters in the book's sidebar (src/_site/book/toc-2d897c67.js,
    [MDBookSidebarScrollbox])

    The element's [connectedCallback]: the links of the generated list are made relative to
    the root of the book, the link of the page is marked and the chapters around it are
    unfolded; the position of the sidebar is taken over from the page the reader comes from;
    the toggles fold and unfold.

    The page is a store of nodes ([Dom]) in which the generated list has already been
    inserted. How the browser resolves the address in a link is a parameter, and so are the
    boxes of the layout. *)

From Stdlib Require Import QArith Lqa Ascii.
From S2P Require Import Prelude Dom Toc TocPage Number NumberText.

(** ** Addresses *)

(** [s.split(c)[0]] *)
Fixpoint before (c : Ascii.ascii) (s : string) : string :=
  match s with
  | EmptyString => EmptyString
  | String x s' => if Ascii.eqb x c then EmptyString else String x (before c s')
  end.

Definition ends_with (suffix s : string) : bool :=
  (String.length suffix <=? String.length s)%nat
  && String.eqb (String.substring (String.length s - String.length suffix) (String.length suffix) s) suffix.

Definition page_address (location : string) : string :=
  let current_page := before "?"%char (before "#"%char location) in
  if ends_with "/" current_page then current_page +:+ "index.html" else current_page.

Definition scheme_char (c : Ascii.ascii) : bool :=
  let n := Z.of_N (Ascii.N_of_ascii c) in (97 <=? n) && (n <=? 122) || (n =? 43).

Fixpoint scheme_then (seen : bool) (s : string) : bool :=
  match s with
  | EmptyString => false
  | String c s' =>
      if scheme_char c then scheme_then true s'
      else Ascii.eqb c ":"%char && seen && String.prefix "//" s'
  end.

(** [/^(?:[a-z+]+:)?\/\//.test(href)] *)
Definition absolute (href : string) : bool := String.prefix "//" href || scheme_then false href.

Definition to_root (href : string) : bool :=
  negb (String.eqb href "") && negb (String.prefix "#" href) && negb (absolute href).

(** What the layout says: the top of the sidebar, and of each of its nodes. *)
Record Boxes : Type := mkBoxes { sidebar_top : Q; node_top : nat -> Q }.

(** How the sidebar is scrolled: not at all, its [scrollTop] is set, or a node is brought to
    the middle. *)
Inductive Scroll : Type := Stay | SetScrollTop (v : jsnum) | IntoView (n : nat).

Section scrollbox.
(** [link.href] for the attribute; [path_to_root]; [document.location.href]; this element, and
    the sidebar around it. *)
Context (resolve : string -> string) (path_to_root location : string) (this sidebar : nat).

Definition rewritten (a : option string) : option string :=
  match a with Some h => Some (if to_root h then path_to_root +:+ h else h) | None => None end.

Definition href_property (a : option string) : string := match a with Some h => resolve h | None => "" end.

(** The condition under which the [i]-th link, with this attribute, is the page's. *)
Definition is_current (i : nat) (a : option string) : bool :=
  String.eqb (href_property a) (page_address location)
  || (i =? 0)%nat && String.eqb path_to_root "" && ends_with "/index.html" (page_address location).

Definition chapter_item (d : dom) (n : nat) : bool :=
  match d !! n with
  | Some x => bool_decide (tagName x = "LI") && bool_decide ("chapter-item" ∈ classList x)
  | None => false
  end.

(** The loop over the link's ancestors. *)
Fixpoint unfold_up (fuel : nat) (parent_ : option nat) (d : dom) : dom :=
  match fuel, parent_ with
  | S fuel, Some n =>
      let d := if chapter_item d n then addClass n "expanded" d else d in
      unfold_up fuel (parent d n) d
  | _, _ => d
  end.

(** One round of the loop over the links. *)
Definition visit (d : dom) (il : nat * nat) : dom :=
  let '(i, link) := il in
  let d := match d !! link ≫= href with
           | Some h => if to_root h then set_href link (path_to_root +:+ h) d else d
           | None => d
           end in
  if is_current i (d !! link ≫= href) then
    let d := addClass link "active" d in unfold_up (length d) (parent d link) d
  else d.

Definition is_link (d : dom) (n : nat) : bool :=
  match d !! n with Some x => bool_decide (tagName x = "A") | None => false end.

(** [this.querySelectorAll('a')] *)
Definition links (d : dom) : list nat := filter (fun n => is_link d n = true) (document_order (length d) d this).

Definition mark_links (d : dom) : dom := foldl visit d (imap pair (links d)).

(** ** The position of the sidebar *)

Definition offset (b : Boxes) (n : nat) : jsnum := jsub (JFin (node_top b n)) (JFin (sidebar_top b)).

Definition jadd (x y : jsnum) : jsnum :=
  match x, y with
  | JFin a, JFin b => num (a + b)
  | JNaN, _ | _, JNaN => JNaN
  | JInf a, JInf b => if Bool.eqb a b then x else JNaN
  | JInf _, _ => x
  | _, JInf _ => y
  end.

Definition first_active (d : dom) (root : nat) : option nat := head (querySelectorAll d root "active").

(** A click in the list, on the node [n]: the item of the session's storage afterwards. *)
Definition on_click (d : dom) (b : Boxes) (n : nat) (saved : option chars) : option chars :=
  if is_link d n then Some (number_string (offset b n)) else saved.

(** [scrollTop] is the position before; the item is removed in any case. [SetScrollTop] has the
    number that is assigned: the browser keeps it within the range of the list. *)
Definition restore (d : dom) (b : Boxes) (scrollTop : Q) (saved : option chars) : Scroll :=
  match saved with
  | Some sidebarScrollOffset =>
      match first_active d this with
      | Some activeSection =>
          SetScrollTop (jadd (JFin scrollTop) (jsub (offset b activeSection) (parseFloat sidebarScrollOffset)))
      | None => Stay
      end
  | None => match first_active d sidebar with Some activeSection => IntoView activeSection | None => Stay end
  end.

(** The page, the item of the storage and the scroll after [connectedCallback]. The boxes are
    those of the marked page. *)
Definition connectedCallback (d : dom) (b : Boxes) (scrollTop : Q) (saved : option chars) : dom * option chars * Scroll :=
  let d := mark_links d in (d, None, restore d b scrollTop saved).

(** A click on a toggle. [None]: it has no grandparent, and the listener throws. *)
Definition toggleSection (n : nat) (d : dom) : option dom :=
  p ← parent d n; q ← parent d p; Some (toggleClass q "expanded" d).

(** ** The marked list *)

(** What no step of the loop touches. *)
Record same_tree (d d' : dom) : Prop := {
  st_length : length d' = length d;
  st_kids : forall n, kids d' n = kids d n;
  st_parent : forall n, parent d' n = parent d n;
  st_tag : forall n, tagName <$> d' !! n = tagName <$> d !! n;
}.

Lemma same_tree_alter (f : Node -> Node) n d :
  (forall x, childNodes (f x) = childNodes x /\ parentElement (f x) = parentElement x /\ tagName (f x) = tagName x) ->
  same_tree d (alter f n d).
Proof.
  intros Hf. split.
  - by rewrite length_alter.
  - intros m. apply kids_alter_same. apply Hf.
  - intros m. apply parent_alter_same. apply Hf.
  - intros m. destruct (decide (n = m)) as [->|]; [|by rewrite list_lookup_alter_ne].
    rewrite list_lookup_alter_eq. destruct (d !! m) as [x|]; [|done]. cbn. f_equal. apply Hf.
Qed.

#[global] Instance same_tree_preorder : PreOrder same_tree.
Proof.
  split.
  - by split.
  - intros d1 d2 d3 H1 H2. split; intros.
    + by rewrite (st_length _ _ H2), (st_length _ _ H1).
    + by rewrite (st_kids _ _ H2), (st_kids _ _ H1).
    + by rewrite (st_parent _ _ H2), (st_parent _ _ H1).
    + by rewrite (st_tag _ _ H2), (st_tag _ _ H1).
Qed.

Lemma same_tree_add n c d : same_tree d (addClass n c d).
Proof. by apply same_tree_alter. Qed.

Lemma href_add n m c d : addClass n c d !! m ≫= href = d !! m ≫= href.
Proof.
  unfold addClass. destruct (decide (n = m)) as [->|]; [|by rewrite list_lookup_alter_ne].
  rewrite list_lookup_alter_eq. by destruct (d !! m).
Qed.

Lemma hasClass_href n v m c d : hasClass (set_href n v d) m c = hasClass d m c.
Proof.
  unfold hasClass, set_href. destruct (decide (n = m)) as [->|]; [|by rewrite list_lookup_alter_ne].
  rewrite list_lookup_alter_eq. by destruct (d !! m).
Qed.

Lemma chapter_item_class d n : chapter_item d n = bool_decide (tagName <$> d !! n = Some "LI") && hasClass d n "chapter-item".
Proof.
  unfold chapter_item, hasClass. destruct (d !! n) as [x|]; [|done]. cbn.
  rewrite (bool_decide_ext (Some (tagName x) = Some "LI") (tagName x = "LI")); [done|]. split; congruence.
Qed.

(** One ancestor, and all of them. *)
Lemma unfold_one d n :
  let d' := if chapter_item d n then addClass n "expanded" d else d in
  same_tree d d' /\ (forall m, d' !! m ≫= href = d !! m ≫= href)
  /\ (forall m, chapter_item d' m = chapter_item d m)
  /\ forall m c, hasClass d' m c = true <-> hasClass d m c = true \/ c = "expanded" /\ m = n /\ chapter_item d m = true.
Proof.
  destruct (chapter_item d n) eqn:E; cbn zeta iota.
  - assert (forall m c, hasClass (addClass n "expanded" d) m c = true
      <-> hasClass d m c = true \/ c = "expanded" /\ m = n /\ chapter_item d m = true) as Hc.
    { intros m c. rewrite hasClass_add, orb_true_iff, !andb_true_iff, !bool_decide_eq_true.
      assert (n < length d)%nat. { unfold chapter_item in E. destruct (d !! n) eqn:El; [|done]. by eapply lookup_lt_Some. }
      naive_solver. }
    split_and!; [apply same_tree_add|intros m; apply href_add| |done].
    intros m. rewrite !chapter_item_class, (st_tag _ _ (same_tree_add n "expanded" d)). f_equal.
    apply eq_true_iff_eq. rewrite Hc. split; [intros [H|[[=] _]]; exact H|by left].
  - split_and!; [reflexivity|done|done|]. intros m c. split; [by left|intros [H|(_ & -> & H)]; congruence].
Qed.

Lemma unfold_up_spec d n l : up d n l -> forall fuel, (length l <= fuel)%nat ->
  let d' := unfold_up fuel (Some n) d in
  same_tree d d' /\ (forall m, d' !! m ≫= href = d !! m ≫= href)
  /\ forall m c, hasClass d' m c = true <-> hasClass d m c = true \/ c = "expanded" /\ m ∈ l /\ chapter_item d m = true.
Proof.
  intros Hu fuel. revert d n l Hu. induction fuel as [|fuel IH]; intros d n l Hu Hl; [inversion Hu; subst; cbn in Hl; lia|].
  cbn zeta. cbn [unfold_up]. destruct (unfold_one d n) as (S1 & H1 & I1 & C1).
  set (d1 := if chapter_item d n then addClass n "expanded" d else d) in *. rewrite (st_parent _ _ S1).
  inversion Hu as [? Hn|? p l' Hn Hu']; subst; rewrite Hn.
  - destruct fuel; cbn [unfold_up]; (split_and!; [done|done|]); intros m c; rewrite C1; set_solver.
  - destruct (IH d1 p l') as (S2 & H2 & C2).
    + eapply up_frame; [done|]. intros m _. apply (st_parent _ _ S1).
    + cbn in Hl. lia.
    + split_and!; [by transitivity d1|intros m; by rewrite H2|]. intros m c. rewrite C2, C1, I1. set_solver.
Qed.

(** A page whose nodes are numbered in the order of its text. *)
Lemma up_found d n :
  (forall m q, parent d m = Some q -> (q < m)%nat) -> exists l, up d n l /\ (length l <= S n)%nat /\ Forall (fun m => (m <= n)%nat) l.
Proof.
  intros Hd. induction (lt_wf n) as [n _ IH]. destruct (parent d n) as [q|] eqn:E.
  - pose proof (Hd _ _ E) as Hq. destruct (IH q Hq) as (l & Hu & Hl & Hf). exists (n :: l). split_and!.
    + by eapply up_step.
    + cbn. lia.
    + constructor; [lia|]. eapply list.Forall_impl; [exact Hf|]. cbn. lia.
  - exists [n]. split_and!; [by constructor|cbn; lia|by repeat constructor].
Qed.

(** The nodes above [n]. *)
Definition ancestors (d : dom) (n : nat) : list nat := tail (climb (length d) d n).

Lemma ancestors_up d n : (forall m q, parent d m = Some q -> (q < m)%nat) -> (n < length d)%nat ->
  match parent d n with
  | Some p => exists l, up d p l /\ (length l <= length d)%nat /\ ancestors d n = l
  | None => ancestors d n = []
  end.
Proof.
  intros Hd Hn. unfold ancestors. destruct (up_found d n Hd) as (l & Hu & Hl & _).
  rewrite (climb_up d n l Hu) by lia. inversion Hu as [? E|? p l' E Hu']; subst; rewrite E; [done|].
  exists l'. cbn in Hl. split_and!; [done|lia|done].
Qed.

Lemma ancestors_frame d d' n : same_tree d d' -> ancestors d' n = ancestors d n.
Proof.
  intros H. unfold ancestors. rewrite (st_length _ _ H). f_equal. generalize (length d). intros k. revert n.
  induction k as [|k IH]; intros n; [done|]. cbn. rewrite (st_parent _ _ H). destruct (parent d n); [|done]. by rewrite IH.
Qed.

(** The link is the page's, by the attribute it had before. *)
Definition current (d : dom) (i link : nat) : bool := is_current i (rewritten (d !! link ≫= href)).

(** The page [d'] after the links [done] of [d]. *)
Record marked (d : dom) (done : list (nat * nat)) (d' : dom) : Prop := {
  mk_tree : same_tree d d';
  mk_href : forall n, d' !! n ≫= href = if bool_decide (n ∈ map snd done) then rewritten (d !! n ≫= href) else d !! n ≫= href;
  mk_class : forall n c, hasClass d' n c = true <-> hasClass d n c = true
    \/ exists i link, (i, link) ∈ done /\ current d i link = true
       /\ (c = "active" /\ n = link \/ c = "expanded" /\ n ∈ ancestors d link /\ chapter_item d n = true);
}.

Lemma set_href_lookup n v m d :
  set_href n v d !! m ≫= href = if bool_decide (m = n) && bool_decide (n < length d)%nat then Some v else d !! m ≫= href.
Proof.
  unfold set_href. destruct (decide (n = m)) as [->|Hne].
  - rewrite list_lookup_alter_eq, (bool_decide_true (m = m)) by done. destruct (d !! m) eqn:E.
    + apply lookup_lt_Some in E. by rewrite bool_decide_true.
    + apply lookup_ge_None_1 in E. rewrite bool_decide_false by lia. done.
  - rewrite list_lookup_alter_ne by done. by rewrite (bool_decide_false (m = n)).
Qed.

(** The first half of a round. *)
Lemma rewrite_link d link : (link < length d)%nat ->
  let d' := match d !! link ≫= href with
            | Some h => if to_root h then set_href link (path_to_root +:+ h) d else d
            | None => d
            end in
  same_tree d d' /\ (forall n c, hasClass d' n c = hasClass d n c)
  /\ forall n, d' !! n ≫= href = if bool_decide (n = link) then rewritten (d !! n ≫= href) else d !! n ≫= href.
Proof.
  intros Hl. destruct (d !! link ≫= href) as [h|] eqn:E; cbn zeta iota; [destruct (to_root h) eqn:Et|].
  - split_and!; [by apply same_tree_alter|intros; apply hasClass_href|]. intros n. rewrite set_href_lookup.
    rewrite (bool_decide_true (link < _)%nat), andb_true_r by done. case_bool_decide as Hn; [|done]. subst n.
    rewrite E. cbn. by rewrite Et.
  - split_and!; [reflexivity|done|]. intros n. case_bool_decide as Hn; [|done]. subst n. rewrite E. cbn. by rewrite Et.
  - split_and!; [reflexivity|done|]. intros n. case_bool_decide as Hn; [|done]. subst n. by rewrite E.
Qed.

Lemma chapter_item_frame d d' n :
  same_tree d d' -> hasClass d' n "chapter-item" = hasClass d n "chapter-item" -> chapter_item d' n = chapter_item d n.
Proof. intros H Hc. by rewrite !chapter_item_class, (st_tag _ _ H), Hc. Qed.

Lemma marked_item d done d' n : marked d done d' -> chapter_item d' n = chapter_item d n.
Proof.
  intros H. apply chapter_item_frame; [apply H|]. apply eq_true_iff_eq. rewrite (mk_class _ _ _ H).
  split; [|by left]. intros [?|(i & l & _ & _ & [[[=] _]|[[=] _]])]. done.
Qed.

Section rounds.
Context (d : dom) (Hdec : forall m q, parent d m = Some q -> (q < m)%nat).

(** The second half, on the page's link. *)
Lemma activate d2 link :
  same_tree d d2 -> (forall n, chapter_item d2 n = chapter_item d n) -> (link < length d)%nat ->
  let d3 := let d2 := addClass link "active" d2 in unfold_up (length d2) (parent d2 link) d2 in
  same_tree d d3 /\ (forall n, d3 !! n ≫= href = d2 !! n ≫= href)
  /\ forall n c, hasClass d3 n c = true <-> hasClass d2 n c = true
       \/ c = "active" /\ n = link \/ c = "expanded" /\ n ∈ ancestors d link /\ chapter_item d n = true.
Proof.
  intros T2 I2 Hlt. cbn zeta. pose proof (st_length _ _ T2) as L2.
  assert (same_tree d (addClass link "active" d2)) as T4 by (transitivity d2; [done|apply same_tree_add]).
  assert (forall n, chapter_item (addClass link "active" d2) n = chapter_item d n) as Hi.
  { intros n. rewrite <- I2. apply chapter_item_frame; [apply same_tree_add|].
    rewrite hasClass_add. rewrite (bool_decide_false ("chapter-item" = _)) by done. by rewrite andb_false_r, orb_false_r. }
  assert (forall n c, hasClass (addClass link "active" d2) n c = true <-> hasClass d2 n c = true \/ c = "active" /\ n = link) as Ca.
  { intros n c. rewrite hasClass_add, orb_true_iff, !andb_true_iff, !bool_decide_eq_true, L2. tauto. }
  pose proof (ancestors_up d link Hdec Hlt) as Ha. rewrite (st_parent _ _ T4), (st_length _ _ T4).
  destruct (parent d link) as [q|].
  - destruct Ha as (l & Hu & Hl & ->).
    destruct (unfold_up_spec (addClass link "active" d2) q l) with (fuel := length d) as (T & Hr & C); [|done|].
    { eapply up_frame; [exact Hu|]. intros m _. apply (st_parent _ _ T4). }
    split_and!; [by transitivity (addClass link "active" d2)|intros n; by rewrite Hr, href_add|].
    intros n c. rewrite C, Hi, Ca. tauto.
  - rewrite Ha. replace (unfold_up _ None _) with (addClass link "active" d2) by (by destruct (length d)).
    split_and!; [done|intros n; apply href_add|]. intros n c. rewrite Ca. set_solver.
Qed.

Lemma visit_marked done d' i link :
  marked d done d' -> (link ∉ map snd done) -> (link < length d)%nat -> marked d (done ++ [(i, link)]) (visit d' (i, link)).
Proof.
  intros H Hni Hlt. pose proof H as [T1 H1 C1].
  destruct (rewrite_link d' link) as (T2 & C2 & H2); [by rewrite (st_length _ _ T1)|]. unfold visit.
  set (d2 := match d' !! link ≫= href with Some h => _ | None => _ end) in *.
  assert (forall n, d2 !! n ≫= href = if bool_decide (n ∈ map snd (done ++ [(i, link)])) then rewritten (d !! n ≫= href)
                                     else d !! n ≫= href) as Hh.
  { intros n. rewrite H2, H1, map_app. cbn [map snd]. destruct (decide (n = link)) as [->|Hn].
    - by rewrite bool_decide_true, bool_decide_false, bool_decide_true by set_solver.
    - rewrite (bool_decide_false (n = link)) by done.
      by rewrite (bool_decide_ext (n ∈ map snd done ++ [link]) (n ∈ map snd done)) by set_solver. }
  assert (is_current i (d2 !! link ≫= href) = current d i link) as ->.
  { rewrite Hh, bool_decide_true; [done|]. rewrite map_app. set_solver. }
  assert (same_tree d d2) as T3 by (by transitivity d').
  assert (forall n, chapter_item d2 n = chapter_item d n) as I2.
  { intros n. rewrite (chapter_item_frame d' d2); [by eapply marked_item|done|apply C2]. }
  destruct (current d i link) eqn:Ecur.
  - destruct (activate d2 link T3 I2 Hlt) as (T5 & H5 & C5). split; [done|intros n; by rewrite H5|].
    intros n c. rewrite C5, C2, C1. split.
    + intros [[Hc|(i' & l' & Hin & Hr)]|He]; [by left|right; exists i', l'; set_solver|right; exists i, link; set_solver].
    + intros [Hc|(i' & l' & Hin & Hr & Hx)]; [by left; left|]. apply elem_of_app in Hin as [Hin|Hin].
      * left. right. by exists i', l'.
      * apply list_elem_of_singleton in Hin as [= -> ->]. tauto.
  - split; [done|done|]. intros n c. rewrite C2, C1. split.
    + intros [Hc|(i' & l' & Hin & Hr)]; [by left|right; exists i', l'; set_solver].
    + intros [Hc|(i' & l' & Hin & Hr & Hx)]; [by left|]. apply elem_of_app in Hin as [Hin|Hin].
      * right. by exists i', l'.
      * apply list_elem_of_singleton in Hin as [= -> ->]. congruence.
Qed.

Lemma visits_marked todo done d' :
  marked d done d' -> NoDup (map snd (done ++ todo)) -> Forall (fun n => (n < length d)%nat) (map snd todo) ->
  marked d (done ++ todo) (foldl visit d' todo).
Proof.
  revert done d'. induction todo as [|[i link] todo IH]; intros done d' H Hd Hlt; [by rewrite app_nil_r|].
  cbn [foldl]. replace (done ++ (i, link) :: todo) with ((done ++ [(i, link)]) ++ todo) in * by (by rewrite <- app_assoc).
  cbn in Hlt. apply list.Forall_cons in Hlt as [Hl Hlt]. apply IH; [|done|done]. apply visit_marked; [done| |done].
  rewrite !map_app in Hd. cbn in Hd. apply list.NoDup_app in Hd as (Hd & _). apply list.NoDup_app in Hd as (_ & Hd & _).
  intros Hin. apply (Hd link Hin). by left.
Qed.

Lemma marked_nil : marked d [] d.
Proof.
  split; [reflexivity|by intros n|]. intros n c. split; [by left|]. intros [?|(i & l & Hin & _)]; [done|].
  by apply elem_of_nil in Hin.
Qed.

Lemma snd_imap (l : list nat) k : map snd (imap (fun i => pair (k + i)%nat) l) = l.
Proof.
  revert k. induction l as [|x l IH]; intros k; [done|]. cbn. f_equal. etransitivity; [|apply (IH (S k))]. f_equal.
  apply imap_ext. intros i y _. cbn. f_equal. lia.
Qed.

Lemma mark_links_marked l :
  order d this l -> NoDup l -> marked d (imap pair (links d)) (mark_links d).
Proof.
  intros Ho Hd. unfold mark_links. assert (map snd (imap pair (links d)) = links d) as El by apply (snd_imap _ 0).
  apply (visits_marked (imap pair (links d)) [] d marked_nil); [change ([] ++ imap pair (links d)) with (imap pair (links d))|]; rewrite El.
  - unfold links. rewrite (document_order_order d this l Ho Hd). by apply list.NoDup_filter.
  - apply list.Forall_forall. intros n Hn. unfold links in Hn. apply list_elem_of_filter in Hn as [Hn _].
    unfold is_link in Hn. destruct (d !! n) eqn:E; [|done]. by eapply lookup_lt_Some.
Qed.
End rounds.


Lemma first_active_spec d root l :
  order d root l -> NoDup l ->
  match first_active d root with
  | Some n => n ∈ l /\ hasClass d n "active" = true
  | None => forall n, n ∈ l -> hasClass d n "active" = false
  end.
Proof.
  intros Ho Hd. unfold first_active, querySelectorAll. rewrite (document_order_order d root l Ho Hd).
  destruct (filter _ l) as [|n ns] eqn:E; cbn.
  - intros n Hn. destruct (hasClass d n "active") eqn:Ec; [|done].
    assert (n ∈ filter (fun n => hasClass d n "active" = true) l) as Hf by (by apply list_elem_of_filter).
    rewrite E in Hf. by apply elem_of_nil in Hf.
  - assert (n ∈ filter (fun n => hasClass d n "active" = true) l) as Hf by (rewrite E; by left).
    by apply list_elem_of_filter in Hf as [? ?].
Qed.

(** C25. The list of chapters shows where the reader is. On a page whose nodes are numbered in
    the order of its text, [connectedCallback] puts the path to the book's root before the
    address of exactly the links that need it; it marks exactly the links that lead to this
    page (the address without query and fragment, [index.html] for a directory), and the first
    link on the book's front page; it unfolds exactly the chapters above a marked link, and
    changes no other class, no tag and no place in the tree. *)
Theorem chapter_list_marks (d : dom) (l : list nat) (b : Boxes) (scrollTop : Q) (saved : option chars) :
  (forall m q, parent d m = Some q -> (q < m)%nat) -> order d this l -> NoDup l ->
  let d' := fst (fst (connectedCallback d b scrollTop saved)) in
  (forall n, d' !! n ≫= href = if bool_decide (n ∈ links d) then rewritten (d !! n ≫= href) else d !! n ≫= href)
  /\ (forall n, hasClass d' n "active" = true <-> hasClass d n "active" = true
        \/ exists i, links d !! i = Some n
           /\ (href_property (rewritten (d !! n ≫= href)) = page_address location
               \/ i = 0%nat /\ path_to_root = "" /\ ends_with "/index.html" (page_address location) = true))
  /\ (forall n, hasClass d' n "expanded" = true <-> hasClass d n "expanded" = true
        \/ chapter_item d n = true /\ exists i link, links d !! i = Some link /\ current d i link = true /\ n ∈ ancestors d link)
  /\ (forall n c, c <> "active" -> c <> "expanded" -> hasClass d' n c = hasClass d n c)
  /\ same_tree d d'.
Proof.
  intros Hdec Ho Hd. cbn [connectedCallback fst]. cbv zeta. destruct (mark_links_marked d Hdec l Ho Hd) as [T H C].
  assert (map snd (imap pair (links d)) = links d) as El by apply (snd_imap _ 0).
  assert (forall i n, (i, n) ∈ imap pair (links d) <-> links d !! i = Some n) as Ein.
  { intros i n. rewrite list_elem_of_lookup. split.
    - intros [j Hj]. rewrite list_lookup_imap in Hj. destruct (links d !! j) eqn:E; [|done]. cbn in Hj. congruence.
    - intros Hi. exists i. by rewrite list_lookup_imap, Hi. }
  split_and!; [by rewrite El in H| | | |done].
  - intros n. rewrite C. setoid_rewrite Ein. split.
    + intros [?|(i & link & Hi & Hc & [[_ ->]|[[=] _]])]; [by left|right]. exists i. split; [done|].
      apply orb_true_iff in Hc as [Hc|Hc]; [left; by apply String.eqb_eq|right].
      rewrite !andb_true_iff in Hc. destruct Hc as [[H1 H2] H3]. by apply Nat.eqb_eq in H1; apply String.eqb_eq in H2.
    + intros [?|(i & Hi & Hc)]; [by left|right]. exists i, n. split_and!; [done| |by left].
      apply orb_true_iff. destruct Hc as [Hc|(-> & Hp & He)]; [left; by apply String.eqb_eq|right].
      by rewrite Hp, He.
  - intros n. rewrite C. setoid_rewrite Ein. split.
    + intros [?|(i & link & Hi & Hc & [[[=] _]|(_ & Ha & Hch)])]; [by left|right]. split; [done|]. by exists i, link.
    + intros [?|(Hch & i & link & Hi & Hc & Ha)]; [by left|right]. exists i, link. split_and!; [done|done|by right].
  - intros n c H1 H2. apply eq_true_iff_eq. rewrite C. split; [|by left].
    by intros [?|(i & link & _ & _ & [[? _]|[? _]])].
Qed.

(** With the handler of DOMContentLoaded: the list it adds headings to is the one that was
    marked. *)
Lemma marked_page_ok (d : dom) (l : list nat) (act : nat) :
  page_ok d act -> order d this l -> NoDup l -> page_ok (mark_links d) act.
Proof.
  intros [(l0 & Ho0 & Hd0 & span & p & H1 & H2 & H3 & H4) Hdec Hf] Ho Hd.
  pose proof (mark_links_marked d Hdec l Ho Hd) as [T H C]. split.
  - exists l0. split_and!; [|done|].
    + eapply (proj1 (order_frame d (mark_links d) ltac:(rewrite (st_length _ _ T); lia))); [done|]. intros m _. apply (st_kids _ _ T).
    + exists span, p. by rewrite !(st_parent _ _ T), (st_kids _ _ T).
  - intros n q. rewrite (st_parent _ _ T). apply Hdec.
  - intros n. destruct (Hf n) as (F1 & F2 & F3).
    assert (forall c, c <> "active" -> c <> "expanded" -> hasClass (mark_links d) n c = hasClass d n c) as Hc.
    { intros c Hc1 Hc2. apply eq_true_iff_eq. rewrite C. split; [|by left].
      by intros [?|(i & link & _ & _ & [[? _]|[? _]])]. }
    split_and!; [|by rewrite Hc..]. rewrite <- F1.
    pose proof (Hc "header-item" ltac:(done) ltac:(done)) as Hh. pose proof (st_tag _ _ T n) as Ht.
    unfold header_item. unfold hasClass in Hh. destruct (mark_links d !! n) as [x|], (d !! n) as [y|]; cbn in *; try done.
    injection Ht as ->. by rewrite Hh.
Qed.

(** ** The position is kept *)

(** A position of the layout: a multiple of 1/64 pixel, in the range layouts have. *)
Definition layout_unit (k : Z) (v : Q) : Prop := exists z, (v == z # 64)%Q /\ Z.abs z <= k * 2 ^ 46.

Lemma layout_unit_rnd k v : layout_unit k v -> 0 <= k <= 128 -> (rnd v == v)%Q /\ (- pow2 1024 < v < pow2 1024)%Q.
Proof.
  intros (z & Ez & Hz) Hk. assert (Z.abs z <= 2 ^ 53) as Hz' by (change (2 ^ 53) with (128 * 2 ^ 46); nia). split.
  - rewrite (rnd_eq _ _ Ez), Ez. assert ((z # 64) == inject_Z z * pow2 (-6))%Q as E.
    { rewrite Qmake_Qdiv. reflexivity. }
    destruct (Z.lt_trichotomy z 0) as [Hn|[->|Hp]]; [|by vm_compute|].
    + assert ((- (z # 64)) == inject_Z (- z) * pow2 (-6))%Q as E' by (rewrite inject_Z_opp, E; ring).
      destruct (rnd_cases (z # 64)) as [[H _]|[[H _]|[_ H]]]; [unfold Qlt in H; cbn in H; lia|unfold Qeq in H; cbn in H; lia|].
      assert (0 < - (z # 64))%Q as H0 by (unfold Qlt; cbn; lia).
      rewrite H, (rnd_pos_proper_pos _ _ H0 E'), rnd_pos_exact by lia.
      rewrite inject_Z_opp, E. ring.
    + destruct (rnd_cases (z # 64)) as [[_ H]|[[H _]|[H _]]]; [|unfold Qeq in H; cbn in H; lia|unfold Qlt in H; cbn in H; lia].
      assert (0 < z # 64)%Q as H0 by (unfold Qlt; cbn; lia).
      rewrite H, (rnd_pos_proper_pos _ _ H0 E), rnd_pos_exact by lia. by rewrite E.
  - assert (inject_Z (2 ^ 53) < pow2 1024)%Q as Hb by reflexivity.
    assert (- inject_Z (2 ^ 53) <= (z # 64) <= inject_Z (2 ^ 53))%Q as [H1 H2] by (unfold Qle; cbn; lia).
    rewrite Ez. lra.
Qed.

Lemma layout_unit_add j k u v : layout_unit j u -> layout_unit k v -> layout_unit (j + k) (u + v)%Q.
Proof.
  intros (y & Ey & Hy) (z & Ez & Hz). exists (y + z). split; [rewrite Ey, Ez, <- Qinv_plus_distr; reflexivity|lia].
Qed.

Lemma layout_unit_sub j k u v : layout_unit j u -> layout_unit k v -> layout_unit (j + k) (u - v)%Q.
Proof.
  intros Hu (z & Ez & Hz). apply layout_unit_add; [done|]. exists (- z). split; [rewrite Ez; reflexivity|lia].
Qed.

(** On such positions the arithmetic is exact. *)
Lemma num_exact k v : layout_unit k v -> 0 <= k <= 128 -> num v = JFin (rnd v) /\ (rnd v == v)%Q.
Proof.
  intros Hv Hk. destruct (layout_unit_rnd k v Hv Hk) as [E [H1 H2]]. split; [|done]. unfold num.
  destruct (Qle_bool (pow2 1024) _) eqn:B1; [apply Qle_bool_iff in B1; lra|].
  destruct (Qle_bool _ (- pow2 1024)) eqn:B2; [apply Qle_bool_iff in B2; lra|done].
Qed.

(** C26. The sidebar stays where it was. A click on a link of the list stores the link's
    distance from the top of the sidebar as text; when the next page is loaded, the list is
    assigned exactly the scroll position that puts the marked link at the distance the clicked
    one had (positions being multiples of 1/64 pixel, as in layouts; the browser keeps the
    position within the range the list can be scrolled), and the stored item is gone; the text
    is read as the number it was written for. *)
Theorem sidebar_position_kept (d1 d2 : dom) (b1 b2 : Boxes) (n a : nat) (saved : option chars) (scrollTop : Q) :
  is_link d1 n = true -> first_active (mark_links d2) this = Some a ->
  layout_unit 1 (node_top b1 n) -> layout_unit 1 (sidebar_top b1) ->
  layout_unit 1 (node_top b2 a) -> layout_unit 1 (sidebar_top b2) -> layout_unit 1 scrollTop ->
  exists v, connectedCallback d2 b2 scrollTop (on_click d1 b1 n saved) = (mark_links d2, None, SetScrollTop (JFin v))
  /\ (node_top b2 a - (v - scrollTop) - sidebar_top b2 == node_top b1 n - sidebar_top b1)%Q.
Proof.
  intros Hl Ha N1 S1 N2 S2 Hs. unfold connectedCallback, on_click, restore. rewrite Hl, Ha.
  pose proof (layout_unit_sub _ _ _ _ N1 S1) as U1. pose proof (layout_unit_sub _ _ _ _ N2 S2) as U2.
  destruct (num_exact _ _ U1 ltac:(lia)) as [F1 E1]. destruct (num_exact _ _ U2 ltac:(lia)) as [F2 E2].
  destruct (layout_unit_rnd _ _ U1 ltac:(lia)) as [_ B1]. unfold offset. cbn [jsub]. rewrite F1, F2.
  rewrite parse_number_string; [|apply rnd_canonical, rnd_idem|by rewrite E1]. cbn [jsub].
  assert (layout_unit 4 (rnd (node_top b2 a - sidebar_top b2) - rnd (node_top b1 n - sidebar_top b1))%Q) as U3.
  { apply (layout_unit_sub 2 2); [destruct U2 as (z & Ez & Hz)|destruct U1 as (z & Ez & Hz)]; exists z; split;
      [by rewrite E2|lia|by rewrite E1|lia]. }
  destruct (num_exact _ _ U3 ltac:(lia)) as [-> E3]. cbn [jadd].
  assert (layout_unit 5 (scrollTop + rnd (rnd (node_top b2 a - sidebar_top b2) - rnd (node_top b1 n - sidebar_top b1)))%Q) as U4.
  { apply (layout_unit_add 1 4); [done|]. destruct U3 as (z & Ez & Hz). exists z. split; [by rewrite E3|lia]. }
  destruct (num_exact _ _ U4 ltac:(lia)) as [-> E4]. eexists. split; [done|]. rewrite E4, E3, E2, E1. ring.
Qed.
End scrollbox.

(** ** A sidebar *)

(** A chapter, and one with a section below it. *)
Definition demo_sidebar : dom :=
  [ mkNode "HTML" ∅ None [] None [1%nat];
    mkNode "MDBOOK-SIDEBAR-SCROLLBOX" ∅ None [] (Some 0%nat) [2%nat];
    mkNode "OL" {["chapter"]} None [] (Some 1%nat) [3; 6]%nat;
    mkNode "LI" {["chapter-item"]} None [] (Some 2%nat) [4%nat];
    mkNode "SPAN" ∅ None [] (Some 3%nat) [5%nat];
    mkNode "A" ∅ (Some "introduction.html") [] (Some 4%nat) [];
    mkNode "LI" {["chapter-item"]} None [] (Some 2%nat) [7; 9]%nat;
    mkNode "SPAN" ∅ None [] (Some 6%nat) [8%nat];
    mkNode "A" ∅ (Some "https://example.org/") [] (Some 7%nat) [];
    mkNode "OL" ∅ None [] (Some 6%nat) [10%nat];
    mkNode "LI" {["chapter-item"]} None [] (Some 9%nat) [11%nat];
    mkNode "SPAN" ∅ None [] (Some 10%nat) [12%nat];
    mkNode "A" ∅ (Some "guides/setup.html") [] (Some 11%nat) [] ].

(** Addresses as they resolve on a page of the directory [guides]. *)
Definition demo_resolve (h : string) : string :=
  if absolute h then h
  else if String.prefix "../" h then "https://v/book/" +:+ String.substring 3 (String.length h - 3) h
  else "https://v/book/guides/" +:+ h.

Definition demo_location : string := "https://v/book/guides/setup.html?highlight=a#b".

Definition demo_boxes : Boxes := mkBoxes 50 (fun n => inject_Z (Z.of_nat n * 20)).

Example demo_marks :
  let d := mark_links demo_resolve "../" demo_location 1 demo_sidebar in
  querySelectorAll d 0 "active" = [12%nat] /\ querySelectorAll d 0 "expanded" = [6; 10]%nat
  /\ map (fun n => d !! n ≫= href) [5; 8; 12]%nat
     = [Some "../introduction.html"; Some "https://example.org/"; Some "../guides/setup.html"].
Proof. by vm_compute. Qed.

Lemma demo_order : order demo_sidebar 1 (seq 1 12).
Proof.
  apply order_node; [cbn; lia|]. apply orders_single. apply order_node; [cbn; lia|].
  apply (orders_cons _ 3 [6%nat] [3; 4; 5]%nat (seq 6 7)).
  - repeat (apply order_node; [cbn; lia|]; cbn; apply orders_single). apply order_node; [cbn; lia|constructor].
  - apply orders_single, order_node; [cbn; lia|]. apply (orders_cons _ 7 [9%nat] [7; 8]%nat (seq 9 4)).
    + apply order_node; [cbn; lia|]. apply orders_single, order_node; [cbn; lia|constructor].
    + apply orders_single. repeat (apply order_node; [cbn; lia|]; cbn; apply orders_single).
      apply order_node; [cbn; lia|constructor].
Qed.

Lemma demo_parents m q : parent demo_sidebar m = Some q -> (q < m)%nat.
Proof. do 13 (destruct m as [|m]; [vm_compute; intros H; (discriminate H || (injection H as <-; lia))|]). done. Qed.

Lemma demo_third : links 1 demo_sidebar !! 2%nat = Some 12%nat.
Proof. by vm_compute. Qed.

Lemma demo_current : href_property demo_resolve (rewritten "../" (demo_sidebar !! 12%nat ≫= href)) = page_address demo_location.
Proof. by vm_compute. Qed.

Lemma chapter_list_marks_witness :
  exists d', d' = fst (fst (connectedCallback demo_resolve "../" demo_location 1 0 demo_sidebar demo_boxes 0%Q None))
  /\ hasClass d' 12 "active" = true /\ same_tree demo_sidebar d'.
Proof.
  destruct (chapter_list_marks demo_resolve "../" demo_location 1 0 demo_sidebar (seq 1 12) demo_boxes 0%Q None demo_parents
    demo_order (NoDup_seq _ _)) as (_ & Hact & _ & _ & Htree).
  eexists. split; [reflexivity|]. split; [|exact Htree].
  apply (proj2 (Hact 12%nat)). right. exists 2%nat. split; [exact demo_third|left; exact demo_current].
Defined.

Lemma sidebar_position_kept_witness :
  exists v, connectedCallback demo_resolve "../" demo_location 1 0 demo_sidebar demo_boxes 7
      (on_click demo_sidebar (mkBoxes 50 (fun _ => 301 # 2)) 5 None)
    = (mark_links demo_resolve "../" demo_location 1 demo_sidebar, None, SetScrollTop (JFin v))
  /\ (240 - (v - 7) - 50 == (301 # 2) - 50)%Q.
Proof.
  apply (sidebar_position_kept demo_resolve "../" demo_location 1 0 demo_sidebar demo_sidebar
           (mkBoxes 50 (fun _ => 301 # 2)) demo_boxes 5 12 None 7); [by vm_compute|by vm_compute|..].
  - by exists 9632.
  - by exists 3200.
  - by exists 15360.
  - by exists 3200.
  - by exists 448.
Defined.
