(* ===== verification/AgentTypes.v ===== *)
(** * The types of an agent's fields (src/clients/node/src/client.ts)

    The class declares its fields as [bigint] and [number]; what the code means by them is
    narrower: 64-bit counters, a nonce below the reserved one, a run of drops that stays a
    safe integer, a reconnect window that is a whole number. This file states these types and
    shows that the constructor establishes them and that every method, whatever it returns or
    throws, keeps them. *)

From Stdlib Require Import QArith_base.
From S2P Require Import Prelude NodeBuffer Vlp Errno Outcome Runtime Transport.
From S2P Require Udp.
From S2P Require Import Client System.

(** A window that [setReconnectAfter] may leave: zero, a whole number, or no bound. *)
Definition window_type (x : jsnum) : Prop :=
  match x with JFin q => exists z, 0 <= z /\ q = inject_Z z | JInf neg => neg = false | JNaN => False end.

Record field_types {T : Type} (v : Varta T) : Prop := {
  ft_nonce : 0 <= nonce v < NONCE_TERMINAL;
  ft_timestamp : is_u64 (lastTimestamp v);
  ft_regressions : is_u64 (clockRegressionsCount v);
  ft_forks : is_u64 (forkRecoveriesCount v);
  ft_dropped : 0 <= consecutiveDropped v <= MAX_SAFE_INTEGER;
  ft_window : window_type (reconnectAfter v);
}.

Lemma satAddBig_u64 n : is_u64 n -> is_u64 (satAddBig n 1).
Proof. unfold is_u64. intros H. rewrite satAddBig_spec by lia. unfold U64_MAX. lia. Qed.
#[local] Hint Resolve satAddBig_u64 : core.

(** [Math.trunc] of a positive number is not negative. *)
Lemma q_trunc_nonneg q : (0 <= q)%Q -> 0 <= q_trunc q.
Proof. destruct q as [n d]. unfold Qle, q_trunc. cbn. intros H. apply Z.quot_pos; lia. Qed.

Lemma window_set (n : option jsnum) :
  window_type match n with
    | Some x => if num_positive x then match x with JFin q => jint (q_trunc q) | x => x end else jint 0
    | None => jint 0
    end.
Proof.
  assert (window_type (jint 0)) as H0 by (by exists 0).
  destruct n as [[ | [] | q]|]; cbn; try done. destruct (Qle_bool q 0) eqn:E; cbn; [done|].
  exists (q_trunc q). split; [|done]. apply q_trunc_nonneg, Qlt_le_weak, Qnot_le_lt.
  rewrite <- Qle_bool_iff. congruence.
Qed.

Section agent.
Context {T : Type} `{BeatTransport T} `{Platform} `{!BeatTransportLaws T}.

Lemma types_of_parts (v : Varta T) w : agent_ok v w ->
  is_u64 (clockRegressionsCount v) -> is_u64 (forkRecoveriesCount v) -> 0 <= consecutiveDropped v <= MAX_SAFE_INTEGER ->
  window_type (reconnectAfter v) -> field_types v.
Proof. intros []. by constructor. Qed.

(** Restarting the run of drops. *)
Lemma types_reset (v : Varta T) : field_types v -> field_types (set_consecutiveDropped 0 v).
Proof. intros []. by constructor. Qed.

Lemma attempt_types (v : Varta T) w s pid payload o v' w' :
  agent_ok v w -> field_types v -> attempt s pid payload (v, w) = (Ret o, (v', w')) -> field_types v'.
Proof.
  intros Hok [_ _ Hr Hf Hd Hw] E.
  destruct (attempt_run v w s pid payload Hok) as (o1 & t & d & w1 & E1 & Hc & _ & _ & _ & _ & Ed).
  rewrite E in E1. injection E1 as -> -> ->.
  pose proof (elapsed_range (startNs v) (w_clock w (w_ticks w))) as Hel.
  eapply types_of_parts; [by eapply attempted_ok| | | |]; cbn [clockRegressionsCount forkRecoveriesCount consecutiveDropped reconnectAfter].
  - destruct (_ <? lastTimestamp v); [by apply satAddBig_u64|done].
  - done.
  - subst d. unfold MAX_SAFE_INTEGER in *. destruct (_ && _); lia.
  - done.
Qed.

Lemma beat_types (v : Varta T) w st payload o v' w' :
  agent_ok v w -> field_types v -> beat st payload (v, w) = (Ret o, (v', w')) -> field_types v'.
Proof.
  intros Hok Ht E. destruct (decide (closed v = true)) as [Hcl|Hcl%not_true_is_false].
  { unfold beat, self, assign in E. unfold_m.
    destruct (coerceBeatStatus st) as [[]|]; cbn in E; rewrite ?Hcl in E; injection E as <- <- <-; by apply types_reset. }
  destruct (coerceBeatStatus st) as [s|] eqn:Hst; [destruct (decide (s = Stall)) as [->|Hs]|].
  1, 3: unfold beat in E; rewrite Hst in E; injection E as <- <- <-; by apply types_reset.
  rewrite (beat_unfold st s) in E by done.
  destruct (recoverFork_run v w (w_pid w) (ao_carrier _ _ Hok))
    as [[_ R]|[(_ & e & w1 & _ & R & _)|(_ & t1 & w1 & _ & R & Hc & _)]]; rewrite R in E.
  - by eapply attempt_types.
  - by injection E as <- <- <-.
  - destruct Ht as [_ _ Hr Hf _ Hw].
    assert (agent_ok (mkVarta t1 (buf v) (w_clock w (w_ticks w)) 0 0 (reconnectAfter v) 0 (clockRegressionsCount v)
              (w_pid w) (satAddBig (forkRecoveriesCount v) 1) (closed v)) (hrtime w1).2) as Hok1
      by (constructor; cbn; [done|done|split; lia]).
    eapply attempt_types; [exact Hok1| |exact E]. by eapply types_of_parts; cbn; [exact Hok1|done|auto|unfold MAX_SAFE_INTEGER; lia|].
Qed.

Lemma reconnect_types (v : Varta T) w r v' w' : field_types v -> reconnect (v, w) = (r, (v', w')) -> field_types v'.
Proof.
  intros Ht E. unfold reconnect, self, assign, sys, on_transport in E. unfold_m. cbn in E.
  destruct (closed v); cbn in E; [injection E as <- <- <-; by apply types_reset|].
  destruct (bt_reconnect (transport v, w)) as [[[]|e] [t w1]]; cbn in E; injection E as <- <- <-; destruct Ht; by constructor.
Qed.

Lemma close_types (v : Varta T) w r v' w' : field_types v -> close (v, w) = (r, (v', w')) -> field_types v'.
Proof.
  intros Ht E. unfold close, self, assign, on_transport in E. unfold_m. cbn in E.
  destruct (closed v); cbn in E; [by injection E as <- <- <-|].
  destruct (bt_close (transport v, w)) as [[[]|e] [t w1]]; cbn in E; injection E as <- <- <-; destruct Ht; by constructor.
Qed.

Lemma new_types t w0 (v : Varta T) w : newVarta t w0 = (Ret v, w) -> field_types v.
Proof.
  intros Hrun. unfold newVarta, monotonicNs, hrtime in Hrun. unfold_m.
  destruct (new_buffer_run (buf_alloc FRAME_BYTES) w0) as (w1 & E & _). rewrite E in Hrun. cbn in Hrun.
  injection Hrun as <- _. constructor; cbn; try done; try (unfold MAX_SAFE_INTEGER; lia). by exists 0.
Qed.

(** C17. The fields of an agent keep their types. In every execution, over any transport that
    keeps the contract, with any sequence of calls (whatever numbers they are given and
    whatever they return or throw), callbacks and forks, the nonce is below the reserved one,
    the last timestamp and both counters are 64-bit values (the counters saturate), the run
    of drops is a safe integer, the reconnect window is a whole number or infinite, never
    negative, a fraction or NaN, and the scratch buffer holds exactly one frame's bytes; so
    the next frame can always be encoded. *)
Theorem agent_fields_typed (v : Varta T) (w : World) (fs : list bytes) :
  agent_run v w fs -> field_types v /\ length (contents w (buf v)) = FRAME_BYTES.
Proof.
  intros Hrun. split; [|apply (session_inv _ _ _ Hrun)].
  induction Hrun as [t w0 v w Hbt Hn|v w fs st payload v' w' frame Hrun IH Hb Hd|v w fs st payload o v' w' Hrun IH Hb Ho
    |v w fs r v' w' Hrun IH Hr|v w fs n r v' w' Hrun IH Hr|v w fs r v' w' Hrun IH Hr|v w fs pid Hrun IH|v w fs t' w' Hrun IH Hc].
  - by eapply new_types.
  - eapply beat_types; [apply (session_inv _ _ _ Hrun)|done|exact Hb].
  - eapply beat_types; [apply (session_inv _ _ _ Hrun)|done|exact Hb].
  - by eapply reconnect_types.
  - unfold setReconnectAfter, assign in Hr. unfold_m. injection Hr as <- <- <-.
    destruct IH. constructor; cbn; try done. apply window_set.
  - by eapply close_types.
  - done.
  - destruct IH. by constructor.
Qed.
End agent.

#[local] Existing Instance linux_platform.

(** An agent over UDP whose window is asked to be two and a half beats. *)
Lemma agent_fields_typed_witness :
  exists (v : Varta Udp.UdpTransport) w fs, agent_run v w fs /\ reconnectAfter v = jint 2 /\ field_types v.
Proof.
  destruct (connect_run (Udp.newUdpTransport "127.0.0.1" (jint 9000)) (demo_world [])
    (mkVarta (Udp.mkUdp 0 "127.0.0.1" (jint 9000) false [] None) 1 1000 0 0 (jint 0) 0 0 4821 0 false)
    (connectUdp "127.0.0.1" (jint 9000) (demo_world [])).2 (udp_starts _ _) (demo_world_ok []) ltac:(by constructor)
    ltac:(vm_compute; reflexivity)) as (Hrun & _).
  eexists _, _, _. split; [eapply (ar_after _ _ _ (Some (JFin (5 # 2))) _ _ _ Hrun); reflexivity|].
  split; [reflexivity|].
  eapply (agent_fields_typed _ _ _). eapply (ar_after _ _ _ (Some (JFin (5 # 2))) _ _ _ Hrun); reflexivity.
Defined.
