(* ===== verification/TocDebug.v ===== *)
(** * The debugging aid of the table of contents (src/_site/book/toc-2d897c67.js)

    [mdbookEnableThresholdDebug], called from the console, makes [updateThreshold] show its
    numbers in a table and draw the threshold line. The script with the aid is the script of
    [TocPage] with an overlay of two elements in the body; the theorem is a simulation: the
    aid watches the script and does not change what it does. *)

From Stdlib Require Import QArith_base Qreduction.
From S2P Require Import Prelude Dom Toc Number TocPage.

(** The variable [thresholdDebug], the rows of the table in the element
    [mdbook-threshold-debug-data] when it is there, and the elements of the id
    [mdbook-threshold-debug-line] by the value of their [top]. *)
Record Overlay : Type := mkOverlay {
  thresholdDebug : bool;
  data : option (list (string * chars));
  lines : list Q;
}.

Definition no_overlay : Overlay := mkOverlay false None [].

(** The rows: [st] before and [st'] after the update. *)
Definition debug_rows (v : View) (st st' : Toc) : list (string * chars) :=
  let row name q := (name, toFixed 1 (JFin q)) in
  [row "documentHeight" (scrollHeight v); row "windowHeight" (innerHeight v); row "scrollTop" (scrollTop_of v);
   row "pixelsAbove" (pixelsAbove v); row "pixelsBelow" (pixelsBelow v); row "bottomAdd" (bottomAdd v);
   row "adjustedBottomAdd" (adjustedBottomAdd v);
   ("scrollingDown", latin1 (if Qltb (scrollTop_of v) (lastKnownScrollPosition st) then "false" else "true"));
   row "threshold" (threshold st')].

Section watched.
(** Whether the document has a body yet. *)
Context (body : bool).

Definition drawDebugLine (s : Toc * Overlay) : Toc * Overlay :=
  let '(st, o) := s in
  if body then (st, mkOverlay (thresholdDebug o) (data o) (tail (lines o) ++ [threshold st])) else (st, o).

Definition no_body : exn := Exn "TypeError" "Cannot read properties of null (reading 'appendChild')" None None None None.

(** [updateThreshold] with the part that is skipped while the aid is off. Without a body the
    first table cannot be appended: the throw comes after [threshold] and before
    [lastKnownScrollPosition] is assigned. *)
Definition updateThreshold_watched (v : View) : M (Toc * Overlay) unit := fun '(st, o) =>
  let st' := updateThreshold v st in
  if thresholdDebug o then
    match data o, body with
    | None, false => (Throw no_body, (with_threshold st (threshold st'), o))
    | _, _ => (Ret tt, drawDebugLine (st', mkOverlay true (Some (debug_rows v st st')) (lines o)))
    end
  else (Ret tt, (st', o)).

Definition mdbookEnableThresholdDebug (v : View) : M (Toc * Overlay) unit :=
  modify (fun s => (fst s, mkOverlay true (data (snd s)) (lines (snd s))));;
  updateThreshold_watched v;;
  modify drawDebugLine.

Definition reloadCurrentHeader_watched (v : View) : M (Toc * Overlay) unit :=
  s ← get;
  if disableScroll (fst s) then mret tt
  else
    updateThreshold_watched v;;
    modify (fun s => (updateCurrentHeader v (fst s), snd s)).

(** The page's events, and the call from the console. *)
Inductive watched_event : Type := Ev (e : event) | Enable (v : View).

Definition on_watched_event (e : watched_event) : M (Toc * Overlay) unit :=
  match e with
  | Ev (Scrolled v) => reloadCurrentHeader_watched v
  | Ev e => modify (fun s => (on_event (fst s) e, snd s))
  | Enable v => mdbookEnableThresholdDebug v
  end.

Definition watched_run (es : list watched_event) (s : Toc * Overlay) : Toc * Overlay :=
  foldl (fun s e => snd (on_watched_event e s)) s es.
End watched.

(** The script without the aid; a call of the aid is an update of the threshold. *)
Definition unwatched (st : Toc) (e : watched_event) : Toc :=
  match e with Ev e => on_event st e | Enable v => updateThreshold v st end.

(** At most one line; one line and a table once the aid is on. *)
Definition overlay_ok (o : Overlay) : Prop :=
  if thresholdDebug o then length (lines o) = 1%nat /\ data o <> None else lines o = [] /\ data o = None.

(** One event, with a body: the script's own step, and the overlay in order. *)
Lemma watched_step e st o :
  overlay_ok o ->
  exists o', on_watched_event true e (st, o) = (Ret tt, (unwatched st e, o')) /\ overlay_ok o'
  /\ (thresholdDebug o' = match e with Enable _ => true | _ => thresholdDebug o end)
  /\ forall v, (e = Enable v \/ e = Ev (Scrolled v) /\ disableScroll st = false) -> thresholdDebug o' = true ->
     lines o' = [threshold (unwatched st e)] /\ data o' = Some (debug_rows v st (unwatched st e)).
Proof.
  intros Ho. unfold overlay_ok in Ho.
  assert (forall l : list Q, length l = 1%nat \/ l = [] -> tail l = []) as Htl by (intros [|x [|y l]]; cbn; [done|done|]; intros [?|?]; done).
  destruct e as [[v|href'|v| |li]|v]; cbn [on_watched_event unwatched on_event];
    try (exists o; split_and!; [done|done|done|]; naive_solver).
  - unfold reloadCurrentHeader_watched, reloadCurrentHeader, updateThreshold_watched. unfold_m. cbn [fst snd].
    destruct (disableScroll st) eqn:Ed; [exists o; split_and!; [done|done|done|]; naive_solver|].
    assert (forall s, threshold (updateCurrentHeader v s) = threshold s) as Hth by (intros s; unfold updateCurrentHeader; destruct (headers s); reflexivity).
    destruct (thresholdDebug o) eqn:Et.
    + destruct Ho as [Hl Hd]. destruct (data o) as [d|]; [|done]. cbn. rewrite Htl by (by left).
      eexists. split; [reflexivity|]. split; [by split|]. split; [done|].
      intros v' [[=]|[[= <-] _]] _. unfold debug_rows. by rewrite Hth.
    + exists o. split; [done|]. split_and!; [by unfold overlay_ok; rewrite Et|done|]. congruence.
  - unfold mdbookEnableThresholdDebug, updateThreshold_watched. unfold_m. cbn [fst snd thresholdDebug data lines].
    assert (tail (lines o) = []) as Hl by (apply Htl; destruct (thresholdDebug o); [left; apply Ho|right; apply Ho]).
    destruct (data o) as [d|]; cbn; rewrite Hl; cbn; (eexists; split; [reflexivity|]; split; [by split|]; split; [done|]);
      intros v' [[= <-]|[[=] _]] _; done.
Qed.

Definition is_enable (e : watched_event) : bool := match e with Enable _ => true | _ => false end.

Lemma watched_simulates es st o :
  overlay_ok o ->
  let s := watched_run true es (st, o) in
  fst s = foldl unwatched st es /\ overlay_ok (snd s) /\ thresholdDebug (snd s) = thresholdDebug o || existsb is_enable es.
Proof.
  revert st o. induction es as [|e es IH]; intros st o Ho; [by rewrite orb_false_r|].
  destruct (watched_step e st o Ho) as (o' & E & Ho' & Ht & _). cbn. rewrite E. cbn [snd].
  destruct (IH (unwatched st e) o' Ho') as (H1 & H2 & H3). split_and!; [done|done|]. unfold watched_run in H3. rewrite H3, Ht.
  destruct e; cbn; [done|by rewrite orb_true_r].
Qed.

(** The aid only watches. In every execution of a loaded page, with calls of the aid from the
    console anywhere, nothing throws and the script's own state is the one it has without the
    aid, a call counting as an update of the threshold; the aid is on exactly when it has been
    called; there is no line before and exactly one after; and whenever a scroll is handled
    with the aid on, the line stands at the new threshold and the table shows the numbers the
    threshold was computed from. *)
Theorem debug_aid_watches (st : Toc) (es : list watched_event) (v : View) :
  let s := watched_run true es (st, no_overlay) in
  fst s = foldl unwatched st es
  /\ overlay_ok (snd s) /\ thresholdDebug (snd s) = existsb is_enable es
  /\ (disableScroll (fst s) = false -> thresholdDebug (snd s) = true ->
      exists s', on_watched_event true (Ev (Scrolled v)) s = (Ret tt, s') /\ fst s' = reloadCurrentHeader v (fst s)
      /\ lines (snd s') = [threshold (fst s')] /\ data (snd s') = Some (debug_rows v (fst s) (fst s'))).
Proof.
  cbv zeta. destruct (watched_simulates es st no_overlay) as (H1 & H2 & H3); [done|]. split_and!; [done|done|done|].
  intros Hd Ht. destruct (watched_run true es (st, no_overlay)) as [st1 o1]. cbn [fst snd] in *.
  destruct (watched_step (Ev (Scrolled v)) st1 o1 H2) as (o' & E & _ & Ht' & Hv). exists (reloadCurrentHeader v st1, o').
  split; [exact E|]. split; [done|]. apply Hv; [by right|]. by rewrite Ht'.
Qed.

Example a_watched_scroll :
  let v := mkView 100 0 600 2000 (fun _ => 0%Q) (fun _ => None) in
  let s := watched_run true [Enable v; Ev (Scrolled v)] (initial [], no_overlay) in
  map Qred (lines (snd s)) = [150%Q]
  /\ nth 2 (default [] (data (snd s))) ("", []) = ("scrollTop"%string, latin1 "100.0").
Proof. by vm_compute. Qed.
