(* ===== verification/SidebarPage.v ===== *)
(** * The sidebar of a page, assembled

    The two halves of src/_site/book/toc-2d897c67.js on one page: the element that holds the
    list of chapters is connected first ([ChapterList]), and the handler of DOMContentLoaded
    then hangs the page's headings under the chapter it finds marked ([TocPage]). *)

From S2P Require Import Prelude Dom Toc TocPage ChapterList.

Section page.
Context (resolve : string -> string) (path_to_root location : string) (this sidebar : nat).

#[local] Abbreviation connected d := (mark_links resolve path_to_root location this d).

(** [document.querySelector('#mdbook-sidebar .active')], and the handler with it. *)
Definition sidebar_load (headings : list Heading) (d : dom) : option Toc :=
  load (first_active (connected d) sidebar) headings (initial (connected d)).

(** The page with the generated list: nodes numbered in the order of the text, every link of
    the list in a [span] of a list item, the list inside the sidebar, and none of the classes
    the scripts set. *)
Record generated (d : dom) : Prop := {
  ge_parents : forall n q, parent d n = Some q -> (q < n)%nat;
  ge_fresh : forall n, header_item d n = false /\ hasClass d n "header-in-summary" = false
                       /\ hasClass d n "current-header" = false /\ hasClass d n "active" = false;
  ge_this : exists l, order d this l /\ NoDup l;
  ge_sidebar : exists l, order d sidebar l /\ NoDup l /\ forall n, n ∈ links this d -> n ∈ l;
  ge_items : exists l, order d 0 l /\ NoDup l /\ forall n, n ∈ links this d ->
               exists span p, parent d n = Some span /\ parent d span = Some p /\ span ∈ kids d p /\ p ∈ l;
}.

Lemma connected_order d root l : generated d -> order d root l -> order (connected d) root l.
Proof.
  intros G Ho. destruct (ge_this _ G) as (lt & Hot & Hdt).
  destruct (mark_links_marked resolve path_to_root location this d (ge_parents _ G) lt Hot Hdt) as [T _ _].
  eapply (proj1 (order_frame d (connected d) ltac:(rewrite (st_length _ _ T); lia))); [done|]. intros m _. apply (st_kids _ _ T).
Qed.

(** Only the page's links are marked. *)
Lemma connected_active d n : generated d -> hasClass (connected d) n "active" = true <->
  exists i, links this d !! i = Some n /\ current resolve path_to_root location d i n = true.
Proof.
  intros G. destruct (ge_this _ G) as (lt & Hot & Hdt).
  destruct (mark_links_marked resolve path_to_root location this d (ge_parents _ G) lt Hot Hdt) as [_ _ C]. rewrite C.
  destruct (ge_fresh _ G n) as (_ & _ & _ & Hn). rewrite Hn. split.
  - intros [|(i & link & Hin & Hc & [[_ ->]|[[=] _]])]; [done|]. exists i. split; [|done].
    apply list_elem_of_lookup in Hin as [j Hj]. rewrite list_lookup_imap in Hj. destruct (links this d !! j) eqn:E; [|done].
    cbn in Hj. congruence.
  - intros (i & Hi & Hc). right. exists i, n. split_and!; [|done|by left]. apply list_elem_of_lookup. exists i.
    by rewrite list_lookup_imap, Hi.
Qed.

Lemma connected_page_ok d act : generated d -> act ∈ links this d -> page_ok (connected d) act.
Proof.
  intros G Hact. destruct (ge_this _ G) as (lt & Hot & Hdt). apply (marked_page_ok _ _ _ _ _ lt); [|done|done]. split.
  - destruct (ge_items _ G) as (l & Ho & Hd & Hi). exists l. split_and!; [done|done|]. by apply Hi.
  - apply G.
  - intros n. destruct (ge_fresh _ G n) as (? & ? & ? & _). by split_and!.
Qed.

(** C23. The sidebar of a page. Once the list of chapters is connected, the handler that adds the
    page's headings works on the chapter it marked: when no link of the list leads to the page
    nothing is marked and the handler leaves the page as it is; otherwise the chapter it takes
    is a link that leads to the page, every chapter above it is unfolded, and for a page with
    eligible headings the handler does not throw: the links it adds stand in document order,
    one for each heading and with its address, and going up from a heading's link one meets its
    own item and then exactly the items of the headings that enclose it. *)
Theorem sidebar_assembled (d : dom) (headings : list Heading) :
  generated d ->
  match first_active (connected d) sidebar with
  | None => (forall i n, links this d !! i = Some n -> current resolve path_to_root location d i n = false)
      /\ sidebar_load headings d = Some (initial (connected d))
  | Some act =>
      (exists i, links this d !! i = Some act /\ current resolve path_to_root location d i act = true)
      /\ (forall n, n ∈ ancestors d act -> chapter_item d n = true -> hasClass (connected d) n "expanded" = true)
      /\ (filter (fun h => eligible h = true) headings <> [] ->
          exists st lis, sidebar_load headings d = Some st
          /\ headers st = filter (fun h => eligible h = true) headings
          /\ length lis = length (headers st)
          /\ querySelectorAll (page st) 0 "header-in-summary" = map (fun li => li + 2)%nat lis
          /\ forall j h li, headers st !! j = Some h -> lis !! j = Some li ->
               page st !! (li + 2)%nat ≫= href = Some ("#" +:+ h_id h)
               /\ filter (fun m => header_item (page st) m = true) (climb (length (page st)) (page st) (li + 2))
                  = li :: enclosing (reverse (zip (take j (headers st)) (take j lis))) (level (h_tag h)))
  end.
Proof.
  intros G. destruct (ge_sidebar _ G) as (ls & Hos & Hds & Hin).
  pose proof (first_active_spec _ _ _ (connected_order _ _ _ G Hos) Hds) as Hfa. unfold sidebar_load.
  destruct (first_active (connected d) sidebar) as [act|] eqn:Ea.
  - destruct Hfa as [_ Hact]. apply (connected_active d act G) in Hact as (i & Hi & Hc). split_and!; [by exists i| |].
    + intros n Hn Hch. destruct (ge_this _ G) as (lt & Hot & Hdt).
      destruct (mark_links_marked resolve path_to_root location this d (ge_parents _ G) lt Hot Hdt) as [_ _ C].
      apply C. right. exists i, act. split_and!; [|done|by right]. apply list_elem_of_lookup. exists i. by rewrite list_lookup_imap, Hi.
    + intros Hne. pose proof (connected_page_ok d act G ltac:(by eapply list_elem_of_lookup_2)) as Hp.
      destruct (load_listed (connected d) act headings Hp Hne) as (st & lis & E & Hh & Hl & _).
      exists st, lis. split_and!; [done|done|apply Hl|by eapply listed_anchors|].
      intros j h li Hj Hli. split; [|by eapply listed_items].
      by destruct (ls_items _ _ _ Hl j h li Hj Hli) as [(_ & _ & ? & _) _].
  - split; [|done]. intros i n Hi. destruct (current resolve path_to_root location d i n) eqn:Hc; [|done].
    assert (hasClass (connected d) n "active" = true) as Ha by (apply connected_active; [done|by exists i]).
    rewrite Hfa in Ha; [done|]. apply Hin. by eapply list_elem_of_lookup_2.
Qed.
End page.

(** ** A page of the book *)

Lemma demo_document : order demo_sidebar 0 (seq 0 13).
Proof. apply order_node; [cbn; lia|]. apply orders_single. exact demo_order. Qed.

Lemma demo_links : links 1 demo_sidebar = [5; 8; 12]%nat.
Proof. by vm_compute. Qed.

Lemma demo_generated : generated 1 0 demo_sidebar.
Proof.
  split.
  - exact demo_parents.
  - intros n. do 13 (destruct n as [|n]; [by vm_compute|]). done.
  - exists (seq 1 12). split; [exact demo_order|apply NoDup_seq].
  - exists (seq 0 13). split_and!; [exact demo_document|apply NoDup_seq|]. intros n. rewrite demo_links. rewrite elem_of_seq. set_solver by lia.
  - exists (seq 0 13). split_and!; [exact demo_document|apply NoDup_seq|]. intros n. rewrite demo_links.
    intros [->|[->|[->|[]%elem_of_nil]%elem_of_cons]%elem_of_cons]%elem_of_cons.
    + exists 4%nat, 3%nat. split_and!; [done|done|cbn; set_solver|apply elem_of_seq; lia].
    + exists 7%nat, 6%nat. split_and!; [done|done|cbn; set_solver|apply elem_of_seq; lia].
    + exists 11%nat, 10%nat. split_and!; [done|done|cbn; set_solver|apply elem_of_seq; lia].
Qed.

Lemma demo_active : first_active (mark_links demo_resolve "../" demo_location 1 demo_sidebar) 0 = Some 12%nat.
Proof. by vm_compute. Qed.

Lemma demo_headings_eligible : filter (fun h => eligible h = true) demo_headings <> [].
Proof. by vm_compute. Qed.

Lemma sidebar_assembled_witness :
  exists st lis, sidebar_load demo_resolve "../" demo_location 1 0 demo_headings demo_sidebar = Some st
  /\ length lis = length (headers st)
  /\ querySelectorAll (page st) 0 "header-in-summary" = map (fun li => li + 2)%nat lis.
Proof.
  pose proof (sidebar_assembled demo_resolve "../" demo_location 1 0 demo_sidebar demo_headings demo_generated) as H.
  rewrite demo_active in H. destruct H as (_ & _ & H).
  destruct (H demo_headings_eligible) as (st & lis & E & _ & Hl & Hq & _). exists st, lis. exact (conj E (conj Hl Hq)).
Defined.
