(* ===== verification/MarkFade.v ===== *)
(** * The highlighted words of a page (src/_site/book/searcher-c2a407aa.js)

    An address with the parameter [highlight] makes the search script highlight its words: the
    marker wraps them in [mark] elements, and a click on any [mark] of the page fades all of
    them and starts the timers that take the highlighting away. [SearchPage] has the words
    only; this file adds the elements, their listeners and the timers, and shows that the page
    behaves as before and that a highlight that fades is always about to be removed.

    The marker is the vendored mark.js: how many elements it makes for the words is the
    parameter [wraps], and [unmark] removes the elements it made, as its documentation says. *)

From S2P Require Import Prelude Search Url SearchPage.

(** A [mark] of the page's own text, or one the marker made; a removed element does not come
    back, so the made ones are numbered as they appear. *)
Inductive elem : Type := Own (i : nat) | Made (n : nat).

#[export] Instance elem_eq_dec : EqDecision elem.
Proof. solve_decision. Defined.

Record Marks : Type := mkMarks {
  content : list nat;        (** the elements the marker made that are in the page *)
  fresh : nat;               (** the number of the next one *)
  faded : list elem;         (** the elements with the class [fade-out] *)
  hides : list (list elem);  (** the closures [hide], each by its [markers], oldest first *)
  timers : nat;              (** the outstanding timers *)
}.

Definition no_marks : Marks := mkMarks [] 0 [] [] 0.

Section fade.
Context (toLowerCase stemmer : text -> text) (select_focuses : bool).
Context (index_search : text -> list Result) (doc_urls : list text).
Context (teaser_word_count limit_results : nat) (path_to_root : text).
(** The [mark] elements of the page's own text, and the elements the marker makes. *)
Context (own : nat) (wraps : list text -> list nat -> nat).

#[local] Abbreviation handler e :=
  (on_event toLowerCase stemmer select_focuses index_search doc_urls teaser_word_count limit_results path_to_root e).
#[local] Abbreviation from_url :=
  (doSearchOrMarkFromUrl toLowerCase stemmer index_search doc_urls teaser_word_count limit_results path_to_root).
#[local] Abbreviation key_up :=
  (searchbarKeyUpHandler toLowerCase stemmer index_search doc_urls teaser_word_count limit_results path_to_root).

(** [document.querySelectorAll('mark')], up to the order of the elements. *)
Definition all_marks (m : Marks) : list elem := map Made (content m) ++ map Own (seq 0 own).

(** [marker.mark], then a listener with a [hide] of its own on every [mark]. *)
Definition mark_words (words : list text) (m : Marks) : Marks :=
  let made := seq (fresh m) (wraps words (content m)) in
  let m := mkMarks (content m ++ made) (fresh m + length made) (faded m) (hides m) (timers m) in
  mkMarks (content m) (fresh m) (faded m) (hides m ++ [all_marks m]) (timers m).

(** [marker.unmark]. *)
Definition unmark_all (m : Marks) : Marks := mkMarks [] (fresh m) (faded m) (hides m) (timers m).

(** A [hide]: the class on each of its elements, and a timer for each. *)
Definition hide (markers : list elem) (m : Marks) : Marks :=
  mkMarks (content m) (fresh m) (faded m ++ markers) (hides m) (timers m + length markers).

(** The listeners of an element, in the order they were added. *)
Definition on_mark_click (e : elem) (m : Marks) : Marks :=
  if decide (e ∈ all_marks m) then
    foldl (fun m markers => if decide (e ∈ markers) then hide markers m else m) m (hides m)
  else m.

(** A handler of the page: the ones that leave no words highlighted have called [unmark]. *)
Definition lifted {A : Type} (c : M Page A) : M (Page * Marks) A := fun '(p, m) =>
  let '(r, p') := c p in (r, (p', match marks p' with Some _ => m | None => unmark_all m end)).

Definition search_from_url (ps : list (text * option text)) : M Page unit :=
  match get_own URL_SEARCH_PARAM ps with
  | Some v =>
      if decide (v <> Some []) then
        showSearch true;;
        t ← decoded (plus_to_space (default (txt "undefined") v));
        modify (set_value t);;
        key_up
      else showSearch false
  | None => showSearch false
  end.

Definition mark_from_url (ps : list (text * option text)) : M (Page * Marks) unit :=
  match get_own URL_MARK_PARAM ps with
  | Some v =>
      t ← lifted (decoded (default (txt "undefined") v));
      let words := split (txt " ") t in
      modify (fun '(p, m) => (set_marks (Some words) p, mark_words words m))
  | None => mret tt
  end.

Definition from_url_marked : M (Page * Marks) unit :=
  s ← get;
  let ps := u_params (parseURL (location (fst s))) in
  lifted (search_from_url ps);;
  mark_from_url ps.

(** The page's events, with the timers and the clicks on a [mark]. *)
Inductive mark_event : Type := Ev (e : event) | Clicked (e : elem).

Definition on_mark_event (e : mark_event) : M (Page * Marks) unit :=
  s ← get;
  match e with
  | Clicked e => modify (fun '(p, m) => (p, on_mark_click e m))
  | Ev WentBack =>
      match history (fst s) with
      | [] => mret tt
      | l :: h => lifted (modify (set_location l h));; from_url_marked
      end
  | Ev MarksHidden =>
      match timers (snd s) with
      | 0%nat => mret tt
      | S n =>
          modify (fun '(p, m) => (p, mkMarks (content m) (fresh m) (faded m) (hides m) n));;
          lifted unmark_words
      end
  | Ev e => lifted (handler e)
  end.

(** ** The page behaves as without the elements *)

Definition same_page {A : Type} (c : M Page A) (c' : M (Page * Marks) A) : Prop :=
  forall p m, exists m', c' (p, m) = ((c p).1, ((c p).2, m')).

Lemma lifted_same {A : Type} (c : M Page A) : same_page c (lifted c).
Proof. intros p m. unfold lifted. destruct (c p) as [r p']. by eexists. Qed.

Lemma same_bind {A B : Type} (c : M Page A) c' (f : A -> M Page B) f' :
  same_page c c' -> (forall x, same_page (f x) (f' x)) -> same_page (x ← c; f x) (x ← c'; f' x).
Proof.
  intros Hc Hf p m. destruct (Hc p m) as [m1 E]. unfold_m. rewrite E. destruct (c p) as [[x|e] p1]; cbn; [apply Hf|by eexists].
Qed.

Lemma mark_from_url_same ps :
  same_page (match get_own URL_MARK_PARAM ps with
             | Some v => t ← decoded (default (txt "undefined") v); modify (set_marks (Some (split (txt " ") t)))
             | None => mret tt
             end) (mark_from_url ps).
Proof.
  unfold mark_from_url. destruct (get_own _ _) as [v|]; [|by eexists].
  apply same_bind; [apply lifted_same|]. intros t p m. by eexists.
Qed.

Lemma from_url_same : same_page from_url from_url_marked.
Proof.
  intros p m. set (ps := u_params (parseURL (location p))).
  destruct (same_bind (search_from_url ps) (lifted (search_from_url ps)) _ _ (lifted_same _) (fun _ => mark_from_url_same ps) p m)
    as [m' E]. exists m'. exact E.
Qed.

Lemma event_same e : e <> MarksHidden -> same_page (handler e) (on_mark_event (Ev e)).
Proof.
  intros He p m.
  destruct e; try done; try apply (lifted_same (handler _)).
  change (on_mark_event (Ev WentBack) (p, m)) with
    (match history p with [] => mret tt | l :: h => lifted (modify (set_location l h));; from_url_marked end (p, m)).
  change (handler WentBack p) with (match history p with [] => mret tt | l :: h => modify (set_location l h);; from_url end p).
  destruct (history p) as [|l h]; [by eexists|].
  exact (same_bind (modify (set_location l h)) _ (fun _ => from_url) _ (lifted_same _) (fun _ => from_url_same) p m).
Qed.

(** ** The elements, their listeners and the timers *)

(** The listeners of an element run together. *)
Lemma hides_run e (l : list (list elem)) m :
  let hidden := concat (filter (fun markers => e ∈ markers) l) in
  foldl (fun m markers => if decide (e ∈ markers) then hide markers m else m) m l
  = mkMarks (content m) (fresh m) (faded m ++ hidden) (hides m) (timers m + length hidden).
Proof.
  revert m. induction l as [|a l IH]; intros m; cbn [foldl].
  { cbn. rewrite app_nil_r, Nat.add_0_r. by destruct m. }
  rewrite IH, list.filter_cons. destruct (decide (e ∈ a)); [|done]. cbn.
  by rewrite <- app_assoc, length_app, Nat.add_assoc.
Qed.

(** The newest listener knows every [mark] of the page; only elements that were made are known;
    and a highlight that fades has a timer. *)
Record marks_ok (p : Page) (m : Marks) : Prop := {
  mo_words : marks p = None -> content m = [];
  mo_newest : content m = [] \/ exists l, hides m = l ++ [all_marks m];
  mo_fresh : forall n, n ∈ content m \/ Made n ∈ faded m ++ concat (hides m) -> (n < fresh m)%nat;
  mo_timer : forall n, n ∈ content m -> Made n ∈ faded m -> (0 < timers m)%nat;
}.

Lemma lifted_ok {A : Type} (c : M Page A) p m r p' m' :
  marks_ok p m -> lifted c (p, m) = (r, (p', m')) -> marks_ok p' m'.
Proof.
  intros [_ Hn Hf Ht]. unfold lifted. destruct (c p) as [r1 p1]. destruct (marks p1) eqn:E; intros [= <- <- <-].
  - constructor; [congruence|done..].
  - constructor; [done|by left| |by intros n ?%elem_of_nil]. intros n [?%elem_of_nil|H]; [done|]. apply Hf. by right.
Qed.

Lemma made_in_all m n : Made n ∈ all_marks m <-> n ∈ content m.
Proof.
  unfold all_marks. rewrite elem_of_app, !list_elem_of_fmap. split; [|naive_solver].
  by intros [(? & [= ->] & ?)|(? & ? & ?)].
Qed.

Lemma mark_words_ok words p m : marks_ok p m -> marks_ok (set_marks (Some words) p) (mark_words words m).
Proof.
  intros [_ _ Hf Ht]. constructor; unfold mark_words; cbn [content fresh faded hides timers].
  - done.
  - right. by eexists.
  - intros n. rewrite concat_app. cbn [concat]. rewrite app_nil_r, app_assoc, length_seq, !elem_of_app, made_in_all. cbn [content].
    rewrite !elem_of_app, elem_of_seq. intros H. assert ((n < fresh m)%nat \/ (fresh m <= n < fresh m + wraps words (content m))%nat) as [?|?]; [|lia..].
    destruct H as [[H|H]|[H|[H|H]]]; [left; apply Hf; by left|by right|left; apply Hf; right; by apply elem_of_app|left; apply Hf; by left|by right].
  - intros n. rewrite elem_of_app, elem_of_seq. intros [H|[H _]] Hfa; [by eapply Ht|].
    specialize (Hf n (or_intror (proj2 (elem_of_app _ _ _) (or_introl Hfa)))). lia.
Qed.

Lemma from_url_ok p m r p' m' : marks_ok p m -> from_url_marked (p, m) = (r, (p', m')) -> marks_ok p' m'.
Proof.
  intros Hok. unfold from_url_marked, mark_from_url. unfold_m. cbn [fst].
  set (ps := u_params (parseURL (location p))).
  destruct (lifted (search_from_url ps) (p, m)) as [[[]|e] [p1 m1]] eqn:E1; pose proof (lifted_ok _ _ _ _ _ _ Hok E1) as Hok1;
    [|by intros [= _ <- <-]].
  destruct (get_own URL_MARK_PARAM ps) as [v|]; [|by intros [= _ <- <-]].
  destruct (lifted (decoded _) (p1, m1)) as [[t|e] [p2 m2]] eqn:E2; pose proof (lifted_ok _ _ _ _ _ _ Hok1 E2) as Hok2;
    intros [= _ <- <-]; [by apply mark_words_ok|done].
Qed.

Lemma click_ok e p m : marks_ok p m -> marks_ok p (on_mark_click e m).
Proof.
  intros [Hw Hn Hf Ht]. unfold on_mark_click. destruct (decide (e ∈ all_marks m)); [|done]. rewrite hides_run.
  set (hidden := concat _). assert (forall x, x ∈ hidden -> x ∈ concat (hides m)) as Hsub.
  { intros x. unfold hidden. rewrite !list_elem_of_In, !in_concat. intros (l & Hl & Hx). exists l. split; [|done].
    apply list_elem_of_In in Hl. apply list_elem_of_filter in Hl as [_ Hl]. by apply list_elem_of_In. }
  constructor; cbn; [done|done| |].
  - intros n H. apply Hf. rewrite !elem_of_app in H |- *. destruct H as [H|[[H|H]%elem_of_app|H]]; [by left|right; by left|right; right; by apply Hsub|right; by right].
  - intros n Hc. rewrite elem_of_app. intros [H|H]; [specialize (Ht n Hc H); lia|].
    destruct hidden; [by apply elem_of_nil in H|cbn; lia].
Qed.

Lemma event_ok e p m r p' m' : marks_ok p m -> on_mark_event e (p, m) = (r, (p', m')) -> marks_ok p' m'.
Proof.
  intros Hok. destruct e as [e|e]; [destruct e|]; try apply (lifted_ok (handler _) _ _ _ _ _ Hok).
  - unfold on_mark_event. unfold_m. cbn [fst]. destruct (history p) as [|l h]; [by intros [= _ <- <-]|].
    destruct (lifted _ (p, m)) as [[[]|e1] [p1 m1]] eqn:E1; pose proof (lifted_ok _ _ _ _ _ _ Hok E1) as Hok1;
      [by apply from_url_ok|by intros [= _ <- <-]].
  - unfold on_mark_event. unfold_m. cbn. destruct (timers m); intros [= _ <- <-]; [done|]. destruct Hok as [_ _ Hf _].
    constructor; cbn; [done|by left| |by intros n' ?%elem_of_nil]. intros n' [?%elem_of_nil|H]; [done|]. apply Hf. by right.
  - intros [= _ <- <-]. by apply click_ok.
Qed.

Inductive mark_run : Page -> Marks -> Prop :=
| mr_load l r p m : from_url_marked (initial_page l, no_marks) = (r, (p, m)) -> mark_run p m
| mr_event p m e r p' m' : mark_run p m -> on_mark_event e (p, m) = (r, (p', m')) -> mark_run p' m'.

Lemma mark_run_ok p m : mark_run p m -> marks_ok p m.
Proof.
  induction 1 as [l r p m E|p m e r p' m' _ IH E]; [|by eapply event_ok].
  eapply from_url_ok; [|exact E]. constructor; cbn; [done|by left|by intros n [?%elem_of_nil|?%elem_of_nil]|by intros n ?%elem_of_nil].
Qed.

(** A click on a highlight reaches every [mark] of the page. *)
Lemma click_fades_all p m n : marks_ok p m -> n ∈ content m ->
  let m' := on_mark_click (Made n) m in
  content m' = content m /\ (forall e, e ∈ all_marks m -> e ∈ faded m') /\ (0 < timers m')%nat.
Proof.
  intros [_ Hn _ _] Hc. cbv zeta. destruct Hn as [Hn|Hn]; [rewrite Hn in Hc; by apply elem_of_nil in Hc|].
  assert (Made n ∈ all_marks m) as Ha by (by apply made_in_all).
  unfold on_mark_click. rewrite decide_True by done. rewrite hides_run. cbn.
  assert (forall e, e ∈ all_marks m -> e ∈ concat (filter (fun markers => Made n ∈ markers) (hides m))) as Hall.
  { intros e He. apply list_elem_of_In, in_concat. exists (all_marks m). split; [|by apply list_elem_of_In].
    apply list_elem_of_In, list_elem_of_filter. split; [done|]. destruct Hn as [l ->]. set_solver. }
  split_and!; [done|intros e He; apply elem_of_app; right; by apply Hall|].
  specialize (Hall _ Ha). destruct (concat _); [by apply elem_of_nil in Hall|cbn; lia].
Qed.

(** A highlight that fades goes away. In every execution of the page, whatever its handlers
    return or throw, there are highlighted elements only while there are words to highlight,
    and a highlighted element with the class [fade-out] has a timer outstanding. A click on a
    highlight changes nothing else of the page, puts the class on every [mark] there is, and
    starts a timer; the first timer that ends removes all the highlighting, while the [mark]
    elements of the page's own text, which faded too, keep the class. Every other event does to
    the page what it does in [SearchPage]. *)
Theorem highlights_fade_out (p : Page) (m : Marks) :
  mark_run p m ->
  (marks p = None -> content m = [])
  /\ (forall n, n ∈ content m -> Made n ∈ faded m -> (0 < timers m)%nat)
  /\ (forall n, n ∈ content m ->
      exists m' m'', on_mark_event (Clicked (Made n)) (p, m) = (Ret tt, (p, m'))
      /\ (forall e, e ∈ all_marks m' -> e ∈ faded m')
      /\ on_mark_event (Ev MarksHidden) (p, m') = (Ret tt, (set_marks None p, m''))
      /\ content m'' = [] /\ forall i, (i < own)%nat -> Own i ∈ faded m'')
  /\ (forall e, e <> MarksHidden -> same_page (handler e) (on_mark_event (Ev e))).
Proof.
  intros Hok%mark_run_ok. split_and!; [apply Hok|apply Hok| |apply event_same].
  intros n Hn. destruct (click_fades_all p m n Hok Hn) as (Hc & Hf & Ht).
  assert (all_marks (on_mark_click (Made n) m) = all_marks m) as Ha by (unfold all_marks; by rewrite Hc).
  destruct (timers (on_mark_click (Made n) m)) as [|k] eqn:Ek; [lia|].
  eexists _, (mkMarks [] (fresh (on_mark_click (Made n) m)) (faded (on_mark_click (Made n) m)) (hides (on_mark_click (Made n) m)) k).
  split_and!; [reflexivity|by rewrite Ha| |done|].
  - unfold on_mark_event. unfold_m. cbn [snd]. by rewrite Ek.
  - intros i Hi. cbn. apply Hf. apply elem_of_app. right. apply list_elem_of_fmap. exists i. split; [done|]. apply elem_of_seq. lia.
Qed.
End fade.

(** A page with two highlighted words and a [mark] of its own: a click on the second word fades
    all three and starts three timers; the first of them removes the highlighting. *)
Example a_clicked_highlight :
  let load := from_url_marked (fun s => s) (fun s => s) demo_index demo_urls 30 30 [] 1 (fun _ _ => 2%nat) in
  let on := on_mark_event (fun s => s) (fun s => s) true demo_index demo_urls 30 30 [] 1 (fun _ _ => 2%nat) in
  let s0 := (load (initial_page demo_location, no_marks)).2 in
  let s1 := (on (Clicked (Made 1)) s0).2 in
  let s2 := (on (Ev MarksHidden) s1).2 in
  content s0.2 = [0; 1]%nat /\ faded s0.2 = []
  /\ faded s1.2 = [Made 0; Made 1; Own 0] /\ timers s1.2 = 3%nat
  /\ content s2.2 = [] /\ marks s2.1 = None /\ timers s2.2 = 2%nat.
Proof. by vm_compute. Qed.
